(** * Neon Survivors 3D: the simulation core of [src/main.js]

    A shallow embedding of the gameplay classes of [src/main.js] (Time,
    InputManager, Weapon, Projectile, ExperienceGem, the two skills, Player,
    Enemy, Boss, WaveManager, EnemySpawner and GameManager), of the particles,
    the floating texts, the camera controller and the displays of UIManager,
    with the properties of the specification that concern them and further
    properties of the code.

    Conventions of the embedding.
    - A JavaScript number is a rational ([Q]); [Math.floor] is [Qfloor].
      Rounding of IEEE doubles is not modelled.  Numeric results are compared
      with [==] ([Qeq]), since [Q] does not keep fractions reduced.
    - [Math.sqrt], [Math.cos], [Math.sin], [Math.PI] and [Math.random] are
      fields of a [Host] record that every function using them receives; the
      k-th call of [Math.random] in a run is [Math_random H k], and the game
      state counts the calls.  The results proved below hold for every host.
    - Each class is a [Module] holding a record [t] for its fields and one
      definition per method, with the method's name.  A method that mutates
      its receiver returns the new receiver; a method with a result returns a
      pair.
    - The arrays shared by reference in the source ([GameManager.projectiles]
      is also [Player.projectiles]; [EnemySpawner.enemies] is also
      [Player.enemies]) are stored once, in the owner, and handed to the
      methods that read them.
    - Object identity of an enemy (used by [indexOf] and as a [Map] key) is a
      field [id], drawn from a counter of the spawner.
    - Fields and calls that only feed the renderer (meshes, materials,
      colours, the lightning bolt geometry, the sounds) are left out, and so
      is the option list of the level-up menu.  In [GameManager], calls to
      the sound, floating text, particle and screen collaborators are
      recorded in an event list, together with a marker at the start of each
      collision pass.  The particles, the floating texts, the camera
      controller and the texts and bars of the HUD are modelled on their own,
      outside the state of [GameManager]; the random draws of the particles
      are not counted in the game's.
    - A key name and the text of the timer are strings of 8-bit characters.
    - No rational is the square root of 2, so no host computes every length
      exactly.  The properties of the player's movement and of the pursuit by
      the enemies are stated on the methods for every host, in terms of the
      length the host computes, and then for the inputs at which the host's
      square root is exact ([exactSqrtAt]). *)

From Stdlib Require Import QArith Qround Qminmax Qabs ZArith List Bool Lia.
From Stdlib Require Import Lqa Qpower Permutation.
From Stdlib Require String Ascii DecimalString.
Import ListNotations.

Local Open Scope Q_scope.

(** ** JavaScript comparisons on numbers *)

Definition Qleb (x y : Q) : bool := Qle_bool x y.
Definition Qltb (x y : Q) : bool := negb (Qle_bool y x).
Definition Qgeb (x y : Q) : bool := Qle_bool y x.
Definition Qgtb (x y : Q) : bool := negb (Qle_bool x y).

Infix "<=?" := Qleb (at level 70, no associativity) : Q_scope.
Infix "<?" := Qltb (at level 70, no associativity) : Q_scope.
Infix ">=?" := Qgeb (at level 70, no associativity) : Q_scope.
Infix ">?" := Qgtb (at level 70, no associativity) : Q_scope.

(** [Math.floor], with the result as a number again. *)
Definition Math_floor (x : Q) : Q := inject_Z (Qfloor x).

(** [Math.trunc], as an integer. *)
Definition trunc (x : Q) : Z := if 0 <=? x then Qfloor x else Qceiling x.

(** The remainder [a % n] of JavaScript numbers: it has the sign of [a]. *)
Definition js_rem (a n : Q) : Q := a - n * inject_Z (trunc (a / n)).

(** ** The host: [Math] functions that are not rational *)

Record Host := {
  Math_sqrt : Q -> Q;
  Math_cos : Q -> Q;
  Math_sin : Q -> Q;
  Math_PI : Q;
  Math_random : nat -> Q
}.

(** A host to run examples on.  Its square root is exact on squares of
    rationals (and rounds down elsewhere), its cosine and sine are exact at 0
    (short Taylor sums elsewhere) and every random draw is 0.  The results
    are reduced fractions, which keeps the numbers of a run small. *)
Definition sqrt_floor (q : Q) : Q :=
  Z.sqrt (Qnum q * Zpos (Qden q)) # Qden q.

Definition exampleHost : Host := {|
  Math_sqrt := fun q => Qred (sqrt_floor q);
  Math_cos := fun a => Qred (1 - a * a / 2 + a * a * a * a / 24);
  Math_sin := fun a => Qred (a - a * a * a / 6);
  Math_PI := 355 # 113;
  Math_random := fun _ => 0
|}.

(** ** THREE.Vector3 *)

Module Vector3.

Record t := mk { x : Q; y : Q; z : Q }.

Definition zero : t := mk 0 0 0.

Definition set_y (v : t) (y' : Q) : t := mk (x v) y' (z v).

Definition subVectors (a b : t) : t :=
  mk (x a - x b) (y a - y b) (z a - z b).

Definition multiplyScalar (v : t) (s : Q) : t :=
  mk (x v * s) (y v * s) (z v * s).

Definition divideScalar (v : t) (s : Q) : t := multiplyScalar v (1 / s).

Definition lengthSq (v : t) : Q := x v * x v + y v * y v + z v * z v.

Definition length (H : Host) (v : t) : Q := Math_sqrt H (lengthSq v).

(** [normalize() { return this.divideScalar(this.length() || 1) }] *)
Definition normalize (H : Host) (v : t) : t :=
  let l := length H v in
  divideScalar v (if Qeq_bool l 0 then 1 else l).

Definition distanceToSquared (a b : t) : Q :=
  let dx := x a - x b in
  let dy := y a - y b in
  let dz := z a - z b in
  dx * dx + dy * dy + dz * dz.

Definition distanceTo (H : Host) (a b : t) : Q :=
  Math_sqrt H (distanceToSquared a b).

Definition add (a b : t) : t := mk (x a + x b) (y a + y b) (z a + z b).

(** [lerp(v, alpha) { this.x += (v.x - this.x) * alpha; ... }] *)
Definition lerp (a v : t) (alpha : Q) : t :=
  mk (x a + (x v - x a) * alpha) (y a + (y v - y a) * alpha)
     (z a + (z v - z a) * alpha).

End Vector3.

(** ** Events sent to the collaborators, and pass markers *)

Inductive Cue :=
| cue_shoot | cue_hit | cue_explosion | cue_levelUp
| cue_gameOver | cue_bossAlert | cue_victory.

Inductive CollisionPass :=
| PlayerEnemyContact | PlayerBossContact
| ProjectileEnemy | ProjectileBoss | PlayerGem.

Inductive Event :=
| PlaySound (c : Cue)
| FloatingText (amount : Q)
| SpawnExplosion
| ShowLevelUpMenu
| ShowGameOver
| ShowVictory
| ShowWarning
| ShowBossBar
| HideBossBar
| EnterPass (p : CollisionPass).

Definition CollisionPass_eqb (a b : CollisionPass) : bool :=
  match a, b with
  | PlayerEnemyContact, PlayerEnemyContact
  | PlayerBossContact, PlayerBossContact
  | ProjectileEnemy, ProjectileEnemy
  | ProjectileBoss, ProjectileBoss
  | PlayerGem, PlayerGem => true
  | _, _ => false
  end.

(** The collision passes entered, in order, in a list of events. *)
Fixpoint passesOf (evs : list Event) : list CollisionPass :=
  match evs with
  | [] => []
  | EnterPass p :: r => p :: passesOf r
  | _ :: r => passesOf r
  end.

(** ** ExperienceGem *)

Module ExperienceGem.

Record t := mk {
  position : Vector3.t;
  xpValue : Q;
  isCollected : bool;
  magnetRange : Q;
  magnetSpeed : Q;
  floatOffset : Q
}.

(** [new ExperienceGem(scene)]; [r] is the constructor's [Math.random()]. *)
Definition new (H : Host) (r : Q) : t :=
  mk Vector3.zero 10 false 3 15 (r * Math_PI H * 2).

Definition set_xpValue (g : t) (v : Q) : t :=
  mk (position g) v (isCollected g) (magnetRange g) (magnetSpeed g)
     (floatOffset g).

Definition start (g : t) (pos : Vector3.t) : t :=
  mk (Vector3.set_y pos 0.3) (xpValue g) (isCollected g) (magnetRange g)
     (magnetSpeed g) (floatOffset g).

Definition update (H : Host) (dt : Q) (playerPos : Vector3.t) (g : t) : t :=
  if isCollected g then g
  else
    let fo := floatOffset g + dt * 3 in
    let pos := Vector3.set_y (position g) (0.3 + Math_sin H fo * 0.1) in
    let dist := Vector3.distanceTo H pos playerPos in
    let pos' :=
      if dist <? magnetRange g then
        let dir := Vector3.normalize H (Vector3.subVectors playerPos pos) in
        let speed := magnetSpeed g * (1 + (1 - dist / magnetRange g) * 2) in
        Vector3.mk (Vector3.x pos + Vector3.x dir * speed * dt)
                   (Vector3.y pos)
                   (Vector3.z pos + Vector3.z dir * speed * dt)
      else pos in
    mk pos' (xpValue g) (isCollected g) (magnetRange g) (magnetSpeed g) fo.

Definition getPosition (g : t) : Vector3.t := position g.

Definition collect (g : t) : t :=
  mk (position g) (xpValue g) true (magnetRange g) (magnetSpeed g)
     (floatOffset g).

End ExperienceGem.

(** ** Projectile *)

Module Projectile.

Record t := mk {
  position : Vector3.t;
  speed : Q;
  direction : Vector3.t;
  lifetime : Q;
  age : Q;
  isDestroyed : bool;
  damage : Q
}.

(** [new Projectile(scene, damage, color)] *)
Definition new (damage : Q) : t :=
  mk Vector3.zero 25 Vector3.zero 2 0 false damage.

Definition start (H : Host) (p : t) (pos dir : Vector3.t) : t :=
  mk (Vector3.set_y pos 1) (speed p)
     (Vector3.set_y (Vector3.normalize H dir) 0)
     (lifetime p) (age p) (isDestroyed p) (damage p).

Definition update (dt : Q) (p : t) : t :=
  if isDestroyed p then p
  else
    let pos := Vector3.mk
      (Vector3.x (position p) + Vector3.x (direction p) * speed p * dt)
      (Vector3.y (position p))
      (Vector3.z (position p) + Vector3.z (direction p) * speed p * dt) in
    let age' := age p + dt in
    mk pos (speed p) (direction p) (lifetime p) age'
       (if age' >=? lifetime p then true else isDestroyed p) (damage p).

Definition getPosition (p : t) : Vector3.t := position p.
Definition getDamage (p : t) : Q := damage p.

Definition destroy (p : t) : t :=
  mk (position p) (speed p) (direction p) (lifetime p) (age p) true
     (damage p).

End Projectile.

(** ** Weapon *)

Inductive WeaponType := pistol | shotgun.

Module Weapon.

Record t := mk {
  type : WeaponType;
  level : Z;
  damage : Q;
  fireRate : Q;
  range : Q;
  projectileCount : Z;
  spreadAngle : Q
}.

(** [new Weapon(type)] *)
Definition new (H : Host) (ty : WeaponType) : t :=
  match ty with
  | pistol => mk pistol 1 1 0.5 15 1 0
  | shotgun => mk shotgun 1 1.5 1.2 8 3 (Math_PI H / 8)
  end.

Definition upgrade (w : t) : t :=
  let level' := (level w + 1)%Z in
  match type w with
  | pistol =>
      mk (type w) level' (damage w * 1.1) (fireRate w * 0.85) (range w)
         (projectileCount w) (spreadAngle w)
  | shotgun =>
      if (level' mod 2 =? 0)%Z then
        mk (type w) level' (damage w) (fireRate w) (range w)
           (projectileCount w + 1)%Z (spreadAngle w)
      else
        mk (type w) level' (damage w * 1.2) (fireRate w) (range w)
           (projectileCount w) (spreadAngle w)
  end.

Definition rotateY (H : Host) (v : Vector3.t) (angle : Q) : Vector3.t :=
  let c := Math_cos H angle in
  let s := Math_sin H angle in
  Vector3.mk (Vector3.x v * c - Vector3.z v * s)
             (Vector3.y v)
             (Vector3.x v * s + Vector3.z v * c).

(** [fire(scene, playerPos, targetPos, projectiles)]: the projectiles
    pushed, in the order they are pushed. *)
Definition fire (H : Host) (w : t) (playerPos targetPos : Vector3.t)
  : list Projectile.t :=
  let baseDir :=
    Vector3.normalize H
      (Vector3.set_y (Vector3.subVectors targetPos playerPos) 0) in
  if (projectileCount w =? 1)%Z then
    [Projectile.start H (Projectile.new (damage w)) playerPos baseDir]
  else
    let half :=
      spreadAngle w * (inject_Z (projectileCount w) - 1) / 2 in
    map (fun i : nat =>
           let angle := - half + spreadAngle w * inject_Z (Z.of_nat i) in
           Projectile.start H (Projectile.new (damage w)) playerPos
             (rotateY H baseDir angle))
        (seq 0 (Z.to_nat (projectileCount w))).

End Weapon.

(** ** WaveManager *)

Module WaveManager.

Record t := mk { gameTime : Q; healthMult : Q; spawnMult : Q }.

Definition new : t := mk 0 1 1.

Definition update (dt : Q) (w : t) : t :=
  let gameTime' := gameTime w + dt in
  mk gameTime'
     (1 + Math_floor (gameTime' / 60) * 0.5)
     (Qmax 0.3 (1 - Math_floor (gameTime' / 30) * 0.1)).

Definition getGameTime (w : t) : Q := gameTime w.
Definition getHealthMult (w : t) : Q := healthMult w.
Definition getSpawnMult (w : t) : Q := spawnMult w.

End WaveManager.

(** ** Enemy *)

Inductive EnemyType := normal | runner | tank.

Record EnemyConfig := {
  cfg_scale : Q;
  cfg_speed : Q;
  cfg_health : Q;
  cfg_contactDamage : Q;
  cfg_xpValue : Q;
  cfg_weight : Q
}.

Definition ENEMY_TYPES (ty : EnemyType) : EnemyConfig :=
  match ty with
  | normal => Build_EnemyConfig 1 3 3 10 10 70
  | runner => Build_EnemyConfig 0.7 6 1 5 8 20
  | tank => Build_EnemyConfig 1.5 1.5 10 20 25 10
  end.

(** The order of [Object.entries(ENEMY_TYPES)]. *)
Definition ENEMY_TYPE_keys : list EnemyType := [normal; runner; tank].

Module Enemy.

Record t := mk {
  id : nat;
  type : EnemyType;
  position : Vector3.t;
  direction : Vector3.t;
  isDestroyed : bool;
  scale : Q;
  speed : Q;
  maxHealth : Q;
  health : Q;
  contactDamage : Q;
  xpValue : Q;
  isFlashing : bool;
  flashTimer : Q;
  flashDuration : Q
}.

(** [new Enemy(scene, target, type)]; [i] is the identity of the object. *)
Definition new (i : nat) (ty : EnemyType) : t :=
  let cfg := ENEMY_TYPES ty in
  mk i ty Vector3.zero Vector3.zero false (cfg_scale cfg) (cfg_speed cfg)
     (cfg_health cfg) (cfg_health cfg) (cfg_contactDamage cfg)
     (cfg_xpValue cfg) false 0 0.1.

Definition set_position (e : t) (pos : Vector3.t) : t :=
  mk (id e) (type e) pos (direction e) (isDestroyed e) (scale e) (speed e)
     (maxHealth e) (health e) (contactDamage e) (xpValue e) (isFlashing e)
     (flashTimer e) (flashDuration e).

Definition start (e : t) (pos : Vector3.t) (healthMult : Q) : t :=
  let maxHealth' := Math_floor (maxHealth e * healthMult) in
  mk (id e) (type e) (Vector3.set_y pos (scale e / 2)) (direction e)
     (isDestroyed e) (scale e) (speed e) maxHealth' maxHealth'
     (contactDamage e) (xpValue e) (isFlashing e) (flashTimer e)
     (flashDuration e).

(** [update(dt)]; [targetPos] is [this.target.getPosition()]. *)
Definition update (H : Host) (dt : Q) (targetPos : Vector3.t) (e : t) : t :=
  if isDestroyed e then e
  else
    let flashTimer' := if isFlashing e then flashTimer e - dt
                       else flashTimer e in
    let isFlashing' := if isFlashing e
                       then negb (flashTimer' <=? 0) else false in
    let dir :=
      Vector3.normalize H
        (Vector3.set_y (Vector3.subVectors targetPos (position e)) 0) in
    let pos := Vector3.mk
      (Vector3.x (position e) + Vector3.x dir * speed e * dt)
      (Vector3.y (position e))
      (Vector3.z (position e) + Vector3.z dir * speed e * dt) in
    mk (id e) (type e) pos dir (isDestroyed e) (scale e) (speed e)
       (maxHealth e) (health e) (contactDamage e) (xpValue e) isFlashing'
       flashTimer' (flashDuration e).

(** [takeDamage(amt)]: the enemy after the hit, and whether it died. *)
Definition takeDamage (amt : Q) (e : t) : t * bool :=
  let health' := health e - amt in
  (mk (id e) (type e) (position e) (direction e) (isDestroyed e) (scale e)
      (speed e) (maxHealth e) health' (contactDamage e) (xpValue e) true
      (flashDuration e) (flashDuration e),
   health' <=? 0).

Definition getPosition (e : t) : Vector3.t := position e.
Definition getContactDamage (e : t) : Q := contactDamage e.
Definition getXpValue (e : t) : Q := xpValue e.

Definition destroy (e : t) : t :=
  mk (id e) (type e) (position e) (direction e) true (scale e) (speed e)
     (maxHealth e) (health e) (contactDamage e) (xpValue e) (isFlashing e)
     (flashTimer e) (flashDuration e).

End Enemy.

(** ** Boss *)

Module Boss.

Record t := mk {
  position : Vector3.t;
  direction : Vector3.t;
  isDestroyed : bool;
  maxHealth : Q;
  health : Q;
  speed : Q;
  scale : Q;
  contactDamage : Q;
  xpValue : Q;
  isFlashing : bool;
  flashTimer : Q;
  flashDuration : Q
}.

Definition new : t :=
  mk Vector3.zero Vector3.zero false 5000 5000 1.5 4 50 500 false 0 0.15.

Definition start (b : t) (pos : Vector3.t) : t :=
  mk (Vector3.set_y pos (scale b / 2)) (direction b) (isDestroyed b)
     (maxHealth b) (health b) (speed b) (scale b) (contactDamage b)
     (xpValue b) (isFlashing b) (flashTimer b) (flashDuration b).

Definition update (H : Host) (dt : Q) (targetPos : Vector3.t) (b : t) : t :=
  if isDestroyed b then b
  else
    let flashTimer' := if isFlashing b then flashTimer b - dt
                       else flashTimer b in
    let isFlashing' := if isFlashing b
                       then negb (flashTimer' <=? 0) else false in
    let dir :=
      Vector3.normalize H
        (Vector3.set_y (Vector3.subVectors targetPos (position b)) 0) in
    let pos := Vector3.mk
      (Vector3.x (position b) + Vector3.x dir * speed b * dt)
      (Vector3.y (position b))
      (Vector3.z (position b) + Vector3.z dir * speed b * dt) in
    mk pos dir (isDestroyed b) (maxHealth b) (health b) (speed b) (scale b)
       (contactDamage b) (xpValue b) isFlashing' flashTimer'
       (flashDuration b).

Definition takeDamage (amt : Q) (b : t) : t * bool :=
  let health' := health b - amt in
  (mk (position b) (direction b) (isDestroyed b) (maxHealth b) health'
      (speed b) (scale b) (contactDamage b) (xpValue b) true
      (flashDuration b) (flashDuration b),
   health' <=? 0).

Definition getPosition (b : t) : Vector3.t := position b.
Definition getContactDamage (b : t) : Q := contactDamage b.
Definition getXpValue (b : t) : Q := xpValue b.
Definition getHealthPercent (b : t) : Q := health b / maxHealth b.

Definition destroy (b : t) : t :=
  mk (position b) (direction b) true (maxHealth b) (health b) (speed b)
     (scale b) (contactDamage b) (xpValue b) (isFlashing b) (flashTimer b)
     (flashDuration b).

End Boss.

(** What a skill's [update] returns: [null], or [{ died: true, enemy }]. *)
Definition SkillResult := option Enemy.t.

(** Replaces, in an array of enemies, the object whose identity is that of
    [e'] by [e'] (a mutation of that object seen through the array). *)
Definition writeEnemy (e' : Enemy.t) (es : list Enemy.t) : list Enemy.t :=
  map (fun e => if Nat.eqb (Enemy.id e) (Enemy.id e') then e' else e) es.

(** ** Skills: OrbitalShield and ThunderStrike *)

Module OrbitalShield.

Record Orbital := mkOrbital { angle : Q; mesh_position : Vector3.t }.

Record t := mk {
  level : Z;
  isActive : bool;
  orbitals : list Orbital;
  orbitRadius : Q;
  orbitSpeed : Q;
  damage : Q;
  damageInterval : Q;
  damageCooldowns : list (nat * Q);
  orbitalCount : Z
}.

Definition new : t := mk 1 false [] 2 3 10 0.5 [] 2.

Definition upgrade (s : t) : t :=
  let level' := (level s + 1)%Z in
  mk level' (isActive s) (orbitals s) (orbitRadius s) (orbitSpeed s + 0.5)
     (damage s + 5) (damageInterval s) (damageCooldowns s)
     (if (level' mod 2 =? 0)%Z then (orbitalCount s + 1)%Z
      else orbitalCount s).

Definition createOrbitals (H : Host) (s : t) : t :=
  mk (level s) (isActive s)
     (map (fun i : nat =>
             mkOrbital (Math_PI H * 2 / inject_Z (orbitalCount s)
                        * inject_Z (Z.of_nat i))
                       Vector3.zero)
          (seq 0 (Z.to_nat (orbitalCount s))))
     (orbitRadius s) (orbitSpeed s) (damage s) (damageInterval s)
     (damageCooldowns s) (orbitalCount s).

Definition start (H : Host) (s : t) : t :=
  createOrbitals H
    (mk (level s) true (orbitals s) (orbitRadius s) (orbitSpeed s)
        (damage s) (damageInterval s) (damageCooldowns s) (orbitalCount s)).

(** [this.damageCooldowns.get(enemy) || 0] *)
Fixpoint cooldown_get (cds : list (nat * Q)) (k : nat) : Q :=
  match cds with
  | [] => 0
  | (k', v) :: r => if Nat.eqb k' k then v else cooldown_get r k
  end.

(** [this.damageCooldowns.set(enemy, now)] *)
Fixpoint cooldown_set (cds : list (nat * Q)) (k : nat) (v : Q)
  : list (nat * Q) :=
  match cds with
  | [] => [(k, v)]
  | (k', v') :: r =>
      if Nat.eqb k' k then (k, v) :: r else (k', v') :: cooldown_set r k v
  end.

(** The inner loop of [update] for one enemy: the cooldown map, the enemy,
    the floating texts spawned, and whether the loop left with a death. *)
Fixpoint hitByOrbitals (H : Host) (dmg interval now : Q)
    (playerPos : Vector3.t) (os : list Orbital)
    (cds : list (nat * Q)) (e : Enemy.t)
  : list (nat * Q) * Enemy.t * list Event * bool :=
  match os with
  | [] => (cds, e, [], false)
  | o :: os' =>
      let dist := Vector3.distanceTo H (mesh_position o)
                    (Enemy.getPosition e) in
      if (dist <? 1.2)
         && (now - cooldown_get cds (Enemy.id e) >=? interval) then
        let cds1 := cooldown_set cds (Enemy.id e) now in
        let '(e1, died) := Enemy.takeDamage dmg e in
        let knockDir :=
          Vector3.normalize H
            (Vector3.subVectors (Enemy.getPosition e1) playerPos) in
        let e2 := Enemy.set_position e1
          (Vector3.mk
             (Vector3.x (Enemy.position e1) + Vector3.x knockDir * 0.5)
             (Vector3.y (Enemy.position e1))
             (Vector3.z (Enemy.position e1) + Vector3.z knockDir * 0.5)) in
        if died then (cds1, e2, [FloatingText dmg], true)
        else
          let '(cds2, e3, evs, d) :=
            hitByOrbitals H dmg interval now playerPos os' cds1 e2 in
          (cds2, e3, FloatingText dmg :: evs, d)
      else hitByOrbitals H dmg interval now playerPos os' cds e
  end.

(** The outer loop of [update] over the enemies. *)
Fixpoint hitEnemies (H : Host) (dmg interval now : Q)
    (playerPos : Vector3.t) (os : list Orbital)
    (cds : list (nat * Q)) (es : list Enemy.t)
  : list (nat * Q) * list Enemy.t * list Event * SkillResult :=
  match es with
  | [] => (cds, [], [], None)
  | e :: es' =>
      if Enemy.isDestroyed e then
        let '(cds1, es1, evs, res) :=
          hitEnemies H dmg interval now playerPos os cds es' in
        (cds1, e :: es1, evs, res)
      else
        let '(cds1, e1, evs1, died) :=
          hitByOrbitals H dmg interval now playerPos os cds e in
        if died then (cds1, e1 :: es', evs1, Some e1)
        else
          let '(cds2, es2, evs2, res) :=
            hitEnemies H dmg interval now playerPos os cds1 es' in
          (cds2, e1 :: es2, evs1 ++ evs2, res)
  end.

(** [update(dt, scene, player, enemies, floatingText)]; [now] is
    [performance.now() / 1000], read once for the frame. *)
Definition update (H : Host) (dt now : Q) (playerPos : Vector3.t)
    (enemies : list Enemy.t) (s : t)
  : t * list Enemy.t * list Event * SkillResult :=
  if negb (isActive s) then (s, enemies, [], None)
  else
    let s1 :=
      if (Z.of_nat (List.length (orbitals s)) <? orbitalCount s)%Z
      then createOrbitals H s else s in
    let os :=
      map (fun o =>
             let a := angle o + orbitSpeed s1 * dt in
             mkOrbital a
               (Vector3.mk
                  (Vector3.x playerPos + Math_cos H a * orbitRadius s1)
                  1
                  (Vector3.z playerPos + Math_sin H a * orbitRadius s1)))
          (orbitals s1) in
    let '(cds, es, evs, res) :=
      hitEnemies H (damage s1) (damageInterval s1) now playerPos os
        (damageCooldowns s1) enemies in
    (mk (level s1) (isActive s1) os (orbitRadius s1) (orbitSpeed s1)
        (damage s1) (damageInterval s1) cds (orbitalCount s1),
     es, evs, res).

Definition destroy (s : t) : t :=
  mk (level s) false [] (orbitRadius s) (orbitSpeed s) (damage s)
     (damageInterval s) [] (orbitalCount s).

End OrbitalShield.

Module ThunderStrike.

Record t := mk {
  level : Z;
  isActive : bool;
  cooldown : Q;
  timer : Q;
  damage : Q
}.

Definition new : t := mk 1 false 3 0 50.

Definition upgrade (s : t) : t :=
  mk (level s + 1)%Z (isActive s) (Qmax 1 (cooldown s - 0.3)) (timer s)
     (damage s + 15).

Definition start (s : t) : t :=
  mk (level s) true (cooldown s) (timer s) (damage s).

Definition set_timer (s : t) (v : Q) : t :=
  mk (level s) (isActive s) (cooldown s) v (damage s).

(** [enemies.filter(e => !e.isDestroyed)] *)
Definition validEnemies (enemies : list Enemy.t) : list Enemy.t :=
  filter (fun e => negb (Enemy.isDestroyed e)) enemies.

(** [target.takeDamage(amt)] for [target = validEnemies[k]], as seen through
    [enemies]: the array after the hit, the target after the hit and whether
    it died; [None] when [validEnemies] has no element [k]. *)
Fixpoint strikeValid (k : nat) (amt : Q) (enemies : list Enemy.t)
  : option (list Enemy.t * Enemy.t * bool) :=
  match enemies with
  | [] => None
  | e :: es =>
      if Enemy.isDestroyed e then
        match strikeValid k amt es with
        | Some (es', tg, died) => Some (e :: es', tg, died)
        | None => None
        end
      else
        match k with
        | O => let '(e', died) := Enemy.takeDamage amt e in
               Some (e' :: es, e', died)
        | S k' =>
            match strikeValid k' amt es with
            | Some (es', tg, died) => Some (e :: es', tg, died)
            | None => None
            end
        end
  end.

(** [update(dt, scene, player, enemies, floatingText)].  [rng] counts the
    calls of [Math.random] so far; the call that picks the target is the
    one modelled.  The index [Math.floor(Math.random() * n)] is below [n]
    for a draw in [[0, 1)]; were it not, the source would throw on
    [undefined], and the model strikes nothing. *)
Definition update (H : Host) (dt : Q) (enemies : list Enemy.t) (rng : nat)
    (s : t)
  : t * list Enemy.t * nat * list Event * SkillResult :=
  if negb (isActive s) then (s, enemies, rng, [], None)
  else
    let s1 := set_timer s (timer s + dt) in
    if (timer s1 >=? cooldown s1)
       && (0 <? List.length enemies)%nat then
      let s2 := set_timer s1 0 in
      let valid := validEnemies enemies in
      if Nat.eqb (List.length valid) 0 then (s2, enemies, rng, [], None)
      else
        let k := Z.to_nat
          (Qfloor (Math_random H rng
                   * inject_Z (Z.of_nat (List.length valid)))) in
        match strikeValid k (damage s2) enemies with
        | Some (es, target, died) =>
            (s2, es, S rng, [FloatingText (damage s2)],
             if died then Some target else None)
        | None => (s2, enemies, S rng, [], None)
        end
    else (s1, enemies, rng, [], None).

Definition destroy (s : t) : t :=
  mk (level s) false (cooldown s) (timer s) (damage s).

End ThunderStrike.

Inductive SkillType := orbital | thunder.

Inductive Skill :=
| OrbitalSkill (s : OrbitalShield.t)
| ThunderSkill (s : ThunderStrike.t).

Definition SkillType_eqb (a b : SkillType) : bool :=
  match a, b with
  | orbital, orbital | thunder, thunder => true
  | _, _ => false
  end.

Definition Skill_upgrade (s : Skill) : Skill :=
  match s with
  | OrbitalSkill o => OrbitalSkill (OrbitalShield.upgrade o)
  | ThunderSkill t => ThunderSkill (ThunderStrike.upgrade t)
  end.

Definition Skill_level (s : Skill) : Z :=
  match s with
  | OrbitalSkill o => OrbitalShield.level o
  | ThunderSkill t => ThunderStrike.level t
  end.

(** ** SkillManager: [skills] is an object used as a map; its entries are
    kept in insertion order, the order of [Object.values]. *)

Module SkillManager.

Definition t := list (SkillType * Skill).

Definition new : t := [].

Definition hasSkill (m : t) (ty : SkillType) : bool :=
  existsb (fun kv => SkillType_eqb (fst kv) ty) m.

Definition getSkill (m : t) (ty : SkillType) : option Skill :=
  option_map snd (find (fun kv => SkillType_eqb (fst kv) ty) m).

Definition addSkill (H : Host) (m : t) (ty : SkillType) : t :=
  if hasSkill m ty then
    map (fun kv => if SkillType_eqb (fst kv) ty
                   then (fst kv, Skill_upgrade (snd kv)) else kv) m
  else
    m ++ [(ty,
           match ty with
           | orbital => OrbitalSkill (OrbitalShield.start H OrbitalShield.new)
           | thunder => ThunderSkill (ThunderStrike.start ThunderStrike.new)
           end)].

Definition getActiveSkills (m : t) : list Skill := map snd m.

(** [update]: every skill in turn, on the enemy array the previous ones
    left; the non-null results, in order. *)
Fixpoint update (H : Host) (dt now : Q) (playerPos : Vector3.t)
    (enemies : list Enemy.t) (rng : nat) (m : t)
  : t * list Enemy.t * nat * list Event * list Enemy.t :=
  match m with
  | [] => ([], enemies, rng, [], [])
  | (ty, sk) :: m' =>
      let '(sk1, es1, rng1, evs1, res1) :=
        match sk with
        | OrbitalSkill o =>
            let '(o1, es, evs, res) :=
              OrbitalShield.update H dt now playerPos enemies o in
            (OrbitalSkill o1, es, rng, evs, res)
        | ThunderSkill th =>
            let '(t1, es, rng', evs, res) :=
              ThunderStrike.update H dt enemies rng th in
            (ThunderSkill t1, es, rng', evs, res)
        end in
      let '(m2, es2, rng2, evs2, res2) :=
        update H dt now playerPos es1 rng1 m' in
      ((ty, sk1) :: m2, es2, rng2, evs1 ++ evs2,
       match res1 with Some e => e :: res2 | None => res2 end)
  end.

Definition destroy (m : t) : t := [].

End SkillManager.

(** ** InputManager: the state the listeners keep *)

Module InputManager.

Record t := mk {
  key_w : bool; key_a : bool; key_s : bool; key_d : bool;
  joystickVector_x : Q;
  joystickVector_y : Q;
  joystickActive : bool
}.

Definition new : t := mk false false false false 0 0 false.

Definition b2q (b : bool) : Q := if b then 1 else 0.

(** [getMovementVector()]: the pair [{x, z}]. *)
Definition getMovementVector (i : t) : Q * Q :=
  let keyX := b2q (key_d i) - b2q (key_a i) in
  let keyZ := b2q (key_s i) - b2q (key_w i) in
  if joystickActive i then (joystickVector_x i, - joystickVector_y i)
  else (keyX, keyZ).

Import String.

(** [getAxis(axis)], the legacy method. *)
Definition getAxis (axis : String.string) (i : t) : Q :=
  if String.eqb axis "horizontal"%string then b2q (key_d i) - b2q (key_a i)
  else if String.eqb axis "vertical"%string then b2q (key_w i) - b2q (key_s i)
  else 0.

(** [toLowerCase()] on a key name.  Only the letters A to Z have a lower
    case among the ASCII characters, and no other character has w, a, s or d
    for its lower case. *)
Definition lowerAscii (c : Ascii.ascii) : Ascii.ascii :=
  let n := Ascii.nat_of_ascii c in
  if (65 <=? n)%nat && (n <=? 90)%nat then Ascii.ascii_of_nat (n + 32)
  else c.

Fixpoint toLowerCase (s : String.string) : String.string :=
  match s with
  | String.EmptyString => String.EmptyString
  | String.String c r => String.String (lowerAscii c) (toLowerCase r)
  end.

(** [if (this.keys.hasOwnProperty(key)) this.keys[key] = v]: the state, or
    [None] when [keys] has no such property. *)
Definition setKey (key : String.string) (v : bool) (i : t) : option t :=
  if String.eqb key "w"%string then
    Some (mk v (key_a i) (key_s i) (key_d i) (joystickVector_x i)
            (joystickVector_y i) (joystickActive i))
  else if String.eqb key "a"%string then
    Some (mk (key_w i) v (key_s i) (key_d i) (joystickVector_x i)
            (joystickVector_y i) (joystickActive i))
  else if String.eqb key "s"%string then
    Some (mk (key_w i) (key_a i) v (key_d i) (joystickVector_x i)
            (joystickVector_y i) (joystickActive i))
  else if String.eqb key "d"%string then
    Some (mk (key_w i) (key_a i) (key_s i) v (joystickVector_x i)
            (joystickVector_y i) (joystickActive i))
  else None.

(** The [keydown] and [keyup] listeners, on [e.key]: the state, and whether
    [e.preventDefault()] is called. *)
Definition keydown (key : String.string) (i : t) : t * bool :=
  match setKey (toLowerCase key) true i with
  | Some i' => (i', true)
  | None => (i, false)
  end.

Definition keyup (key : String.string) (i : t) : t * bool :=
  match setKey (toLowerCase key) false i with
  | Some i' => (i', true)
  | None => (i, false)
  end.

(** The joystick's [move] listener, on [data.force] and
    [data.angle.radian], and its [end] listener. *)
Definition joystickMove (H : Host) (force angle : Q) (i : t) : t :=
  let f := Qmin force 1 in
  mk (key_w i) (key_a i) (key_s i) (key_d i)
     (Math_cos H angle * f) (Math_sin H angle * f) true.

Definition joystickEnd (i : t) : t :=
  mk (key_w i) (key_a i) (key_s i) (key_d i) 0 0 false.

(** The property names of [this.keys]. *)
Definition movementKeys : list String.string :=
  ["w"; "a"; "s"; "d"]%string.

End InputManager.

(** ** Player *)

Module Player.

Record t := mk {
  position : Vector3.t;
  maxHealth : Q;
  currentHealth : Q;
  healthRegen : Q;
  level : Z;
  currentXp : Q;
  xpToNextLevel : Q;
  xpScaling : Q;
  moveSpeed : Q;
  weapons_pistol : Weapon.t;
  weapons_shotgun : option Weapon.t;
  (** which of the two weapon objects [activeWeapon] refers to *)
  activeWeapon : WeaponType;
  fireTimer : Q;
  skillManager : SkillManager.t
}.

(** [new Player(...)] followed by [start()], which places the mesh. *)
Definition new (H : Host) : t :=
  mk (Vector3.mk 0 1 0) 100 100 0.5 1 0 20 1.5 8
     (Weapon.new H pistol) None pistol 0 SkillManager.new.

Definition set_position (p : t) (v : Vector3.t) : t :=
  mk v (maxHealth p) (currentHealth p) (healthRegen p) (level p)
     (currentXp p) (xpToNextLevel p) (xpScaling p) (moveSpeed p)
     (weapons_pistol p) (weapons_shotgun p) (activeWeapon p) (fireTimer p)
     (skillManager p).

Definition set_currentHealth (p : t) (v : Q) : t :=
  mk (position p) (maxHealth p) v (healthRegen p) (level p)
     (currentXp p) (xpToNextLevel p) (xpScaling p) (moveSpeed p)
     (weapons_pistol p) (weapons_shotgun p) (activeWeapon p) (fireTimer p)
     (skillManager p).

Definition set_fireTimer (p : t) (v : Q) : t :=
  mk (position p) (maxHealth p) (currentHealth p) (healthRegen p) (level p)
     (currentXp p) (xpToNextLevel p) (xpScaling p) (moveSpeed p)
     (weapons_pistol p) (weapons_shotgun p) (activeWeapon p) v
     (skillManager p).

Definition set_weapons (p : t) (wp : Weapon.t) (ws : option Weapon.t)
    (active : WeaponType) : t :=
  mk (position p) (maxHealth p) (currentHealth p) (healthRegen p) (level p)
     (currentXp p) (xpToNextLevel p) (xpScaling p) (moveSpeed p)
     wp ws active (fireTimer p) (skillManager p).

Definition set_skillManager (p : t) (m : SkillManager.t) : t :=
  mk (position p) (maxHealth p) (currentHealth p) (healthRegen p) (level p)
     (currentXp p) (xpToNextLevel p) (xpScaling p) (moveSpeed p)
     (weapons_pistol p) (weapons_shotgun p) (activeWeapon p) (fireTimer p)
     m.

Definition getPosition (p : t) : Vector3.t := position p.
Definition getLevel (p : t) : Z := level p.
Definition getCurrentXp (p : t) : Q := currentXp p.
Definition getXpToNextLevel (p : t) : Q := xpToNextLevel p.
Definition getCurrentHealth (p : t) : Q := currentHealth p.
Definition getMaxHealth (p : t) : Q := maxHealth p.
Definition getSkillManager (p : t) : SkillManager.t := skillManager p.
Definition hasShotgun (p : t) : bool :=
  match weapons_shotgun p with Some _ => true | None => false end.

(** The object [activeWeapon] refers to.  It refers to the shotgun only
    once there is one. *)
Definition getActiveWeapon (p : t) : Weapon.t :=
  match activeWeapon p, weapons_shotgun p with
  | shotgun, Some w => w
  | _, _ => weapons_pistol p
  end.

Definition handleMovement (H : Host) (dt : Q) (move : Q * Q) (p : t) : t :=
  let v := Vector3.mk (fst move) 0 (snd move) in
  let inputVector :=
    if Vector3.length H v >? 0 then Vector3.normalize H v else v in
  set_position p
    (Vector3.mk
       (Vector3.x (position p) + Vector3.x inputVector * moveSpeed p * dt)
       (Vector3.y (position p))
       (Vector3.z (position p) + Vector3.z inputVector * moveSpeed p * dt)).

(** [findClosestEnemy()]; [minDist = Infinity] is [None]. *)
Fixpoint findClosest (H : Host) (pos : Vector3.t) (es : list Enemy.t)
    (closest : option Enemy.t) (minDist : option Q) : option Enemy.t :=
  match es with
  | [] => closest
  | e :: es' =>
      let d := Vector3.distanceTo H pos (Enemy.getPosition e) in
      if match minDist with None => true | Some m => d <? m end
      then findClosest H pos es' (Some e) (Some d)
      else findClosest H pos es' closest minDist
  end.

Definition findClosestEnemy (H : Host) (enemies : list Enemy.t) (p : t)
  : option Enemy.t :=
  findClosest H (position p) enemies None None.

(** [handleShooting(dt)]: the player and the projectiles pushed to the
    shared array (none when the weapon did not fire). *)
Definition handleShooting (H : Host) (dt : Q) (enemies : list Enemy.t)
    (p : t) : t * option (list Projectile.t) :=
  let p1 := set_fireTimer p (fireTimer p + dt) in
  if fireTimer p1 <? Weapon.fireRate (getActiveWeapon p1) then (p1, None)
  else if Nat.eqb (List.length enemies) 0 then (p1, None)
  else
    match findClosestEnemy H enemies p1 with
    | None => (p1, None)
    | Some closest =>
        let dist := Vector3.distanceTo H (position p1)
                      (Enemy.getPosition closest) in
        if dist >? Weapon.range (getActiveWeapon p1) then (p1, None)
        else
          (set_fireTimer p1 0,
           Some (Weapon.fire H (getActiveWeapon p1) (position p1)
                   (Enemy.getPosition closest)))
    end.

Definition handleRegen (dt : Q) (p : t) : t :=
  if currentHealth p <? maxHealth p then
    set_currentHealth p
      (Qmin (currentHealth p + healthRegen p * dt) (maxHealth p))
  else p.

(** [takeDamage(amt)]: the player after the hit, and whether the health
    is at or below zero. *)
Definition takeDamage (amt : Q) (p : t) : t * bool :=
  let p' := set_currentHealth p (currentHealth p - amt) in
  (p', currentHealth p' <=? 0).

Definition heal (amt : Q) (p : t) : t :=
  set_currentHealth p (Qmin (currentHealth p + amt) (maxHealth p)).

Definition healPercent (pct : Q) (p : t) : t :=
  heal (maxHealth p * pct / 100) p.

(** [gainXp(amt)]: the player, and whether [gameManager.triggerLevelUp()]
    is called. *)
Definition gainXp (amt : Q) (p : t) : t * bool :=
  let xp := currentXp p + amt in
  if xp >=? xpToNextLevel p then
    (mk (position p) (maxHealth p) (currentHealth p) (healthRegen p)
        (level p + 1)%Z (xp - xpToNextLevel p)
        (Math_floor (xpToNextLevel p * xpScaling p)) (xpScaling p)
        (moveSpeed p) (weapons_pistol p) (weapons_shotgun p)
        (activeWeapon p) (fireTimer p) (skillManager p),
     true)
  else
    (mk (position p) (maxHealth p) (currentHealth p) (healthRegen p)
        (level p) xp (xpToNextLevel p) (xpScaling p)
        (moveSpeed p) (weapons_pistol p) (weapons_shotgun p)
        (activeWeapon p) (fireTimer p) (skillManager p),
     false).

Definition upgradePistol (p : t) : t :=
  set_weapons p (Weapon.upgrade (weapons_pistol p)) (weapons_shotgun p)
    (activeWeapon p).

Definition upgradeShotgun (H : Host) (p : t) : t :=
  match weapons_shotgun p with
  | None =>
      set_weapons p (weapons_pistol p) (Some (Weapon.new H shotgun)) shotgun
  | Some w =>
      set_weapons p (weapons_pistol p) (Some (Weapon.upgrade w))
        (activeWeapon p)
  end.

Definition switchWeapon (ty : WeaponType) (p : t) : t :=
  match ty with
  | pistol => set_weapons p (weapons_pistol p) (weapons_shotgun p) pistol
  | shotgun =>
      if hasShotgun p
      then set_weapons p (weapons_pistol p) (weapons_shotgun p) shotgun
      else p
  end.

Definition addSkill (H : Host) (ty : SkillType) (p : t) : t :=
  set_skillManager p (SkillManager.addSkill H (skillManager p) ty).

Definition hasSkill (p : t) (ty : SkillType) : bool :=
  SkillManager.hasSkill (skillManager p) ty.

End Player.

(** ** EnemySpawner *)

Module EnemySpawner.

Record t := mk {
  enemies : list Enemy.t;
  baseInterval : Q;
  timer : Q;
  spawnDist : Q;
  totalWeight : Q;
  (** identity given to the next enemy object *)
  nextId : nat
}.

Definition new : t :=
  mk [] 0.8 0 20
     (fold_left (fun s ty => s + cfg_weight (ENEMY_TYPES ty))
        ENEMY_TYPE_keys 0)
     O.

Definition set_enemies (s : t) (es : list Enemy.t) : t :=
  mk es (baseInterval s) (timer s) (spawnDist s) (totalWeight s) (nextId s).

Definition set_timer (s : t) (v : Q) : t :=
  mk (enemies s) (baseInterval s) v (spawnDist s) (totalWeight s)
     (nextId s).

Definition getEnemies (s : t) : list Enemy.t := enemies s.

(** The loop of [selectType]. *)
Fixpoint selectFrom (roll cum : Q) (keys : list EnemyType) : EnemyType :=
  match keys with
  | [] => normal
  | ty :: r =>
      let cum' := cum + cfg_weight (ENEMY_TYPES ty) in
      if roll <? cum' then ty else selectFrom roll cum' r
  end.

(** [selectType()]; [r] is its [Math.random()]. *)
Definition selectType (r : Q) (s : t) : EnemyType :=
  selectFrom (r * totalWeight s) 0 ENEMY_TYPE_keys.

(** [spawn()]: two calls of [Math.random], for the type and the angle. *)
Definition spawn (H : Host) (playerPos : Vector3.t) (healthMult : Q)
    (rng : nat) (s : t) : t * nat :=
  let ty := selectType (Math_random H rng) s in
  let e := Enemy.new (nextId s) ty in
  let angle := Math_random H (S rng) * Math_PI H * 2 in
  let pos := Vector3.mk
    (Vector3.x playerPos + Math_cos H angle * spawnDist s)
    0
    (Vector3.z playerPos + Math_sin H angle * spawnDist s) in
  (mk (enemies s ++ [Enemy.start e pos healthMult]) (baseInterval s)
      (timer s) (spawnDist s) (totalWeight s) (S (nextId s)),
   S (S rng)).

(** [update(dt)]; the wave manager's multipliers and the player's position
    are read through the references the spawner holds. *)
Definition update (H : Host) (dt : Q) (w : WaveManager.t)
    (playerPos : Vector3.t) (rng : nat) (s : t) : t * nat :=
  let interval := baseInterval s * WaveManager.getSpawnMult w in
  let s1 := set_timer s (timer s + dt) in
  let '(s2, rng') :=
    if timer s1 >=? interval
    then spawn H playerPos (WaveManager.getHealthMult w) rng
           (set_timer s1 0)
    else (s1, rng) in
  (set_enemies s2 (map (Enemy.update H dt playerPos) (enemies s2)), rng').

(** [removeEnemy(e)]: [indexOf] finds the first object with [e]'s
    identity; it is destroyed and spliced out. *)
Fixpoint removeFirst (i : nat) (es : list Enemy.t) : list Enemy.t :=
  match es with
  | [] => []
  | e :: r => if Nat.eqb (Enemy.id e) i then r else e :: removeFirst i r
  end.

Definition removeEnemy (e : Enemy.t) (s : t) : t :=
  set_enemies s (removeFirst (Enemy.id e) (enemies s)).

End EnemySpawner.

(** ** Time and the score counters of UIManager *)

Module Time.

Record t := mk { deltaTime : Q; lastTime : Q }.

(** [update()]; [currentTime] is its [performance.now()]. *)
Definition update (currentTime : Q) (tm : t) : t :=
  mk ((currentTime - lastTime tm) / 1000) currentTime.

End Time.

Module UIManager.

Record t := mk { score : Q; kills : Z }.

Definition new : t := mk 0 0.

Definition updateScore (pts : Q) (u : t) : t :=
  mk (score u + pts) (kills u + 1)%Z.

Definition getScore (u : t) : Q := score u.
Definition getKills (u : t) : Z := kills u.

Definition reset (u : t) : t := mk 0 0.

Import String.

(** [Number.prototype.toString()] of an integer (below 1e21 in size, where
    JavaScript still writes all the digits). *)
Definition toString (n : Z) : String.string :=
  DecimalString.NilZero.string_of_int (Z.to_int n).

(** [s.padStart(2, '0')] *)
Definition padStart2 (s : String.string) : String.string :=
  match String.length s with
  | O => String.append "00"%string s
  | S O => String.append "0"%string s
  | _ => s
  end.

(** [const m = Math.floor(t / 60), s = Math.floor(t % 60)], of
    [updateTimer], [showGameOver] and [showVictory]. *)
Definition minutesSeconds (t : Q) : Z * Z :=
  (Qfloor (t / 60), Qfloor (js_rem t 60)).

(** [updateTimer(t)]: the text of the timer element. *)
Definition updateTimer (t : Q) : String.string :=
  let '(m, s) := minutesSeconds t in
  String.append (padStart2 (toString m))
    (String.append ":"%string (padStart2 (toString s))).

Inductive HealthBarBackground := bar_critical | bar_low | bar_normal.

(** [updateHealthBar(cur, max)]: the width of the bar, in percent, and its
    background. *)
Definition updateHealthBar (cur max : Q) : Q * HealthBarBackground :=
  let p := cur / max * 100 in
  (Qmax 0 (Qmin p 100),
   if p <? 25 then bar_critical else if p <? 50 then bar_low
   else bar_normal).

(** [updateXpBar(cur, max)] and [updateBossBar(percent)]: the widths, in
    percent. *)
Definition updateXpBar (cur max : Q) : Q := Qmin (cur / max * 100) 100.

Definition updateBossBar (percent : Q) : Q := Qmax 0 (percent * 100).

End UIManager.

(** ** Particles, floating texts and the camera *)

Module Particle.

Record t := mk {
  position : Vector3.t;
  velocity : Vector3.t;
  rotation_x : Q;
  rotation_y : Q;
  scale : Q;
  lifetime : Q;
  age : Q;
  isDestroyed : bool;
  initialScale : Q
}.

Definition new : t := mk Vector3.zero Vector3.zero 0 0 1 0.5 0 false 1.

(** [start(pos, color)]; [r0] to [r3] are its four [Math.random()]. *)
Definition start (pos : Vector3.t) (r0 r1 r2 r3 : Q) (p : t) : t :=
  let initialScale' := 0.8 + r3 * 0.4 in
  mk pos (Vector3.mk ((r0 - 0.5) * 10) (r1 * 8 + 2) ((r2 - 0.5) * 10))
     (rotation_x p) (rotation_y p) initialScale' (lifetime p) (age p)
     (isDestroyed p) initialScale'.

Definition update (dt : Q) (p : t) : t :=
  if isDestroyed p then p
  else
    let pos := Vector3.add (position p)
                 (Vector3.multiplyScalar (velocity p) dt) in
    let vel := Vector3.set_y (velocity p) (Vector3.y (velocity p) - 15 * dt) in
    let age' := age p + dt in
    mk pos vel (rotation_x p + dt * 5) (rotation_y p + dt * 3)
       (initialScale p * (1 - age' / lifetime p)) (lifetime p) age'
       (if age' >=? lifetime p then true else isDestroyed p)
       (initialScale p).

Definition destroy (p : t) : t :=
  mk (position p) (velocity p) (rotation_x p) (rotation_y p) (scale p)
     (lifetime p) (age p) true (initialScale p).

End Particle.

Module ParticleSystem.

Record t := mk { particles : list Particle.t }.

Definition new : t := mk [].

(** [spawnExplosion(pos, color, count)]; each particle draws four random
    numbers, from the [rng]-th call on. *)
Fixpoint spawnExplosion (H : Host) (pos : Vector3.t) (count : nat)
    (rng : nat) (s : t) : t * nat :=
  match count with
  | O => (s, rng)
  | S n =>
      let p := Particle.start pos (Math_random H rng)
                 (Math_random H (1 + rng)) (Math_random H (2 + rng))
                 (Math_random H (3 + rng)) Particle.new in
      spawnExplosion H pos n (4 + rng) (mk (particles s ++ [p]))
  end.

Definition update (dt : Q) (s : t) : t :=
  mk (filter (fun p => negb (Particle.isDestroyed p))
        (map (Particle.update dt) (particles s))).

End ParticleSystem.

(** What [FloatingText.update] reads of the camera and the window. *)
Record Viewport := {
  project : Vector3.t -> Vector3.t;
  innerWidth : Q;
  innerHeight : Q
}.

Module FloatingText.

Record t := mk {
  text : Q;
  lifetime : Q;
  age : Q;
  isDestroyed : bool;
  startY : Q;
  worldPosition : Vector3.t;
  (** [element.style]: [left] and [top] in pixels once set, the opacity and
      the scale of the transform *)
  style_left : option Q;
  style_top : option Q;
  style_opacity : Q;
  style_scale : Q
}.

(** [new FloatingText()] followed by [start(text, worldPosition, color)] *)
Definition start (txt : Q) (pos : Vector3.t) : t :=
  mk txt 1 0 false (Vector3.y pos) pos None None 1 1.

Definition update (deltaTime : Q) (camera : Viewport) (f : t) : t :=
  if isDestroyed f then f
  else
    let age' := age f + deltaTime in
    let wp := Vector3.set_y (worldPosition f) (startY f + age' * 2) in
    let screenPos := project camera wp in
    mk (text f) (lifetime f) age'
       (if age' >=? lifetime f then true else isDestroyed f)
       (startY f) wp
       (Some ((Vector3.x screenPos * 0.5 + 0.5) * innerWidth camera))
       (Some ((- Vector3.y screenPos * 0.5 + 0.5) * innerHeight camera))
       (1 - age' / lifetime f)
       (1 + age' * 0.5).

End FloatingText.

Module FloatingTextManager.

Record t := mk { texts : list FloatingText.t }.

Definition new : t := mk [].

Definition spawn (txt : Q) (worldPosition : Vector3.t) (m : t) : t :=
  mk (texts m ++ [FloatingText.start txt worldPosition]).

Definition update (deltaTime : Q) (camera : Viewport) (m : t) : t :=
  mk (filter (fun f => negb (FloatingText.isDestroyed f))
        (map (FloatingText.update deltaTime camera) (texts m))).

End FloatingTextManager.

Module CameraController.

Record t := mk { camera_position : Vector3.t; offset : Vector3.t; smooth : Q }.

(** [new CameraController(camera, target)], for the camera [awake()]
    places at (15, 20, 15). *)
Definition new : t := mk (Vector3.mk 15 20 15) (Vector3.mk 15 20 15) 5.

(** [update(dt)]; [target] is [this.target.getPosition()]. *)
Definition update (dt : Q) (target : Vector3.t) (c : t) : t :=
  let targetPos := Vector3.add target (offset c) in
  mk (Vector3.lerp (camera_position c) targetPos (smooth c * dt))
     (offset c) (smooth c).

End CameraController.

(** ** GameManager *)

Inductive UpgradeId :=
| up_pistol | up_shotgun | up_orbital | up_thunder | up_heal.

Module GameManager.

Record t := mk {
  time : Time.t;
  inputManager : InputManager.t;
  uiManager : UIManager.t;
  waveManager : WaveManager.t;
  player : Player.t;
  enemySpawner : EnemySpawner.t;
  projectiles : list Projectile.t;
  experienceGems : list ExperienceGem.t;
  isGameOver : bool;
  isPaused : bool;
  collisionDist : Q;
  projectileHitDist : Q;
  gemCollectDist : Q;
  contactDmgTimer : Q;
  contactDmgInterval : Q;
  boss : option Boss.t;
  bossSpawned : bool;
  bossSpawnTime : Q;
  isVictory : bool;
  slowMoScale : Q;
  slowMoTimer : Q;
  (** calls to the collaborators and pass markers, oldest first *)
  events : list Event;
  (** number of calls of [Math.random] so far *)
  rng : nat
}.

(** The constructor, [awake()] and [start()]; [now] is the
    [performance.now()] of [new Time()]. *)
Definition new (H : Host) (now : Q) : t :=
  mk (Time.mk 0 now) InputManager.new UIManager.new WaveManager.new
     (Player.new H) EnemySpawner.new [] [] false false
     1.2 1.0 0.8 0 0.5 None false 60 false 1.0 0 [] O.

Definition set_time (g : t) (v : Time.t) : t :=
  mk v (inputManager g) (uiManager g) (waveManager g) (player g)
     (enemySpawner g) (projectiles g) (experienceGems g) (isGameOver g)
     (isPaused g) (collisionDist g) (projectileHitDist g)
     (gemCollectDist g) (contactDmgTimer g) (contactDmgInterval g)
     (boss g) (bossSpawned g) (bossSpawnTime g) (isVictory g)
     (slowMoScale g) (slowMoTimer g) (events g) (rng g).

Definition set_inputManager (g : t) (v : InputManager.t) : t :=
  mk (time g) v (uiManager g) (waveManager g) (player g)
     (enemySpawner g) (projectiles g) (experienceGems g) (isGameOver g)
     (isPaused g) (collisionDist g) (projectileHitDist g)
     (gemCollectDist g) (contactDmgTimer g) (contactDmgInterval g)
     (boss g) (bossSpawned g) (bossSpawnTime g) (isVictory g)
     (slowMoScale g) (slowMoTimer g) (events g) (rng g).

Definition set_uiManager (g : t) (v : UIManager.t) : t :=
  mk (time g) (inputManager g) v (waveManager g) (player g)
     (enemySpawner g) (projectiles g) (experienceGems g) (isGameOver g)
     (isPaused g) (collisionDist g) (projectileHitDist g)
     (gemCollectDist g) (contactDmgTimer g) (contactDmgInterval g)
     (boss g) (bossSpawned g) (bossSpawnTime g) (isVictory g)
     (slowMoScale g) (slowMoTimer g) (events g) (rng g).

Definition set_waveManager (g : t) (v : WaveManager.t) : t :=
  mk (time g) (inputManager g) (uiManager g) v (player g)
     (enemySpawner g) (projectiles g) (experienceGems g) (isGameOver g)
     (isPaused g) (collisionDist g) (projectileHitDist g)
     (gemCollectDist g) (contactDmgTimer g) (contactDmgInterval g)
     (boss g) (bossSpawned g) (bossSpawnTime g) (isVictory g)
     (slowMoScale g) (slowMoTimer g) (events g) (rng g).

Definition set_player (g : t) (v : Player.t) : t :=
  mk (time g) (inputManager g) (uiManager g) (waveManager g) v
     (enemySpawner g) (projectiles g) (experienceGems g) (isGameOver g)
     (isPaused g) (collisionDist g) (projectileHitDist g)
     (gemCollectDist g) (contactDmgTimer g) (contactDmgInterval g)
     (boss g) (bossSpawned g) (bossSpawnTime g) (isVictory g)
     (slowMoScale g) (slowMoTimer g) (events g) (rng g).

Definition set_enemySpawner (g : t) (v : EnemySpawner.t) : t :=
  mk (time g) (inputManager g) (uiManager g) (waveManager g) (player g)
     v (projectiles g) (experienceGems g) (isGameOver g)
     (isPaused g) (collisionDist g) (projectileHitDist g)
     (gemCollectDist g) (contactDmgTimer g) (contactDmgInterval g)
     (boss g) (bossSpawned g) (bossSpawnTime g) (isVictory g)
     (slowMoScale g) (slowMoTimer g) (events g) (rng g).

Definition set_projectiles (g : t) (v : list Projectile.t) : t :=
  mk (time g) (inputManager g) (uiManager g) (waveManager g) (player g)
     (enemySpawner g) v (experienceGems g) (isGameOver g)
     (isPaused g) (collisionDist g) (projectileHitDist g)
     (gemCollectDist g) (contactDmgTimer g) (contactDmgInterval g)
     (boss g) (bossSpawned g) (bossSpawnTime g) (isVictory g)
     (slowMoScale g) (slowMoTimer g) (events g) (rng g).

Definition set_experienceGems (g : t) (v : list ExperienceGem.t) : t :=
  mk (time g) (inputManager g) (uiManager g) (waveManager g) (player g)
     (enemySpawner g) (projectiles g) v (isGameOver g)
     (isPaused g) (collisionDist g) (projectileHitDist g)
     (gemCollectDist g) (contactDmgTimer g) (contactDmgInterval g)
     (boss g) (bossSpawned g) (bossSpawnTime g) (isVictory g)
     (slowMoScale g) (slowMoTimer g) (events g) (rng g).

Definition set_isGameOver (g : t) (v : bool) : t :=
  mk (time g) (inputManager g) (uiManager g) (waveManager g) (player g)
     (enemySpawner g) (projectiles g) (experienceGems g) v
     (isPaused g) (collisionDist g) (projectileHitDist g)
     (gemCollectDist g) (contactDmgTimer g) (contactDmgInterval g)
     (boss g) (bossSpawned g) (bossSpawnTime g) (isVictory g)
     (slowMoScale g) (slowMoTimer g) (events g) (rng g).

Definition set_isPaused (g : t) (v : bool) : t :=
  mk (time g) (inputManager g) (uiManager g) (waveManager g) (player g)
     (enemySpawner g) (projectiles g) (experienceGems g) (isGameOver g)
     v (collisionDist g) (projectileHitDist g)
     (gemCollectDist g) (contactDmgTimer g) (contactDmgInterval g)
     (boss g) (bossSpawned g) (bossSpawnTime g) (isVictory g)
     (slowMoScale g) (slowMoTimer g) (events g) (rng g).

Definition set_contactDmgTimer (g : t) (v : Q) : t :=
  mk (time g) (inputManager g) (uiManager g) (waveManager g) (player g)
     (enemySpawner g) (projectiles g) (experienceGems g) (isGameOver g)
     (isPaused g) (collisionDist g) (projectileHitDist g)
     (gemCollectDist g) v (contactDmgInterval g)
     (boss g) (bossSpawned g) (bossSpawnTime g) (isVictory g)
     (slowMoScale g) (slowMoTimer g) (events g) (rng g).

Definition set_boss (g : t) (v : option Boss.t) : t :=
  mk (time g) (inputManager g) (uiManager g) (waveManager g) (player g)
     (enemySpawner g) (projectiles g) (experienceGems g) (isGameOver g)
     (isPaused g) (collisionDist g) (projectileHitDist g)
     (gemCollectDist g) (contactDmgTimer g) (contactDmgInterval g)
     v (bossSpawned g) (bossSpawnTime g) (isVictory g)
     (slowMoScale g) (slowMoTimer g) (events g) (rng g).

Definition set_bossSpawned (g : t) (v : bool) : t :=
  mk (time g) (inputManager g) (uiManager g) (waveManager g) (player g)
     (enemySpawner g) (projectiles g) (experienceGems g) (isGameOver g)
     (isPaused g) (collisionDist g) (projectileHitDist g)
     (gemCollectDist g) (contactDmgTimer g) (contactDmgInterval g)
     (boss g) v (bossSpawnTime g) (isVictory g)
     (slowMoScale g) (slowMoTimer g) (events g) (rng g).

Definition set_isVictory (g : t) (v : bool) : t :=
  mk (time g) (inputManager g) (uiManager g) (waveManager g) (player g)
     (enemySpawner g) (projectiles g) (experienceGems g) (isGameOver g)
     (isPaused g) (collisionDist g) (projectileHitDist g)
     (gemCollectDist g) (contactDmgTimer g) (contactDmgInterval g)
     (boss g) (bossSpawned g) (bossSpawnTime g) v
     (slowMoScale g) (slowMoTimer g) (events g) (rng g).

Definition set_slowMoScale (g : t) (v : Q) : t :=
  mk (time g) (inputManager g) (uiManager g) (waveManager g) (player g)
     (enemySpawner g) (projectiles g) (experienceGems g) (isGameOver g)
     (isPaused g) (collisionDist g) (projectileHitDist g)
     (gemCollectDist g) (contactDmgTimer g) (contactDmgInterval g)
     (boss g) (bossSpawned g) (bossSpawnTime g) (isVictory g)
     v (slowMoTimer g) (events g) (rng g).

Definition set_slowMoTimer (g : t) (v : Q) : t :=
  mk (time g) (inputManager g) (uiManager g) (waveManager g) (player g)
     (enemySpawner g) (projectiles g) (experienceGems g) (isGameOver g)
     (isPaused g) (collisionDist g) (projectileHitDist g)
     (gemCollectDist g) (contactDmgTimer g) (contactDmgInterval g)
     (boss g) (bossSpawned g) (bossSpawnTime g) (isVictory g)
     (slowMoScale g) v (events g) (rng g).

Definition set_rng (g : t) (v : nat) : t :=
  mk (time g) (inputManager g) (uiManager g) (waveManager g) (player g)
     (enemySpawner g) (projectiles g) (experienceGems g) (isGameOver g)
     (isPaused g) (collisionDist g) (projectileHitDist g)
     (gemCollectDist g) (contactDmgTimer g) (contactDmgInterval g)
     (boss g) (bossSpawned g) (bossSpawnTime g) (isVictory g)
     (slowMoScale g) (slowMoTimer g) (events g) v.

(** Records calls to the collaborators (or pass markers). *)
Definition emit (evs : list Event) (g : t) : t :=
  mk (time g) (inputManager g) (uiManager g) (waveManager g) (player g)
     (enemySpawner g) (projectiles g) (experienceGems g) (isGameOver g)
     (isPaused g) (collisionDist g) (projectileHitDist g)
     (gemCollectDist g) (contactDmgTimer g) (contactDmgInterval g)
     (boss g) (bossSpawned g) (bossSpawnTime g) (isVictory g)
     (slowMoScale g) (slowMoTimer g) (events g ++ evs) (rng g).

Definition enemies (g : t) : list Enemy.t :=
  EnemySpawner.getEnemies (enemySpawner g).

Definition set_enemies (g : t) (es : list Enemy.t) : t :=
  set_enemySpawner g (EnemySpawner.set_enemies (enemySpawner g) es).

(** [spawnGem(pos, xp)]; the gem's constructor calls [Math.random]. *)
Definition spawnGem (H : Host) (pos : Vector3.t) (xp : Q) (g : t) : t :=
  let gem :=
    ExperienceGem.start
      (ExperienceGem.set_xpValue
         (ExperienceGem.new H (Math_random H (rng g))) xp)
      pos in
  set_rng (set_experienceGems g (experienceGems g ++ [gem])) (S (rng g)).

(** [triggerLevelUp()].  The menu's options are the UI's; the callback it
    is given is [selectUpgrade] below. *)
Definition triggerLevelUp (g : t) : t :=
  emit [PlaySound cue_levelUp; ShowLevelUpMenu] (set_isPaused g true).

(** [this.player.gainXp(amt)], with its call back into the manager. *)
Definition gainXp (amt : Q) (g : t) : t :=
  let '(p, levelUp) := Player.gainXp amt (player g) in
  let g1 := set_player g p in
  if levelUp then triggerLevelUp g1 else g1.

Definition destroySkills (g : t) : t :=
  set_player g
    (Player.set_skillManager (player g)
       (SkillManager.destroy (Player.getSkillManager (player g)))).

Definition gameOver (g : t) : t :=
  emit [PlaySound cue_gameOver; ShowGameOver]
    (destroySkills (set_isPaused (set_isGameOver g true) true)).

Definition showVictoryScreen (g : t) : t :=
  emit [ShowVictory] (destroySkills (set_isPaused g true)).

(** The reward block that follows a kill, written out twice in the
    source (in [update] for skills, in [checkProjectileEnemyCollisions]
    for projectiles). *)
Definition rewardKill (H : Host) (e : Enemy.t) (g : t) : t :=
  let g1 := set_enemySpawner g
              (EnemySpawner.removeEnemy e (enemySpawner g)) in
  let g2 := set_uiManager g1 (UIManager.updateScore 10 (uiManager g1)) in
  let g3 := emit [SpawnExplosion] g2 in
  let g4 := spawnGem H (Enemy.getPosition e) (Enemy.getXpValue e) g3 in
  emit [PlaySound cue_explosion] g4.

(** [this.player.update(dt)], with the projectiles it pushes. *)
Definition updatePlayer (H : Host) (dt : Q) (g : t) : t :=
  let p1 := Player.handleMovement H dt
              (InputManager.getMovementVector (inputManager g))
              (player g) in
  let '(p2, shot) := Player.handleShooting H dt (enemies g) p1 in
  let p3 := Player.handleRegen dt p2 in
  let g1 := set_player g p3 in
  match shot with
  | Some ps =>
      emit [PlaySound cue_shoot] (set_projectiles g1 (projectiles g1 ++ ps))
  | None => g1
  end.

(** [this.enemySpawner.update(dt)] *)
Definition updateSpawner (H : Host) (dt : Q) (g : t) : t :=
  let '(s, rng') :=
    EnemySpawner.update H dt (waveManager g)
      (Player.getPosition (player g)) (rng g) (enemySpawner g) in
  set_rng (set_enemySpawner g s) rng'.

(** "Update skills": the skill manager's update and the rewards for the
    deaths it reports. *)
Definition updateSkills (H : Host) (dt : Q) (g : t) : t :=
  let '(m, es, rng', evs, results) :=
    SkillManager.update H dt (Time.lastTime (time g) / 1000)
      (Player.getPosition (player g)) (enemies g) (rng g)
      (Player.getSkillManager (player g)) in
  let g1 :=
    emit evs
      (set_rng
         (set_enemies
            (set_player g (Player.set_skillManager (player g) m)) es)
         rng') in
  fold_left (fun acc e => rewardKill H e acc) results g1.

Definition updateProjectiles (dt : Q) (g : t) : t :=
  set_projectiles g
    (filter (fun p => negb (Projectile.isDestroyed p))
       (map (Projectile.update dt) (projectiles g))).

Definition updateGems (H : Host) (dt : Q) (g : t) : t :=
  set_experienceGems g
    (filter (fun x => negb (ExperienceGem.isCollected x))
       (map (ExperienceGem.update H dt (Player.getPosition (player g)))
          (experienceGems g))).

Definition spawnBoss (H : Host) (g : t) : t :=
  let g1 := emit [PlaySound cue_bossAlert; ShowWarning]
              (set_bossSpawned g true) in
  let angle := Math_random H (rng g1) * Math_PI H * 2 in
  let spawnDist := 35 in
  let pPos := Player.getPosition (player g1) in
  let pos := Vector3.mk
    (Vector3.x pPos + Math_cos H angle * spawnDist)
    0
    (Vector3.z pPos + Math_sin H angle * spawnDist) in
  emit [ShowBossBar]
    (set_rng (set_boss g1 (Some (Boss.start Boss.new pos))) (S (rng g1))).

(** [triggerVictory()]; it is called with [this.boss] set. *)
Definition triggerVictory (g : t) : t :=
  let g1 :=
    set_slowMoTimer (set_slowMoScale (set_isVictory g true) 0.2) 3.0 in
  let g2 :=
    emit (repeat SpawnExplosion 30 ++ [PlaySound cue_victory; HideBossBar])
      g1 in
  match boss g2 with
  | Some b =>
      let g3 := gainXp (Boss.getXpValue b) g2 in
      let g4 :=
        set_uiManager g3 (UIManager.updateScore 1000 (uiManager g3)) in
      set_boss g4 (Some (Boss.destroy b))
  | None => g2
  end.

(** The projectile loop of [checkBossCollisions], on the projectiles in
    the order the loop visits them (last to first): those it leaves in the
    array, the boss, the events, and whether the boss died. *)
Fixpoint hitBoss (H : Host) (ps : list Projectile.t) (b : Boss.t)
  : list Projectile.t * Boss.t * list Event * bool :=
  match ps with
  | [] => ([], b, [], false)
  | p :: r =>
      if Projectile.isDestroyed p then
        let '(kept, b1, evs, died) := hitBoss H r b in
        (p :: kept, b1, evs, died)
      else if Vector3.distanceTo H (Projectile.getPosition p)
                (Boss.getPosition b) <? 3.0 then
        let dmg := Projectile.getDamage p in
        let '(b1, died) := Boss.takeDamage dmg b in
        if died then (r, b1, [FloatingText dmg; PlaySound cue_hit], true)
        else
          let '(kept, b2, evs, died') := hitBoss H r b1 in
          (kept, b2, FloatingText dmg :: PlaySound cue_hit :: evs, died')
      else
        let '(kept, b1, evs, died) := hitBoss H r b in
        (p :: kept, b1, evs, died)
  end.

Definition checkBossCollisions (H : Host) (g : t) : t :=
  match boss g with
  | None => g
  | Some b =>
      if Boss.isDestroyed b then g
      else
        let bossPos := Boss.getPosition b in
        let pPos := Player.getPosition (player g) in
        (* player against boss *)
        let g0 := emit [EnterPass PlayerBossContact] g in
        let g3 :=
          if Vector3.distanceTo H pPos bossPos <? 3.0 then
            let g1 := set_contactDmgTimer g0
                        (contactDmgTimer g0 + Time.deltaTime (time g0)) in
            if contactDmgTimer g1 >=? contactDmgInterval g1 then
              let g2 := set_contactDmgTimer g1 0 in
              let '(p, dead) :=
                Player.takeDamage (Boss.getContactDamage b) (player g2) in
              if dead then gameOver (set_player g2 p) else set_player g2 p
            else g1
          else g0 in
        (* projectiles against boss *)
        let g4 := emit [EnterPass ProjectileBoss] g3 in
        let '(kept, b', evs, died) :=
          hitBoss H (rev (projectiles g4)) b in
        let g5 :=
          emit evs (set_boss (set_projectiles g4 (rev kept)) (Some b')) in
        if died then triggerVictory g5 else g5
  end.

(** The scan of [checkPlayerEnemyCollisions]: [(inContact, totalDmg)]. *)
Definition contactScan (H : Host) (pPos : Vector3.t) (collisionDist : Q)
    (es : list Enemy.t) : bool * Q :=
  fold_left
    (fun acc e =>
       if Vector3.distanceTo H pPos (Enemy.getPosition e) <? collisionDist
       then (true, snd acc + Enemy.getContactDamage e) else acc)
    es (false, 0).

Definition checkPlayerEnemyCollisions (H : Host) (dt : Q) (g : t) : t :=
  let g0 := emit [EnterPass PlayerEnemyContact] g in
  let pPos := Player.getPosition (player g0) in
  let g1 := set_contactDmgTimer g0 (contactDmgTimer g0 + dt) in
  let '(inContact, totalDmg) :=
    contactScan H pPos (collisionDist g1) (enemies g1) in
  if inContact && (contactDmgTimer g1 >=? contactDmgInterval g1) then
    let g2 := set_contactDmgTimer g1 0 in
    let '(p, dead) := Player.takeDamage totalDmg (player g2) in
    if dead then gameOver (set_player g2 p) else set_player g2 p
  else g1.

(** The inner loop of [checkProjectileEnemyCollisions], on the enemies in
    the order the loop visits them (last to first): the first enemy that
    is not destroyed and within reach takes the damage.  The array after
    the hit (same order), the enemy hit and whether it died. *)
Fixpoint hitFirst (H : Host) (pos : Vector3.t) (hitDist dmg : Q)
    (es : list Enemy.t) : option (list Enemy.t * Enemy.t * bool) :=
  match es with
  | [] => None
  | e :: r =>
      if negb (Enemy.isDestroyed e)
         && (Vector3.distanceTo H pos (Enemy.getPosition e) <? hitDist)
      then
        let '(e', died) := Enemy.takeDamage dmg e in
        Some (e' :: r, e', died)
      else
        match hitFirst H pos hitDist dmg r with
        | Some (r', e', died) => Some (e :: r', e', died)
        | None => None
        end
  end.

(** The body of the outer loop for one projectile: whether the projectile
    is destroyed and spliced out, and the game after. *)
Definition hitEnemy (H : Host) (p : Projectile.t) (g : t) : bool * t :=
  if Projectile.isDestroyed p then (false, g)
  else
    match hitFirst H (Projectile.getPosition p) (projectileHitDist g)
            (Projectile.getDamage p) (rev (enemies g)) with
    | None => (false, g)
    | Some (es, e, died) =>
        let g1 :=
          emit [FloatingText (Projectile.getDamage p)]
            (set_enemies g (rev es)) in
        (true,
         if died then rewardKill H e g1
         else emit [PlaySound cue_hit] g1)
    end.

(** The outer loop, on the projectiles in the order it visits them (last
    to first): the projectiles left in the array, and the game after. *)
Fixpoint resolveProjectiles (H : Host) (ps : list Projectile.t) (g : t)
  : list Projectile.t * t :=
  match ps with
  | [] => ([], g)
  | p :: r =>
      let '(removed, g1) := hitEnemy H p g in
      let '(kept, g2) := resolveProjectiles H r g1 in
      (if removed then kept else p :: kept, g2)
  end.

Definition checkProjectileEnemyCollisions (H : Host) (g : t) : t :=
  let g0 := emit [EnterPass ProjectileEnemy] g in
  let '(kept, g1) := resolveProjectiles H (rev (projectiles g0)) g0 in
  set_projectiles g1 (rev kept).

(** The loop of [checkGemCollections]. *)
Fixpoint collectGems (H : Host) (gems : list ExperienceGem.t) (g : t)
  : list ExperienceGem.t * t :=
  match gems with
  | [] => ([], g)
  | gem :: r =>
      if negb (ExperienceGem.isCollected gem)
         && (Vector3.distanceTo H (Player.getPosition (player g))
               (ExperienceGem.getPosition gem) <? gemCollectDist g)
      then
        let '(r', g') :=
          collectGems H r (gainXp (ExperienceGem.xpValue gem) g) in
        (ExperienceGem.collect gem :: r', g')
      else
        let '(r', g') := collectGems H r g in
        (gem :: r', g')
  end.

Definition checkGemCollections (H : Host) (g : t) : t :=
  let g0 := emit [EnterPass PlayerGem] g in
  let '(gems, g1) := collectGems H (experienceGems g0) g0 in
  set_experienceGems g1 gems.

(** "Boss spawn check" *)
Definition checkBossSpawn (H : Host) (g : t) : t :=
  if negb (bossSpawned g)
     && (WaveManager.getGameTime (waveManager g) >=? bossSpawnTime g)
  then spawnBoss H g else g.

(** "Update boss" *)
Definition updateBoss (H : Host) (dt : Q) (g : t) : t :=
  match boss g with
  | Some b =>
      if negb (Boss.isDestroyed b) then
        checkBossCollisions H
          (set_boss g
             (Some (Boss.update H (dt * slowMoScale g)
                      (Player.getPosition (player g)) b)))
      else g
  | None => g
  end.

(** "Slow-mo timer" *)
Definition updateSlowMo (g : t) : t :=
  if slowMoTimer g >? 0 then
    let g1 := set_slowMoTimer g
                (slowMoTimer g - Time.deltaTime (time g)) in
    if slowMoTimer g1 <=? 0
    then showVictoryScreen (set_slowMoScale g1 1.0)
    else g1
  else g.

(** The part of [update()] before any collision check. *)
Definition updateEntities (H : Host) (dt : Q) (g : t) : t :=
  let g := set_waveManager g (WaveManager.update dt (waveManager g)) in
  let g := updatePlayer H dt g in
  let g := updateSpawner H dt g in
  let g := updateSkills H dt g in
  let g := updateProjectiles dt g in
  let g := updateGems H dt g in
  checkBossSpawn H g.

Definition update (H : Host) (g : t) : t :=
  let dt := Time.deltaTime (time g) in
  let g := updateEntities H dt g in
  let g := updateBoss H dt g in
  let g := updateSlowMo g in
  let g := checkPlayerEnemyCollisions H dt g in
  let g := checkProjectileEnemyCollisions H g in
  checkGemCollections H g.

(** [animate()]; [currentTime] is the [performance.now()] of
    [this.time.update()]. *)
Definition animate (H : Host) (currentTime : Q) (g : t) : t :=
  if isGameOver g && negb (isVictory g) then g
  else
    let g1 := set_time g (Time.update currentTime (time g)) in
    if negb (isPaused g1) then update H g1 else g1.

Definition applyUpgrade (H : Host) (id : UpgradeId) (g : t) : t :=
  set_player g
    match id with
    | up_pistol =>
        Player.switchWeapon pistol (Player.upgradePistol (player g))
    | up_shotgun =>
        Player.switchWeapon shotgun (Player.upgradeShotgun H (player g))
    | up_orbital => Player.addSkill H orbital (player g)
    | up_thunder => Player.addSkill H thunder (player g)
    | up_heal => Player.healPercent 50 (player g)
    end.

(** The callback [triggerLevelUp] hands to the menu. *)
Definition selectUpgrade (H : Host) (id : UpgradeId) (g : t) : t :=
  set_isPaused (applyUpgrade H id g) false.

(** [restart()]; [currentTime] is the [performance.now()] of the
    [animate()] it ends with. *)
Definition restart (H : Host) (currentTime : Q) (g : t) : t :=
  let g := set_experienceGems (set_projectiles g []) [] in
  let g :=
    fold_left
      (fun acc e =>
         set_enemySpawner acc
           (EnemySpawner.removeEnemy e (enemySpawner acc)))
      (enemies g) g in
  let g := set_player g (Player.new H) in
  let g := set_enemySpawner g (EnemySpawner.set_timer (enemySpawner g) 0) in
  let g := set_waveManager g (WaveManager.mk 0 1 1) in
  let g :=
    emit [HideBossBar] (set_uiManager g (UIManager.reset (uiManager g))) in
  let g :=
    set_isVictory
      (set_isPaused (set_isGameOver (set_contactDmgTimer g 0) false) false)
      false in
  let g := set_boss g None in
  let g := set_slowMoTimer (set_slowMoScale (set_bossSpawned g false) 1.0) 0 in
  animate H currentTime g.

End GameManager.

(** ** The specification's formulas, in its own words *)

Module Spec.

(** "derived health-multiplier = 1 + floor(elapsedTime/60)*0.5" *)
Definition healthMultiplier (elapsedTime : Q) : Q :=
  1 + inject_Z (Qfloor (elapsedTime / 60)) * (1 # 2).

(** "derived spawn-multiplier = max(0.3, 1 - floor(elapsedTime/30)*0.1)" *)
Definition spawnMultiplier (elapsedTime : Q) : Q :=
  Qmax (3 # 10) (1 - inject_Z (Qfloor (elapsedTime / 30)) * (1 # 10)).

(** The order of the passes of section 4.2 of the specification. *)
Definition passOrder : list CollisionPass :=
  [PlayerEnemyContact; PlayerBossContact; ProjectileEnemy; ProjectileBoss;
   PlayerGem].

End Spec.

(** ** Runs of parts of the game *)

(** The wave manager after the frames of durations [dts], oldest first. *)
Definition runWave (dts : list Q) : WaveManager.t :=
  fold_left (fun w dt => WaveManager.update dt w) dts WaveManager.new.

(** What changes the player's health. *)
Inductive HealthEvent :=
| Damage (amt : Q)
| Regen (dt : Q)
| Heal (amt : Q)
| HealPercent (pct : Q).

Definition applyHealthEvent (p : Player.t) (ev : HealthEvent) : Player.t :=
  match ev with
  | Damage amt => fst (Player.takeDamage amt p)
  | Regen dt => Player.handleRegen dt p
  | Heal amt => Player.heal amt p
  | HealPercent pct => Player.healPercent pct p
  end.

Definition runHealth (evs : list HealthEvent) (p : Player.t) : Player.t :=
  fold_left applyHealthEvent evs p.

Definition nonNegativeDamage (ev : HealthEvent) : Prop :=
  match ev with
  | Damage amt => 0 <= amt
  | _ => True
  end.

Definition isFloatingText (ev : Event) : bool :=
  match ev with FloatingText _ => true | _ => false end.

(** Number of damage numbers (one per resolved hit) in a list of events. *)
Definition floatingTexts (evs : list Event) : nat :=
  List.length (filter isFloatingText evs).

(** ** Views of the game state used in the statements *)

Definition bossAlive (g : GameManager.t) : bool :=
  match GameManager.boss g with
  | Some b => negb (Boss.isDestroyed b)
  | None => false
  end.

(** The fields the contact passes decide on, apart from the bodies. *)
Definition contactClock (g : GameManager.t) : Time.t * Q * Q * Q :=
  (GameManager.time g, GameManager.collisionDist g,
   GameManager.contactDmgInterval g, GameManager.contactDmgTimer g).

(** The player's body: where it stands, its health and its maximum. *)
Definition playerBody (g : GameManager.t) : Vector3.t * Q * Q :=
  (Player.position (GameManager.player g),
   Player.currentHealth (GameManager.player g),
   Player.maxHealth (GameManager.player g)).

Definition playerPosition (g : GameManager.t) : Vector3.t :=
  Player.getPosition (GameManager.player g).

(** The state in which [update] calls [checkBossCollisions], when a boss
    exists: the entities have been updated and the boss has moved. *)
Definition bossCheckState (H : Host) (g : GameManager.t) : GameManager.t :=
  let dt := Time.deltaTime (GameManager.time g) in
  let m := GameManager.updateEntities H dt g in
  match GameManager.boss m with
  | Some b =>
      GameManager.set_boss m
        (Some (Boss.update H (dt * GameManager.slowMoScale m)
                 (Player.getPosition (GameManager.player m)) b))
  | None => m
  end.

(** Whether projectile [p] can hit enemy [e]: the test of the inner loop of
    [checkProjectileEnemyCollisions]. *)
Definition inReach (H : Host) (g : GameManager.t) (p : Projectile.t)
    (e : Enemy.t) : bool :=
  negb (Enemy.isDestroyed e)
  && (Vector3.distanceTo H (Projectile.getPosition p) (Enemy.getPosition e)
      <? GameManager.projectileHitDist g).

Definition isShowVictory (ev : Event) : bool :=
  match ev with ShowVictory => true | _ => false end.

(** The passes [checkBossCollisions] enters in state [g]. *)
Definition bossPasses (g : GameManager.t) : list CollisionPass :=
  if bossAlive g then [PlayerBossContact; ProjectileBoss] else [].

(** The wave manager's multipliers are those the specification derives from
    its elapsed time. *)
Definition waveDerived (w : WaveManager.t) : Prop :=
  WaveManager.healthMult w == Spec.healthMultiplier (WaveManager.gameTime w)
  /\ WaveManager.spawnMult w == Spec.spawnMultiplier (WaveManager.gameTime w).

(** [g1] and [g2] differ at most in [slowMoScale]. *)
Definition sameButScale (g1 g2 : GameManager.t) : Prop :=
  GameManager.set_slowMoScale g1 0 = GameManager.set_slowMoScale g2 0.

(** A step of the frame that neither reads nor writes [slowMoScale]. *)
Definition ignoresScale (f : GameManager.t -> GameManager.t) : Prop :=
  forall g s,
    f (GameManager.set_slowMoScale g s) = GameManager.set_slowMoScale (f g) s.

(** ** The invariant of a run *)

(** The player's health is at most its maximum. *)
Definition healthBounded (g : GameManager.t) : Prop :=
  Player.currentHealth (GameManager.player g)
  <= Player.maxHealth (GameManager.player g).

(** What holds of every enemy in the spawner's array: its contact damage is
    not negative, and it is not destroyed ([removeEnemy] splices out the
    enemies it destroys). *)
Definition enemyOk (e : Enemy.t) : Prop :=
  0 <= Enemy.contactDamage e /\ Enemy.isDestroyed e = false.

(** Every enemy in the array is as above, and the boss's contact damage is
    not negative. *)
Definition bodiesOk (g : GameManager.t) : Prop :=
  Forall enemyOk (GameManager.enemies g)
  /\ match GameManager.boss g with
     | Some b => 0 <= Boss.contactDamage b
     | None => True
     end.

Definition frameInvariant (g : GameManager.t) : Prop :=
  healthBounded g /\ bodiesOk g.

(** The states of a run: the game as constructed, then frames, restarts,
    menu choices and input events, in any order.  [performance.now()] is a
    monotonic clock: a reading is never below the one before it. *)
Inductive Reachable (H : Host) : GameManager.t -> Prop :=
| reach_new (now : Q) : Reachable H (GameManager.new H now)
| reach_animate (currentTime : Q) (g : GameManager.t) :
    Reachable H g ->
    Time.lastTime (GameManager.time g) <= currentTime ->
    Reachable H (GameManager.animate H currentTime g)
| reach_restart (currentTime : Q) (g : GameManager.t) :
    Reachable H g ->
    Time.lastTime (GameManager.time g) <= currentTime ->
    Reachable H (GameManager.restart H currentTime g)
| reach_select (id : UpgradeId) (g : GameManager.t) :
    Reachable H g -> Reachable H (GameManager.selectUpgrade H id g)
| reach_input (i : InputManager.t) (g : GameManager.t) :
    Reachable H g -> Reachable H (GameManager.set_inputManager g i).

(** The states that follow [g] in the same game: frames, menu choices and
    input events, but no restart. *)
Inductive Continues (H : Host) (g : GameManager.t) : GameManager.t -> Prop :=
| cont_here : Continues H g g
| cont_animate (currentTime : Q) (g' : GameManager.t) :
    Continues H g g' ->
    Time.lastTime (GameManager.time g') <= currentTime ->
    Continues H g (GameManager.animate H currentTime g')
| cont_select (id : UpgradeId) (g' : GameManager.t) :
    Continues H g g' -> Continues H g (GameManager.selectUpgrade H id g')
| cont_input (i : InputManager.t) (g' : GameManager.t) :
    Continues H g g' -> Continues H g (GameManager.set_inputManager g' i).

(** ** Concrete games, on [exampleHost] *)

(** The game after its first frame, of 0.1 s. *)
Definition firstFrame : GameManager.t :=
  GameManager.animate exampleHost 100 (GameManager.new exampleHost 0).

(** A game in which the boss (contact damage 50) touches a player who has
    30 HP left, with the contact timer 0.05 s short of its interval and a
    frame of 0.1 s about to run. *)
Definition lethalContactGame : GameManager.t :=
  let g := GameManager.new exampleHost 0 in
  GameManager.set_player
    (GameManager.set_contactDmgTimer
       (GameManager.set_boss
          (GameManager.set_bossSpawned
             (GameManager.set_time g (Time.mk 0.1 100)) true)
          (Some (Boss.start Boss.new (Vector3.mk 0.9 0 0))))
       0.45)
    (Player.set_currentHealth (GameManager.player g) 30).

(** The same contact with a player at full health and the contact timer
    at 0. *)
Definition bossContactGame : GameManager.t :=
  let g := GameManager.new exampleHost 0 in
  GameManager.set_boss
    (GameManager.set_bossSpawned
       (GameManager.set_time g (Time.mk 0.1 100)) true)
    (Some (Boss.start Boss.new (Vector3.mk 0.9 0 0))).

(** The boss of [bossContactGame] once it has moved for the frame. *)
Definition movedBoss : Boss.t :=
  match GameManager.boss (bossCheckState exampleHost bossContactGame) with
  | Some b => b
  | None => Boss.new
  end.

(** A thunder strike whose cooldown of 3 s has run out. *)
Definition expiredThunder : ThunderStrike.t := ThunderStrike.mk 1 true 3 3 50.

(** Two normal enemies at distance 5/8 of a projectile that the pistol has
    just fired from the player's position (0, 1, 0). *)
Definition twoEnemies : list Enemy.t :=
  [Enemy.start (Enemy.new 0 normal) (Vector3.mk (3 # 8) 0 0) 1;
   Enemy.start (Enemy.new 1 normal) (Vector3.mk (- (3 # 8)) 0 0) 1].

Definition pistolShot : list Projectile.t :=
  Weapon.fire exampleHost (Weapon.new exampleHost pistol)
    (Vector3.mk 0 1 0) (Vector3.mk (3 # 8) (1 # 2) 0).

Definition pistolShotGame : GameManager.t :=
  let g := GameManager.new exampleHost 0 in
  GameManager.set_projectiles (GameManager.set_enemies g twoEnemies)
    pistolShot.

(** A frame of 0.1 s after which a pistol projectile, the boss and a normal
    enemy all stand at x = 10: the projectile is within reach of both. *)
Definition crossfireGame : GameManager.t :=
  let g := GameManager.set_time (GameManager.new exampleHost 0)
             (Time.mk 0.1 100) in
  GameManager.set_projectiles
    (GameManager.set_enemies
       (GameManager.set_boss (GameManager.set_bossSpawned g true)
          (Some (Boss.start Boss.new (Vector3.mk 10.15 0 0))))
       [Enemy.start (Enemy.new 0 normal) (Vector3.mk 10.3 0 0) 1])
    (Weapon.fire exampleHost (Weapon.new exampleHost pistol)
       (Vector3.mk 7.5 1 0) (Vector3.mk 10.3 0.5 0)).

(** A boss with 1 HP left and a pistol projectile about to reach it. *)
Definition weakBoss : Boss.t :=
  fst (Boss.takeDamage 4999 (Boss.start Boss.new (Vector3.mk 10 0 0))).

Definition bossKillGame : GameManager.t :=
  let g := GameManager.new exampleHost 0 in
  GameManager.set_projectiles
    (GameManager.set_boss (GameManager.set_bossSpawned g true)
       (Some weakBoss))
    (Weapon.fire exampleHost (Weapon.new exampleHost pistol)
       (Vector3.mk 8 1 0) (Vector3.mk 10 2 0)).

(** The run from [bossKillGame]: the frame of the kill (0.1 s), the choice
    in the level-up menu that the boss's XP opens, then three frames of one
    second each. *)
Definition afterKill : GameManager.t :=
  GameManager.animate exampleHost 100 bossKillGame.

Definition afterKill1 : GameManager.t :=
  GameManager.animate exampleHost 1100
    (GameManager.selectUpgrade exampleHost up_heal afterKill).

Definition afterKill2 : GameManager.t :=
  GameManager.animate exampleHost 2100 afterKill1.

Definition afterKill3 : GameManager.t :=
  GameManager.animate exampleHost 3100 afterKill2.

(** ** Runs and views used by the further properties *)

(** The sum of a list of numbers. *)
Definition Qsum (l : list Q) : Q := fold_right Qplus 0 l.

(** A projectile after the frames of durations [dts], oldest first. *)
Definition fly (dts : list Q) (p : Projectile.t) : Projectile.t :=
  fold_left (fun p dt => Projectile.update dt p) dts p.

(** The [deltaTime] of each frame when [Time.update] reads the clock values
    [ts], oldest first. *)
Fixpoint frameTimes (ts : list Q) (tm : Time.t) : list Q :=
  match ts with
  | [] => []
  | t :: r =>
      Time.deltaTime (Time.update t tm) :: frameTimes r (Time.update t tm)
  end.

(** A projectile as [Weapon.fire] pushes it, for weapon [w] fired from
    [playerPos]. *)
Definition projectileAsFired (w : Weapon.t) (playerPos : Vector3.t)
    (p : Projectile.t) : Prop :=
  Projectile.damage p = Weapon.damage w
  /\ Projectile.position p = Vector3.set_y playerPos 1
  /\ Vector3.y (Projectile.direction p) = 0
  /\ Projectile.age p = 0
  /\ Projectile.isDestroyed p = false.

(** The angle of the [i]-th projectile of a spread, [-half + spreadAngle * i]
    in [Weapon.fire]. *)
Definition fanAngle (w : Weapon.t) (i : nat) : Q :=
  - (Weapon.spreadAngle w * (inject_Z (Weapon.projectileCount w) - 1) / 2)
  + Weapon.spreadAngle w * inject_Z (Z.of_nat i).

(** A shotgun of level [lvl] with [cnt] projectiles and damage [dmg]. *)
Definition shotgunAt (H : Host) (lvl cnt : Z) (dmg : Q) (w : Weapon.t)
  : Prop :=
  Weapon.type w = shotgun
  /\ Weapon.level w = lvl
  /\ Weapon.damage w == dmg
  /\ Weapon.projectileCount w = cnt
  /\ Weapon.fireRate w = 1.2
  /\ Weapon.range w = 8
  /\ Weapon.spreadAngle w = Math_PI H / 8.

(** The distance [findClosestEnemy] and [handleShooting] compare. *)
Definition enemyDistance (H : Host) (p : Player.t) (e : Enemy.t) : Q :=
  Vector3.distanceTo H (Player.position p) (Enemy.getPosition e).

(** The square of the distance from [a] to [b] in the horizontal plane. *)
Definition horizontalDistSq (a b : Vector3.t) : Q :=
  (Vector3.x a - Vector3.x b) * (Vector3.x a - Vector3.x b)
  + (Vector3.z a - Vector3.z b) * (Vector3.z a - Vector3.z b).

(** The identity of cosine and sine, which the host's functions satisfy at
    an angle up to rounding. *)
Definition onUnitCircle (H : Host) (angle : Q) : Prop :=
  Math_cos H angle * Math_cos H angle + Math_sin H angle * Math_sin H angle
  == 1.

(** A host whose cosine and sine are rational and satisfy the identity
    exactly at every angle: the half-angle parametrisation of the circle,
    with [angle / 2] in the place of the tangent of the half angle. *)
Definition circleHost : Host := {|
  Math_sqrt := fun q => Qred (sqrt_floor q);
  Math_cos := fun a => Qred ((1 - a / 2 * (a / 2)) / (1 + a / 2 * (a / 2)));
  Math_sin := fun a => Qred (2 * (a / 2) / (1 + a / 2 * (a / 2)));
  Math_PI := 355 # 113;
  Math_random := fun _ => 1 # 4
|}.

(** Every draw of [Math.random] is in [[0, 1)]. *)
Definition randomInRange (H : Host) : Prop :=
  forall k, 0 <= Math_random H k < 1.

(** The skill [addSkill] creates and starts for a type it does not hold. *)
Definition startedSkill (H : Host) (ty : SkillType) : Skill :=
  match ty with
  | orbital => OrbitalSkill (OrbitalShield.start H OrbitalShield.new)
  | thunder => ThunderSkill (ThunderStrike.start ThunderStrike.new)
  end.

(** The shield after [n] upgrades, from the shield [addSkill] creates and
    starts. *)
Definition upgradedShield (H : Host) (n : nat) : OrbitalShield.t :=
  Nat.iter n OrbitalShield.upgrade (OrbitalShield.start H OrbitalShield.new).

(** The orbitals of a shield after its [update]. *)
Definition orbitalsAfter (H : Host) (dt now : Q) (playerPos : Vector3.t)
    (enemies : list Enemy.t) (s : OrbitalShield.t)
  : list OrbitalShield.Orbital :=
  let '(s', _, _, _) := OrbitalShield.update H dt now playerPos enemies s in
  OrbitalShield.orbitals s'.

(** A particle as [spawnExplosion] starts it at [pos], for random draws in
    [[0, 1)]. *)
Definition particleAsSpawned (pos : Vector3.t) (p : Particle.t) : Prop :=
  Particle.position p = pos
  /\ Particle.age p = 0
  /\ Particle.isDestroyed p = false
  /\ Particle.lifetime p = 0.5
  /\ Particle.scale p = Particle.initialScale p
  /\ 0.8 <= Particle.initialScale p < 1.2
  /\ -5 <= Vector3.x (Particle.velocity p) < 5
  /\ 2 <= Vector3.y (Particle.velocity p) < 10
  /\ -5 <= Vector3.z (Particle.velocity p) < 5.

(** [g'] is [g] after [n] kills: [n] enemies less, [n] gems more, [n] kills
    and [10 n] points counted, [n] random draws made. *)
Definition afterKills (n : nat) (g g' : GameManager.t) : Prop :=
  (List.length (GameManager.enemies g') + n
   = List.length (GameManager.enemies g))%nat
  /\ List.length (GameManager.experienceGems g')
     = (List.length (GameManager.experienceGems g) + n)%nat
  /\ UIManager.getKills (GameManager.uiManager g')
     = (UIManager.getKills (GameManager.uiManager g) + Z.of_nat n)%Z
  /\ UIManager.getScore (GameManager.uiManager g')
     == UIManager.getScore (GameManager.uiManager g)
        + 10 * inject_Z (Z.of_nat n)
  /\ GameManager.rng g' = (GameManager.rng g + n)%nat.

(** The test of [checkGemCollections] on a gem, in state [g]. *)
Definition gemInReach (H : Host) (g : GameManager.t) (gem : ExperienceGem.t)
  : bool :=
  negb (ExperienceGem.isCollected gem)
  && (Vector3.distanceTo H (Player.getPosition (GameManager.player g))
        (ExperienceGem.getPosition gem) <? GameManager.gemCollectDist g).

(** What no step of a frame writes once the wave manager is updated: the
    clock, the input, the wave manager, the distances and intervals the
    constructor sets, and the constants of the spawner. *)
Definition steadyPart (g : GameManager.t)
  : Time.t * InputManager.t * WaveManager.t * (Q * Q * Q * Q * Q)
    * (Q * Q * Q) :=
  (GameManager.time g, GameManager.inputManager g, GameManager.waveManager g,
   (GameManager.collisionDist g, GameManager.projectileHitDist g,
    GameManager.gemCollectDist g, GameManager.contactDmgInterval g,
    GameManager.bossSpawnTime g),
   (EnemySpawner.baseInterval (GameManager.enemySpawner g),
    EnemySpawner.spawnDist (GameManager.enemySpawner g),
    EnemySpawner.totalWeight (GameManager.enemySpawner g))).

(** The boss and what the game records of its life. *)
Definition bossPart (g : GameManager.t)
  : option Boss.t * bool * bool * Q * Q :=
  (GameManager.boss g, GameManager.bossSpawned g, GameManager.isVictory g,
   GameManager.slowMoScale g, GameManager.slowMoTimer g).

(** A step of the frame that leaves [steadyPart] as it is, one that leaves
    [bossPart], and one that leaves both. *)
Definition keepsSteady (f : GameManager.t -> GameManager.t) : Prop :=
  forall g, steadyPart (f g) = steadyPart g.

Definition keepsBoss (f : GameManager.t -> GameManager.t) : Prop :=
  forall g, bossPart (f g) = bossPart g.

Definition keepsCalm (f : GameManager.t -> GameManager.t) : Prop :=
  keepsSteady f /\ keepsBoss f.

(** The entity updates of [update()] that come before the boss spawn
    check. *)
Definition updateBodies (H : Host) (dt : Q) (g : GameManager.t)
  : GameManager.t :=
  GameManager.updateGems H dt
    (GameManager.updateProjectiles dt
       (GameManager.updateSkills H dt
          (GameManager.updateSpawner H dt
             (GameManager.updatePlayer H dt
                (GameManager.set_waveManager g
                   (WaveManager.update dt (GameManager.waveManager g))))))).

(** The boss exists exactly once it has been spawned, the victory is
    recorded exactly when it is destroyed, and the slow-motion scalar is at
    1.0 outside the window that the victory opens. *)
Definition bossLifecycle (g : GameManager.t) : Prop :=
  match GameManager.boss g with
  | None =>
      GameManager.bossSpawned g = false /\ GameManager.isVictory g = false
  | Some b =>
      GameManager.bossSpawned g = true
      /\ GameManager.isVictory g = Boss.isDestroyed b
  end
  /\ (GameManager.slowMoScale g = 1.0
      \/ (GameManager.isVictory g = true /\ 0 < GameManager.slowMoTimer g)).

(** The state in which [restart()] calls [animate()]: the constructor's
    game, with the clock, the input, the constants and the counters of
    identities, events and random draws of [g]. *)
Definition restarted (H : Host) (g : GameManager.t) : GameManager.t :=
  let s := GameManager.enemySpawner g in
  GameManager.mk (GameManager.time g) (GameManager.inputManager g)
    UIManager.new WaveManager.new (Player.new H)
    (EnemySpawner.mk [] (EnemySpawner.baseInterval s) 0
       (EnemySpawner.spawnDist s) (EnemySpawner.totalWeight s)
       (EnemySpawner.nextId s))
    [] [] false false
    (GameManager.collisionDist g) (GameManager.projectileHitDist g)
    (GameManager.gemCollectDist g) 0 (GameManager.contactDmgInterval g)
    None false (GameManager.bossSpawnTime g) false 1.0 0
    (GameManager.events g ++ [HideBossBar]) (GameManager.rng g).

(** Three enemies with distinct identities, for the examples. *)
Definition threeEnemies : list Enemy.t :=
  [Enemy.new 0 normal; Enemy.new 1 runner; Enemy.new 2 tank].

(** ** Views used for the health, the hits, the strike and the motion *)

(** What decides whether the player is alive: the game-over flag, the
    health and the regeneration rate. *)
Definition vital (g : GameManager.t) : bool * Q * Q :=
  (GameManager.isGameOver g,
   Player.currentHealth (GameManager.player g),
   Player.healthRegen (GameManager.player g)).

(** Unless the game is over the player's health is positive (and the
    regeneration rate is not negative). *)
Definition aliveOk (g : GameManager.t) : Prop :=
  0 <= Player.healthRegen (GameManager.player g)
  /\ (GameManager.isGameOver g = false ->
      0 < Player.currentHealth (GameManager.player g)).

(** Whether projectile [p] hits an enemy when the loop of
    [checkProjectileEnemyCollisions] reaches it in state [g]: it is not
    destroyed and some enemy of the array is within reach. *)
Definition canHit (H : Host) (g : GameManager.t) (p : Projectile.t) : bool :=
  negb (Projectile.isDestroyed p)
  && existsb (inReach H g p) (GameManager.enemies g).

(** The strike of a ThunderStrike of damage [dmg] on [enemies], in the
    result [r] of its [update]: the timer is back at 0, one valid enemy has
    lost [dmg] health and one damage number is shown. *)
Definition thunderFires (dmg : Q) (enemies : list Enemy.t)
    (r : ThunderStrike.t * list Enemy.t * nat * list Event * SkillResult)
  : Prop :=
  exists l1 e l2,
    enemies = l1 ++ e :: l2
    /\ In e (ThunderStrike.validEnemies enemies)
    /\ ThunderStrike.timer (fst (fst (fst (fst r)))) = 0
    /\ snd (fst (fst (fst r))) = l1 ++ fst (Enemy.takeDamage dmg e) :: l2
    /\ Enemy.health (fst (Enemy.takeDamage dmg e)) = Enemy.health e - dmg
    /\ snd (fst r) = [FloatingText dmg].

(** The ThunderStrike after the ticks of durations [dts], oldest first, in
    each of which the enemy array is empty. *)
Definition idleTicks (H : Host) (dts : list Q) (rng : nat)
    (s : ThunderStrike.t) : ThunderStrike.t :=
  fold_left
    (fun s dt => fst (fst (fst (fst (ThunderStrike.update H dt [] rng s)))))
    dts s.

(** The enemy array that [update()] hands to the skill manager in the frame
    it computes from [g]: the array after the player's and the spawner's
    updates. *)
Definition skillsArray (H : Host) (g : GameManager.t) : list Enemy.t :=
  let dt := Time.deltaTime (GameManager.time g) in
  GameManager.enemies
    (GameManager.updateSpawner H dt
       (GameManager.updatePlayer H dt
          (GameManager.set_waveManager g
             (WaveManager.update dt (GameManager.waveManager g))))).

(** The host's square root is exact at [q]. *)
Definition exactSqrtAt (H : Host) (q : Q) : Prop :=
  0 <= Math_sqrt H q /\ Math_sqrt H q * Math_sqrt H q == q.

(** The step of [Enemy.update] and [Boss.update] from [pos] to [pos'], for
    a body of speed [speed] whose target stands at [target], over a frame of
    [dt].  With [l] the length the host computes for the horizontal vector
    to the target (1 in its place when it is 0), the vector to the target
    is scaled by [1 - speed dt / l]; where the host's square root is exact
    and the body is away from the target, the distance [l] becomes
    [|l - speed dt|]; at the point below the target the body stays. *)
Definition pursues (H : Host) (speed dt : Q) (target pos pos' : Vector3.t)
  : Prop :=
  let v := Vector3.set_y (Vector3.subVectors target pos) 0 in
  let l := Vector3.length H v in
  let s := if Qeq_bool l 0 then 1 else l in
  Vector3.y pos' = Vector3.y pos
  /\ horizontalDistSq target pos'
     == horizontalDistSq target pos
        * ((1 - speed * dt / s) * (1 - speed * dt / s))
  /\ (exactSqrtAt H (Vector3.lengthSq v) ->
      0 < horizontalDistSq target pos ->
      horizontalDistSq target pos' == (l - speed * dt) * (l - speed * dt))
  /\ (horizontalDistSq target pos == 0 ->
      Vector3.x pos' == Vector3.x pos /\ Vector3.z pos' == Vector3.z pos).

(** ** A run to the victory, on [exampleHost]

    The pistol is upgraded 90 times, to a damage above the boss's 5000 HP.
    The first frame, of 58 s, spawns an enemy; the second, of 1.8 s, spawns
    another, which it leaves 14.6 away from the player.  In the third, of
    1.3 s, the game time passes 60 s: the player fires at that enemy, the
    boss is spawned 35 away on the same side, and the projectile ends the
    frame next to the boss and kills it. *)
Definition armedGame : GameManager.t :=
  Nat.iter 90 (GameManager.selectUpgrade exampleHost up_pistol)
    (GameManager.new exampleHost 0).

Definition beforeBoss : GameManager.t :=
  GameManager.animate exampleHost 59800
    (GameManager.animate exampleHost 58000 armedGame).

Definition victoryRun : GameManager.t :=
  GameManager.animate exampleHost 61100 beforeBoss.

(** The game goes on: the level-up menu that the boss's XP opened is
    answered, and a frame of 0.5 s runs. *)
Definition afterVictory : GameManager.t :=
  GameManager.animate exampleHost 61600
    (GameManager.selectUpgrade exampleHost up_heal victoryRun).

(** The two boss flags that are set in [g] are set in [g']. *)
Definition keepsSet (g g' : GameManager.t) : Prop :=
  (GameManager.bossSpawned g = true -> GameManager.bossSpawned g' = true)
  /\ (GameManager.isVictory g = true -> GameManager.isVictory g' = true).

(** * Properties *)

(** ** Comparisons *)

Lemma Qleb_true (x y : Q) : (x <=? y) = true <-> x <= y.
Proof. unfold Qleb. apply Qle_bool_iff. Qed.

Lemma Qleb_false (x y : Q) : (x <=? y) = false <-> y < x.
Proof.
  unfold Qleb. rewrite <- not_true_iff_false, Qle_bool_iff.
  split; intro; lra.
Qed.

Lemma Qltb_true (x y : Q) : (x <? y) = true <-> x < y.
Proof.
  unfold Qltb. rewrite negb_true_iff, <- not_true_iff_false, Qle_bool_iff.
  split; intro; lra.
Qed.

Lemma Qltb_false (x y : Q) : (x <? y) = false <-> y <= x.
Proof. unfold Qltb. rewrite negb_false_iff. apply Qle_bool_iff. Qed.

Lemma Qgeb_true (x y : Q) : (x >=? y) = true <-> y <= x.
Proof. unfold Qgeb. apply Qle_bool_iff. Qed.

Lemma Qgeb_false (x y : Q) : (x >=? y) = false <-> x < y.
Proof.
  unfold Qgeb. rewrite <- not_true_iff_false, Qle_bool_iff.
  split; intro; lra.
Qed.

Lemma Qgtb_true (x y : Q) : (x >? y) = true <-> y < x.
Proof.
  unfold Qgtb. rewrite negb_true_iff, <- not_true_iff_false, Qle_bool_iff.
  split; intro; lra.
Qed.

Lemma Qgtb_false (x y : Q) : (x >? y) = false <-> x <= y.
Proof. unfold Qgtb. rewrite negb_false_iff. apply Qle_bool_iff. Qed.

Lemma Qmax_eq_compat (a b c d : Q) : a == c -> b == d -> Qmax a b == Qmax c d.
Proof.
  intros Hac Hbd.
  destruct (Q.max_spec a b) as [[? E1] | [? E1]],
           (Q.max_spec c d) as [[? E2] | [? E2]];
    rewrite E1, E2; lra.
Qed.

Lemma Qmin_le_r (a b : Q) : Qmin a b <= b.
Proof. apply Q.le_min_r. Qed.

(** ** WaveManager *)

Lemma waveDerived_new : waveDerived WaveManager.new.
Proof. split; reflexivity. Qed.

Lemma waveDerived_update (dt : Q) (w : WaveManager.t) :
  waveDerived (WaveManager.update dt w).
Proof.
  unfold waveDerived, WaveManager.update, Spec.healthMultiplier,
    Spec.spawnMultiplier, Math_floor; simpl.
  split.
  - lra.
  - apply Qmax_eq_compat; lra.
Qed.

Lemma waveDerived_run (dts : list Q) (w : WaveManager.t) :
  waveDerived w ->
  waveDerived (fold_left (fun w dt => WaveManager.update dt w) dts w).
Proof.
  revert w. induction dts as [| dt dts IH]; intros w Hw; simpl.
  - exact Hw.
  - apply IH, waveDerived_update.
Qed.

Lemma gameTime_run (dts : list Q) (w : WaveManager.t) :
  WaveManager.gameTime
    (fold_left (fun w dt => WaveManager.update dt w) dts w)
  == WaveManager.gameTime w + fold_right Qplus 0 dts.
Proof.
  revert w. induction dts as [| dt dts IH]; intros w; simpl.
  - lra.
  - rewrite IH. simpl. lra.
Qed.

(** C7.  After any sequence of frames, of durations [dts], from a fresh wave
    manager, the elapsed time is the sum of the durations, the health
    multiplier is [1 + floor(t/60) * 0.5] and the spawn multiplier is
    [max(0.3, 1 - floor(t/30) * 0.1)] for the elapsed time [t]. *)
Theorem C7_wave_multipliers (dts : list Q) :
  let w := runWave dts in
  let t := WaveManager.getGameTime w in
  t == fold_right Qplus 0 dts
  /\ WaveManager.getHealthMult w == Spec.healthMultiplier t
  /\ WaveManager.getSpawnMult w == Spec.spawnMultiplier t.
Proof.
  unfold runWave, WaveManager.getGameTime, WaveManager.getHealthMult,
    WaveManager.getSpawnMult. cbv zeta.
  split.
  - rewrite gameTime_run. simpl. lra.
  - apply waveDerived_run, waveDerived_new.
Qed.

(** ** Weapon.upgrade *)

(** C8.  An upgrade raises the level by one.  For the pistol it multiplies
    the fire interval by 0.85 and the damage by 1.1.  For the shotgun it adds
    one projectile when the new level is even and multiplies the damage by
    1.2 when the new level is odd, leaving the other of the two alone. *)
Theorem C8_weapon_upgrade (w : Weapon.t) :
  let w' := Weapon.upgrade w in
  Weapon.level w' = (Weapon.level w + 1)%Z
  /\ Weapon.type w' = Weapon.type w
  /\ (Weapon.type w = pistol ->
      Weapon.fireRate w' == Weapon.fireRate w * 0.85
      /\ Weapon.damage w' == Weapon.damage w * 1.1
      /\ Weapon.projectileCount w' = Weapon.projectileCount w)
  /\ (Weapon.type w = shotgun -> Z.even (Weapon.level w') = true ->
      Weapon.projectileCount w' = (Weapon.projectileCount w + 1)%Z
      /\ Weapon.damage w' == Weapon.damage w
      /\ Weapon.fireRate w' == Weapon.fireRate w)
  /\ (Weapon.type w = shotgun -> Z.odd (Weapon.level w') = true ->
      Weapon.damage w' == Weapon.damage w * 1.2
      /\ Weapon.projectileCount w' = Weapon.projectileCount w
      /\ Weapon.fireRate w' == Weapon.fireRate w).
Proof.
  cbv zeta. unfold Weapon.upgrade.
  destruct (Weapon.type w) eqn:Ety.
  - simpl. repeat split; try reflexivity; try discriminate.
  - destruct ((Weapon.level w + 1) mod 2 =? 0)%Z eqn:Emod; simpl;
      (split; [reflexivity |]); (split; [reflexivity |]);
      (split; [discriminate |]).
    + apply Z.eqb_eq in Emod. split; intros _ Hpar.
      * repeat split; reflexivity.
      * rewrite <- Z.negb_even, Zeven_mod, Emod in Hpar. discriminate.
    + apply Z.eqb_neq in Emod. split; intros _ Hpar.
      * rewrite Zeven_mod in Hpar. apply Z.eqb_eq in Hpar. contradiction.
      * repeat split; reflexivity.
Qed.

(** C8 on the two weapons of the game: a fresh pistol, a fresh shotgun
    (upgraded to the even level 2) and a level-2 shotgun (upgraded to the odd
    level 3). *)
Lemma C8_weapon_upgrade_witness :
  let p := Weapon.new exampleHost pistol in
  let s := Weapon.new exampleHost shotgun in
  let s2 := Weapon.upgrade s in
  (Weapon.fireRate (Weapon.upgrade p) == 0.5 * 0.85
   /\ Weapon.damage (Weapon.upgrade p) == 1 * 1.1
   /\ Weapon.projectileCount (Weapon.upgrade p) = 1%Z)
  /\ (Weapon.projectileCount (Weapon.upgrade s) = (3 + 1)%Z
      /\ Weapon.damage (Weapon.upgrade s) == 1.5
      /\ Weapon.fireRate (Weapon.upgrade s) == 1.2)
  /\ (Weapon.damage (Weapon.upgrade s2) == 1.5 * 1.2
      /\ Weapon.projectileCount (Weapon.upgrade s2) = 4%Z
      /\ Weapon.fireRate (Weapon.upgrade s2) == 1.2).
Proof.
  cbv zeta. split; [| split].
  - apply (C8_weapon_upgrade (Weapon.new exampleHost pistol)). reflexivity.
  - apply (C8_weapon_upgrade (Weapon.new exampleHost shotgun));
      reflexivity.
  - apply (C8_weapon_upgrade
             (Weapon.upgrade (Weapon.new exampleHost shotgun)));
      reflexivity.
Defined.

(** ** Player: experience *)

Lemma gainXp_levelUp (p : Player.t) (amt : Q) :
  Player.xpToNextLevel p <= Player.currentXp p + amt ->
  Player.gainXp amt p =
  (Player.mk (Player.position p) (Player.maxHealth p)
     (Player.currentHealth p) (Player.healthRegen p) (Player.level p + 1)%Z
     (Player.currentXp p + amt - Player.xpToNextLevel p)
     (Math_floor (Player.xpToNextLevel p * Player.xpScaling p))
     (Player.xpScaling p) (Player.moveSpeed p) (Player.weapons_pistol p)
     (Player.weapons_shotgun p) (Player.activeWeapon p) (Player.fireTimer p)
     (Player.skillManager p),
   true).
Proof.
  intros Hge. unfold Player.gainXp.
  apply Qgeb_true in Hge. rewrite Hge. reflexivity.
Qed.

Lemma gainXp_below (p : Player.t) (amt : Q) :
  Player.currentXp p + amt < Player.xpToNextLevel p ->
  Player.gainXp amt p =
  (Player.mk (Player.position p) (Player.maxHealth p)
     (Player.currentHealth p) (Player.healthRegen p) (Player.level p)
     (Player.currentXp p + amt) (Player.xpToNextLevel p)
     (Player.xpScaling p) (Player.moveSpeed p) (Player.weapons_pistol p)
     (Player.weapons_shotgun p) (Player.activeWeapon p) (Player.fireTimer p)
     (Player.skillManager p),
   false).
Proof.
  intros Hlt. unfold Player.gainXp.
  apply Qgeb_false in Hlt. rewrite Hlt. reflexivity.
Qed.

(** C5, as stated, fails: the boss's 500 XP (granted by [triggerVictory])
    given to a fresh player reaches the threshold of 20 and levels the player
    up once, to level 2, leaving 480 XP against the new threshold of 30. *)
Lemma C5_counterexample :
  let p := Player.new exampleHost in
  let amt := Boss.getXpValue Boss.new in
  let r := Player.gainXp amt p in
  Player.xpToNextLevel p <= Player.currentXp p + amt
  /\ snd r = true
  /\ Player.level (fst r) = 2%Z
  /\ Player.currentXp (fst r) == 480
  /\ Player.xpToNextLevel (fst r) == 30
  /\ ~ Player.currentXp (fst r) < Player.xpToNextLevel (fst r).
Proof.
  cbv zeta. vm_compute. repeat split; discriminate.
Qed.

(** C5, amended.  A call of [gainXp] that makes the accumulated XP reach the
    threshold raises the level by exactly one, carries the XP over
    ([xp - threshold]) and sets the threshold to [floor(threshold * 1.5)];
    after it [currentXp < xpToNextLevel] holds when, before the call, the XP
    was below the threshold and the amount gained is at most the new
    threshold.  A call that does not reach the threshold only adds the
    amount. *)
Theorem C5_gainXp_rollover (p : Player.t) (amt : Q) :
  let p' := fst (Player.gainXp amt p) in
  (Player.xpToNextLevel p <= Player.currentXp p + amt ->
   snd (Player.gainXp amt p) = true
   /\ Player.level p' = (Player.level p + 1)%Z
   /\ Player.currentXp p' ==
      Player.currentXp p + amt - Player.xpToNextLevel p
   /\ (Player.xpScaling p == 1.5 ->
       Player.xpToNextLevel p' == Math_floor (Player.xpToNextLevel p * 1.5))
   /\ (Player.currentXp p < Player.xpToNextLevel p ->
       amt <= Player.xpToNextLevel p' ->
       Player.currentXp p' < Player.xpToNextLevel p'))
  /\ (Player.currentXp p + amt < Player.xpToNextLevel p ->
      snd (Player.gainXp amt p) = false
      /\ Player.level p' = Player.level p
      /\ Player.currentXp p' == Player.currentXp p + amt
      /\ Player.xpToNextLevel p' = Player.xpToNextLevel p).
Proof.
  cbv zeta. split; intros Hcmp.
  - rewrite (gainXp_levelUp p amt Hcmp). simpl.
    split; [reflexivity |]. split; [reflexivity |].
    split; [reflexivity |]. split.
    + intros Hsc. unfold Math_floor.
      assert (E : Player.xpToNextLevel p * Player.xpScaling p
                  == Player.xpToNextLevel p * 1.5)
        by (rewrite Hsc; reflexivity).
      rewrite (Qfloor_comp _ _ E). reflexivity.
    + intros Hlt Hamt. lra.
  - rewrite (gainXp_below p amt Hcmp). simpl.
    repeat split; reflexivity.
Qed.

(** C5 on the specification's example: a level-1 player with threshold 20
    gains 25 XP and is at level 2 with 5 XP and threshold 30. *)
Lemma C5_gainXp_rollover_witness :
  let p := Player.new exampleHost in
  let p' := fst (Player.gainXp 25 p) in
  Player.level p' = 2%Z
  /\ Player.currentXp p' == 5
  /\ Player.xpToNextLevel p' == 30
  /\ Player.currentXp p' < Player.xpToNextLevel p'.
Proof.
  cbv zeta.
  destruct (C5_gainXp_rollover (Player.new exampleHost) 25) as [Hup _].
  destruct Hup as (_ & Hlv & Hxp & Hth & Hinv).
  - vm_compute. discriminate.
  - split; [exact Hlv |]. split.
    + rewrite Hxp. reflexivity.
    + split.
      * rewrite Hth; reflexivity.
      * apply Hinv; [reflexivity | vm_compute; discriminate].
Defined.

(** ** ThunderStrike *)

Lemma validEnemies_nil_strike (k : nat) (amt : Q) (es : list Enemy.t) :
  ThunderStrike.validEnemies es = [] ->
  ThunderStrike.strikeValid k amt es = None.
Proof.
  induction es as [| e es IH]; simpl; intros Hv.
  - reflexivity.
  - destruct (Enemy.isDestroyed e); simpl in Hv.
    + rewrite (IH Hv). reflexivity.
    + discriminate.
Qed.

Lemma Enemy_takeDamage_eq (amt : Q) (e : Enemy.t) :
  Enemy.takeDamage amt e
  = (fst (Enemy.takeDamage amt e), Enemy.health e - amt <=? 0).
Proof. reflexivity. Qed.

(** Striking the [k]-th valid enemy: the array keeps its shape, one enemy
    that was not destroyed has lost [amt] health, and the death flag says
    whether its health is at or below zero. *)
Lemma strikeValid_some (k : nat) (amt : Q) (es : list Enemy.t) :
  (k < List.length (ThunderStrike.validEnemies es))%nat ->
  exists l1 e l2,
    es = l1 ++ e :: l2
    /\ nth_error (ThunderStrike.validEnemies es) k = Some e
    /\ Enemy.isDestroyed e = false
    /\ ThunderStrike.strikeValid k amt es
       = Some (l1 ++ fst (Enemy.takeDamage amt e) :: l2,
               fst (Enemy.takeDamage amt e),
               Enemy.health e - amt <=? 0).
Proof.
  revert k. induction es as [| e es IH]; intros k Hk.
  - simpl in Hk. lia.
  - cbn [ThunderStrike.strikeValid ThunderStrike.validEnemies filter] in *.
    destruct (Enemy.isDestroyed e) eqn:Ed; cbn [negb] in *.
    + destruct (IH k Hk) as (l1 & t & l2 & E & Hn & Hd & Hs).
      exists (e :: l1), t, l2. rewrite Hs. subst es.
      repeat split; auto.
    + destruct k as [| k'].
      * exists [], e, es. rewrite Enemy_takeDamage_eq. repeat split; auto.
      * assert (Hk' : (k' < List.length (ThunderStrike.validEnemies es))%nat)
          by (unfold ThunderStrike.validEnemies; simpl in Hk; lia).
        destruct (IH k' Hk') as (l1 & t & l2 & E & Hn & Hd & Hs).
        exists (e :: l1), t, l2. rewrite Hs. subst es.
        repeat split; auto.
Qed.

Lemma random_index_in_range (r : Q) (n : nat) :
  0 <= r -> r < 1 -> (0 < n)%nat ->
  (Z.to_nat (Qfloor (r * inject_Z (Z.of_nat n))) < n)%nat.
Proof.
  intros H0 H1 Hn.
  assert (Hpos : 0 < inject_Z (Z.of_nat n)).
  { replace 0 with (inject_Z 0) by reflexivity.
    rewrite <- Zlt_Qlt. lia. }
  assert (Hlo : (0 <= Qfloor (r * inject_Z (Z.of_nat n)))%Z).
  { replace 0%Z with (Qfloor 0) by reflexivity.
    apply Qfloor_resp_le. nra. }
  assert (Hhi : (Qfloor (r * inject_Z (Z.of_nat n)) < Z.of_nat n)%Z).
  { rewrite Zlt_Qlt.
    apply Qle_lt_trans with (r * inject_Z (Z.of_nat n)).
    - apply Qfloor_le.
    - nra. }
  lia.
Qed.

(** ** Player.handleMovement *)

Lemma exactSqrt_pos (H : Host) (q : Q) :
  exactSqrtAt H q -> 0 < q -> 0 < Math_sqrt H q.
Proof.
  intros [Hn He] Hq.
  destruct (Qlt_le_dec 0 (Math_sqrt H q)) as [Hp | Hle]; [exact Hp |].
  assert (Math_sqrt H q == 0) by lra. nra.
Qed.




(** ** The collision passes in the event list *)

Lemma passesOf_app (a b : list Event) :
  passesOf (a ++ b) = passesOf a ++ passesOf b.
Proof.
  induction a as [| ev a IH]; simpl.
  - reflexivity.
  - destruct ev; simpl; rewrite ?IH; reflexivity.
Qed.

Lemma passes_emit (evs : list Event) (g : GameManager.t) :
  passesOf (GameManager.events (GameManager.emit evs g)) = passesOf
      (GameManager.events g) ++ passesOf evs.
Proof. simpl. apply passesOf_app. Qed.

Lemma passes_emit_quiet (evs : list Event) (g : GameManager.t) :
  passesOf evs = [] ->
  passesOf (GameManager.events (GameManager.emit evs g)) = passesOf
      (GameManager.events g).
Proof. intros E. rewrite passes_emit, E. apply app_nil_r. Qed.

Lemma passes_triggerLevelUp g :
  passesOf (GameManager.events (GameManager.triggerLevelUp g)) = passesOf
      (GameManager.events g).
Proof.
  unfold GameManager.triggerLevelUp. rewrite passes_emit_quiet by reflexivity.
  reflexivity.
Qed.

Lemma passes_gainXp amt g :
  passesOf (GameManager.events (GameManager.gainXp amt g)) = passesOf
      (GameManager.events g).
Proof.
  unfold GameManager.gainXp. destruct (Player.gainXp amt (GameManager.player
      g)) as [p []].
  - rewrite passes_triggerLevelUp. reflexivity.
  - reflexivity.
Qed.

Lemma passes_gameOver g :
  passesOf (GameManager.events (GameManager.gameOver g)) = passesOf
      (GameManager.events g).
Proof.
  unfold GameManager.gameOver. rewrite passes_emit_quiet by reflexivity.
  reflexivity.
Qed.

Lemma passes_showVictoryScreen g :
  passesOf (GameManager.events (GameManager.showVictoryScreen g)) = passesOf
      (GameManager.events g).
Proof.
  unfold GameManager.showVictoryScreen. rewrite passes_emit_quiet by
      reflexivity.
  reflexivity.
Qed.

Lemma passes_rewardKill H e g :
  passesOf (GameManager.events (GameManager.rewardKill H e g)) = passesOf
      (GameManager.events g).
Proof.
  unfold GameManager.rewardKill. rewrite passes_emit_quiet by reflexivity.
  unfold GameManager.spawnGem. cbn [GameManager.events GameManager.set_rng
      GameManager.set_experienceGems].
  rewrite passes_emit_quiet by reflexivity. reflexivity.
Qed.

Lemma passes_updatePlayer H dt g :
  passesOf (GameManager.events (GameManager.updatePlayer H dt g)) = passesOf
      (GameManager.events g).
Proof.
  unfold GameManager.updatePlayer.
  destruct (Player.handleShooting _ _ _ _) as [p2 [ps |]].
  - rewrite passes_emit_quiet by reflexivity. reflexivity.
  - reflexivity.
Qed.

Lemma passes_updateSpawner H dt g :
  passesOf (GameManager.events (GameManager.updateSpawner H dt g)) = passesOf
      (GameManager.events g).
Proof.
  unfold GameManager.updateSpawner.
  destruct (EnemySpawner.update _ _ _ _ _ _) as [s r]. reflexivity.
Qed.

Lemma quiet_hitByOrbitals H dmg interval now ppos os cds e :
  passesOf (snd (fst (OrbitalShield.hitByOrbitals H dmg interval now ppos os
      cds e))) = [].
Proof.
  revert cds e. induction os as [| o os IH]; intros cds e; simpl.
  - reflexivity.
  - destruct (_ && _).
    + destruct (Enemy.health e - dmg <=? 0).
      * reflexivity.
      * match goal with
        | |- context [OrbitalShield.hitByOrbitals H dmg interval now ppos os
            ?c ?x] =>
            specialize (IH c x);
            destruct (OrbitalShield.hitByOrbitals H dmg interval now ppos os c
                x)
              as [[[cds2 e3] evs] d]
        end.
        simpl in *. exact IH.
    + apply IH.
Qed.

Lemma quiet_hitEnemies H dmg interval now ppos os cds es :
  passesOf (snd (fst (OrbitalShield.hitEnemies H dmg interval now ppos os cds
      es))) = [].
Proof.
  revert cds. induction es as [| e es IH]; intros cds; simpl.
  - reflexivity.
  - destruct (Enemy.isDestroyed e).
    + specialize (IH cds).
      destruct (OrbitalShield.hitEnemies H dmg interval now ppos os cds es)
        as [[[cds1 es1] evs] res]. simpl in *. exact IH.
    + pose proof (quiet_hitByOrbitals H dmg interval now ppos os cds e) as Hq.
      destruct (OrbitalShield.hitByOrbitals H dmg interval now ppos os cds e)
        as [[[cds1 e1] evs1] died]. simpl in Hq.
      destruct died.
      * simpl. exact Hq.
      * specialize (IH cds1).
        destruct (OrbitalShield.hitEnemies H dmg interval now ppos os cds1 es)
          as [[[cds2 es2] evs2] res]. simpl in *.
        rewrite passesOf_app, Hq, IH. reflexivity.
Qed.

Lemma quiet_OrbitalShield_update H dt now ppos es s :
  passesOf (snd (fst (OrbitalShield.update H dt now ppos es s))) = [].
Proof.
  unfold OrbitalShield.update.
  destruct (negb (OrbitalShield.isActive s)); [reflexivity |].
  match goal with
  | |- context [OrbitalShield.hitEnemies ?a ?b ?c ?d ?e ?f ?g ?h] =>
      pose proof (quiet_hitEnemies a b c d e f g h) as Hq;
      destruct (OrbitalShield.hitEnemies a b c d e f g h) as [[[cds es'] evs]
          res]
  end.
  simpl in *. exact Hq.
Qed.

Lemma quiet_ThunderStrike_update H dt es rng s :
  passesOf (snd (fst (ThunderStrike.update H dt es rng s))) = [].
Proof.
  unfold ThunderStrike.update.
  destruct (negb (ThunderStrike.isActive s)); [reflexivity |].
  destruct (_ && _); [| reflexivity].
  destruct (Nat.eqb _ 0); [reflexivity |].
  destruct (ThunderStrike.strikeValid _ _ _) as [[[es' tg] died] |];
    reflexivity.
Qed.

Lemma quiet_SkillManager_update H dt now ppos es rng m :
  passesOf (snd (fst (SkillManager.update H dt now ppos es rng m))) = [].
Proof.
  revert es rng. induction m as [| [ty sk] m IH]; intros es rng; simpl.
  - reflexivity.
  - destruct sk as [o | th].
    + pose proof (quiet_OrbitalShield_update H dt now ppos es o) as Hq.
      destruct (OrbitalShield.update H dt now ppos es o)
        as [[[o1 es1] evs1] res1]. simpl in Hq.
      specialize (IH es1 rng).
      destruct (SkillManager.update H dt now ppos es1 rng m)
        as [[[[m2 es2] rng2] evs2] res2]. simpl in *.
      rewrite passesOf_app, Hq, IH. reflexivity.
    + pose proof (quiet_ThunderStrike_update H dt es rng th) as Hq.
      destruct (ThunderStrike.update H dt es rng th)
        as [[[[t1 es1] rng1] evs1] res1]. simpl in Hq.
      specialize (IH es1 rng1).
      destruct (SkillManager.update H dt now ppos es1 rng1 m)
        as [[[[m2 es2] rng2] evs2] res2]. simpl in *.
      rewrite passesOf_app, Hq, IH. reflexivity.
Qed.

Lemma passes_fold_rewardKill H results g :
  passesOf (GameManager.events (fold_left (fun acc e => GameManager.rewardKill
      H e acc) results g))
  = passesOf (GameManager.events g).
Proof.
  revert g. induction results as [| e r IH]; intros g; simpl.
  - reflexivity.
  - rewrite IH. apply passes_rewardKill.
Qed.

Lemma passes_updateSkills H dt g :
  passesOf (GameManager.events (GameManager.updateSkills H dt g)) = passesOf
      (GameManager.events g).
Proof.
  unfold GameManager.updateSkills.
  match goal with
  | |- context [SkillManager.update ?a ?b ?c ?d ?e ?f ?m] =>
      pose proof (quiet_SkillManager_update a b c d e f m) as Hq;
      destruct (SkillManager.update a b c d e f m)
        as [[[[m' es] rng'] evs] results]
  end.
  simpl in Hq. rewrite passes_fold_rewardKill.
  rewrite passes_emit_quiet by exact Hq. reflexivity.
Qed.

Lemma passes_checkBossSpawn H g :
  passesOf (GameManager.events (GameManager.checkBossSpawn H g)) = passesOf
      (GameManager.events g).
Proof.
  unfold GameManager.checkBossSpawn. destruct (_ && _); [| reflexivity].
  unfold GameManager.spawnBoss. cbv zeta.
  rewrite passes_emit_quiet by reflexivity.
  cbn [GameManager.events GameManager.set_rng GameManager.set_boss].
  rewrite passes_emit_quiet by reflexivity. reflexivity.
Qed.

Lemma passes_updateProjectiles dt g :
  passesOf (GameManager.events (GameManager.updateProjectiles dt g))
  = passesOf (GameManager.events g).
Proof. reflexivity. Qed.

Lemma passes_updateGems H dt g :
  passesOf (GameManager.events (GameManager.updateGems H dt g))
  = passesOf (GameManager.events g).
Proof. reflexivity. Qed.

Lemma passes_set_waveManager g w :
  passesOf (GameManager.events (GameManager.set_waveManager g w))
  = passesOf (GameManager.events g).
Proof. reflexivity. Qed.

Lemma passes_updateEntities H dt g :
  passesOf (GameManager.events (GameManager.updateEntities H dt g))
  = passesOf (GameManager.events g).
Proof.
  unfold GameManager.updateEntities.
  rewrite passes_checkBossSpawn, passes_updateGems, passes_updateProjectiles,
    passes_updateSkills, passes_updateSpawner, passes_updatePlayer.
  apply passes_set_waveManager.
Qed.

Lemma passesOf_repeat_explosion n : passesOf (repeat SpawnExplosion n) = [].
Proof. induction n; simpl; auto. Qed.

Lemma passes_triggerVictory g :
  passesOf (GameManager.events (GameManager.triggerVictory g)) = passesOf
      (GameManager.events g).
Proof.
  unfold GameManager.triggerVictory. cbv zeta.
  match goal with
  | |- context [GameManager.boss ?x] => destruct (GameManager.boss x) as [b |]
  end.
  - cbn [GameManager.events GameManager.set_boss GameManager.set_uiManager].
    rewrite passes_gainXp.
    rewrite passes_emit_quiet
      by (rewrite passesOf_app, passesOf_repeat_explosion; reflexivity).
    reflexivity.
  - rewrite passes_emit_quiet
      by (rewrite passesOf_app, passesOf_repeat_explosion; reflexivity).
    reflexivity.
Qed.

Lemma quiet_hitBoss H ps b :
  passesOf (snd (fst (GameManager.hitBoss H ps b))) = [].
Proof.
  revert b. induction ps as [| p r IH]; intros b; simpl.
  - reflexivity.
  - destruct (Projectile.isDestroyed p).
    + specialize (IH b). destruct (GameManager.hitBoss H r b) as [[[k b1] evs]
        d].
      simpl in *. exact IH.
    + destruct (_ <? 3.0).
      * destruct (Boss.health b - Projectile.getDamage p <=? 0).
        -- reflexivity.
        -- match goal with
           | |- context [GameManager.hitBoss H r ?x] =>
               specialize (IH x);
               destruct (GameManager.hitBoss H r x) as [[[k b2] evs] d]
           end.
           simpl in *. exact IH.
      * specialize (IH b). destruct (GameManager.hitBoss H r b) as [[[k b1]
          evs] d].
        simpl in *. exact IH.
Qed.

Lemma passes_checkBossCollisions H g :
  passesOf (GameManager.events (GameManager.checkBossCollisions H g))
  = passesOf (GameManager.events g) ++ bossPasses g.
Proof.
  unfold GameManager.checkBossCollisions, bossPasses, bossAlive.
  destruct (GameManager.boss g) as [b |]; [| symmetry; apply app_nil_r].
  destruct (Boss.isDestroyed b); [symmetry; apply app_nil_r |].
  cbn [negb]. cbv zeta.
  match goal with
  | |- context [GameManager.hitBoss ?a ?ps ?x] =>
      pose proof (quiet_hitBoss a ps x) as Hq;
      destruct (GameManager.hitBoss a ps x) as [[[kept b'] evs] died]
  end.
  simpl in Hq.
  assert (E : forall g', passesOf (GameManager.events
      (if died then GameManager.triggerVictory g' else g')) = passesOf
          (GameManager.events g'))
    by (intros g'; destruct died; [apply passes_triggerVictory | reflexivity]).
  rewrite E. rewrite passes_emit_quiet by exact Hq.
  cbn [GameManager.events GameManager.set_boss GameManager.set_projectiles].
  rewrite passes_emit.
  match goal with
  | |- passesOf (GameManager.events ?x) ++ _ = _ =>
      assert (E3 : passesOf (GameManager.events x)
                   = passesOf (GameManager.events g) ++ [PlayerBossContact])
  end.
  { destruct (_ <? 3.0).
    - destruct (_ >=? _).
      + destruct (Player.takeDamage _ _) as [p []].
        * rewrite passes_gameOver. apply passesOf_app.
        * apply passesOf_app.
      + apply passesOf_app.
    - apply passesOf_app. }
  rewrite E3, <- app_assoc. reflexivity.
Qed.

Lemma Boss_update_isDestroyed H dt pos b :
  Boss.isDestroyed (Boss.update H dt pos b) = Boss.isDestroyed b.
Proof.
  unfold Boss.update. destruct (Boss.isDestroyed b) eqn:E; [exact E |].
  reflexivity.
Qed.

Lemma passes_updateBoss H dt g :
  passesOf (GameManager.events (GameManager.updateBoss H dt g))
  = passesOf (GameManager.events g) ++ bossPasses g.
Proof.
  unfold GameManager.updateBoss, bossPasses, bossAlive.
  destruct (GameManager.boss g) as [b |] eqn:Eb; [| symmetry; apply app_nil_r].
  destruct (Boss.isDestroyed b) eqn:Ed; [symmetry; apply app_nil_r |].
  cbn [negb]. rewrite passes_checkBossCollisions.
  unfold bossPasses, bossAlive. cbn [GameManager.events GameManager.boss
      GameManager.set_boss].
  rewrite Boss_update_isDestroyed, Ed. reflexivity.
Qed.

Lemma passes_updateSlowMo g :
  passesOf (GameManager.events (GameManager.updateSlowMo g)) = passesOf
      (GameManager.events g).
Proof.
  unfold GameManager.updateSlowMo. destruct (_ >? 0); [| reflexivity].
  cbv zeta. destruct (_ <=? 0); [| reflexivity].
  rewrite passes_showVictoryScreen. reflexivity.
Qed.

Lemma passes_checkPlayerEnemyCollisions H dt g :
  passesOf (GameManager.events (GameManager.checkPlayerEnemyCollisions H dt g))
  = passesOf (GameManager.events g) ++ [PlayerEnemyContact].
Proof.
  unfold GameManager.checkPlayerEnemyCollisions. cbv zeta.
  destruct (GameManager.contactScan _ _ _ _) as [inContact totalDmg].
  destruct (_ && _).
  - destruct (Player.takeDamage _ _) as [p []].
    + rewrite passes_gameOver. apply passesOf_app.
    + apply passesOf_app.
  - apply passesOf_app.
Qed.

Lemma passes_hitEnemy H p g :
  passesOf (GameManager.events (snd (GameManager.hitEnemy H p g))) = passesOf
      (GameManager.events g).
Proof.
  unfold GameManager.hitEnemy. destruct (Projectile.isDestroyed p);
      [reflexivity |].
  destruct (GameManager.hitFirst _ _ _ _ _) as [[[es e] died] |]; [|
      reflexivity].
  cbn [snd]. destruct died.
  - rewrite passes_rewardKill, passes_emit_quiet by reflexivity. reflexivity.
  - rewrite !passes_emit_quiet by reflexivity. reflexivity.
Qed.

Lemma passes_resolveProjectiles H ps g :
  passesOf (GameManager.events (snd (GameManager.resolveProjectiles H ps g)))
  = passesOf (GameManager.events g).
Proof.
  revert g. induction ps as [| p r IH]; intros g; simpl.
  - reflexivity.
  - pose proof (passes_hitEnemy H p g) as Hh.
    destruct (GameManager.hitEnemy H p g) as [removed g1]. simpl in Hh.
    specialize (IH g1).
    destruct (GameManager.resolveProjectiles H r g1) as [kept g2]. simpl in *.
    rewrite IH. exact Hh.
Qed.

Lemma passes_checkProjectileEnemyCollisions H g :
  passesOf (GameManager.events (GameManager.checkProjectileEnemyCollisions H g))
  = passesOf (GameManager.events g) ++ [ProjectileEnemy].
Proof.
  unfold GameManager.checkProjectileEnemyCollisions. cbv zeta.
  match goal with
  | |- context [GameManager.resolveProjectiles ?a ?ps ?x] =>
      pose proof (passes_resolveProjectiles a ps x) as Hr;
      destruct (GameManager.resolveProjectiles a ps x) as [kept g1]
  end.
  simpl in Hr. cbn [GameManager.events GameManager.set_projectiles].
  rewrite Hr. apply passesOf_app.
Qed.

Lemma passes_collectGems H gems g :
  passesOf (GameManager.events (snd (GameManager.collectGems H gems g)))
  = passesOf (GameManager.events g).
Proof.
  revert g. induction gems as [| gem r IH]; intros g; simpl.
  - reflexivity.
  - destruct (_ && _).
    + specialize (IH (GameManager.gainXp (ExperienceGem.xpValue gem) g)).
      destruct (GameManager.collectGems H r _) as [r' g']. simpl in *.
      rewrite IH. apply passes_gainXp.
    + specialize (IH g).
      destruct (GameManager.collectGems H r g) as [r' g']. simpl in *. exact IH.
Qed.

Lemma passes_checkGemCollections H g :
  passesOf (GameManager.events (GameManager.checkGemCollections H g))
  = passesOf (GameManager.events g) ++ [PlayerGem].
Proof.
  unfold GameManager.checkGemCollections. cbv zeta.
  match goal with
  | |- context [GameManager.collectGems ?a ?gs ?x] =>
      pose proof (passes_collectGems a gs x) as Hr;
      destruct (GameManager.collectGems a gs x) as [gems g1]
  end.
  simpl in Hr. cbn [GameManager.events GameManager.set_experienceGems].
  rewrite Hr. apply passesOf_app.
Qed.

(** ** The contact timer *)

Lemma Player_gainXp_body amt p :
  let p' := fst (Player.gainXp amt p) in
  Player.position p' = Player.position p
  /\ Player.currentHealth p' = Player.currentHealth p
  /\ Player.maxHealth p' = Player.maxHealth p.
Proof.
  cbv zeta. unfold Player.gainXp. destruct (_ >=? _); simpl; auto.
Qed.

Lemma clock_gainXp amt g : contactClock (GameManager.gainXp amt g) =
    contactClock g.
Proof.
  unfold GameManager.gainXp. destruct (Player.gainXp amt (GameManager.player
      g)) as [p []];
    reflexivity.
Qed.

Lemma body_gainXp amt g : playerBody (GameManager.gainXp amt g) = playerBody g.
Proof.
  unfold GameManager.gainXp.
  destruct (Player_gainXp_body amt (GameManager.player g)) as (E1 & E2 & E3).
  destruct (Player.gainXp amt (GameManager.player g)) as [p []]; simpl in *;
    unfold playerBody; simpl; rewrite E1, E2, E3; reflexivity.
Qed.

Lemma clock_gameOver g : contactClock (GameManager.gameOver g) = contactClock g.
Proof. reflexivity. Qed.

Lemma body_gameOver g : playerBody (GameManager.gameOver g) = playerBody g.
Proof. reflexivity. Qed.

Lemma clock_rewardKill H e g : contactClock (GameManager.rewardKill H e g) =
    contactClock g.
Proof. reflexivity. Qed.

Lemma body_rewardKill H e g : playerBody (GameManager.rewardKill H e g) =
    playerBody g.
Proof. reflexivity. Qed.

Lemma clock_triggerVictory g : contactClock (GameManager.triggerVictory g) =
    contactClock g.
Proof.
  unfold GameManager.triggerVictory. cbv zeta.
  match goal with
  | |- context [GameManager.boss ?x] => destruct (GameManager.boss x) as [b |]
  end; [| reflexivity].
  unfold contactClock. cbn [GameManager.time GameManager.collisionDist
      GameManager.contactDmgInterval
    GameManager.contactDmgTimer GameManager.set_boss GameManager.set_uiManager].
  match goal with
  | |- context [GameManager.gainXp ?a ?x] => pose proof (clock_gainXp a x) as E
  end.
  unfold contactClock in E. rewrite E. reflexivity.
Qed.

Lemma body_triggerVictory g : playerBody (GameManager.triggerVictory g) =
    playerBody g.
Proof.
  unfold GameManager.triggerVictory. cbv zeta.
  match goal with
  | |- context [GameManager.boss ?x] => destruct (GameManager.boss x) as [b |]
  end; [| reflexivity].
  unfold playerBody. cbn [GameManager.player GameManager.set_boss
      GameManager.set_uiManager].
  match goal with
  | |- context [GameManager.gainXp ?a ?x] => pose proof (body_gainXp a x) as E
  end.
  unfold playerBody in E. rewrite E. reflexivity.
Qed.

Lemma clock_updateSlowMo g : contactClock (GameManager.updateSlowMo g) =
    contactClock g.
Proof.
  unfold GameManager.updateSlowMo. destruct (_ >? 0); [| reflexivity].
  cbv zeta. destruct (_ <=? 0); reflexivity.
Qed.

Lemma body_updateSlowMo g : playerBody (GameManager.updateSlowMo g) =
    playerBody g.
Proof.
  unfold GameManager.updateSlowMo. destruct (_ >? 0); [| reflexivity].
  cbv zeta. destruct (_ <=? 0); reflexivity.
Qed.

Lemma enemies_updateSlowMo g :
  GameManager.enemySpawner (GameManager.updateSlowMo g) =
      GameManager.enemySpawner g.
Proof.
  unfold GameManager.updateSlowMo. destruct (_ >? 0); [| reflexivity].
  cbv zeta. destruct (_ <=? 0); reflexivity.
Qed.

Lemma clock_hitEnemy H p g :
  contactClock (snd (GameManager.hitEnemy H p g)) = contactClock g.
Proof.
  unfold GameManager.hitEnemy. destruct (Projectile.isDestroyed p);
      [reflexivity |].
  destruct (GameManager.hitFirst _ _ _ _ _) as [[[es e] []] |]; reflexivity.
Qed.

Lemma body_hitEnemy H p g :
  playerBody (snd (GameManager.hitEnemy H p g)) = playerBody g.
Proof.
  unfold GameManager.hitEnemy. destruct (Projectile.isDestroyed p);
      [reflexivity |].
  destruct (GameManager.hitFirst _ _ _ _ _) as [[[es e] []] |]; reflexivity.
Qed.

Lemma clock_resolveProjectiles H ps g :
  contactClock (snd (GameManager.resolveProjectiles H ps g)) = contactClock g.
Proof.
  revert g. induction ps as [| p r IH]; intros g; simpl.
  - reflexivity.
  - pose proof (clock_hitEnemy H p g) as Hh.
    destruct (GameManager.hitEnemy H p g) as [removed g1]. simpl in Hh.
    specialize (IH g1).
    destruct (GameManager.resolveProjectiles H r g1) as [kept g2]. simpl in *.
    rewrite IH. exact Hh.
Qed.

Lemma body_resolveProjectiles H ps g :
  playerBody (snd (GameManager.resolveProjectiles H ps g)) = playerBody g.
Proof.
  revert g. induction ps as [| p r IH]; intros g; simpl.
  - reflexivity.
  - pose proof (body_hitEnemy H p g) as Hh.
    destruct (GameManager.hitEnemy H p g) as [removed g1]. simpl in Hh.
    specialize (IH g1).
    destruct (GameManager.resolveProjectiles H r g1) as [kept g2]. simpl in *.
    rewrite IH. exact Hh.
Qed.

Lemma clock_checkProjectileEnemyCollisions H g :
  contactClock (GameManager.checkProjectileEnemyCollisions H g) = contactClock
      g.
Proof.
  unfold GameManager.checkProjectileEnemyCollisions. cbv zeta.
  match goal with
  | |- context [GameManager.resolveProjectiles ?a ?ps ?x] =>
      pose proof (clock_resolveProjectiles a ps x) as Hr;
      destruct (GameManager.resolveProjectiles a ps x) as [kept g1]
  end.
  simpl in Hr. exact Hr.
Qed.

Lemma body_checkProjectileEnemyCollisions H g :
  playerBody (GameManager.checkProjectileEnemyCollisions H g) = playerBody g.
Proof.
  unfold GameManager.checkProjectileEnemyCollisions. cbv zeta.
  match goal with
  | |- context [GameManager.resolveProjectiles ?a ?ps ?x] =>
      pose proof (body_resolveProjectiles a ps x) as Hr;
      destruct (GameManager.resolveProjectiles a ps x) as [kept g1]
  end.
  simpl in Hr. exact Hr.
Qed.

Lemma clock_collectGems H gems g :
  contactClock (snd (GameManager.collectGems H gems g)) = contactClock g.
Proof.
  revert g. induction gems as [| gem r IH]; intros g; simpl.
  - reflexivity.
  - destruct (_ && _).
    + specialize (IH (GameManager.gainXp (ExperienceGem.xpValue gem) g)).
      destruct (GameManager.collectGems H r _) as [r' g']. simpl in *.
      rewrite IH. apply clock_gainXp.
    + specialize (IH g).
      destruct (GameManager.collectGems H r g) as [r' g']. simpl in *. exact IH.
Qed.

Lemma body_collectGems H gems g :
  playerBody (snd (GameManager.collectGems H gems g)) = playerBody g.
Proof.
  revert g. induction gems as [| gem r IH]; intros g; simpl.
  - reflexivity.
  - destruct (_ && _).
    + specialize (IH (GameManager.gainXp (ExperienceGem.xpValue gem) g)).
      destruct (GameManager.collectGems H r _) as [r' g']. simpl in *.
      rewrite IH. apply body_gainXp.
    + specialize (IH g).
      destruct (GameManager.collectGems H r g) as [r' g']. simpl in *. exact IH.
Qed.

Lemma clock_checkGemCollections H g :
  contactClock (GameManager.checkGemCollections H g) = contactClock g.
Proof.
  unfold GameManager.checkGemCollections. cbv zeta.
  match goal with
  | |- context [GameManager.collectGems ?a ?gs ?x] =>
      pose proof (clock_collectGems a gs x) as Hr;
      destruct (GameManager.collectGems a gs x) as [gems g1]
  end.
  simpl in Hr. exact Hr.
Qed.

Lemma body_checkGemCollections H g :
  playerBody (GameManager.checkGemCollections H g) = playerBody g.
Proof.
  unfold GameManager.checkGemCollections. cbv zeta.
  match goal with
  | |- context [GameManager.collectGems ?a ?gs ?x] =>
      pose proof (body_collectGems a gs x) as Hr;
      destruct (GameManager.collectGems a gs x) as [gems g1]
  end.
  simpl in Hr. exact Hr.
Qed.

Lemma clock_updatePlayer H dt g :
  contactClock (GameManager.updatePlayer H dt g) = contactClock g.
Proof.
  unfold GameManager.updatePlayer.
  destruct (Player.handleShooting _ _ _ _) as [p2 [ps |]]; reflexivity.
Qed.

Lemma clock_updateSpawner H dt g :
  contactClock (GameManager.updateSpawner H dt g) = contactClock g.
Proof.
  unfold GameManager.updateSpawner.
  destruct (EnemySpawner.update _ _ _ _ _ _) as [s r]. reflexivity.
Qed.

Lemma clock_fold_rewardKill H results g :
  contactClock (fold_left (fun acc e => GameManager.rewardKill H e acc)
      results g)
  = contactClock g.
Proof.
  revert g. induction results as [| e r IH]; intros g; simpl.
  - reflexivity.
  - rewrite IH. apply clock_rewardKill.
Qed.

Lemma clock_updateSkills H dt g :
  contactClock (GameManager.updateSkills H dt g) = contactClock g.
Proof.
  unfold GameManager.updateSkills.
  destruct (SkillManager.update _ _ _ _ _ _ _)
    as [[[[m' es] rng'] evs] results].
  rewrite clock_fold_rewardKill. reflexivity.
Qed.

Lemma clock_checkBossSpawn H g :
  contactClock (GameManager.checkBossSpawn H g) = contactClock g.
Proof.
  unfold GameManager.checkBossSpawn. destruct (_ && _); reflexivity.
Qed.

Lemma clock_updateProjectiles dt g :
  contactClock (GameManager.updateProjectiles dt g) = contactClock g.
Proof. reflexivity. Qed.

Lemma clock_updateGems H dt g :
  contactClock (GameManager.updateGems H dt g) = contactClock g.
Proof. reflexivity. Qed.

Lemma clock_set_waveManager g w :
  contactClock (GameManager.set_waveManager g w) = contactClock g.
Proof. reflexivity. Qed.

Lemma clock_updateEntities H dt g :
  contactClock (GameManager.updateEntities H dt g) = contactClock g.
Proof.
  unfold GameManager.updateEntities.
  rewrite clock_checkBossSpawn, clock_updateGems, clock_updateProjectiles,
    clock_updateSkills, clock_updateSpawner, clock_updatePlayer.
  apply clock_set_waveManager.
Qed.

Lemma clock_hitBoss_tail (died : bool) g :
  contactClock (if died then GameManager.triggerVictory g else g) =
      contactClock g.
Proof. destruct died; [apply clock_triggerVictory | reflexivity]. Qed.

Lemma body_hitBoss_tail (died : bool) g :
  playerBody (if died then GameManager.triggerVictory g else g) = playerBody g.
Proof. destruct died; [apply body_triggerVictory | reflexivity]. Qed.

Lemma enemySpawner_gainXp amt g :
  GameManager.enemySpawner (GameManager.gainXp amt g) =
      GameManager.enemySpawner g.
Proof.
  unfold GameManager.gainXp. destruct (Player.gainXp amt (GameManager.player
      g)) as [p []];
    reflexivity.
Qed.

Lemma enemySpawner_triggerVictory g :
  GameManager.enemySpawner (GameManager.triggerVictory g) =
      GameManager.enemySpawner g.
Proof.
  unfold GameManager.triggerVictory. cbv zeta.
  match goal with
  | |- context [GameManager.boss ?x] => destruct (GameManager.boss x) as [b |]
  end; [| reflexivity].
  cbn [GameManager.enemySpawner GameManager.set_boss GameManager.set_uiManager].
  rewrite enemySpawner_gainXp. reflexivity.
Qed.

(** What [checkBossCollisions] does to the contact timer and the player when
    the boss is alive and the player within its contact radius. *)
Lemma checkBossCollisions_contact H g b :
  GameManager.boss g = Some b ->
  Boss.isDestroyed b = false ->
  (Vector3.distanceTo H (Player.getPosition (GameManager.player g))
     (Boss.getPosition b) <? 3.0) = true ->
  let dt := Time.deltaTime (GameManager.time g) in
  let due := GameManager.contactDmgTimer g + dt >=?
      GameManager.contactDmgInterval g in
  let g' := GameManager.checkBossCollisions H g in
  contactClock g'
  = (GameManager.time g, GameManager.collisionDist g,
      GameManager.contactDmgInterval g,
     if due then 0 else GameManager.contactDmgTimer g + dt)
  /\ playerBody g'
     = (Player.position (GameManager.player g),
        if due
        then Player.currentHealth (GameManager.player g) -
            Boss.getContactDamage b
        else Player.currentHealth (GameManager.player g),
        Player.maxHealth (GameManager.player g))
  /\ GameManager.enemySpawner g' = GameManager.enemySpawner g.
Proof.
  intros Eb Ed Hin. cbv zeta. unfold GameManager.checkBossCollisions.
  rewrite Eb, Ed. cbv zeta.
  cbn [GameManager.player GameManager.emit]. rewrite Hin.
  match goal with
  | |- context [GameManager.hitBoss ?a ?ps ?x] =>
      destruct (GameManager.hitBoss a ps x) as [[[kept b'] evs] died]
  end.
  rewrite clock_hitBoss_tail, body_hitBoss_tail.
  assert (Es : forall x, GameManager.enemySpawner
             (if died then GameManager.triggerVictory x else x) =
                 GameManager.enemySpawner x)
    by (intros x; destruct died;
        [apply enemySpawner_triggerVictory | reflexivity]).
  rewrite Es.
  cbn [GameManager.contactDmgTimer GameManager.contactDmgInterval
      GameManager.set_contactDmgTimer
       GameManager.time GameManager.emit].
  destruct (GameManager.contactDmgTimer g + Time.deltaTime (GameManager.time g)
            >=? GameManager.contactDmgInterval g).
  - unfold Player.takeDamage. cbn [fst snd].
    destruct (Player.currentHealth _ <=? 0); repeat split; reflexivity.
  - repeat split; reflexivity.
Qed.

Lemma checkPlayerEnemyCollisions_contact H dt g :
  let scan := GameManager.contactScan H (Player.getPosition
      (GameManager.player g))
                (GameManager.collisionDist g) (GameManager.enemies g) in
  let due := fst scan
             && (GameManager.contactDmgTimer g + dt >=?
                 GameManager.contactDmgInterval g) in
  let g' := GameManager.checkPlayerEnemyCollisions H dt g in
  contactClock g'
  = (GameManager.time g, GameManager.collisionDist g,
      GameManager.contactDmgInterval g,
     if due then 0 else GameManager.contactDmgTimer g + dt)
  /\ playerBody g'
     = (Player.position (GameManager.player g),
        if due then Player.currentHealth (GameManager.player g) - snd scan
        else Player.currentHealth (GameManager.player g),
        Player.maxHealth (GameManager.player g)).
Proof.
  cbv zeta. unfold GameManager.checkPlayerEnemyCollisions. cbv zeta.
  cbn [GameManager.player GameManager.emit GameManager.collisionDist
      GameManager.set_contactDmgTimer GameManager.enemies
       GameManager.enemySpawner GameManager.contactDmgTimer
           GameManager.contactDmgInterval].
  change (EnemySpawner.getEnemies (GameManager.enemySpawner g)) with
      (GameManager.enemies g).
  destruct (GameManager.contactScan _ _ _ _) as [inContact totalDmg]. cbn [fst
      snd].
  destruct (inContact && _).
  - unfold Player.takeDamage. cbn [fst snd].
    destruct (Player.currentHealth _ <=? 0); split; reflexivity.
  - split; reflexivity.
Qed.

Lemma updateBoss_bossCheckState H g b :
  GameManager.boss (bossCheckState H g) = Some b ->
  Boss.isDestroyed b = false ->
  GameManager.updateBoss H (Time.deltaTime (GameManager.time g))
    (GameManager.updateEntities H (Time.deltaTime (GameManager.time g)) g)
  = GameManager.checkBossCollisions H (bossCheckState H g).
Proof.
  unfold bossCheckState, GameManager.updateBoss. cbv zeta.
  generalize (GameManager.updateEntities H (Time.deltaTime (GameManager.time
      g)) g) as m.
  generalize (Time.deltaTime (GameManager.time g)) as dt.
  intros dt m.
  destruct (GameManager.boss m) as [b0 |] eqn:Eb.
  - cbn [GameManager.boss GameManager.set_boss]. intros [= <-] Ed.
    rewrite Boss_update_isDestroyed in Ed. rewrite Ed. reflexivity.
  - rewrite Eb. discriminate.
Qed.

Lemma clock_set_boss g b :
  contactClock (GameManager.set_boss g b) = contactClock g.
Proof. reflexivity. Qed.

Lemma clock_bossCheckState H g :
  contactClock (bossCheckState H g) = contactClock g.
Proof.
  unfold bossCheckState. cbv zeta.
  pose proof (clock_updateEntities H (Time.deltaTime (GameManager.time g)) g)
      as E.
  destruct (GameManager.boss (GameManager.updateEntities H _ g)) as [b0 |]; [|
      exact E].
  rewrite clock_set_boss. exact E.
Qed.

Lemma update_with_boss H g b :
  GameManager.boss (bossCheckState H g) = Some b ->
  Boss.isDestroyed b = false ->
  GameManager.update H g
  = GameManager.checkGemCollections H
      (GameManager.checkProjectileEnemyCollisions H
         (GameManager.checkPlayerEnemyCollisions H (Time.deltaTime
             (GameManager.time g))
            (GameManager.updateSlowMo (GameManager.checkBossCollisions H
                (bossCheckState H g))))).
Proof.
  intros Eb Ed. unfold GameManager.update. cbv zeta.
  rewrite (updateBoss_bossCheckState H g b Eb Ed). reflexivity.
Qed.

(** C10.  In a frame in which the boss is alive and the player is within
    its contact radius of 3.0, both contact passes work on the one timer
    [contactDmgTimer]: the boss pass adds the frame time and, if the interval
    is reached, applies the boss's damage and resets the timer; the enemy
    pass then adds the frame time again to what the boss pass left and, if an
    enemy touches the player and the interval is reached, applies the
    enemies' damage and resets the timer.  When neither applies damage the
    timer has advanced by twice the frame time. *)
Theorem C10_shared_contact_timer (H : Host) (g : GameManager.t) (b : Boss.t) :
  let dt := Time.deltaTime (GameManager.time g) in
  let t := GameManager.contactDmgTimer g in
  let interval := GameManager.contactDmgInterval g in
  let atCheck := bossCheckState H g in
  let p := GameManager.player atCheck in
  GameManager.boss atCheck = Some b ->
  Boss.isDestroyed b = false ->
  (Vector3.distanceTo H (Player.getPosition p) (Boss.getPosition b) <? 3.0)
  = true ->
  let bossDue := t + dt >=? interval in
  let tBoss := if bossDue then 0 else t + dt in
  let hBoss := if bossDue
               then Player.currentHealth p - Boss.getContactDamage b
               else Player.currentHealth p in
  let scan := GameManager.contactScan H (Player.getPosition p)
      (GameManager.collisionDist g)
                (GameManager.enemies atCheck) in
  let enemyDue := fst scan && (tBoss + dt >=? interval) in
  GameManager.contactDmgTimer (GameManager.update H g) = (if enemyDue then 0
      else tBoss + dt)
  /\ Player.currentHealth (GameManager.player (GameManager.update H g))
     = (if enemyDue then hBoss - snd scan else hBoss)
  /\ (0 <= dt -> t + dt + dt < interval ->
      GameManager.contactDmgTimer (GameManager.update H g) == t + dt + dt).
Proof.
  cbv zeta. intros Eb Ed Hin.
  rewrite (update_with_boss H g b Eb Ed).
  pose proof (clock_bossCheckState H g) as Hc0.
  destruct (checkBossCollisions_contact H (bossCheckState H g) b Eb Ed Hin)
    as (HcB & HbB & HeB).
  cbv zeta in HcB, HbB.
  generalize dependent (bossCheckState H g). intros X Eb Hin Hc0 HcB HbB HeB.
  generalize dependent (GameManager.checkBossCollisions H X). intros gB HcB
      HbB HeB.
  unfold contactClock in Hc0. injection Hc0 as Etime Edist Eint Etim.
  rewrite Etime, Eint, Etim in HcB. rewrite Edist in HcB.
  rewrite Etime, Eint, Etim in HbB.
  pose proof (clock_updateSlowMo gB) as HcS.
  pose proof (body_updateSlowMo gB) as HbS.
  pose proof (enemies_updateSlowMo gB) as HeS.
  rewrite HcB in HcS. rewrite HbB in HbS. rewrite HeB in HeS.
  clear HcB HbB HeB.
  generalize dependent (GameManager.updateSlowMo gB). intros gS HcS HbS HeS.
  destruct (checkPlayerEnemyCollisions_contact H
              (Time.deltaTime (GameManager.time g)) gS) as (HcE & HbE).
  cbv zeta in HcE, HbE.
  unfold contactClock in HcS. injection HcS as EtS EdS EiS EmS.
  unfold playerBody in HbS. injection HbS as EpS EhS EmaxS.
  unfold GameManager.enemies in HcE, HbE. unfold Player.getPosition in *.
  rewrite EtS, EdS, EiS, EmS, EpS, HeS in HcE.
  rewrite EdS, EiS, EmS, EpS, EhS, EmaxS, HeS in HbE.
  generalize dependent
    (GameManager.checkPlayerEnemyCollisions H (Time.deltaTime
        (GameManager.time g)) gS).
  intros gE HcE HbE.
  pose proof (clock_checkGemCollections H
                (GameManager.checkProjectileEnemyCollisions H gE)) as HcU.
  rewrite clock_checkProjectileEnemyCollisions, HcE in HcU.
  pose proof (body_checkGemCollections H
                (GameManager.checkProjectileEnemyCollisions H gE)) as HbU.
  rewrite body_checkProjectileEnemyCollisions, HbE in HbU.
  generalize dependent
    (GameManager.checkGemCollections H
        (GameManager.checkProjectileEnemyCollisions H gE)).
  intros gU HcU HbU.
  unfold contactClock in HcU. injection HcU as _ _ _ Htimer.
  unfold playerBody in HbU. injection HbU as _ Hhealth _.
  unfold GameManager.enemies.
  split; [exact Htimer |]. split; [exact Hhealth |].
  intros Hdt Hlt. rewrite Htimer.
  assert (B1 : (GameManager.contactDmgTimer g + Time.deltaTime
      (GameManager.time g)
                >=? GameManager.contactDmgInterval g) = false)
    by (apply Qgeb_false; lra).
  rewrite B1.
  assert (B2 : (GameManager.contactDmgTimer g + Time.deltaTime
      (GameManager.time g)
                + Time.deltaTime (GameManager.time g)
                >=? GameManager.contactDmgInterval g) = false)
    by (apply Qgeb_false; lra).
  rewrite B2, andb_false_r. reflexivity.
Qed.

(** C10 on [bossContactGame]: with the timer at 0 and a frame of 0.1 s, the
    timer is 0.2 after the frame and the player has lost no health. *)
Lemma C10_shared_contact_timer_witness :
  GameManager.contactDmgTimer (GameManager.update exampleHost bossContactGame)
  == 0.2
  /\ Player.currentHealth
       (GameManager.player (GameManager.update exampleHost bossContactGame))
     == 100.
Proof.
  assert (Hboss : GameManager.boss (bossCheckState exampleHost bossContactGame)
                  = Some movedBoss)
    by (vm_compute; reflexivity).
  assert (Hnear :
            (Vector3.distanceTo exampleHost
               (Player.getPosition
                  (GameManager.player
                     (bossCheckState exampleHost bossContactGame)))
               (Boss.getPosition movedBoss) <? 3.0) = true)
    by (vm_compute; reflexivity).
  pose proof (C10_shared_contact_timer exampleHost bossContactGame movedBoss
                Hboss eq_refl Hnear) as W.
  cbv zeta in W. destruct W as (_ & Hh & Hq).
  split.
  - eapply Qeq_trans; [apply Hq |].
    + vm_compute. discriminate.
    + vm_compute. reflexivity.
    + vm_compute. reflexivity.
  - rewrite Hh. vm_compute. reflexivity.
Defined.

Lemma updateBoss_no_boss H dt g :
  bossAlive g = false -> GameManager.updateBoss H dt g = g.
Proof.
  unfold bossAlive, GameManager.updateBoss.
  destruct (GameManager.boss g) as [b |]; [| reflexivity].
  intros ->. reflexivity.
Qed.

(** Without a live boss only the enemy pass touches the contact timer: it
    advances by the frame time once, or is reset by the enemies' damage. *)
Lemma contact_timer_without_boss (H : Host) (g : GameManager.t) :
  let dt := Time.deltaTime (GameManager.time g) in
  let moved := GameManager.updateEntities H dt g in
  bossAlive moved = false ->
  let scan := GameManager.contactScan H
                (Player.getPosition (GameManager.player moved))
                (GameManager.collisionDist g) (GameManager.enemies moved) in
  let due := fst scan
             && (GameManager.contactDmgTimer g + dt
                 >=? GameManager.contactDmgInterval g) in
  GameManager.contactDmgTimer (GameManager.update H g)
  = (if due then 0 else GameManager.contactDmgTimer g + dt).
Proof.
  cbv zeta. intros Hno.
  unfold GameManager.update. cbv zeta.
  rewrite (updateBoss_no_boss H _ _ Hno).
  pose proof (clock_updateEntities H (Time.deltaTime (GameManager.time g)) g)
    as Hc0.
  generalize dependent
    (GameManager.updateEntities H (Time.deltaTime (GameManager.time g)) g).
  intros m _ Hc0.
  unfold contactClock in Hc0. injection Hc0 as Etime Edist Eint Etim.
  pose proof (clock_updateSlowMo m) as HcS.
  pose proof (body_updateSlowMo m) as HbS.
  pose proof (enemies_updateSlowMo m) as HeS.
  generalize dependent (GameManager.updateSlowMo m). intros gS HcS HbS HeS.
  destruct (checkPlayerEnemyCollisions_contact H
              (Time.deltaTime (GameManager.time g)) gS) as (HcE & _).
  cbv zeta in HcE.
  unfold contactClock in HcS. injection HcS as EtS EdS EiS EmS.
  unfold playerBody in HbS. injection HbS as EpS _ _.
  unfold GameManager.enemies in *. unfold Player.getPosition in *.
  rewrite EtS, EdS, EiS, EmS, EpS, HeS in HcE.
  rewrite Etime, Edist, Eint, Etim in HcE.
  generalize dependent
    (GameManager.checkPlayerEnemyCollisions H
       (Time.deltaTime (GameManager.time g)) gS).
  intros gE HcE.
  pose proof (clock_checkGemCollections H
                (GameManager.checkProjectileEnemyCollisions H gE)) as HcU.
  rewrite clock_checkProjectileEnemyCollisions, HcE in HcU.
  unfold contactClock in HcU. injection HcU as _ _ _ Htimer.
  exact Htimer.
Qed.

(** ** The frame: motion first, then the passes in their order *)

Lemma position_of_body g g' :
  playerBody g' = playerBody g -> playerPosition g' = playerPosition g.
Proof. unfold playerBody, playerPosition. intros [= E _ _]. exact E. Qed.

Lemma position_checkBossCollisions H g :
  playerPosition (GameManager.checkBossCollisions H g) = playerPosition g.
Proof.
  unfold GameManager.checkBossCollisions.
  destruct (GameManager.boss g) as [b |]; [| reflexivity].
  destruct (Boss.isDestroyed b); [reflexivity |]. cbv zeta.
  match goal with
  | |- context [GameManager.hitBoss ?a ?ps ?x] =>
      destruct (GameManager.hitBoss a ps x) as [[[kept b'] evs] died]
  end.
  rewrite (position_of_body _ _ (body_hitBoss_tail died _)).
  unfold playerPosition.
  cbn [GameManager.player GameManager.emit GameManager.set_boss
       GameManager.set_projectiles].
  destruct (_ <? 3.0); [| reflexivity].
  destruct (_ >=? _); [| reflexivity].
  unfold Player.takeDamage.
  destruct (Player.currentHealth _ <=? 0); reflexivity.
Qed.

Lemma position_updateBoss H dt g :
  playerPosition (GameManager.updateBoss H dt g) = playerPosition g.
Proof.
  unfold GameManager.updateBoss.
  destruct (GameManager.boss g) as [b |]; [| reflexivity].
  destruct (negb (Boss.isDestroyed b)); [| reflexivity].
  rewrite position_checkBossCollisions. reflexivity.
Qed.

Lemma position_checkPlayerEnemyCollisions H dt g :
  playerPosition (GameManager.checkPlayerEnemyCollisions H dt g)
  = playerPosition g.
Proof.
  destruct (checkPlayerEnemyCollisions_contact H dt g) as [_ Hb].
  cbv zeta in Hb. unfold playerBody in Hb. injection Hb as E _ _. exact E.
Qed.

Lemma position_update H g :
  playerPosition (GameManager.update H g)
  = playerPosition
      (GameManager.updateEntities H (Time.deltaTime (GameManager.time g)) g).
Proof.
  unfold GameManager.update. cbv zeta.
  rewrite (position_of_body _ _ (body_checkGemCollections H _)),
    (position_of_body _ _ (body_checkProjectileEnemyCollisions H _)),
    position_checkPlayerEnemyCollisions,
    (position_of_body _ _ (body_updateSlowMo _)),
    position_updateBoss.
  reflexivity.
Qed.

(** C3, amended.  In every frame the entity updates of [update] (player,
    enemies, skills, projectiles, gems) enter no collision pass, and after
    them, and after the boss has moved, the passes are entered in this order:
    player against boss and projectiles against boss (both only when a boss
    exists and is not destroyed), then player against enemies, projectiles
    against enemies, and gem collection.  The passes leave the player where
    the entity updates have put it. *)
Theorem C3_pass_order (H : Host) (g : GameManager.t) :
  let dt := Time.deltaTime (GameManager.time g) in
  let moved := GameManager.updateEntities H dt g in
  passesOf (GameManager.events moved) = passesOf (GameManager.events g)
  /\ passesOf (GameManager.events (GameManager.update H g))
     = passesOf (GameManager.events g)
       ++ (if bossAlive moved then [PlayerBossContact; ProjectileBoss] else [])
       ++ [PlayerEnemyContact; ProjectileEnemy; PlayerGem]
  /\ playerPosition (GameManager.update H g) = playerPosition moved.
Proof.
  cbv zeta. split; [| split].
  - apply passes_updateEntities.
  - unfold GameManager.update. cbv zeta.
    rewrite passes_checkGemCollections,
      passes_checkProjectileEnemyCollisions,
      passes_checkPlayerEnemyCollisions, passes_updateSlowMo,
      passes_updateBoss, passes_updateEntities.
    unfold bossPasses. rewrite <- !app_assoc. reflexivity.
  - apply position_update.
Qed.

(** C3, as stated, fails.  In [crossfireGame] the passes of the frame run in
    the order boss contact, projectiles against boss, enemy contact,
    projectiles against enemies, gems, which is not the specification's
    order; and the order shows: the one projectile, within reach of both the
    boss and the enemy, damages the boss (5000 to 4999) and leaves the enemy
    at its 3 HP. *)
Lemma C3_counterexample :
  let g := GameManager.update exampleHost crossfireGame in
  passesOf (GameManager.events crossfireGame) = []
  /\ passesOf (GameManager.events g)
     = [PlayerBossContact; ProjectileBoss; PlayerEnemyContact;
        ProjectileEnemy; PlayerGem]
  /\ passesOf (GameManager.events g) <> Spec.passOrder
  /\ option_map Boss.health (GameManager.boss g) = Some (5000 - 1)
  /\ map Enemy.health (GameManager.enemies g) = [3]
  /\ GameManager.projectiles g = [].
Proof.
  cbv zeta. vm_compute. repeat split; discriminate.
Qed.

(** ** Projectiles against enemies *)

Lemma floatingTexts_app (a b : list Event) :
  floatingTexts (a ++ b) = (floatingTexts a + floatingTexts b)%nat.
Proof.
  unfold floatingTexts. rewrite filter_app, length_app. reflexivity.
Qed.

Lemma texts_emit (evs : list Event) (g : GameManager.t) :
  floatingTexts (GameManager.events (GameManager.emit evs g))
  = (floatingTexts (GameManager.events g) + floatingTexts evs)%nat.
Proof. simpl. apply floatingTexts_app. Qed.

Lemma texts_rewardKill H e g :
  floatingTexts (GameManager.events (GameManager.rewardKill H e g))
  = floatingTexts (GameManager.events g).
Proof.
  unfold GameManager.rewardKill. cbv zeta. rewrite texts_emit.
  unfold GameManager.spawnGem. cbn [GameManager.events GameManager.set_rng
      GameManager.set_experienceGems].
  rewrite texts_emit. cbn [GameManager.events GameManager.set_uiManager
      GameManager.set_enemySpawner].
  unfold floatingTexts at 2 3. simpl. lia.
Qed.

(** A hit changes one enemy of the array and no other: the first one, in the
    order of the loop, that is not destroyed and within the hit distance; it
    loses the projectile's damage. *)
Lemma hitFirst_one_enemy H pos hitDist dmg es es' e' died :
  GameManager.hitFirst H pos hitDist dmg es = Some (es', e', died) ->
  exists l1 e l2,
    es = l1 ++ e :: l2
    /\ es' = l1 ++ e' :: l2
    /\ e' = fst (Enemy.takeDamage dmg e)
    /\ Enemy.health e' = Enemy.health e - dmg
    /\ died = (Enemy.health e' <=? 0)
    /\ Enemy.isDestroyed e = false
    /\ (Vector3.distanceTo H pos (Enemy.getPosition e) <? hitDist) = true
    /\ forallb
         (fun x => negb (negb (Enemy.isDestroyed x)
                         && (Vector3.distanceTo H pos (Enemy.getPosition x)
                             <? hitDist))) l1 = true.
Proof.
  revert es'. induction es as [| e r IH]; intros es' Hf; simpl in Hf.
  - discriminate.
  - destruct (negb (Enemy.isDestroyed e)
              && (Vector3.distanceTo H pos (Enemy.getPosition e) <? hitDist))
      eqn:Hc.
    + injection Hf as <- <- <-.
      apply andb_true_iff in Hc. destruct Hc as [Hd Hin].
      apply negb_true_iff in Hd.
      exists [], e, r. repeat split; auto.
    + destruct (GameManager.hitFirst H pos hitDist dmg r)
        as [[[r' t] d] |] eqn:Hr; [| discriminate].
      injection Hf as <- <- <-.
      destruct (IH r' eq_refl)
        as (l1 & x & l2 & E1 & E2 & E3 & E4 & E5 & E6 & E7 & E8).
      exists (e :: l1), x, l2. subst r r'. simpl. rewrite Hc, E8.
      repeat split; auto.
Qed.

Lemma hitFirst_existsb H pos hitDist dmg es :
  match GameManager.hitFirst H pos hitDist dmg es with
  | Some _ => true
  | None => false
  end
  = existsb (fun e => negb (Enemy.isDestroyed e)
                      && (Vector3.distanceTo H pos (Enemy.getPosition e)
                          <? hitDist)) es.
Proof.
  induction es as [| e r IH]; simpl.
  - reflexivity.
  - destruct (negb (Enemy.isDestroyed e) && _); simpl.
    + reflexivity.
    + rewrite <- IH.
      destruct (GameManager.hitFirst H pos hitDist dmg r) as [[[r' e'] d] |];
        reflexivity.
Qed.

Lemma existsb_rev' {A} (f : A -> bool) (l : list A) :
  existsb f (rev l) = existsb f l.
Proof.
  induction l as [| a l IH]; simpl.
  - reflexivity.
  - rewrite existsb_app, IH. simpl. rewrite orb_false_r. apply orb_comm.
Qed.

Lemma hitEnemy_removed H p g :
  fst (GameManager.hitEnemy H p g)
  = negb (Projectile.isDestroyed p) && existsb (inReach H g p)
      (GameManager.enemies g).
Proof.
  unfold GameManager.hitEnemy. destruct (Projectile.isDestroyed p);
      [reflexivity |].
  cbn [negb andb].
  rewrite <- (existsb_rev' _ (GameManager.enemies g)). unfold inReach.
  rewrite <- (hitFirst_existsb H (Projectile.getPosition p)
                (GameManager.projectileHitDist g) (Projectile.getDamage p)).
  destruct (GameManager.hitFirst _ _ _ _ _) as [[[es e] d] |]; reflexivity.
Qed.

Lemma hitEnemy_texts H p g :
  floatingTexts (GameManager.events (snd (GameManager.hitEnemy H p g)))
  = (floatingTexts (GameManager.events g)
     + (if fst (GameManager.hitEnemy H p g) then 1 else 0))%nat.
Proof.
  unfold GameManager.hitEnemy. destruct (Projectile.isDestroyed p); [simpl;
      lia |].
  destruct (GameManager.hitFirst _ _ _ _ _) as [[[es e] d] |]; [| simpl; lia].
  cbn [fst snd]. destruct d.
  - rewrite texts_rewardKill, texts_emit. reflexivity.
  - rewrite !texts_emit. cbn [GameManager.events GameManager.set_enemies
      GameManager.set_enemySpawner].
    unfold floatingTexts at 2 3. simpl. lia.
Qed.

Lemma resolveProjectiles_count H ps g :
  let r := GameManager.resolveProjectiles H ps g in
  (List.length (fst r) + floatingTexts (GameManager.events (snd r))
   = List.length ps + floatingTexts (GameManager.events g))%nat
  /\ incl (fst r) ps.
Proof.
  cbv zeta. revert g. induction ps as [| p r IH]; intros g; simpl.
  - split; [reflexivity | apply incl_refl].
  - pose proof (hitEnemy_texts H p g) as Ht.
    destruct (GameManager.hitEnemy H p g) as [removed g1]. cbn [fst snd] in Ht.
    destruct (IH g1) as [Hc Hi].
    destruct (GameManager.resolveProjectiles H r g1) as [kept g2]. cbn [fst
        snd] in *.
    destruct removed; simpl.
    + split; [lia | apply incl_tl; exact Hi].
    + split; [lia |]. apply incl_cons; [left; reflexivity |].
      apply incl_tl. exact Hi.
Qed.

Lemma existsb_removeFirst (f : Enemy.t -> bool) (i : nat)
    (es : list Enemy.t) :
  existsb f (EnemySpawner.removeFirst i es) = true -> existsb f es = true.
Proof.
  induction es as [| e r IH]; [discriminate |].
  cbn [EnemySpawner.removeFirst existsb].
  destruct (Nat.eqb (Enemy.id e) i).
  - intros Hr. rewrite Hr. apply orb_true_r.
  - cbn [existsb]. intros Hx. apply orb_true_iff in Hx.
    destruct Hx as [Hx | Hx]; [rewrite Hx; reflexivity |].
    rewrite (IH Hx). apply orb_true_r.
Qed.

(** A hit leaves every enemy where it stands and as destroyed as it was:
    what is within reach of a projectile after it was within reach
    before. *)
Lemma hitFirst_reach H pos hitDist dmg es es' e' died (f : Enemy.t -> bool) :
  (forall x, f (fst (Enemy.takeDamage dmg x)) = f x) ->
  GameManager.hitFirst H pos hitDist dmg es = Some (es', e', died) ->
  existsb f es' = existsb f es.
Proof.
  intros Hf. revert es'. induction es as [| e r IH]; intros es' Hh;
    [discriminate |].
  cbn [GameManager.hitFirst] in Hh.
  destruct (_ && _).
  - pose proof (Hf e) as He. unfold Enemy.takeDamage in *. cbv zeta in *.
    cbn [fst] in He. injection Hh as <- <- <-. cbn [existsb]. rewrite He.
    reflexivity.
  - destruct (GameManager.hitFirst H pos hitDist dmg r)
      as [[[r' e1] d1] |]; [| discriminate].
    injection Hh as <- <- <-. cbn [existsb]. rewrite (IH r' eq_refl).
    reflexivity.
Qed.

Lemma canHit_hitEnemy H p g q :
  canHit H (snd (GameManager.hitEnemy H p g)) q = true ->
  canHit H g q = true.
Proof.
  unfold GameManager.hitEnemy.
  destruct (Projectile.isDestroyed p); [exact (fun x => x) |].
  destruct (GameManager.hitFirst _ _ _ _ _) as [[[es e] died] |] eqn:Eh;
    [| exact (fun x => x)].
  apply (hitFirst_reach _ _ _ _ _ _ _ _ (inReach H g q)) in Eh;
    [| intros x; reflexivity].
  rewrite existsb_rev' in Eh.
  unfold canHit. intros Hc. apply andb_true_iff in Hc.
  destruct Hc as [Hlive Hx]. rewrite Hlive. cbn [andb].
  rewrite <- Eh. destruct died.
  - unfold GameManager.rewardKill, GameManager.spawnGem in Hx.
    cbv zeta in Hx. unfold inReach in Hx.
    cbn [fst snd GameManager.enemies GameManager.emit GameManager.set_rng
         GameManager.set_experienceGems GameManager.set_uiManager
         GameManager.set_enemySpawner GameManager.set_enemies
         GameManager.enemySpawner GameManager.projectileHitDist
         EnemySpawner.removeEnemy EnemySpawner.set_enemies
         EnemySpawner.getEnemies EnemySpawner.enemies] in Hx.
    apply existsb_removeFirst in Hx. rewrite existsb_rev' in Hx. exact Hx.
  - unfold inReach in Hx.
    cbn [fst snd GameManager.enemies GameManager.emit
         GameManager.set_enemySpawner GameManager.set_enemies
         GameManager.enemySpawner GameManager.projectileHitDist
         EnemySpawner.set_enemies EnemySpawner.getEnemies
         EnemySpawner.enemies] in Hx.
    rewrite existsb_rev' in Hx. exact Hx.
Qed.

(** The outer loop: no projectile it leaves can hit an enemy afterwards,
    and it leaves every projectile that could not hit one before. *)
Lemma resolveProjectiles_reach H ps g :
  let r := GameManager.resolveProjectiles H ps g in
  (forall q, canHit H (snd r) q = true -> canHit H g q = true)
  /\ Forall (fun p => canHit H (snd r) p = false) (fst r)
  /\ (forall p, In p ps -> canHit H g p = false -> In p (fst r)).
Proof.
  cbv zeta. revert g. induction ps as [| p r IH]; intros g.
  - split; [exact (fun q x => x) |]. split; [constructor |].
    intros p [].
  - cbn [GameManager.resolveProjectiles].
    pose proof (hitEnemy_removed H p g) as Hrem.
    pose proof (canHit_hitEnemy H p g) as Hmono.
    fold (canHit H g p) in Hrem.
    assert (Hsame : fst (GameManager.hitEnemy H p g) = false ->
                    snd (GameManager.hitEnemy H p g) = g).
    { unfold GameManager.hitEnemy.
      destruct (Projectile.isDestroyed p); [reflexivity |].
      destruct (GameManager.hitFirst _ _ _ _ _) as [[[es e] died] |];
        [discriminate | reflexivity]. }
    destruct (GameManager.hitEnemy H p g) as [removed g1].
    cbn [fst snd] in Hrem, Hmono, Hsame.
    destruct (IH g1) as (I1 & I2 & I3).
    destruct (GameManager.resolveProjectiles H r g1) as [kept g2].
    cbn [fst snd] in *.
    assert (Hall : forall q, canHit H g2 q = true -> canHit H g q = true)
      by (intros q Hq; apply Hmono, I1, Hq).
    split; [exact Hall |]. split.
    + destruct removed; [exact I2 |].
      constructor; [| exact I2].
      destruct (canHit H g2 p) eqn:E; [| reflexivity].
      apply Hall in E. congruence.
    + intros q [<- | Hin] Hq.
      * rewrite Hq in Hrem. subst removed. left. reflexivity.
      * assert (Hq1 : canHit H g1 q = false).
        { destruct (canHit H g1 q) eqn:E; [| reflexivity].
          apply Hmono in E. congruence. }
        specialize (I3 q Hin Hq1).
        destruct removed; [exact I3 | right; exact I3].
Qed.

(** C2, amended.  A projectile, whatever weapon fired it, is destroyed and
    removed in [checkProjectileEnemyCollisions] on its first hit, that is
    when the loop reaches it while it is not destroyed and some enemy that
    is not destroyed is within the hit distance; the hit emits one damage
    number.  For the pass as a whole:
    - the projectile the loop visits first, the last of the array, is
      removed exactly when it can hit an enemy of the array as the pass
      finds it;
    - a projectile that cannot hit any enemy of that array stays;
    - after the pass no projectile left in the array can hit an enemy left
      in the array;
    - the projectiles left are among those present before, and the number
      of projectiles removed is the number of damage numbers emitted: one
      hit per projectile at most. *)
Theorem C2_projectile_destroyed_on_first_hit (H : Host) (g : GameManager.t) :
  (forall p : Projectile.t,
     let r := GameManager.hitEnemy H p g in
     fst r = negb (Projectile.isDestroyed p)
             && existsb (inReach H g p) (GameManager.enemies g)
     /\ floatingTexts (GameManager.events (snd r))
        = (floatingTexts (GameManager.events g) + (if fst r then 1 else 0))%nat)
  /\ (let g' := GameManager.checkProjectileEnemyCollisions H g in
      (List.length (GameManager.projectiles g') + floatingTexts
          (GameManager.events g')
       = List.length (GameManager.projectiles g) + floatingTexts
           (GameManager.events g))%nat
      /\ incl (GameManager.projectiles g') (GameManager.projectiles g)
      /\ (forall ps p,
            GameManager.projectiles g = ps ++ [p] ->
            exists kept,
              GameManager.projectiles g'
              = kept ++ (if canHit H g p then [] else [p])
              /\ incl kept ps)
      /\ (forall p,
            In p (GameManager.projectiles g) -> canHit H g p = false ->
            In p (GameManager.projectiles g'))
      /\ Forall (fun p => canHit H g' p = false)
           (GameManager.projectiles g')).
Proof.
  split.
  - intros p. cbv zeta. split; [apply hitEnemy_removed | apply hitEnemy_texts].
  - cbv zeta. unfold GameManager.checkProjectileEnemyCollisions. cbv zeta.
    set (g0 := GameManager.emit [EnterPass ProjectileEnemy] g).
    assert (Hg0 : forall q, canHit H g0 q = canHit H g q)
      by (intros q; reflexivity).
    change (GameManager.projectiles g0) with (GameManager.projectiles g).
    split; [| split; [| split; [| split]]].
    + destruct (resolveProjectiles_count H (rev (GameManager.projectiles g))
                  g0) as [Hc _].
      destruct (GameManager.resolveProjectiles H
                  (rev (GameManager.projectiles g)) g0) as [kept g1].
      cbn [fst snd] in Hc.
      cbn [GameManager.projectiles GameManager.events
           GameManager.set_projectiles] in *.
      rewrite !length_rev in *. unfold g0 in Hc.
      cbn [GameManager.events GameManager.emit] in Hc.
      rewrite floatingTexts_app in Hc.
      unfold floatingTexts at 3 in Hc. simpl in Hc. lia.
    + destruct (resolveProjectiles_count H (rev (GameManager.projectiles g))
                  g0) as [_ Hi].
      destruct (GameManager.resolveProjectiles H
                  (rev (GameManager.projectiles g)) g0) as [kept g1].
      cbn [fst snd] in Hi. cbn [GameManager.projectiles
                                  GameManager.set_projectiles].
      intros x Hx. apply in_rev in Hx. apply Hi in Hx.
      apply in_rev in Hx. exact Hx.
    + intros ps p Eps. rewrite Eps, rev_app_distr. cbn [rev app].
      cbn [GameManager.resolveProjectiles].
      pose proof (hitEnemy_removed H p g0) as Hrem.
      fold (canHit H g0 p) in Hrem. rewrite Hg0 in Hrem.
      destruct (GameManager.hitEnemy H p g0) as [removed g1].
      cbn [fst] in Hrem. subst removed.
      destruct (resolveProjectiles_count H (rev ps) g1) as [_ Hi].
      destruct (GameManager.resolveProjectiles H (rev ps) g1)
        as [kept g2].
      cbn [fst snd] in Hi.
      cbn [GameManager.projectiles GameManager.set_projectiles].
      exists (rev kept). split.
      * destruct (canHit H g p); [rewrite app_nil_r; reflexivity |].
        reflexivity.
      * intros x Hx. apply in_rev in Hx. apply Hi in Hx.
        apply in_rev in Hx. exact Hx.
    + intros p Hin Hp.
      destruct (resolveProjectiles_reach H (rev (GameManager.projectiles g))
                  g0) as (_ & _ & I3).
      destruct (GameManager.resolveProjectiles H
                  (rev (GameManager.projectiles g)) g0) as [kept g1].
      cbn [fst snd] in I3.
      cbn [GameManager.projectiles GameManager.set_projectiles].
      apply in_rev. rewrite rev_involutive. apply I3.
      * apply in_rev in Hin. exact Hin.
      * rewrite Hg0. exact Hp.
    + destruct (resolveProjectiles_reach H (rev (GameManager.projectiles g))
                  g0) as (_ & I2 & _).
      destruct (GameManager.resolveProjectiles H
                  (rev (GameManager.projectiles g)) g0) as [kept g1].
      cbn [fst snd] in I2.
      cbn [GameManager.projectiles GameManager.set_projectiles].
      apply Forall_forall. intros p Hin. apply in_rev in Hin.
      rewrite Forall_forall in I2. exact (I2 p Hin).
Qed.

(** C2, as stated, fails.  A projectile fired by the pistol, with two normal
    enemies within its hit distance, damages one of them (3 HP to 2) and is
    removed from the array at that first hit; the other enemy is untouched
    and a single damage number is emitted. *)
Lemma C2_counterexample :
  let g := GameManager.checkProjectileEnemyCollisions exampleHost
             pistolShotGame in
  List.length (GameManager.projectiles pistolShotGame) = 1%nat
  /\ forallb
       (fun p => forallb (inReach exampleHost pistolShotGame p) twoEnemies)
       (GameManager.projectiles pistolShotGame) = true
  /\ GameManager.projectiles g = []
  /\ map Enemy.health (GameManager.enemies g) = [3; 3 - 1]
  /\ floatingTexts (GameManager.events g) = 1%nat.
Proof.
  cbv zeta. vm_compute. repeat split.
Qed.

(** ** Player: health *)

Lemma maxHealth_applyHealthEvent (p : Player.t) (ev : HealthEvent) :
  Player.maxHealth (applyHealthEvent p ev) = Player.maxHealth p.
Proof.
  destruct ev; simpl; try reflexivity.
  unfold Player.handleRegen.
  destruct (Player.currentHealth p <? Player.maxHealth p); reflexivity.
Qed.

Lemma health_le_max_applyHealthEvent (p : Player.t) (ev : HealthEvent) :
  nonNegativeDamage ev ->
  Player.currentHealth p <= Player.maxHealth p ->
  Player.currentHealth (applyHealthEvent p ev)
  <= Player.maxHealth (applyHealthEvent p ev).
Proof.
  intros Hnn Hle. rewrite maxHealth_applyHealthEvent.
  destruct ev; simpl in *.
  - lra.
  - unfold Player.handleRegen.
    destruct (Player.currentHealth p <? Player.maxHealth p); simpl.
    + apply Qmin_le_r.
    + exact Hle.
  - apply Qmin_le_r.
  - apply Qmin_le_r.
Qed.

Lemma health_le_max_run (evs : list HealthEvent) (p : Player.t) :
  Forall nonNegativeDamage evs ->
  Player.currentHealth p <= Player.maxHealth p ->
  Player.maxHealth (runHealth evs p) = Player.maxHealth p
  /\ Player.currentHealth (runHealth evs p)
     <= Player.maxHealth (runHealth evs p).
Proof.
  revert p. induction evs as [| ev evs IH]; intros p Hall Hle; simpl.
  - split; [reflexivity | exact Hle].
  - inversion Hall as [| ? ? Hev Hevs]; subst.
    destruct (IH (applyHealthEvent p ev) Hevs
                (health_le_max_applyHealthEvent p ev Hev Hle)) as [Hm Hc].
    split; [| exact Hc].
    rewrite Hm. apply maxHealth_applyHealthEvent.
Qed.

Lemma takeDamage_exact (amt : Q) (p : Player.t) :
  Player.currentHealth (fst (Player.takeDamage amt p))
  = Player.currentHealth p - amt
  /\ (snd (Player.takeDamage amt p) = true
      <-> Player.currentHealth p - amt <= 0).
Proof.
  unfold Player.takeDamage. simpl. split; [reflexivity |].
  apply Qleb_true.
Qed.

(** *** The invariant of a run *)

Lemma Enemy_update_enemyOk H dt pos e :
  enemyOk e -> enemyOk (Enemy.update H dt pos e).
Proof.
  unfold enemyOk, Enemy.update. intros [Hd Hn]. rewrite Hn. simpl. auto.
Qed.

Lemma Enemy_takeDamage_enemyOk amt e :
  enemyOk e -> enemyOk (fst (Enemy.takeDamage amt e)).
Proof. unfold enemyOk. simpl. auto. Qed.

Lemma Enemy_spawned_enemyOk i ty pos m :
  enemyOk (Enemy.start (Enemy.new i ty) pos m).
Proof. unfold enemyOk. destruct ty; simpl; split; (lra || reflexivity). Qed.

Lemma removeFirst_enemyOk i es :
  Forall enemyOk es -> Forall enemyOk (EnemySpawner.removeFirst i es).
Proof.
  induction 1 as [| e es He Hes IH]; simpl.
  - constructor.
  - destruct (Nat.eqb (Enemy.id e) i); [exact Hes | constructor; assumption].
Qed.

Lemma hitByOrbitals_enemyOk H dmg interval now ppos os cds e :
  enemyOk e ->
  enemyOk
    (snd (fst (fst (OrbitalShield.hitByOrbitals H dmg interval now ppos os cds
        e)))).
Proof.
  revert cds e. induction os as [| o os IH]; intros cds e He; simpl.
  - exact He.
  - destruct (_ && _).
    + destruct (Enemy.health e - dmg <=? 0).
      * exact He.
      * match goal with
        | |- context [OrbitalShield.hitByOrbitals H dmg interval now ppos os
            ?c ?x] =>
            specialize (IH c x He);
            destruct (OrbitalShield.hitByOrbitals H dmg interval now ppos os c
                x)
              as [[[cds2 e3] evs] d]
        end.
        exact IH.
    + apply IH. exact He.
Qed.

Lemma hitEnemies_enemyOk H dmg interval now ppos os cds es :
  Forall enemyOk es ->
  Forall enemyOk
    (snd (fst (fst (OrbitalShield.hitEnemies H dmg interval now ppos os cds
        es))))
  /\ match snd (OrbitalShield.hitEnemies H dmg interval now ppos os cds es) with
     | Some e => enemyOk e
     | None => True
     end.
Proof.
  intros Hall. revert cds.
  induction Hall as [| e es He Hes IH]; intros cds; simpl.
  - split; [constructor | exact I].
  - destruct (Enemy.isDestroyed e).
    + specialize (IH cds).
      destruct (OrbitalShield.hitEnemies H dmg interval now ppos os cds es)
        as [[[cds1 es1] evs] res]. simpl in *.
      destruct IH as [IH1 IH2]. split; [constructor; assumption | exact IH2].
    + pose proof (hitByOrbitals_enemyOk H dmg interval now ppos os cds e He)
        as Hq.
      destruct (OrbitalShield.hitByOrbitals H dmg interval now ppos os cds e)
        as [[[cds1 e1] evs1] died]. simpl in Hq.
      destruct died.
      * simpl. split; [constructor; assumption | exact Hq].
      * specialize (IH cds1).
        destruct (OrbitalShield.hitEnemies H dmg interval now ppos os cds1 es)
          as [[[cds2 es2] evs2] res]. simpl in *.
        destruct IH as [IH1 IH2]. split; [constructor; assumption | exact IH2].
Qed.

Lemma OrbitalShield_update_enemyOk H dt now ppos es s :
  Forall enemyOk es ->
  Forall enemyOk
    (snd (fst (fst (OrbitalShield.update H dt now ppos es s))))
  /\ match snd (OrbitalShield.update H dt now ppos es s) with
     | Some e => enemyOk e
     | None => True
     end.
Proof.
  intros Hall. unfold OrbitalShield.update.
  destruct (negb (OrbitalShield.isActive s)); [split; [exact Hall | exact I] |].
  match goal with
  | |- context [OrbitalShield.hitEnemies ?a ?b ?c ?d ?e ?f ?g ?h] =>
      pose proof (hitEnemies_enemyOk a b c d e f g h Hall) as Hq;
      destruct (OrbitalShield.hitEnemies a b c d e f g h)
        as [[[cds es'] evs] res]
  end.
  simpl in *. exact Hq.
Qed.

Lemma strikeValid_enemyOk k amt es :
  Forall enemyOk es ->
  match ThunderStrike.strikeValid k amt es with
  | Some (es', tg, _) => Forall enemyOk es' /\ enemyOk tg
  | None => True
  end.
Proof.
  intros Hall. revert k.
  induction Hall as [| e es He Hes IH]; intros k; simpl.
  - exact I.
  - assert (He' : forall h fl ft,
               enemyOk (Enemy.mk (Enemy.id e) (Enemy.type e)
                          (Enemy.position e) (Enemy.direction e) false
                          (Enemy.scale e) (Enemy.speed e) (Enemy.maxHealth e)
                          h (Enemy.contactDamage e) (Enemy.xpValue e) fl ft
                          (Enemy.flashDuration e)))
      by (intros; split; [exact (proj1 He) | reflexivity]).
    destruct (Enemy.isDestroyed e).
    + specialize (IH k).
      destruct (ThunderStrike.strikeValid k amt es) as [[[es' tg] d] |];
        [| exact I].
      destruct IH. split; [constructor |]; assumption.
    + destruct k as [| k'].
      * split; [constructor; [apply He' | exact Hes] | apply He'].
      * specialize (IH k').
        destruct (ThunderStrike.strikeValid k' amt es) as [[[es' tg] d] |];
          [| exact I].
        destruct IH. split; [constructor |]; assumption.
Qed.

Lemma ThunderStrike_update_enemyOk H dt es rng s :
  Forall enemyOk es ->
  Forall enemyOk
    (snd (fst (fst (fst (ThunderStrike.update H dt es rng s)))))
  /\ match snd (ThunderStrike.update H dt es rng s) with
     | Some e => enemyOk e
     | None => True
     end.
Proof.
  intros Hall. unfold ThunderStrike.update.
  destruct (negb (ThunderStrike.isActive s)); [split; [exact Hall | exact I] |].
  destruct (_ && _); [| split; [exact Hall | exact I]].
  destruct (Nat.eqb _ 0); [split; [exact Hall | exact I] |].
  match goal with
  | |- context [ThunderStrike.strikeValid ?k ?a ?l] =>
      pose proof (strikeValid_enemyOk k a l Hall) as Hs;
      destruct (ThunderStrike.strikeValid k a l) as [[[es' tg] died] |]
  end.
  - destruct Hs. destruct died; simpl; split; auto.
  - split; [exact Hall | exact I].
Qed.

Lemma SkillManager_update_enemyOk H dt now ppos es rng m :
  Forall enemyOk es ->
  let r := SkillManager.update H dt now ppos es rng m in
  Forall enemyOk (snd (fst (fst (fst r))))
  /\ Forall enemyOk (snd r).
Proof.
  cbv zeta. revert es rng. induction m as [| [ty sk] m IH]; intros es rng Hall;
    simpl.
  - split; [exact Hall | constructor].
  - destruct sk as [o | th].
    + pose proof (OrbitalShield_update_enemyOk H dt now ppos es o Hall) as Hq.
      destruct (OrbitalShield.update H dt now ppos es o)
        as [[[o1 es1] evs1] res1]. simpl in Hq. destruct Hq as [Hq1 Hq2].
      specialize (IH es1 rng Hq1).
      destruct (SkillManager.update H dt now ppos es1 rng m)
        as [[[[m2 es2] rng2] evs2] res2]. simpl in *.
      destruct IH as [IH1 IH2]. split; [exact IH1 |].
      destruct res1; [constructor |]; assumption.
    + pose proof (ThunderStrike_update_enemyOk H dt es rng th Hall) as Hq.
      destruct (ThunderStrike.update H dt es rng th)
        as [[[[t1 es1] rng1] evs1] res1]. simpl in Hq.
      destruct Hq as [Hq1 Hq2].
      specialize (IH es1 rng1 Hq1).
      destruct (SkillManager.update H dt now ppos es1 rng1 m)
        as [[[[m2 es2] rng2] evs2] res2]. simpl in *.
      destruct IH as [IH1 IH2]. split; [exact IH1 |].
      destruct res1; [constructor |]; assumption.
Qed.

Lemma frameInvariant_same g g' :
  playerBody g' = playerBody g ->
  GameManager.enemySpawner g' = GameManager.enemySpawner g ->
  GameManager.boss g' = GameManager.boss g ->
  frameInvariant g -> frameInvariant g'.
Proof.
  unfold frameInvariant, healthBounded, bodiesOk, playerBody,
    GameManager.enemies.
  intros Hb He Hboss. injection Hb as _ Hc Hm.
  rewrite Hc, Hm, He, Hboss. auto.
Qed.

Lemma boss_gainXp amt g :
  GameManager.boss (GameManager.gainXp amt g) = GameManager.boss g.
Proof.
  unfold GameManager.gainXp.
  destruct (Player.gainXp amt (GameManager.player g)) as [p []]; reflexivity.
Qed.

Lemma inv_gainXp amt g :
  frameInvariant g -> frameInvariant (GameManager.gainXp amt g).
Proof.
  apply frameInvariant_same;
    [apply body_gainXp | apply enemySpawner_gainXp | apply boss_gainXp].
Qed.

Lemma inv_gameOver g :
  frameInvariant g -> frameInvariant (GameManager.gameOver g).
Proof. apply frameInvariant_same; reflexivity. Qed.

Lemma inv_showVictoryScreen g :
  frameInvariant g -> frameInvariant (GameManager.showVictoryScreen g).
Proof. apply frameInvariant_same; reflexivity. Qed.

Lemma inv_emit evs g :
  frameInvariant g -> frameInvariant (GameManager.emit evs g).
Proof. apply frameInvariant_same; reflexivity. Qed.

Lemma inv_rewardKill H e g :
  frameInvariant g -> frameInvariant (GameManager.rewardKill H e g).
Proof.
  unfold frameInvariant, healthBounded, bodiesOk.
  intros (Hh & He & Hb). split; [exact Hh |]. split; [| exact Hb].
  apply removeFirst_enemyOk. exact He.
Qed.

Lemma inv_fold_rewardKill H results g :
  frameInvariant g ->
  frameInvariant
    (fold_left (fun acc e => GameManager.rewardKill H e acc) results g).
Proof.
  revert g. induction results as [| e r IH]; intros g Hg; simpl.
  - exact Hg.
  - apply IH, inv_rewardKill, Hg.
Qed.

Lemma Player_handleRegen_bounded dt p :
  Player.currentHealth p <= Player.maxHealth p ->
  Player.currentHealth (Player.handleRegen dt p)
  <= Player.maxHealth (Player.handleRegen dt p).
Proof.
  intros Hle. unfold Player.handleRegen.
  destruct (Player.currentHealth p <? Player.maxHealth p); simpl.
  - apply Q.le_min_r.
  - exact Hle.
Qed.

Lemma Player_handleShooting_health H dt es p :
  Player.currentHealth (fst (Player.handleShooting H dt es p))
  = Player.currentHealth p
  /\ Player.maxHealth (fst (Player.handleShooting H dt es p))
     = Player.maxHealth p.
Proof.
  unfold Player.handleShooting.
  destruct (_ <? _); [split; reflexivity |].
  destruct (Nat.eqb _ 0); [split; reflexivity |].
  destruct (Player.findClosestEnemy _ _ _); [| split; reflexivity].
  destruct (_ >? _); split; reflexivity.
Qed.

Lemma inv_updatePlayer H dt g :
  frameInvariant g -> frameInvariant (GameManager.updatePlayer H dt g).
Proof.
  unfold frameInvariant, healthBounded, bodiesOk.
  intros (Hh & He & Hb). unfold GameManager.updatePlayer.
  match goal with
  | |- context [Player.handleShooting ?a ?b ?c ?d] =>
      destruct (Player_handleShooting_health a b c d) as [E1 E2];
      destruct (Player.handleShooting a b c d) as [p2 shot]
  end.
  cbn [fst] in E1, E2.
  assert (Hp2 : Player.currentHealth p2 <= Player.maxHealth p2).
  { rewrite E1, E2. exact Hh. }
  pose proof (Player_handleRegen_bounded dt p2 Hp2) as Hp3.
  destruct shot; (split; [exact Hp3 | split; [exact He | exact Hb]]).
Qed.

Lemma inv_updateSpawner H dt g :
  frameInvariant g -> frameInvariant (GameManager.updateSpawner H dt g).
Proof.
  unfold frameInvariant, healthBounded, bodiesOk.
  intros (Hh & He & Hb). unfold GameManager.updateSpawner.
  assert (Hs : Forall enemyOk
                 (EnemySpawner.enemies
                    (fst (EnemySpawner.update H dt (GameManager.waveManager g)
                            (Player.getPosition (GameManager.player g))
                            (GameManager.rng g) (GameManager.enemySpawner
                                g))))).
  { unfold EnemySpawner.update. cbv zeta.
    destruct (_ >=? _).
    - unfold EnemySpawner.spawn. cbn [fst EnemySpawner.enemies
        EnemySpawner.set_enemies EnemySpawner.set_timer].
      apply Forall_map. apply Forall_app. split.
      + eapply Forall_impl; [| exact He].
        intros e. apply Enemy_update_enemyOk.
      + constructor; [| constructor].
        apply Enemy_update_enemyOk, Enemy_spawned_enemyOk.
    - cbn [fst EnemySpawner.enemies EnemySpawner.set_enemies
             EnemySpawner.set_timer].
      apply Forall_map. eapply Forall_impl; [| exact He].
      intros e. apply Enemy_update_enemyOk. }
  destruct (EnemySpawner.update _ _ _ _ _ _) as [s r]. cbn [fst] in Hs.
  split; [exact Hh |]. split; [exact Hs | exact Hb].
Qed.

Lemma inv_updateSkills H dt g :
  frameInvariant g -> frameInvariant (GameManager.updateSkills H dt g).
Proof.
  intros (Hh & He & Hb). unfold GameManager.updateSkills.
  match goal with
  | |- context [SkillManager.update ?a ?b ?c ?d ?e ?f ?m] =>
      pose proof (SkillManager_update_enemyOk a b c d e f m He) as Hq;
      destruct (SkillManager.update a b c d e f m)
        as [[[[m' es] rng'] evs] results]
  end.
  cbv zeta in Hq. cbn [fst snd] in Hq. destruct Hq as [Hq1 Hq2].
  apply inv_fold_rewardKill.
  split; [exact Hh |]. split; [exact Hq1 | exact Hb].
Qed.

Lemma inv_checkBossSpawn H g :
  frameInvariant g -> frameInvariant (GameManager.checkBossSpawn H g).
Proof.
  intros (Hh & He & Hb). unfold GameManager.checkBossSpawn.
  destruct (_ && _); [| split; [exact Hh | split; [exact He | exact Hb]]].
  split; [exact Hh |]. split; [exact He |].
  unfold GameManager.spawnBoss. cbn. lra.
Qed.

Lemma inv_updateProjectiles dt g :
  frameInvariant g -> frameInvariant (GameManager.updateProjectiles dt g).
Proof. apply frameInvariant_same; reflexivity. Qed.

Lemma inv_updateGems H dt g :
  frameInvariant g -> frameInvariant (GameManager.updateGems H dt g).
Proof. apply frameInvariant_same; reflexivity. Qed.

Lemma inv_set_waveManager g w :
  frameInvariant g -> frameInvariant (GameManager.set_waveManager g w).
Proof. apply frameInvariant_same; reflexivity. Qed.

Lemma inv_updateEntities H dt g :
  frameInvariant g -> frameInvariant (GameManager.updateEntities H dt g).
Proof.
  intros Hg. unfold GameManager.updateEntities.
  apply inv_checkBossSpawn, inv_updateGems, inv_updateProjectiles,
    inv_updateSkills, inv_updateSpawner, inv_updatePlayer,
    inv_set_waveManager, Hg.
Qed.

Lemma Boss_update_contactDamage H dt pos b :
  Boss.contactDamage (Boss.update H dt pos b) = Boss.contactDamage b.
Proof. unfold Boss.update. destruct (Boss.isDestroyed b); reflexivity. Qed.

Lemma hitBoss_contactDamage H ps b :
  Boss.contactDamage (snd (fst (fst (GameManager.hitBoss H ps b))))
  = Boss.contactDamage b.
Proof.
  revert b. induction ps as [| p r IH]; intros b; simpl.
  - reflexivity.
  - destruct (Projectile.isDestroyed p).
    + specialize (IH b).
      destruct (GameManager.hitBoss H r b) as [[[k b1] evs] d].
      simpl in *. exact IH.
    + destruct (_ <? 3.0).
      * destruct (Boss.health b - Projectile.getDamage p <=? 0).
        -- reflexivity.
        -- match goal with
           | |- context [GameManager.hitBoss H r ?x] =>
               specialize (IH x);
               destruct (GameManager.hitBoss H r x) as [[[k b2] evs] d]
           end.
           simpl in *. exact IH.
      * specialize (IH b).
        destruct (GameManager.hitBoss H r b) as [[[k b1] evs] d].
        simpl in *. exact IH.
Qed.

Lemma inv_triggerVictory g :
  frameInvariant g -> frameInvariant (GameManager.triggerVictory g).
Proof.
  intros Hg. unfold GameManager.triggerVictory. cbv zeta.
  match goal with
  | |- context [GameManager.boss ?x] =>
      assert (Hx : frameInvariant x)
        by (revert Hg; apply frameInvariant_same; reflexivity);
      destruct (GameManager.boss x) as [b |] eqn:Eb; [| exact Hx];
      generalize dependent x
  end.
  intros x Hx Eb.
  pose proof (inv_gainXp (Boss.getXpValue b) x Hx) as (Hh & He & Hb).
  rewrite boss_gainXp, Eb in Hb.
  split; [exact Hh |]. split; [exact He | exact Hb].
Qed.

Lemma inv_player_takeDamage amt g :
  0 <= amt ->
  frameInvariant g ->
  frameInvariant
    (GameManager.set_player g (fst (Player.takeDamage amt (GameManager.player
        g)))).
Proof.
  intros Hamt (Hh & He & Hb). split; [| split; [exact He | exact Hb]].
  unfold healthBounded in *. simpl. lra.
Qed.

Lemma inv_set_contactDmgTimer g v :
  frameInvariant g -> frameInvariant (GameManager.set_contactDmgTimer g v).
Proof. apply frameInvariant_same; reflexivity. Qed.

Lemma inv_checkBossCollisions H g :
  frameInvariant g -> frameInvariant (GameManager.checkBossCollisions H g).
Proof.
  intros Hg. unfold GameManager.checkBossCollisions.
  destruct (GameManager.boss g) as [b |] eqn:Eb; [| exact Hg].
  destruct (Boss.isDestroyed b); [exact Hg |]. cbv zeta.
  assert (Hb0 : 0 <= Boss.contactDamage b).
  { destruct Hg as (_ & _ & Hb). rewrite Eb in Hb. exact Hb. }
  match goal with
  | |- context [GameManager.hitBoss ?a ?ps ?x] =>
      pose proof (hitBoss_contactDamage a ps x) as Hcd;
      destruct (GameManager.hitBoss a ps x) as [[[kept b'] evs] died]
  end.
  cbn [fst snd] in Hcd.
  match goal with
  | |- frameInvariant (if died then GameManager.triggerVictory ?x else ?x) =>
      assert (Hx : frameInvariant x); [| destruct died;
        [apply inv_triggerVictory; exact Hx | exact Hx]]
  end.
  match goal with
  | |- frameInvariant
         (GameManager.emit _
            (GameManager.set_boss (GameManager.set_projectiles
               (GameManager.emit _ ?y) _) _)) =>
      assert (Hy : frameInvariant y)
  end.
  { assert (Hg0 : frameInvariant
                    (GameManager.emit [EnterPass PlayerBossContact] g))
      by (apply inv_emit; exact Hg).
    destruct (_ <? 3.0); [| exact Hg0].
    destruct (_ >=? _); [| apply inv_set_contactDmgTimer; exact Hg0].
    match goal with
    | |- context [Player.takeDamage ?amt (GameManager.player ?z)] =>
        assert (Hz : frameInvariant z)
          by (do 2 apply inv_set_contactDmgTimer; exact Hg0);
        pose proof (inv_player_takeDamage amt z Hb0 Hz) as Ht;
        destruct (Player.takeDamage amt (GameManager.player z)) as [p dead]
    end.
    cbn [fst] in Ht. destruct dead; [apply inv_gameOver |]; exact Ht. }
  destruct Hy as (Hh & He & _).
  split; [exact Hh |]. split; [exact He |].
  cbn [GameManager.boss GameManager.emit GameManager.set_boss].
  rewrite Hcd. exact Hb0.
Qed.

Lemma inv_updateBoss H dt g :
  frameInvariant g -> frameInvariant (GameManager.updateBoss H dt g).
Proof.
  intros Hg. unfold GameManager.updateBoss.
  destruct (GameManager.boss g) as [b |] eqn:Eb; [| exact Hg].
  destruct (negb (Boss.isDestroyed b)); [| exact Hg].
  apply inv_checkBossCollisions.
  destruct Hg as (Hh & He & Hb). rewrite Eb in Hb.
  split; [exact Hh |]. split; [exact He |].
  cbn [GameManager.boss GameManager.set_boss].
  rewrite Boss_update_contactDamage. exact Hb.
Qed.

Lemma boss_updateSlowMo g :
  GameManager.boss (GameManager.updateSlowMo g) = GameManager.boss g.
Proof.
  unfold GameManager.updateSlowMo. destruct (_ >? 0); [| reflexivity].
  cbv zeta. destruct (_ <=? 0); reflexivity.
Qed.

Lemma inv_updateSlowMo g :
  frameInvariant g -> frameInvariant (GameManager.updateSlowMo g).
Proof.
  apply frameInvariant_same;
    [apply body_updateSlowMo | apply enemies_updateSlowMo
     | apply boss_updateSlowMo].
Qed.

Lemma contactScan_nonneg H pos d es :
  Forall enemyOk es -> 0 <= snd (GameManager.contactScan H pos d es).
Proof.
  unfold GameManager.contactScan.
  assert (G : forall acc : bool * Q,
             Forall enemyOk es -> 0 <= snd acc ->
             0 <= snd (fold_left
                         (fun acc e =>
                            if Vector3.distanceTo H pos (Enemy.getPosition e)
                               <? d
                            then (true, snd acc + Enemy.getContactDamage e)
                            else acc) es acc)).
  { induction es as [| e r IH]; intros acc Hall Hacc; simpl.
    - exact Hacc.
    - inversion Hall as [| ? ? He Hr]; subst.
      apply IH; [exact Hr |].
      destruct (_ <? d); [| exact Hacc].
      destruct He as [He _]. unfold Enemy.getContactDamage. simpl. lra. }
  intros Hall. apply G; [exact Hall | simpl; lra].
Qed.

Lemma inv_checkPlayerEnemyCollisions H dt g :
  frameInvariant g ->
  frameInvariant (GameManager.checkPlayerEnemyCollisions H dt g).
Proof.
  intros Hg. unfold GameManager.checkPlayerEnemyCollisions. cbv zeta.
  assert (Hg1 : frameInvariant
                  (GameManager.set_contactDmgTimer
                     (GameManager.emit [EnterPass PlayerEnemyContact] g)
                     (GameManager.contactDmgTimer
                        (GameManager.emit [EnterPass PlayerEnemyContact] g)
                      + dt)))
    by (apply inv_set_contactDmgTimer, inv_emit; exact Hg).
  match goal with
  | |- context [GameManager.contactScan ?a ?b ?c ?d] =>
      pose proof (contactScan_nonneg a b c d (proj1 (proj2 Hg))) as Hn;
      destruct (GameManager.contactScan a b c d) as [inContact totalDmg]
  end.
  cbn [snd] in Hn.
  destruct (_ && _); [| exact Hg1].
  match goal with
  | |- context [Player.takeDamage ?amt (GameManager.player ?z)] =>
      assert (Hz : frameInvariant z)
        by (apply inv_set_contactDmgTimer; exact Hg1);
      pose proof (inv_player_takeDamage amt z Hn Hz) as Ht;
      destruct (Player.takeDamage amt (GameManager.player z)) as [p dead]
  end.
  cbn [fst] in Ht. destruct dead; [apply inv_gameOver |]; exact Ht.
Qed.

Lemma hitFirst_enemyOk H pos d dmg es :
  Forall enemyOk es ->
  match GameManager.hitFirst H pos d dmg es with
  | Some (es', e', _) => Forall enemyOk es' /\ enemyOk e'
  | None => True
  end.
Proof.
  induction 1 as [| e r He Hr IH]; simpl.
  - exact I.
  - destruct (negb (Enemy.isDestroyed e) && _).
    + split; [constructor; [| exact Hr] |];
        apply Enemy_takeDamage_enemyOk; exact He.
    + destruct (GameManager.hitFirst H pos d dmg r) as [[[r' e'] died] |];
        [| exact I].
      destruct IH. split; [constructor |]; assumption.
Qed.

Lemma inv_hitEnemy H p g :
  frameInvariant g -> frameInvariant (snd (GameManager.hitEnemy H p g)).
Proof.
  intros Hg. unfold GameManager.hitEnemy.
  destruct (Projectile.isDestroyed p); [exact Hg |].
  assert (Hrev : Forall enemyOk (rev (GameManager.enemies g)))
    by (apply Forall_rev; exact (proj1 (proj2 Hg))).
  match goal with
  | |- context [GameManager.hitFirst ?a ?b ?c ?d ?l] =>
      pose proof (hitFirst_enemyOk a b c d l Hrev) as Hf;
      destruct (GameManager.hitFirst a b c d l) as [[[es e] died] |]
  end; [| exact Hg].
  destruct Hf as [Hes He]. cbn [snd].
  assert (Hg1 : frameInvariant
                  (GameManager.emit [FloatingText (Projectile.getDamage p)]
                     (GameManager.set_enemies g (rev es)))).
  { destruct Hg as (Hh & _ & Hb).
    split; [exact Hh |]. split; [| exact Hb].
    apply Forall_rev in Hes. exact Hes. }
  destruct died; [apply inv_rewardKill | apply inv_emit]; exact Hg1.
Qed.

Lemma inv_resolveProjectiles H ps g :
  frameInvariant g ->
  frameInvariant (snd (GameManager.resolveProjectiles H ps g)).
Proof.
  revert g. induction ps as [| p r IH]; intros g Hg; simpl.
  - exact Hg.
  - pose proof (inv_hitEnemy H p g Hg) as Hh.
    destruct (GameManager.hitEnemy H p g) as [removed g1]. cbn [snd] in Hh.
    specialize (IH g1 Hh).
    destruct (GameManager.resolveProjectiles H r g1) as [kept g2].
    exact IH.
Qed.

Lemma inv_set_projectiles g v :
  frameInvariant g -> frameInvariant (GameManager.set_projectiles g v).
Proof. apply frameInvariant_same; reflexivity. Qed.

Lemma inv_set_experienceGems g v :
  frameInvariant g -> frameInvariant (GameManager.set_experienceGems g v).
Proof. apply frameInvariant_same; reflexivity. Qed.

Lemma inv_checkProjectileEnemyCollisions H g :
  frameInvariant g ->
  frameInvariant (GameManager.checkProjectileEnemyCollisions H g).
Proof.
  intros Hg. unfold GameManager.checkProjectileEnemyCollisions. cbv zeta.
  match goal with
  | |- context [GameManager.resolveProjectiles ?a ?ps ?x] =>
      pose proof (inv_resolveProjectiles a ps x (inv_emit _ g Hg)) as Hr;
      destruct (GameManager.resolveProjectiles a ps x) as [kept g1]
  end.
  apply inv_set_projectiles. exact Hr.
Qed.

Lemma inv_collectGems H gems g :
  frameInvariant g ->
  frameInvariant (snd (GameManager.collectGems H gems g)).
Proof.
  revert g. induction gems as [| gem r IH]; intros g Hg; simpl.
  - exact Hg.
  - destruct (_ && _).
    + specialize (IH _ (inv_gainXp (ExperienceGem.xpValue gem) g Hg)).
      destruct (GameManager.collectGems H r _) as [r' g']. exact IH.
    + specialize (IH g Hg).
      destruct (GameManager.collectGems H r g) as [r' g']. exact IH.
Qed.

Lemma inv_checkGemCollections H g :
  frameInvariant g -> frameInvariant (GameManager.checkGemCollections H g).
Proof.
  intros Hg. unfold GameManager.checkGemCollections. cbv zeta.
  match goal with
  | |- context [GameManager.collectGems ?a ?gs ?x] =>
      pose proof (inv_collectGems a gs x (inv_emit _ g Hg)) as Hr;
      destruct (GameManager.collectGems a gs x) as [gems g1]
  end.
  apply inv_set_experienceGems. exact Hr.
Qed.

Lemma inv_update H g :
  frameInvariant g -> frameInvariant (GameManager.update H g).
Proof.
  intros Hg. unfold GameManager.update. cbv zeta.
  apply inv_checkGemCollections, inv_checkProjectileEnemyCollisions,
    inv_checkPlayerEnemyCollisions, inv_updateSlowMo, inv_updateBoss,
    inv_updateEntities, Hg.
Qed.

Lemma inv_set_time g v :
  frameInvariant g -> frameInvariant (GameManager.set_time g v).
Proof. apply frameInvariant_same; reflexivity. Qed.

Lemma inv_animate H currentTime g :
  frameInvariant g -> frameInvariant (GameManager.animate H currentTime g).
Proof.
  intros Hg. unfold GameManager.animate.
  destruct (_ && _); [exact Hg |]. cbv zeta.
  destruct (negb _); [apply inv_update |]; apply inv_set_time; exact Hg.
Qed.

Lemma Player_upgrade_health H id g :
  let p := GameManager.player (GameManager.applyUpgrade H id g) in
  Player.currentHealth p <= Player.maxHealth p
  \/ (Player.currentHealth p = Player.currentHealth (GameManager.player g)
      /\ Player.maxHealth p = Player.maxHealth (GameManager.player g)).
Proof.
  cbv zeta. unfold GameManager.applyUpgrade. destruct id; simpl.
  - right. split; reflexivity.
  - right. unfold Player.upgradeShotgun, Player.switchWeapon.
    destruct (Player.weapons_shotgun (GameManager.player g)); simpl;
      split; reflexivity.
  - right. split; reflexivity.
  - right. split; reflexivity.
  - left. apply Q.le_min_r.
Qed.

Lemma inv_selectUpgrade H id g :
  frameInvariant g -> frameInvariant (GameManager.selectUpgrade H id g).
Proof.
  intros (Hh & He & Hb).
  destruct (Player_upgrade_health H id g) as [Hle | [E1 E2]]; cbv zeta in *.
  - split; [exact Hle |]. split; [exact He | exact Hb].
  - split; [| split; [exact He | exact Hb]].
    unfold healthBounded in *.
    change (GameManager.player (GameManager.selectUpgrade H id g))
      with (GameManager.player (GameManager.applyUpgrade H id g)).
    rewrite E1, E2. exact Hh.
Qed.

(** [restart()] removes every enemy and plays one frame from the state
    [restarted]. *)
Lemma removeFirst_perm (i : nat) (es : list Enemy.t) :
  In i (map Enemy.id es) ->
  Permutation (map Enemy.id es)
    (i :: map Enemy.id (EnemySpawner.removeFirst i es)).
Proof.
  induction es as [| e r IH]; intros Hin; [destruct Hin |].
  cbn [EnemySpawner.removeFirst map].
  destruct (Nat.eqb (Enemy.id e) i) eqn:E.
  - apply Nat.eqb_eq in E. rewrite E. reflexivity.
  - destruct Hin as [Hin | Hin]; [apply Nat.eqb_neq in E; congruence |].
    cbn [map]. rewrite (IH Hin) at 1. apply perm_swap.
Qed.

Lemma removeAll_perm (l acc : list Enemy.t) :
  Permutation (map Enemy.id acc) (map Enemy.id l) ->
  fold_left (fun a e => EnemySpawner.removeFirst (Enemy.id e) a) l acc = [].
Proof.
  revert acc. induction l as [| e l IH]; intros acc Hp.
  - apply Permutation_sym, Permutation_nil in Hp.
    destruct acc; [reflexivity | discriminate].
  - cbn [fold_left]. apply IH.
    assert (Hin : In (Enemy.id e) (map Enemy.id acc))
      by (apply (Permutation_in _ (Permutation_sym Hp)); left; reflexivity).
    pose proof (removeFirst_perm _ _ Hin) as Hq.
    apply (Permutation_cons_inv (a := Enemy.id e)).
    rewrite <- Hq. exact Hp.
Qed.

Lemma fold_removeEnemy (l : list Enemy.t) (g : GameManager.t) :
  fold_left
    (fun acc e =>
       GameManager.set_enemySpawner acc
         (EnemySpawner.removeEnemy e (GameManager.enemySpawner acc)))
    l g
  = GameManager.set_enemies g
      (fold_left (fun a e => EnemySpawner.removeFirst (Enemy.id e) a) l
         (GameManager.enemies g)).
Proof.
  revert g. induction l as [| e l IH]; intros g.
  - destruct g as [? ? ? ? ? [] ? ? ? ? ? ? ? ? ? ? ? ? ? ? ? ? ?].
    reflexivity.
  - cbn [fold_left]. rewrite IH. reflexivity.
Qed.

Lemma restart_frame (H : Host) (currentTime : Q) (g : GameManager.t) :
  GameManager.restart H currentTime g
  = GameManager.update H
      (GameManager.set_time (restarted H g)
         (Time.update currentTime (GameManager.time g))).
Proof.
  unfold GameManager.restart. cbv zeta. rewrite fold_removeEnemy.
  rewrite removeAll_perm by reflexivity. reflexivity.
Qed.

Lemma inv_restart H currentTime g :
  frameInvariant (GameManager.restart H currentTime g).
Proof.
  rewrite restart_frame. apply inv_update, inv_set_time.
  split; [| split].
  - unfold healthBounded. simpl. lra.
  - constructor.
  - exact I.
Qed.

Lemma inv_new H now : frameInvariant (GameManager.new H now).
Proof.
  split; [| split].
  - unfold healthBounded. simpl. lra.
  - constructor.
  - exact I.
Qed.

Lemma inv_reachable H g : Reachable H g -> frameInvariant g.
Proof.
  induction 1 as [now | t g _ IH _ | t g _ _ _ | id g _ IH | i g _ IH].
  - apply inv_new.
  - apply inv_animate, IH.
  - apply inv_restart.
  - apply inv_selectUpgrade, IH.
  - revert IH. apply frameInvariant_same; reflexivity.
Qed.

Lemma continues_reachable H g g' :
  Reachable H g -> Continues H g g' -> Reachable H g'.
Proof.
  intros Hr. induction 1 as [| t g' _ IH Ht | id g' _ IH | i g' _ IH].
  - exact Hr.
  - apply reach_animate; assumption.
  - apply reach_select, IH.
  - apply reach_input, IH.
Qed.

(** In a run the spawner's array holds no destroyed enemy: every enemy in
    it is a valid target. *)
Lemma reachable_enemies_valid H g :
  Reachable H g ->
  ThunderStrike.validEnemies (GameManager.enemies g) = GameManager.enemies g.
Proof.
  intros Hreach.
  pose proof (proj1 (proj2 (inv_reachable H g Hreach))) as Hall.
  unfold ThunderStrike.validEnemies.
  induction Hall as [| e es [_ He] Hes IH]; simpl.
  - reflexivity.
  - rewrite He, IH. reflexivity.
Qed.

(** C1, as stated, fails.  Three boss contacts of 50 with one second of
    regeneration in between take a fresh player from 100 to 50, 50.5, 0.5
    and then -49.5, the last hit being the lethal one.  In a whole frame
    ([lethalContactGame]) the boss's contact takes the player from 30 HP to
    a negative health in the tick that sets [isGameOver]. *)
Lemma C1_counterexample :
  (let p := runHealth [Damage 50; Regen 1; Damage 50]
              (Player.new exampleHost) in
   0 < Player.currentHealth p
   /\ snd (Player.takeDamage 50 p) = true
   /\ Player.currentHealth (fst (Player.takeDamage 50 p)) < 0)
  /\ (let g := GameManager.update exampleHost lethalContactGame in
      GameManager.isGameOver lethalContactGame = false
      /\ GameManager.isGameOver g = true
      /\ Player.currentHealth (GameManager.player g) < 0).
Proof.
  cbv zeta. vm_compute. repeat split; discriminate.
Qed.

(** *** The player is alive until the game is over *)

Lemma aliveOk_same g g' : vital g' = vital g -> aliveOk g -> aliveOk g'.
Proof.
  unfold vital, aliveOk. intros E. injection E as -> -> ->.
  exact (fun x => x).
Qed.

Lemma vital_gainXp amt g : vital (GameManager.gainXp amt g) = vital g.
Proof.
  unfold GameManager.gainXp, Player.gainXp.
  destruct (_ >=? _); reflexivity.
Qed.

Lemma vital_rewardKill H e g : vital (GameManager.rewardKill H e g) = vital g.
Proof. reflexivity. Qed.

Lemma vital_fold_rewardKill H results g :
  vital (fold_left (fun acc e => GameManager.rewardKill H e acc) results g)
  = vital g.
Proof.
  revert g. induction results as [| e r IH]; intros g; simpl;
    [reflexivity | rewrite IH; apply vital_rewardKill].
Qed.

Lemma vital_updateSpawner H dt g :
  vital (GameManager.updateSpawner H dt g) = vital g.
Proof.
  unfold GameManager.updateSpawner, EnemySpawner.update. cbv zeta.
  destruct (_ >=? _); reflexivity.
Qed.

Lemma vital_updateSkills H dt g :
  vital (GameManager.updateSkills H dt g) = vital g.
Proof.
  unfold GameManager.updateSkills.
  destruct (SkillManager.update _ _ _ _ _ _ _)
    as [[[[m' es] rng'] evs] results].
  rewrite vital_fold_rewardKill. reflexivity.
Qed.

Lemma vital_checkBossSpawn H g :
  vital (GameManager.checkBossSpawn H g) = vital g.
Proof.
  unfold GameManager.checkBossSpawn. destruct (_ && _); reflexivity.
Qed.

Lemma vital_triggerVictory g : vital (GameManager.triggerVictory g) = vital g.
Proof.
  unfold GameManager.triggerVictory. cbv zeta.
  match goal with
  | |- context [GameManager.boss ?x] => destruct (GameManager.boss x) as [b |]
  end; [| reflexivity].
  match goal with
  | |- context [GameManager.gainXp ?a ?x] =>
      pose proof (vital_gainXp a x) as E
  end.
  unfold vital in *.
  cbn [GameManager.isGameOver GameManager.player GameManager.set_boss
       GameManager.set_uiManager].
  exact E.
Qed.

Lemma vital_updateSlowMo g : vital (GameManager.updateSlowMo g) = vital g.
Proof.
  unfold GameManager.updateSlowMo.
  destruct (_ >? 0); [| reflexivity].
  cbv zeta. destruct (_ <=? 0); reflexivity.
Qed.

Lemma vital_hitEnemy H p g :
  vital (snd (GameManager.hitEnemy H p g)) = vital g.
Proof.
  unfold GameManager.hitEnemy.
  destruct (Projectile.isDestroyed p); [reflexivity |].
  destruct (GameManager.hitFirst _ _ _ _ _) as [[[es e] []] |]; reflexivity.
Qed.

Lemma vital_resolveProjectiles H ps g :
  vital (snd (GameManager.resolveProjectiles H ps g)) = vital g.
Proof.
  revert g. induction ps as [| p r IH]; intros g; simpl; [reflexivity |].
  pose proof (vital_hitEnemy H p g) as Hv.
  destruct (GameManager.hitEnemy H p g) as [removed g1]. simpl in Hv.
  specialize (IH g1).
  destruct (GameManager.resolveProjectiles H r g1) as [kept g2]. simpl in *.
  rewrite IH. exact Hv.
Qed.

Lemma vital_checkProjectileEnemyCollisions H g :
  vital (GameManager.checkProjectileEnemyCollisions H g) = vital g.
Proof.
  unfold GameManager.checkProjectileEnemyCollisions. cbv zeta.
  match goal with
  | |- context [GameManager.resolveProjectiles ?a ?ps ?x] =>
      pose proof (vital_resolveProjectiles a ps x) as Hv;
      destruct (GameManager.resolveProjectiles a ps x) as [kept g1]
  end.
  simpl in Hv. exact Hv.
Qed.

Lemma vital_collectGems H gems g :
  vital (snd (GameManager.collectGems H gems g)) = vital g.
Proof.
  revert g. induction gems as [| gem r IH]; intros g; simpl; [reflexivity |].
  destruct (_ && _).
  - specialize (IH (GameManager.gainXp (ExperienceGem.xpValue gem) g)).
    destruct (GameManager.collectGems H r _) as [r' g']. simpl in *.
    rewrite IH. apply vital_gainXp.
  - specialize (IH g).
    destruct (GameManager.collectGems H r g) as [r' g']. simpl in *.
    exact IH.
Qed.

Lemma vital_checkGemCollections H g :
  vital (GameManager.checkGemCollections H g) = vital g.
Proof.
  unfold GameManager.checkGemCollections. cbv zeta.
  match goal with
  | |- context [GameManager.collectGems ?a ?gs ?x] =>
      pose proof (vital_collectGems a gs x) as Hv;
      destruct (GameManager.collectGems a gs x) as [gems g1]
  end.
  simpl in Hv. exact Hv.
Qed.

(** Regeneration over a frame that does not run backwards keeps a positive
    health positive. *)
Lemma handleRegen_alive dt p :
  0 <= dt -> 0 <= Player.healthRegen p -> 0 < Player.currentHealth p ->
  0 < Player.currentHealth (Player.handleRegen dt p)
  /\ Player.healthRegen (Player.handleRegen dt p) = Player.healthRegen p.
Proof.
  intros Hdt Hr Hc. unfold Player.handleRegen.
  destruct (_ <? _) eqn:E; [| split; [exact Hc | reflexivity]].
  apply Qltb_true in E. cbn [Player.currentHealth Player.set_currentHealth
                             Player.healthRegen].
  split; [| reflexivity].
  destruct (Q.min_spec (Player.currentHealth p + Player.healthRegen p * dt)
              (Player.maxHealth p)) as [[_ Em] | [_ Em]]; rewrite Em; nra.
Qed.

Lemma handleShooting_vital H dt es p :
  let p2 := fst (Player.handleShooting H dt es p) in
  Player.currentHealth p2 = Player.currentHealth p
  /\ Player.healthRegen p2 = Player.healthRegen p.
Proof.
  cbv zeta. unfold Player.handleShooting. cbv zeta.
  destruct (_ <? _); [split; reflexivity |].
  destruct (Nat.eqb _ 0); [split; reflexivity |].
  destruct (Player.findClosestEnemy _ _ _); [| split; reflexivity].
  destruct (_ >? _); split; reflexivity.
Qed.

Lemma alive_updatePlayer H dt g :
  0 <= dt -> aliveOk g -> aliveOk (GameManager.updatePlayer H dt g).
Proof.
  intros Hdt [Hr Ha]. unfold GameManager.updatePlayer.
  match goal with
  | |- context [Player.handleShooting ?a ?b ?c ?d] =>
      destruct (handleShooting_vital a b c d) as [E1 E2];
      destruct (Player.handleShooting a b c d) as [p2 shot]
  end.
  cbn [fst Player.handleMovement Player.currentHealth Player.healthRegen
       Player.set_position] in E1, E2.
  assert (Hgo : forall x,
             aliveOk (GameManager.set_player g (Player.handleRegen dt p2)) ->
             vital x
             = vital (GameManager.set_player g (Player.handleRegen dt p2)) ->
             aliveOk x)
    by (intros x Hx E; exact (aliveOk_same _ _ E Hx)).
  assert (Hbase : aliveOk
                    (GameManager.set_player g (Player.handleRegen dt p2))).
  { unfold aliveOk.
    cbn [GameManager.player GameManager.isGameOver GameManager.set_player].
    assert (Hr2 : 0 <= Player.healthRegen p2) by (rewrite E2; exact Hr).
    split.
    - unfold Player.handleRegen. destruct (_ <? _); exact Hr2.
    - intros Hg. apply handleRegen_alive; [exact Hdt | exact Hr2 |].
      rewrite E1. apply Ha, Hg. }
  destruct shot as [ps |]; [| exact Hbase].
  apply Hgo; [exact Hbase | reflexivity].
Qed.

Lemma alive_takeDamage amt g :
  0 <= Player.healthRegen (GameManager.player g) ->
  let '(p, dead) := Player.takeDamage amt (GameManager.player g) in
  aliveOk (if dead then GameManager.gameOver (GameManager.set_player g p)
           else GameManager.set_player g p).
Proof.
  intros Hr. unfold Player.takeDamage. cbv zeta.
  destruct (_ <=? 0) eqn:E.
  - split; [exact Hr | discriminate].
  - apply Qleb_false in E. split; [exact Hr | intros _; exact E].
Qed.

Lemma alive_checkPlayerEnemyCollisions H dt g :
  aliveOk g -> aliveOk (GameManager.checkPlayerEnemyCollisions H dt g).
Proof.
  intros Ha. unfold GameManager.checkPlayerEnemyCollisions. cbv zeta.
  destruct (GameManager.contactScan _ _ _ _) as [inContact totalDmg].
  destruct (_ && _); [| exact Ha].
  match goal with
  | |- context [Player.takeDamage ?a (GameManager.player ?x)] =>
      pose proof (alive_takeDamage a x (proj1 Ha)) as Ht;
      destruct (Player.takeDamage a (GameManager.player x)) as [p dead]
  end.
  exact Ht.
Qed.

Lemma alive_checkBossCollisions H g :
  aliveOk g -> aliveOk (GameManager.checkBossCollisions H g).
Proof.
  intros Ha. unfold GameManager.checkBossCollisions.
  destruct (GameManager.boss g) as [b |]; [| exact Ha].
  destruct (Boss.isDestroyed b); [exact Ha |].
  cbv zeta.
  match goal with
  | |- context [GameManager.hitBoss ?a ?ps ?x] =>
      destruct (GameManager.hitBoss a ps x) as [[[kept b'] evs] died]
  end.
  match goal with
  | |- context [GameManager.set_projectiles
                  (GameManager.emit _ ?x) _] =>
      assert (Hx : aliveOk x); [| generalize dependent x]
  end.
  { destruct (_ <? 3.0); [| exact Ha].
    destruct (_ >=? _); [| exact Ha].
    match goal with
    | |- context [Player.takeDamage ?a (GameManager.player ?x)] =>
        pose proof (alive_takeDamage a x (proj1 Ha)) as Ht;
        destruct (Player.takeDamage a (GameManager.player x)) as [p dead]
    end.
    exact Ht. }
  intros g3 Hx.
  destruct died; [| exact Hx].
  apply (aliveOk_same _ _ (vital_triggerVictory _)). exact Hx.
Qed.

Lemma alive_updateBoss H dt g :
  aliveOk g -> aliveOk (GameManager.updateBoss H dt g).
Proof.
  intros Ha. unfold GameManager.updateBoss.
  destruct (GameManager.boss g) as [b |]; [| exact Ha].
  destruct (negb (Boss.isDestroyed b)); [| exact Ha].
  apply alive_checkBossCollisions. exact Ha.
Qed.

Lemma alive_keeps (f : GameManager.t -> GameManager.t) :
  (forall g, vital (f g) = vital g) ->
  forall g, aliveOk g -> aliveOk (f g).
Proof. intros Hf g. apply aliveOk_same, Hf. Qed.

Lemma vital_updateProjectiles dt g :
  vital (GameManager.updateProjectiles dt g) = vital g.
Proof. reflexivity. Qed.

Lemma vital_updateGems H dt g :
  vital (GameManager.updateGems H dt g) = vital g.
Proof. reflexivity. Qed.

Lemma vital_set_waveManager g w :
  vital (GameManager.set_waveManager g w) = vital g.
Proof. reflexivity. Qed.

Lemma vital_set_time g v : vital (GameManager.set_time g v) = vital g.
Proof. reflexivity. Qed.

Lemma alive_updateEntities H dt g :
  0 <= dt -> aliveOk g -> aliveOk (GameManager.updateEntities H dt g).
Proof.
  intros Hdt Ha. unfold GameManager.updateEntities.
  apply (alive_keeps _ (vital_checkBossSpawn H)).
  apply (alive_keeps _ (vital_updateGems H dt)).
  apply (alive_keeps _ (vital_updateProjectiles dt)).
  apply (alive_keeps _ (vital_updateSkills H dt)).
  apply (alive_keeps _ (vital_updateSpawner H dt)).
  apply alive_updatePlayer; [exact Hdt |].
  apply (alive_keeps _ (fun x => vital_set_waveManager x _)).
  exact Ha.
Qed.

Lemma alive_update H g :
  0 <= Time.deltaTime (GameManager.time g) ->
  aliveOk g -> aliveOk (GameManager.update H g).
Proof.
  intros Hdt Ha. unfold GameManager.update. cbv zeta.
  apply (alive_keeps _ (vital_checkGemCollections H)).
  apply (alive_keeps _ (vital_checkProjectileEnemyCollisions H)).
  apply alive_checkPlayerEnemyCollisions.
  apply (alive_keeps _ vital_updateSlowMo).
  apply alive_updateBoss.
  apply alive_updateEntities; assumption.
Qed.

Lemma frame_time_nonneg (currentTime : Q) (tm : Time.t) :
  Time.lastTime tm <= currentTime ->
  0 <= Time.deltaTime (Time.update currentTime tm).
Proof.
  intros Hle. cbn [Time.update Time.deltaTime].
  apply Qle_shift_div_l; [reflexivity | lra].
Qed.

Lemma alive_animate H currentTime g :
  Time.lastTime (GameManager.time g) <= currentTime ->
  aliveOk g -> aliveOk (GameManager.animate H currentTime g).
Proof.
  intros Ht Ha. unfold GameManager.animate.
  destruct (_ && _); [exact Ha |]. cbv zeta.
  destruct (negb _);
    [| apply (alive_keeps _ (fun x => vital_set_time x _)); exact Ha].
  apply alive_update.
  - cbn [GameManager.time GameManager.set_time].
    apply frame_time_nonneg, Ht.
  - apply (alive_keeps _ (fun x => vital_set_time x _)). exact Ha.
Qed.

Lemma alive_selectUpgrade H id g :
  healthBounded g -> aliveOk g -> aliveOk (GameManager.selectUpgrade H id g).
Proof.
  unfold healthBounded. intros Hb [Hr Ha]. unfold aliveOk.
  destruct id; cbn [GameManager.selectUpgrade GameManager.applyUpgrade
                    GameManager.set_isPaused GameManager.set_player
                    GameManager.player GameManager.isGameOver];
    try (split; [exact Hr | exact Ha]).
  - unfold Player.upgradeShotgun, Player.switchWeapon.
    destruct (Player.weapons_shotgun (GameManager.player g));
      (split; [exact Hr | exact Ha]).
  - unfold Player.healPercent, Player.heal.
    cbn [Player.currentHealth Player.healthRegen Player.set_currentHealth].
    split; [exact Hr |]. intros Hg. specialize (Ha Hg).
    set (c := Player.currentHealth (GameManager.player g)) in *.
    set (m := Player.maxHealth (GameManager.player g)) in *.
    assert (Hh : m * 50 / 100 == m * (1 # 2)) by field.
    destruct (Q.min_spec (c + m * 50 / 100) m) as [[_ Em] | [_ Em]];
      rewrite Em, ?Hh; lra.
Qed.

Lemma alive_restart H currentTime g :
  Time.lastTime (GameManager.time g) <= currentTime ->
  aliveOk (GameManager.restart H currentTime g).
Proof.
  intros Ht. rewrite restart_frame. apply alive_update.
  - cbn [GameManager.time GameManager.set_time].
    apply frame_time_nonneg, Ht.
  - split; [discriminate |]. intros _. reflexivity.
Qed.

Lemma alive_reachable H g : Reachable H g -> aliveOk g.
Proof.
  induction 1 as [now | t g _ IH Ht | t g _ _ Ht | id g Hg IH | i g _ IH].
  - split; [discriminate |]. intros _. reflexivity.
  - apply alive_animate; assumption.
  - apply alive_restart, Ht.
  - apply alive_selectUpgrade; [| exact IH].
    exact (proj1 (inv_reachable H g Hg)).
  - exact IH.
Qed.

(** C1, amended.  In every state of a run (the game as constructed, after
    any frames, restarts, menu choices and input events) the player's
    health is at most the maximum, and it is above zero as long as the game
    is not over: the one exception to [0 <= currentHealth] is the lethal
    hit, which sets [isGameOver] in the same tick.  From such a state every
    sequence of damage (of non-negative amounts), regeneration and healing
    events leaves [maxHealth] as it was and [currentHealth <= maxHealth].
    A hit subtracts its amount as it is, without a bound at zero, and
    reports death exactly when the result is at or below zero; so the
    health is still non-negative after a hit exactly when the amount did
    not exceed it. *)
Theorem C1_health_bounds (H : Host) (g : GameManager.t)
    (evs : list HealthEvent) :
  Reachable H g ->
  Forall nonNegativeDamage evs ->
  let p := GameManager.player g in
  Player.currentHealth p <= Player.maxHealth p
  /\ (GameManager.isGameOver g = false -> 0 < Player.currentHealth p)
  /\ Player.maxHealth (runHealth evs p) = Player.maxHealth p
  /\ Player.currentHealth (runHealth evs p)
     <= Player.maxHealth (runHealth evs p)
  /\ (forall amt,
        let r := Player.takeDamage amt (runHealth evs p) in
        Player.currentHealth (fst r)
        = Player.currentHealth (runHealth evs p) - amt
        /\ (snd r = true <-> Player.currentHealth (fst r) <= 0)
        /\ (0 <= Player.currentHealth (fst r)
            <-> amt <= Player.currentHealth (runHealth evs p))).
Proof.
  intros Hreach Hall. cbv zeta.
  pose proof (proj1 (inv_reachable H g Hreach)) as Hle.
  unfold healthBounded in Hle.
  split; [exact Hle |].
  split; [exact (proj2 (alive_reachable H g Hreach)) |].
  destruct (health_le_max_run evs (GameManager.player g) Hall Hle)
    as [Hm Hc].
  split; [exact Hm |]. split; [exact Hc |].
  intros amt.
  destruct (takeDamage_exact amt (runHealth evs (GameManager.player g)))
    as [E D].
  rewrite E. split; [reflexivity |]. split; [exact D |].
  split; intro; lra.
Qed.

(** C1 on the player of [firstFrame], alive and within the maximum, hit
    twice by the boss, regenerating and healed by the 50% upgrade. *)
Lemma C1_health_bounds_witness :
  let evs := [Damage 50; Regen 1; Damage 50; HealPercent 50; Regen 200] in
  let p := GameManager.player firstFrame in
  Player.currentHealth p <= Player.maxHealth p
  /\ 0 < Player.currentHealth p
  /\ Player.maxHealth (runHealth evs p) = Player.maxHealth p
  /\ Player.currentHealth (runHealth evs p)
     <= Player.maxHealth (runHealth evs p).
Proof.
  cbv zeta.
  assert (Hreach : Reachable exampleHost firstFrame)
    by (apply reach_animate; [apply reach_new | discriminate]).
  assert (Hall : Forall nonNegativeDamage
                   [Damage 50; Regen 1; Damage 50; HealPercent 50;
                    Regen 200])
    by (repeat constructor; simpl; try exact I; vm_compute; discriminate).
  pose proof (C1_health_bounds exampleHost firstFrame _ Hreach Hall) as W.
  cbv zeta in W. destruct W as (W1 & W0 & W2 & W3 & _).
  split; [exact W1 |]. split; [apply W0; vm_compute; reflexivity |].
  split; [exact W2 | exact W3].
Defined.

(** ** ThunderStrike: the expired cooldown *)

Lemma enemyOk_valid (es : list Enemy.t) :
  Forall enemyOk es -> ThunderStrike.validEnemies es = es.
Proof.
  intros Hall. unfold ThunderStrike.validEnemies.
  induction Hall as [| e es [_ He] Hes IH]; simpl.
  - reflexivity.
  - rewrite He, IH. reflexivity.
Qed.

Lemma thunder_idle (H : Host) (dt : Q) (rng : nat) (s : ThunderStrike.t) :
  ThunderStrike.isActive s = true ->
  ThunderStrike.update H dt [] rng s
  = (ThunderStrike.set_timer s (ThunderStrike.timer s + dt), [], rng, [],
     None).
Proof.
  intros Hact. unfold ThunderStrike.update. rewrite Hact. cbn [negb].
  rewrite andb_false_r. reflexivity.
Qed.

Lemma idleTicks_spec (H : Host) (dts : list Q) (rng : nat)
    (s : ThunderStrike.t) :
  ThunderStrike.isActive s = true ->
  Forall (fun d => 0 <= d) dts ->
  let s' := idleTicks H dts rng s in
  ThunderStrike.isActive s' = true
  /\ ThunderStrike.cooldown s' = ThunderStrike.cooldown s
  /\ ThunderStrike.damage s' = ThunderStrike.damage s
  /\ ThunderStrike.timer s <= ThunderStrike.timer s'.
Proof.
  cbv zeta. intros Hact Hall. revert s Hact.
  induction Hall as [| d dts Hd Hall IH]; intros s Hact.
  - split; [exact Hact |]. repeat split. apply Qle_refl.
  - unfold idleTicks. cbn [fold_left]. rewrite thunder_idle by exact Hact.
    cbn [fst]. fold (idleTicks H dts rng
                       (ThunderStrike.set_timer s (ThunderStrike.timer s + d))).
    destruct (IH (ThunderStrike.set_timer s (ThunderStrike.timer s + d)) Hact)
      as (I1 & I2 & I3 & I4).
    cbn [ThunderStrike.set_timer ThunderStrike.cooldown ThunderStrike.damage
         ThunderStrike.timer] in I2, I3, I4.
    repeat split; try assumption. lra.
Qed.

Lemma thunder_fires (H : Host) (dt : Q) (enemies : list Enemy.t)
    (rng : nat) (s : ThunderStrike.t) :
  ThunderStrike.isActive s = true ->
  ThunderStrike.cooldown s <= ThunderStrike.timer s + dt ->
  ThunderStrike.validEnemies enemies <> [] ->
  0 <= Math_random H rng < 1 ->
  thunderFires (ThunderStrike.damage s) enemies
    (ThunderStrike.update H dt enemies rng s).
Proof.
  intros Hact Hexp Hv [H0 H1]. unfold thunderFires, ThunderStrike.update.
  rewrite Hact. cbn [negb ThunderStrike.set_timer ThunderStrike.timer
                       ThunderStrike.cooldown ThunderStrike.damage].
  apply Qgeb_true in Hexp. rewrite Hexp. cbn [andb].
  assert (Hlen : (0 < List.length (ThunderStrike.validEnemies enemies))%nat).
  { destruct (ThunderStrike.validEnemies enemies);
      [contradiction | simpl; lia]. }
  assert (Hes : (0 <? List.length enemies)%nat = true).
  { apply Nat.ltb_lt. destruct enemies; [simpl in Hlen; lia | simpl; lia]. }
  rewrite Hes.
  assert (Hnz : Nat.eqb (List.length (ThunderStrike.validEnemies enemies)) 0
                = false) by (apply Nat.eqb_neq; lia).
  rewrite Hnz.
  pose proof (random_index_in_range (Math_random H rng) _ H0 H1 Hlen)
    as Hk.
  destruct (strikeValid_some _ (ThunderStrike.damage s) enemies Hk)
    as (l1 & e & l2 & E & Hn & Hd & Hs).
  rewrite Hs. exists l1, e, l2.
  split; [exact E |]. split; [eapply nth_error_In; exact Hn |].
  destruct (Enemy.health e - ThunderStrike.damage s <=? 0);
    repeat split; reflexivity.
Qed.

(** The array handed to the skills in a frame of a run holds no destroyed
    enemy, and an orbital shield updated before the strike hands on such an
    array. *)
Lemma skillsArray_valid (H : Host) (g : GameManager.t) (currentTime : Q) :
  Reachable H g ->
  let g1 := GameManager.set_time g
              (Time.update currentTime (GameManager.time g)) in
  Forall enemyOk (skillsArray H g1).
Proof.
  intros Hr. cbv zeta. unfold skillsArray.
  apply inv_reachable in Hr.
  match goal with
  | |- Forall enemyOk (GameManager.enemies ?x) =>
      assert (Hi : frameInvariant x)
  end.
  { apply inv_updateSpawner, inv_updatePlayer, inv_set_waveManager,
      inv_set_time, Hr. }
  exact (proj1 (proj2 Hi)).
Qed.

(** C6.  The enemy array of a run holds no destroyed enemy ([removeEnemy]
    splices out every enemy it destroys), so a strike has no valid target
    exactly when the array is empty.  When an active ThunderStrike's
    [update] runs on such an array with its cooldown expired:
    - with no valid target, no damage is applied, nothing is reported, no
      random number is drawn and the timer is not reset: it is [timer + dt].
      It keeps counting through the further ticks without an enemy, and in
      the first tick in which an enemy that is not destroyed exists (for a
      random draw in [[0, 1)]) the strike fires;
    - with a valid target the strike fires: the timer is reset to 0, one
      valid enemy loses [damage] health and one damage number is shown.
    The last part says of which arrays this speaks: the array handed to the
    skills in any frame of a run, also after an orbital shield's update. *)
Theorem C6_thunder_expired (H : Host) (dt dt' : Q) (dts : list Q)
    (enemies later : list Enemy.t) (rng rng' : nat) (s : ThunderStrike.t) :
  ThunderStrike.validEnemies enemies = enemies ->
  ThunderStrike.isActive s = true ->
  ThunderStrike.cooldown s <= ThunderStrike.timer s + dt ->
  let r := ThunderStrike.update H dt enemies rng s in
  let s' := fst (fst (fst (fst r))) in
  (ThunderStrike.validEnemies enemies = [] ->
   r = (ThunderStrike.set_timer s (ThunderStrike.timer s + dt),
        enemies, rng, [], None)
   /\ (Forall (fun d => 0 <= d) dts -> 0 <= dt' ->
       ThunderStrike.validEnemies later <> [] ->
       0 <= Math_random H rng' < 1 ->
       ThunderStrike.timer s + dt
       <= ThunderStrike.timer (idleTicks H dts rng s')
       /\ thunderFires (ThunderStrike.damage s) later
            (ThunderStrike.update H dt' later rng'
               (idleTicks H dts rng s'))))
  /\ (ThunderStrike.validEnemies enemies <> [] ->
      0 <= Math_random H rng < 1 ->
      thunderFires (ThunderStrike.damage s) enemies r)
  /\ (forall (g : GameManager.t) (currentTime : Q),
        Reachable H g ->
        let es :=
          skillsArray H
            (GameManager.set_time g
               (Time.update currentTime (GameManager.time g))) in
        ThunderStrike.validEnemies es = es
        /\ forall (now : Q) (pos : Vector3.t) (o : OrbitalShield.t),
             let es' :=
               snd (fst (fst (OrbitalShield.update H dt now pos es o))) in
             ThunderStrike.validEnemies es' = es').
Proof.
  intros Hvalid Hact Hexp. cbv zeta. split; [| split].
  - intros Hv. rewrite Hvalid in Hv. subst enemies.
    rewrite thunder_idle by exact Hact. split; [reflexivity |].
    cbn [fst]. intros Hdts Hdt' Hlater Hrand.
    set (s1 := ThunderStrike.set_timer s (ThunderStrike.timer s + dt)).
    destruct (idleTicks_spec H dts rng s1 Hact Hdts) as (I1 & I2 & I3 & I4).
    cbn [s1 ThunderStrike.set_timer ThunderStrike.cooldown
         ThunderStrike.damage ThunderStrike.timer] in I2, I3, I4.
    split; [exact I4 |].
    rewrite <- I3. apply thunder_fires; try assumption.
    rewrite I2. lra.
  - intros Hv Hrand. apply thunder_fires; assumption.
  - intros g currentTime Hr.
    pose proof (skillsArray_valid H g currentTime Hr) as Hok.
    cbv zeta in Hok. split; [apply enemyOk_valid; exact Hok |].
    intros now pos o. apply enemyOk_valid.
    apply (OrbitalShield_update_enemyOk H dt now pos _ o Hok).
Qed.

(** C6 on a strike whose cooldown of 3 s has run out.  A tick of 0.1 s on
    the empty array leaves the timer at 3.1; after two more ticks without
    an enemy, of 0.1 s and 0.2 s, the tick in which a normal enemy exists
    fires: the timer is back at 0 and the enemy has lost 50 of its 3 HP. *)
Lemma C6_thunder_expired_witness :
  let idle := ThunderStrike.update exampleHost 0.1 [] 0 expiredThunder in
  let waiting := idleTicks exampleHost [0.1; 0.2] 0
                   (fst (fst (fst (fst idle)))) in
  let fired := ThunderStrike.update exampleHost 0.1 [Enemy.new 0 normal] 0
                 waiting in
  ThunderStrike.timer (fst (fst (fst (fst idle)))) == 3.1
  /\ snd idle = None
  /\ 3.1 <= ThunderStrike.timer waiting
  /\ ThunderStrike.timer (fst (fst (fst (fst fired)))) = 0
  /\ map Enemy.health (snd (fst (fst (fst fired)))) = [3 - 50].
Proof.
  cbv zeta.
  assert (Hexp : ThunderStrike.cooldown expiredThunder
                 <= ThunderStrike.timer expiredThunder + 0.1)
    by (vm_compute; discriminate).
  destruct (C6_thunder_expired exampleHost 0.1 0.1 [0.1; 0.2] []
              [Enemy.new 0 normal] 0 0 expiredThunder eq_refl eq_refl Hexp)
    as (W & _).
  cbv zeta in W. destruct (W eq_refl) as (Eidle & Wlater).
  destruct Wlater as (Wt & l1 & e & l2 & E & _ & Ht & Hes & _).
  - repeat constructor; discriminate.
  - discriminate.
  - discriminate.
  - split; [discriminate | reflexivity].
  - split; [rewrite Eidle; reflexivity |].
    split; [rewrite Eidle; reflexivity |].
    split; [exact Wt |]. split; [exact Ht |].
    rewrite Hes.
    destruct l1 as [| a [| b l1]]; destruct l2; try discriminate E.
    injection E as <-. reflexivity.
Defined.

(** ** The boss kill *)

Lemma ignoresScale_compose f h :
  ignoresScale f -> ignoresScale h -> ignoresScale (fun g => h (f g)).
Proof. intros Hf Hh g s. rewrite Hf, Hh. reflexivity. Qed.

Lemma ignoresScale_sameButScale f g1 g2 :
  ignoresScale f -> sameButScale g1 g2 -> sameButScale (f g1) (f g2).
Proof.
  unfold sameButScale. intros Hf E. rewrite <- !Hf, E. reflexivity.
Qed.

Lemma scale_triggerLevelUp : ignoresScale GameManager.triggerLevelUp.
Proof. intros g s. reflexivity. Qed.

Lemma scale_gainXp amt : ignoresScale (GameManager.gainXp amt).
Proof.
  intros g s. unfold GameManager.gainXp. cbn [GameManager.player
    GameManager.set_slowMoScale].
  destruct (Player.gainXp amt (GameManager.player g)) as [p []]; reflexivity.
Qed.

Lemma scale_gameOver : ignoresScale GameManager.gameOver.
Proof. intros g s. reflexivity. Qed.

Lemma scale_rewardKill H e : ignoresScale (GameManager.rewardKill H e).
Proof. intros g s. reflexivity. Qed.

Lemma scale_fold_rewardKill H results :
  ignoresScale
    (fun g => fold_left (fun acc e => GameManager.rewardKill H e acc)
                results g).
Proof.
  induction results as [| e r IH]; intros g s; simpl.
  - reflexivity.
  - rewrite scale_rewardKill. apply IH.
Qed.

Lemma scale_updatePlayer H dt : ignoresScale (GameManager.updatePlayer H dt).
Proof.
  intros g s. unfold GameManager.updatePlayer.
  cbn [GameManager.player GameManager.inputManager GameManager.enemies
       GameManager.enemySpawner GameManager.set_slowMoScale].
  destruct (Player.handleShooting _ _ _ _) as [p2 [ps |]]; reflexivity.
Qed.

Lemma scale_updateSpawner H dt : ignoresScale (GameManager.updateSpawner H dt).
Proof.
  intros g s. unfold GameManager.updateSpawner.
  cbn [GameManager.player GameManager.waveManager GameManager.rng
       GameManager.enemySpawner GameManager.set_slowMoScale].
  destruct (EnemySpawner.update _ _ _ _ _ _) as [sp r]. reflexivity.
Qed.

Lemma scale_updateSkills H dt : ignoresScale (GameManager.updateSkills H dt).
Proof.
  intros g s. unfold GameManager.updateSkills.
  cbn [GameManager.player GameManager.time GameManager.rng
       GameManager.enemies GameManager.enemySpawner
       GameManager.set_slowMoScale].
  destruct (SkillManager.update _ _ _ _ _ _ _)
    as [[[[m' es] rng'] evs] results].
  rewrite <- (scale_fold_rewardKill H results). reflexivity.
Qed.

Lemma scale_updateProjectiles dt :
  ignoresScale (GameManager.updateProjectiles dt).
Proof. intros g s. reflexivity. Qed.

Lemma scale_updateGems H dt : ignoresScale (GameManager.updateGems H dt).
Proof. intros g s. reflexivity. Qed.

Lemma scale_checkBossSpawn H : ignoresScale (GameManager.checkBossSpawn H).
Proof.
  intros g s. unfold GameManager.checkBossSpawn.
  cbn [GameManager.bossSpawned GameManager.waveManager
       GameManager.bossSpawnTime GameManager.set_slowMoScale].
  destruct (_ && _); reflexivity.
Qed.

Lemma scale_set_waveManager dt :
  ignoresScale
    (fun g => GameManager.set_waveManager g
                (WaveManager.update dt (GameManager.waveManager g))).
Proof. intros g s. reflexivity. Qed.

Lemma scale_updateEntities H dt : ignoresScale (GameManager.updateEntities H
    dt).
Proof.
  intros g s. unfold GameManager.updateEntities.
  rewrite (scale_set_waveManager dt g s), scale_updatePlayer,
    scale_updateSpawner, scale_updateSkills, scale_updateProjectiles,
    scale_updateGems, scale_checkBossSpawn.
  reflexivity.
Qed.

Lemma scale_checkPlayerEnemyCollisions H dt :
  ignoresScale (GameManager.checkPlayerEnemyCollisions H dt).
Proof.
  intros g s. unfold GameManager.checkPlayerEnemyCollisions. cbv zeta.
  cbn [GameManager.player GameManager.emit GameManager.collisionDist
       GameManager.set_contactDmgTimer GameManager.enemies
       GameManager.enemySpawner GameManager.contactDmgTimer
       GameManager.contactDmgInterval GameManager.set_slowMoScale].
  destruct (GameManager.contactScan _ _ _ _) as [inContact totalDmg].
  destruct (_ && _); [| reflexivity].
  destruct (Player.takeDamage _ _) as [p []]; reflexivity.
Qed.

Lemma scale_hitEnemy H p g s :
  GameManager.hitEnemy H p (GameManager.set_slowMoScale g s)
  = (fst (GameManager.hitEnemy H p g),
     GameManager.set_slowMoScale (snd (GameManager.hitEnemy H p g)) s).
Proof.
  unfold GameManager.hitEnemy.
  destruct (Projectile.isDestroyed p); [reflexivity |].
  cbn [GameManager.projectileHitDist GameManager.enemies
       GameManager.enemySpawner GameManager.set_slowMoScale].
  destruct (GameManager.hitFirst _ _ _ _ _) as [[[es e] []] |]; reflexivity.
Qed.

Lemma scale_resolveProjectiles H ps g s :
  GameManager.resolveProjectiles H ps (GameManager.set_slowMoScale g s)
  = (fst (GameManager.resolveProjectiles H ps g),
     GameManager.set_slowMoScale
       (snd (GameManager.resolveProjectiles H ps g)) s).
Proof.
  revert g. induction ps as [| p r IH]; intros g; simpl.
  - reflexivity.
  - rewrite scale_hitEnemy.
    destruct (GameManager.hitEnemy H p g) as [removed g1]. cbn [fst snd].
    rewrite IH.
    destruct (GameManager.resolveProjectiles H r g1) as [kept g2].
    reflexivity.
Qed.

Lemma scale_checkProjectileEnemyCollisions H :
  ignoresScale (GameManager.checkProjectileEnemyCollisions H).
Proof.
  intros g s. unfold GameManager.checkProjectileEnemyCollisions. cbv zeta.
  change (GameManager.emit [EnterPass ProjectileEnemy]
            (GameManager.set_slowMoScale g s))
    with (GameManager.set_slowMoScale
            (GameManager.emit [EnterPass ProjectileEnemy] g) s).
  cbn [GameManager.projectiles GameManager.set_slowMoScale].
  rewrite scale_resolveProjectiles.
  destruct (GameManager.resolveProjectiles _ _ _) as [kept g1]. reflexivity.
Qed.

Lemma scale_collectGems H gems g s :
  GameManager.collectGems H gems (GameManager.set_slowMoScale g s)
  = (fst (GameManager.collectGems H gems g),
     GameManager.set_slowMoScale (snd (GameManager.collectGems H gems g)) s).
Proof.
  revert g. induction gems as [| gem r IH]; intros g; simpl.
  - reflexivity.
  - destruct (_ && _).
    + rewrite scale_gainXp, IH.
      destruct (GameManager.collectGems H r _) as [r' g']. reflexivity.
    + rewrite IH.
      destruct (GameManager.collectGems H r g) as [r' g']. reflexivity.
Qed.

Lemma scale_checkGemCollections H :
  ignoresScale (GameManager.checkGemCollections H).
Proof.
  intros g s. unfold GameManager.checkGemCollections. cbv zeta.
  change (GameManager.emit [EnterPass PlayerGem]
            (GameManager.set_slowMoScale g s))
    with (GameManager.set_slowMoScale
            (GameManager.emit [EnterPass PlayerGem] g) s).
  cbn [GameManager.experienceGems GameManager.set_slowMoScale].
  rewrite scale_collectGems.
  destruct (GameManager.collectGems _ _ _) as [gems g1]. reflexivity.
Qed.

Lemma scale_updateSlowMo g s :
  sameButScale (GameManager.updateSlowMo (GameManager.set_slowMoScale g s))
    (GameManager.updateSlowMo g).
Proof.
  unfold sameButScale, GameManager.updateSlowMo.
  cbn [GameManager.slowMoTimer GameManager.time GameManager.set_slowMoScale].
  destruct (_ >? 0); [| reflexivity]. cbv zeta.
  cbn [GameManager.slowMoTimer GameManager.set_slowMoTimer].
  destruct (_ <=? 0); reflexivity.
Qed.

(** Once no boss is alive, [update] does not depend on [slowMoScale]: from
    two states that differ only in the scalar a frame leads to two states
    that differ only in the scalar.  In particular the frame after the
    boss's death is the same whether the scalar is 0.2 or 1. *)
Lemma slowMoScale_unused_without_boss (H : Host) (g : GameManager.t) (s : Q) :
  bossAlive
    (GameManager.updateEntities H (Time.deltaTime (GameManager.time g)) g)
  = false ->
  sameButScale (GameManager.update H (GameManager.set_slowMoScale g s))
    (GameManager.update H g).
Proof.
  intros Hno. unfold GameManager.update. cbv zeta.
  cbn [GameManager.time GameManager.set_slowMoScale].
  rewrite scale_updateEntities.
  generalize dependent
    (GameManager.updateEntities H (Time.deltaTime (GameManager.time g)) g).
  intros m Hno.
  rewrite !updateBoss_no_boss by exact Hno.
  apply (ignoresScale_sameButScale (GameManager.checkGemCollections H));
    [apply scale_checkGemCollections |].
  apply (ignoresScale_sameButScale
           (GameManager.checkProjectileEnemyCollisions H));
    [apply scale_checkProjectileEnemyCollisions |].
  apply (ignoresScale_sameButScale
           (GameManager.checkPlayerEnemyCollisions H
              (Time.deltaTime (GameManager.time g))));
    [apply scale_checkPlayerEnemyCollisions |].
  apply scale_updateSlowMo.
Qed.

(** C4, on the run from [bossKillGame].  The projectile's hit takes the
    boss's health to 0: [isVictory] is set, the scalar [slowMoScale] is 0.2,
    the window [slowMoTimer] is 3.0 less the frame's 0.1 s, the score has the
    +1000 bonus and the boss's 500 XP has been gained (level 2, 480 XP).
    In the next frame, of 1 s, the scalar is still 0.2 but the game clock has
    advanced by the whole second: the frame time reaches every update
    unscaled.  The victory screen is shown in the frame that brings the
    unscaled frame times to 3.1 s, not before, and the score still holds the
    bonus once. *)
Lemma C4_boss_kill_sequence :
  (GameManager.isVictory bossKillGame = false
   /\ GameManager.isVictory afterKill = true
   /\ GameManager.slowMoScale afterKill == 0.2
   /\ GameManager.slowMoTimer afterKill == 3.0 - 0.1
   /\ UIManager.getScore (GameManager.uiManager afterKill) == 1000
   /\ Player.level (GameManager.player afterKill) = 2%Z
   /\ Player.currentXp (GameManager.player afterKill) == 500 - 20)
  /\ (GameManager.slowMoScale afterKill1 == 0.2
      /\ Time.deltaTime (GameManager.time afterKill1) == 1
      /\ WaveManager.getGameTime (GameManager.waveManager afterKill1)
         - WaveManager.getGameTime (GameManager.waveManager afterKill)
         == 1
      /\ ~ WaveManager.getGameTime (GameManager.waveManager afterKill1)
           - WaveManager.getGameTime (GameManager.waveManager afterKill)
           == 0.2 * 1)
  /\ (existsb isShowVictory (GameManager.events afterKill2) = false
      /\ existsb isShowVictory (GameManager.events afterKill3) = true
      /\ GameManager.isPaused afterKill3 = true
      /\ GameManager.slowMoScale afterKill3 == 1
      /\ UIManager.getScore (GameManager.uiManager afterKill3) == 1000
      /\ Player.level (GameManager.player afterKill3) = 2%Z).
Proof.
  vm_compute. repeat split; discriminate.
Qed.

(** * Further properties of the code *)

(** ** Weapon *)

(** X1.  [Weapon.fire] pushes exactly [projectileCount] projectiles (none
    for a count of zero or less), each with the weapon's damage, starting at
    the player's position at height 1, with a horizontal direction, age 0
    and not destroyed.  A spread is symmetric about the aim: the [i]-th
    angle from the start and the [i]-th from the end are opposite, and
    consecutive angles differ by [spreadAngle]. *)
Theorem X1_fire_projectiles (H : Host) (w : Weapon.t)
    (playerPos targetPos : Vector3.t) :
  let n := Z.to_nat (Weapon.projectileCount w) in
  let baseDir :=
    Vector3.normalize H
      (Vector3.set_y (Vector3.subVectors targetPos playerPos) 0) in
  let ps := Weapon.fire H w playerPos targetPos in
  List.length ps = n
  /\ Forall (projectileAsFired w playerPos) ps
  /\ ps = (if (Weapon.projectileCount w =? 1)%Z
           then [Projectile.start H (Projectile.new (Weapon.damage w))
                   playerPos baseDir]
           else map (fun i =>
                       Projectile.start H (Projectile.new (Weapon.damage w))
                         playerPos
                         (Weapon.rotateY H baseDir (fanAngle w i)))
                  (seq 0 n))
  /\ (forall i, (i < n)%nat -> fanAngle w i + fanAngle w (n - 1 - i) == 0)
  /\ (forall i, fanAngle w (S i) - fanAngle w i == Weapon.spreadAngle w).
Proof.
  cbv zeta. split; [| split; [| split; [reflexivity | split]]].
  - unfold Weapon.fire.
    destruct (Weapon.projectileCount w =? 1)%Z eqn:E.
    + apply Z.eqb_eq in E. rewrite E. reflexivity.
    + rewrite length_map, length_seq. reflexivity.
  - unfold Weapon.fire.
    destruct (Weapon.projectileCount w =? 1)%Z eqn:E.
    + constructor; [| constructor]. repeat split.
    + apply Forall_forall. intros p Hp. apply in_map_iff in Hp.
      destruct Hp as (i & <- & _). repeat split.
  - intros i Hi. unfold fanAngle.
    assert (En : Weapon.projectileCount w
                 = Z.of_nat (Z.to_nat (Weapon.projectileCount w))) by lia.
    set (n := Z.to_nat (Weapon.projectileCount w)) in *.
    rewrite En.
    replace (Z.of_nat (n - 1 - i)) with (Z.of_nat n - 1 - Z.of_nat i)%Z
      by lia.
    unfold Z.sub. rewrite !inject_Z_plus, !inject_Z_opp.
    change (inject_Z 1) with 1. field.
  - intros i. unfold fanAngle. rewrite Nat2Z.inj_succ, <- Z.add_1_r.
    rewrite inject_Z_plus. change (inject_Z 1) with 1. ring.
Qed.

Lemma Qpower_succ (q : Q) (n : nat) :
  ~ q == 0 -> q ^ Z.of_nat (S n) == q * q ^ Z.of_nat n.
Proof.
  intros Hq. rewrite Nat2Z.inj_succ, <- Z.add_1_r.
  rewrite Qpower_plus by exact Hq. simpl (q ^ 1). ring.
Qed.

Lemma Qpower_nat_pos (q : Q) (n : nat) : 0 < q -> 0 < q ^ Z.of_nat n.
Proof.
  intros Hq. induction n as [| n IH].
  - reflexivity.
  - rewrite Qpower_succ by lra. nra.
Qed.

Lemma half_even (k : nat) : (2 * k / 2 = k)%nat.
Proof. symmetry. apply (Nat.div_unique _ 2 k 0); lia. Qed.

Lemma half_odd (k : nat) : ((2 * k + 1) / 2 = k)%nat.
Proof. symmetry. apply (Nat.div_unique _ 2 k 1); lia. Qed.

Lemma upgrade_pistol (w : Weapon.t) :
  Weapon.type w = pistol ->
  Weapon.upgrade w
  = Weapon.mk pistol (Weapon.level w + 1) (Weapon.damage w * 1.1)
      (Weapon.fireRate w * 0.85) (Weapon.range w) (Weapon.projectileCount w)
      (Weapon.spreadAngle w).
Proof. intros E. unfold Weapon.upgrade. rewrite E. reflexivity. Qed.

Lemma upgrade_shotgun (w : Weapon.t) :
  Weapon.type w = shotgun ->
  Weapon.upgrade w
  = if ((Weapon.level w + 1) mod 2 =? 0)%Z
    then Weapon.mk shotgun (Weapon.level w + 1) (Weapon.damage w)
           (Weapon.fireRate w) (Weapon.range w)
           (Weapon.projectileCount w + 1) (Weapon.spreadAngle w)
    else Weapon.mk shotgun (Weapon.level w + 1) (Weapon.damage w * 1.2)
           (Weapon.fireRate w) (Weapon.range w) (Weapon.projectileCount w)
           (Weapon.spreadAngle w).
Proof.
  intros E. unfold Weapon.upgrade. rewrite E.
  destruct (_ =? _)%Z; reflexivity.
Qed.

Lemma pistol_upgrades (H : Host) (n : nat) :
  let w := Nat.iter n Weapon.upgrade (Weapon.new H pistol) in
  Weapon.type w = pistol
  /\ Weapon.level w = (1 + Z.of_nat n)%Z
  /\ Weapon.damage w == (11 # 10) ^ Z.of_nat n
  /\ Weapon.fireRate w == (1 # 2) * (17 # 20) ^ Z.of_nat n
  /\ Weapon.projectileCount w = 1%Z.
Proof.
  cbv zeta. induction n as [| n IH].
  - simpl. repeat split; reflexivity.
  - destruct IH as (Ht & Hl & Hd & Hf & Hc).
    rewrite !Qpower_succ by (apply Qnot_eq_sym, Qlt_not_eq; reflexivity).
    change (Nat.iter (S n) Weapon.upgrade (Weapon.new H pistol))
      with (Weapon.upgrade (Nat.iter n Weapon.upgrade (Weapon.new H pistol))).
    rewrite (upgrade_pistol _ Ht).
    cbn [Weapon.type Weapon.level Weapon.damage Weapon.fireRate
         Weapon.projectileCount].
    repeat split; try assumption.
    + lia.
    + rewrite Hd. lra.
    + rewrite Hf. lra.
Qed.

Lemma shotgun_step_to_even (H : Host) (k cnt : Z) (dmg : Q) (w : Weapon.t) :
  shotgunAt H (1 + 2 * k) cnt dmg w ->
  shotgunAt H (2 + 2 * k) (cnt + 1) dmg (Weapon.upgrade w).
Proof.
  intros (Ht & Hl & Hd & Hc & Hf & Hr & Hs).
  unfold shotgunAt. rewrite (upgrade_shotgun _ Ht), Hl.
  replace ((1 + 2 * k + 1) mod 2 =? 0)%Z with true
    by (symmetry; apply Z.eqb_eq;
        replace (1 + 2 * k + 1)%Z with ((k + 1) * 2)%Z by lia;
        apply Z_mod_mult).
  cbn [Weapon.type Weapon.level Weapon.damage Weapon.fireRate
       Weapon.projectileCount Weapon.range Weapon.spreadAngle].
  repeat split; try assumption; lia.
Qed.

Lemma shotgun_step_to_odd (H : Host) (k cnt : Z) (dmg : Q) (w : Weapon.t) :
  shotgunAt H (2 + 2 * k) cnt dmg w ->
  shotgunAt H (1 + 2 * (k + 1)) cnt (dmg * (6 # 5)) (Weapon.upgrade w).
Proof.
  intros (Ht & Hl & Hd & Hc & Hf & Hr & Hs).
  unfold shotgunAt. rewrite (upgrade_shotgun _ Ht), Hl.
  replace ((2 + 2 * k + 1) mod 2 =? 0)%Z with false
    by (symmetry; apply Z.eqb_neq;
        replace (2 + 2 * k + 1)%Z with (1 + (k + 1) * 2)%Z by lia;
        rewrite Z_mod_plus_full; discriminate).
  cbn [Weapon.type Weapon.level Weapon.damage Weapon.fireRate
       Weapon.projectileCount Weapon.range Weapon.spreadAngle].
  repeat split; try assumption; try lia.
  rewrite Hd. lra.
Qed.

Lemma shotgun_upgrades_even (H : Host) (k : nat) :
  shotgunAt H (1 + 2 * Z.of_nat k) (3 + Z.of_nat k)
    ((3 # 2) * (6 # 5) ^ Z.of_nat k)
    (Nat.iter (2 * k) Weapon.upgrade (Weapon.new H shotgun)).
Proof.
  induction k as [| k IH].
  - repeat split; reflexivity.
  - replace (2 * S k)%nat with (S (S (2 * k))) by lia.
    change (Nat.iter (S (S (2 * k))) Weapon.upgrade (Weapon.new H shotgun))
      with (Weapon.upgrade
              (Weapon.upgrade
                 (Nat.iter (2 * k) Weapon.upgrade (Weapon.new H shotgun)))).
    apply shotgun_step_to_even, shotgun_step_to_odd in IH.
    destruct IH as (Ht & Hl & Hd & Hc & Hf & Hr & Hs).
    repeat split; try assumption; try lia.
    rewrite Hd, Qpower_succ by discriminate. ring.
Qed.

(** X2.  Upgrades compose.  After [n] upgrades the pistol is at level
    [1 + n], deals [1.1 ^ n] damage and fires every [0.5 * 0.85 ^ n]
    seconds, an interval that stays positive, with one projectile; the
    shotgun is at level [1 + n], fires [3 + ceil(n / 2)] projectiles of
    damage [1.5 * 1.2 ^ floor(n / 2)] and keeps its fire rate of 1.2. *)
Theorem X2_weapon_upgrades (H : Host) (n : nat) :
  let p := Nat.iter n Weapon.upgrade (Weapon.new H pistol) in
  let s := Nat.iter n Weapon.upgrade (Weapon.new H shotgun) in
  (Weapon.level p = (1 + Z.of_nat n)%Z
   /\ Weapon.damage p == (11 # 10) ^ Z.of_nat n
   /\ Weapon.fireRate p == (1 # 2) * (17 # 20) ^ Z.of_nat n
   /\ 0 < Weapon.fireRate p
   /\ Weapon.projectileCount p = 1%Z)
  /\ (Weapon.level s = (1 + Z.of_nat n)%Z
      /\ Weapon.projectileCount s = (3 + Z.of_nat ((n + 1) / 2))%Z
      /\ Weapon.damage s == (3 # 2) * (6 # 5) ^ Z.of_nat (n / 2)
      /\ Weapon.fireRate s = 1.2).
Proof.
  cbv zeta. split.
  - destruct (pistol_upgrades H n) as (_ & Hl & Hd & Hf & Hc).
    repeat split; try assumption.
    rewrite Hf. pose proof (Qpower_nat_pos (17 # 20) n). lra.
  - destruct (Nat.Even_or_Odd n) as [[k ->] | [k ->]].
    + destruct (shotgun_upgrades_even H k) as (_ & Hl & Hd & Hc & Hf & _).
      rewrite half_odd, half_even.
      repeat split; try assumption; lia.
    + pose proof (shotgun_upgrades_even H k) as Hk.
      apply shotgun_step_to_even in Hk.
      destruct Hk as (_ & Hl & Hd & Hc & Hf & _).
      replace (2 * k + 1 + 1)%nat with (2 * (k + 1))%nat by lia.
      rewrite half_odd, half_even.
      replace (2 * k + 1)%nat with (S (2 * k)) by lia.
      change (Nat.iter (S (2 * k)) Weapon.upgrade (Weapon.new H shotgun))
        with (Weapon.upgrade
                (Nat.iter (2 * k) Weapon.upgrade (Weapon.new H shotgun))).
      repeat split; try assumption; lia.
Qed.

(** ** Projectile *)

Lemma fly_destroyed (dts : list Q) (p : Projectile.t) :
  Projectile.isDestroyed p = true -> fly dts p = p.
Proof.
  intros Hd. induction dts as [| dt dts IH].
  - reflexivity.
  - change (fly (dt :: dts) p) with (fly dts (Projectile.update dt p)).
    unfold Projectile.update. rewrite Hd. exact IH.
Qed.

Lemma Qsum_nonneg (l : list Q) : Forall (fun dt => 0 <= dt) l -> 0 <= Qsum l.
Proof.
  induction 1 as [| dt l Hdt _ IH].
  - unfold Qsum; simpl; lra.
  - change (Qsum (dt :: l)) with (dt + Qsum l). lra.
Qed.

(** X3.  A projectile that is not destroyed flies in a straight line at
    its speed and is destroyed exactly when the frame times it has flown
    add up to its lifetime: over frames of non-negative durations it is
    destroyed if and only if its age plus their sum reaches the lifetime;
    until then its age is that sum and its position the start plus
    direction times speed times the sum, at the same height. *)
Theorem X3_projectile_flight (dts : list Q) (p : Projectile.t) :
  Forall (fun dt => 0 <= dt) dts ->
  Projectile.isDestroyed p = false ->
  Projectile.age p < Projectile.lifetime p ->
  let p' := fly dts p in
  (Projectile.isDestroyed p' = true
   <-> Projectile.lifetime p <= Projectile.age p + Qsum dts)
  /\ (Projectile.isDestroyed p' = false ->
      Projectile.age p' == Projectile.age p + Qsum dts
      /\ Vector3.x (Projectile.position p')
         == Vector3.x (Projectile.position p)
            + Vector3.x (Projectile.direction p) * Projectile.speed p
              * Qsum dts
      /\ Vector3.y (Projectile.position p') = Vector3.y (Projectile.position p)
      /\ Vector3.z (Projectile.position p')
         == Vector3.z (Projectile.position p)
            + Vector3.z (Projectile.direction p) * Projectile.speed p
              * Qsum dts).
Proof.
  cbv zeta. intros Hall. revert p.
  induction Hall as [| dt dts Hdt Hall IH]; intros p Hnd Hage.
  - simpl. split.
    + split; [congruence | intro; lra].
    + intros _. repeat split; try reflexivity; ring.
  - pose proof (Qsum_nonneg dts Hall) as Hs.
    change (fly (dt :: dts) p) with (fly dts (Projectile.update dt p)).
    change (Qsum (dt :: dts)) with (dt + Qsum dts).
    unfold Projectile.update. rewrite Hnd.
    destruct (Projectile.age p + dt >=? Projectile.lifetime p) eqn:E.
    + apply Qgeb_true in E.
      rewrite fly_destroyed by reflexivity. cbn [Projectile.isDestroyed].
      split; [| discriminate]. split; [| reflexivity]. intros _.
      clear - Hs E. lra.
    + apply Qgeb_false in E.
      match goal with
      | |- context [fly dts ?q] => specialize (IH q eq_refl E)
      end.
      cbn [Projectile.age Projectile.lifetime Projectile.position
           Projectile.direction Projectile.speed Vector3.x Vector3.y
           Vector3.z] in IH.
      destruct IH as [IH1 IH2]. split.
      * rewrite IH1. split; intro; lra.
      * intros Hp. destruct (IH2 Hp) as (A & B & C & D).
        repeat split.
        -- rewrite A. ring.
        -- rewrite B. ring.
        -- exact C.
        -- rewrite D. ring.
Qed.

(** X3 on a pistol projectile: after frames of 1 s and 0.5 s it is still
    flying, 1.5 s old. *)
Lemma X3_projectile_flight_witness :
  let p := Projectile.new 1 in
  Projectile.isDestroyed (fly [1; 1 # 2] p) = false
  /\ Projectile.age (fly [1; 1 # 2] p) == 3 # 2.
Proof.
  cbv zeta.
  assert (Hall : Forall (fun dt => 0 <= dt) [1; 1 # 2])
    by (repeat constructor; discriminate).
  destruct (X3_projectile_flight [1; 1 # 2] (Projectile.new 1) Hall eq_refl
              eq_refl) as [_ Hfly].
  cbv zeta in Hfly. split; [reflexivity |].
  destruct (Hfly eq_refl) as (Hage & _). rewrite Hage. reflexivity.
Defined.

(** X4.  [updateProjectiles] leaves in the array exactly the projectiles
    that were not destroyed and that the frame does not bring to the end of
    their lifetime, updated: none of them is destroyed and each is younger
    than its lifetime. *)
Theorem X4_updateProjectiles_alive (dt : Q) (g : GameManager.t) :
  let ps := GameManager.projectiles (GameManager.updateProjectiles dt g) in
  Forall (fun p => Projectile.isDestroyed p = false
                   /\ Projectile.age p < Projectile.lifetime p) ps
  /\ ps = filter (fun p => negb (Projectile.isDestroyed p))
            (map (Projectile.update dt)
               (filter (fun p => negb (Projectile.isDestroyed p))
                  (GameManager.projectiles g))).
Proof.
  cbv zeta. unfold GameManager.updateProjectiles.
  cbn [GameManager.projectiles GameManager.set_projectiles].
  split.
  - apply Forall_forall. intros p' Hp'. apply filter_In in Hp'.
    destruct Hp' as [Hin Hlive]. apply negb_true_iff in Hlive.
    split; [exact Hlive |].
    apply in_map_iff in Hin. destruct Hin as (p & <- & _).
    unfold Projectile.update in *.
    destruct (Projectile.isDestroyed p) eqn:Ed; [congruence |].
    cbn [Projectile.isDestroyed Projectile.age Projectile.lifetime] in *.
    destruct (_ >=? _) eqn:E; [discriminate |].
    apply Qgeb_false in E. exact E.
  - induction (GameManager.projectiles g) as [| p r IH]; [reflexivity |].
    simpl. destruct (Projectile.isDestroyed p) eqn:Ed.
    + unfold Projectile.update at 1. rewrite Ed, Ed. simpl. exact IH.
    + simpl. rewrite IH. reflexivity.
Qed.

(** ** Player: aiming and shooting *)

Lemma findClosest_acc H pos es c :
  let d e := Vector3.distanceTo H pos (Enemy.getPosition e) in
  exists e,
    Player.findClosest H pos es (Some c) (Some (d c)) = Some e
    /\ In e (c :: es)
    /\ d e <= d c
    /\ Forall (fun e' => d e <= d e') es.
Proof.
  cbv zeta. revert c. induction es as [| a es IH]; intros c.
  - exists c. simpl. repeat split; [now left | lra | constructor].
  - cbn [Player.findClosest].
    destruct (_ <? _) eqn:E.
    + apply Qltb_true in E.
      destruct (IH a) as (e & He & Hin & Hle & Hall).
      exists e. repeat split.
      * exact He.
      * right. exact Hin.
      * lra.
      * constructor; assumption.
    + apply Qltb_false in E.
      destruct (IH c) as (e & He & Hin & Hle & Hall).
      exists e. repeat split.
      * exact He.
      * destruct Hin as [-> | Hin]; [now left | right; right; exact Hin].
      * exact Hle.
      * constructor; [lra | exact Hall].
Qed.

Lemma findClosestEnemy_nearest (H : Host) (es : list Enemy.t)
    (p : Player.t) :
  match Player.findClosestEnemy H es p with
  | None => es = []
  | Some e =>
      In e es
      /\ Forall (fun e' => enemyDistance H p e <= enemyDistance H p e') es
  end.
Proof.
  unfold Player.findClosestEnemy. destruct es as [| a es]; [reflexivity |].
  cbn [Player.findClosest].
  destruct (findClosest_acc H (Player.position p) es a)
    as (e & He & Hin & Hle & Hall).
  cbv zeta in *. rewrite He. split; [exact Hin |].
  constructor; assumption.
Qed.

(** X5.  [findClosestEnemy] returns nothing only for an empty array, and
    otherwise an enemy of the array that no other enemy of the array is
    closer than (destroyed or not: the method does not look at
    [isDestroyed]). *)
Theorem X5_findClosestEnemy (H : Host) (es : list Enemy.t) (p : Player.t) :
  match Player.findClosestEnemy H es p with
  | None => es = []
  | Some e =>
      In e es
      /\ Forall (fun e' => enemyDistance H p e <= enemyDistance H p e') es
  end.
Proof.
  unfold Player.findClosestEnemy. destruct es as [| a es]; [reflexivity |].
  cbn [Player.findClosest].
  destruct (findClosest_acc H (Player.position p) es a)
    as (e & He & Hin & Hle & Hall).
  cbv zeta in *. rewrite He. split; [exact Hin |].
  constructor; assumption.
Qed.

(** X6.  [handleShooting] fires if and only if the fire timer, advanced by
    the frame, has reached the active weapon's fire rate and some enemy is
    within the weapon's range.  When it fires the timer restarts from 0 and
    the projectiles are those of [Weapon.fire] at a nearest enemy; when it
    does not, the timer keeps the time accumulated and nothing else
    changes. *)
Theorem X6_handleShooting (H : Host) (dt : Q) (es : list Enemy.t)
    (p : Player.t) :
  let w := Player.getActiveWeapon p in
  let r := Player.handleShooting H dt es p in
  ((exists ps, snd r = Some ps)
   <-> Weapon.fireRate w <= Player.fireTimer p + dt
       /\ exists e, In e es /\ enemyDistance H p e <= Weapon.range w)
  /\ match snd r with
     | Some ps =>
         fst r = Player.set_fireTimer p 0
         /\ exists e,
              In e es
              /\ Forall
                   (fun e' => enemyDistance H p e <= enemyDistance H p e') es
              /\ ps = Weapon.fire H w (Player.position p)
                        (Enemy.getPosition e)
     | None => fst r = Player.set_fireTimer p (Player.fireTimer p + dt)
     end.
Proof.
  cbv zeta. unfold Player.handleShooting. cbv zeta.
  set (p1 := Player.set_fireTimer p (Player.fireTimer p + dt)).
  change (Player.getActiveWeapon p1) with (Player.getActiveWeapon p).
  change (Player.fireTimer p1) with (Player.fireTimer p + dt).
  change (Player.position p1) with (Player.position p).
  pose proof (findClosestEnemy_nearest H es p1) as Hc.
  change (enemyDistance H p1) with (enemyDistance H p) in Hc.
  destruct (_ <? _) eqn:Et.
  { apply Qltb_true in Et. cbn [fst snd]. split; [| reflexivity].
    split; [intros [ps Hps]; discriminate | intros [Hle _]; lra]. }
  apply Qltb_false in Et.
  destruct (Nat.eqb (List.length es) 0) eqn:El.
  { apply Nat.eqb_eq in El. destruct es; [| discriminate].
    cbn [fst snd]. split; [| reflexivity].
    split; [intros [ps Hps]; discriminate
           | intros (_ & e & [] & _)]. }
  clear El.
  destruct (Player.findClosestEnemy H es p1) as [c |].
  2:{ subst es. cbn [fst snd]. split; [| reflexivity].
      split; [intros [ps Hps]; discriminate
             | intros (_ & e & [] & _)]. }
  destruct Hc as [Hin Hall].
  change (Vector3.distanceTo H (Player.position p) (Enemy.getPosition c))
    with (enemyDistance H p c).
  destruct (_ >? _) eqn:Er.
  - apply Qgtb_true in Er. cbn [fst snd]. split; [| reflexivity].
    split; [intros [ps Hps]; discriminate |].
    intros (_ & e & Hine & Hle). exfalso.
    rewrite Forall_forall in Hall. specialize (Hall e Hine). lra.
  - apply Qgtb_false in Er. cbn [fst snd]. split.
    + split; [| intros _; eexists; reflexivity].
      intros _. split; [exact Et |]. exists c. split; assumption.
    + split; [reflexivity |]. exists c. repeat split; assumption.
Qed.

(** ** EnemySpawner *)

(** X7.  [selectType] turns a random draw [r] into a type by the weights
    70, 20 and 10: normal below 0.7, runner from 0.7 to 0.9, tank from 0.9
    to 1, and normal again (the fall-through [return]) for a draw of 1 or
    more. *)
Theorem X7_selectType (r : Q) (s : EnemySpawner.t) :
  EnemySpawner.totalWeight s == 100 ->
  EnemySpawner.selectType r s
  = if r <? 7 # 10 then normal
    else if r <? 9 # 10 then runner
    else if r <? 1 then tank
    else normal.
Proof.
  intros Hw. unfold EnemySpawner.selectType, ENEMY_TYPE_keys.
  cbn [EnemySpawner.selectFrom ENEMY_TYPES cfg_weight].
  destruct (r <? 7 # 10) eqn:E1.
  { apply Qltb_true in E1.
    replace (_ <? 0 + 70) with true; [reflexivity |].
    symmetry. apply Qltb_true. rewrite Hw. lra. }
  apply Qltb_false in E1.
  replace (_ <? 0 + 70) with false
    by (symmetry; apply Qltb_false; rewrite Hw; lra).
  destruct (r <? 9 # 10) eqn:E2.
  { apply Qltb_true in E2.
    replace (_ <? 0 + 70 + 20) with true; [reflexivity |].
    symmetry. apply Qltb_true. rewrite Hw. lra. }
  apply Qltb_false in E2.
  replace (_ <? 0 + 70 + 20) with false
    by (symmetry; apply Qltb_false; rewrite Hw; lra).
  destruct (r <? 1) eqn:E3.
  { apply Qltb_true in E3.
    replace (_ <? 0 + 70 + 20 + 10) with true; [reflexivity |].
    symmetry. apply Qltb_true. rewrite Hw. lra. }
  apply Qltb_false in E3.
  replace (_ <? 0 + 70 + 20 + 10) with false
    by (symmetry; apply Qltb_false; rewrite Hw; lra).
  reflexivity.
Qed.

(** X7 on the spawner as constructed, whose total weight is 100: a draw of
    0.75 gives a runner. *)
Lemma X7_selectType_witness :
  EnemySpawner.totalWeight EnemySpawner.new == 100
  /\ EnemySpawner.selectType (3 # 4) EnemySpawner.new = runner.
Proof.
  split; [reflexivity |].
  rewrite (X7_selectType (3 # 4) EnemySpawner.new); reflexivity.
Defined.

(** X8.  [spawn] draws two random numbers and appends one enemy to the
    array: a new object, of the type [selectType] picks, not destroyed, at
    its full health [floor(base health * healthMult)], resting on the
    ground at half its size, and at a horizontal distance of exactly
    [spawnDist] from the player when the host's cosine and sine of the
    angle drawn are on the unit circle. *)
Theorem X8_spawn (H : Host) (playerPos : Vector3.t) (healthMult : Q)
    (rng : nat) (s : EnemySpawner.t) :
  onUnitCircle H (Math_random H (S rng) * Math_PI H * 2) ->
  let r := EnemySpawner.spawn H playerPos healthMult rng s in
  exists e,
    EnemySpawner.enemies (fst r) = EnemySpawner.enemies s ++ [e]
    /\ snd r = S (S rng)
    /\ Enemy.id e = EnemySpawner.nextId s
    /\ EnemySpawner.nextId (fst r) = S (EnemySpawner.nextId s)
    /\ Enemy.type e = EnemySpawner.selectType (Math_random H rng) s
    /\ Enemy.isDestroyed e = false
    /\ Enemy.maxHealth e
       = Math_floor (cfg_health (ENEMY_TYPES (Enemy.type e)) * healthMult)
    /\ Enemy.health e = Enemy.maxHealth e
    /\ Vector3.y (Enemy.position e) = Enemy.scale e / 2
    /\ horizontalDistSq (Enemy.position e) playerPos
       == EnemySpawner.spawnDist s * EnemySpawner.spawnDist s.
Proof.
  intros Hc. cbv zeta. unfold EnemySpawner.spawn. cbv zeta.
  eexists. cbn [fst snd EnemySpawner.enemies EnemySpawner.nextId].
  split; [reflexivity |].
  repeat split.
  unfold horizontalDistSq, Enemy.start, Enemy.new.
  cbn [Enemy.position Vector3.set_y Vector3.x Vector3.z].
  unfold onUnitCircle in Hc.
  set (c := Math_cos H _) in *. set (sn := Math_sin H _) in *.
  set (d := EnemySpawner.spawnDist s).
  transitivity ((c * c + sn * sn) * (d * d)); [ring |].
  rewrite Hc. ring.
Qed.

(** X8 for the first enemy of a game, on a host whose cosine and sine are
    on the unit circle: it stands 20 away from the player. *)
Lemma X8_spawn_witness :
  exists e,
    EnemySpawner.enemies
      (fst (EnemySpawner.spawn circleHost (Vector3.mk 0 1 0) 1 0
              EnemySpawner.new)) = [e]
    /\ horizontalDistSq (Enemy.position e) (Vector3.mk 0 1 0) == 20 * 20.
Proof.
  assert (Hc : onUnitCircle circleHost
                 (Math_random circleHost 1 * Math_PI circleHost * 2))
    by (vm_compute; reflexivity).
  destruct (X8_spawn circleHost (Vector3.mk 0 1 0) 1 0 EnemySpawner.new Hc)
    as (e & He & _ & _ & _ & _ & _ & _ & _ & _ & Hd).
  exists e. split; [exact He | exact Hd].
Defined.

(** X9.  [EnemySpawner.update] spawns at most one enemy per frame, however
    long the frame: exactly when the timer, advanced by the frame, has
    reached [baseInterval * spawnMult]; the timer is then reset to 0 (not
    reduced by the interval) and two random numbers are drawn.  The enemies
    already in the array stay, in their order. *)
Theorem X9_spawner_update (H : Host) (dt : Q) (w : WaveManager.t)
    (playerPos : Vector3.t) (rng : nat) (s : EnemySpawner.t) :
  let r := EnemySpawner.update H dt w playerPos rng s in
  let due := EnemySpawner.timer s + dt
             >=? EnemySpawner.baseInterval s * WaveManager.getSpawnMult w in
  map Enemy.id (EnemySpawner.enemies (fst r))
  = map Enemy.id (EnemySpawner.enemies s)
    ++ (if due then [EnemySpawner.nextId s] else [])
  /\ EnemySpawner.timer (fst r)
     = (if due then 0 else EnemySpawner.timer s + dt)
  /\ snd r = (if due then S (S rng) else rng).
Proof.
  cbv zeta. unfold EnemySpawner.update. cbv zeta.
  cbn [EnemySpawner.timer EnemySpawner.set_timer].
  destruct (_ >=? _).
  - unfold EnemySpawner.spawn. cbv zeta.
    cbn [EnemySpawner.enemies EnemySpawner.set_enemies EnemySpawner.timer
         EnemySpawner.set_timer EnemySpawner.nextId fst snd].
    repeat split.
    rewrite map_map, map_app. cbn [map]. f_equal.
    apply map_ext. intros e. unfold Enemy.update.
    destruct (Enemy.isDestroyed e); reflexivity.
  - cbn [EnemySpawner.enemies EnemySpawner.set_enemies EnemySpawner.timer
         EnemySpawner.set_timer fst snd].
    repeat split. rewrite app_nil_r, map_map.
    apply map_ext. intros e. unfold Enemy.update.
    destruct (Enemy.isDestroyed e); reflexivity.
Qed.

Lemma removeFirst_NoDup (i : nat) (es : list Enemy.t) :
  NoDup (map Enemy.id es) ->
  EnemySpawner.removeFirst i es
  = filter (fun x => negb (Nat.eqb (Enemy.id x) i)) es.
Proof.
  induction es as [| e r IH]; intros Hnd; [reflexivity |].
  inversion Hnd as [| ? ? Hnotin Hnd']; subst.
  cbn [EnemySpawner.removeFirst filter].
  destruct (Nat.eqb (Enemy.id e) i) eqn:E; cbn [negb].
  - apply Nat.eqb_eq in E. subst i.
    symmetry. clear IH Hnd Hnd'.
    induction r as [| a r IH]; [reflexivity |].
    cbn [filter].
    destruct (Nat.eqb (Enemy.id a) (Enemy.id e)) eqn:Ea.
    + exfalso. apply Nat.eqb_eq in Ea. apply Hnotin. left. exact Ea.
    + cbn [negb]. f_equal. apply IH. intros Hin. apply Hnotin. right.
      exact Hin.
  - f_equal. apply IH. exact Hnd'.
Qed.

Lemma removeFirst_length (i : nat) (es : list Enemy.t) :
  existsb (fun x => Nat.eqb (Enemy.id x) i) es = true ->
  S (List.length (EnemySpawner.removeFirst i es)) = List.length es.
Proof.
  induction es as [| a r IH]; [discriminate |].
  cbn [existsb EnemySpawner.removeFirst]. intros Hx.
  destruct (Nat.eqb (Enemy.id a) i); [reflexivity |].
  cbn [orb] in Hx. cbn [List.length]. f_equal. apply IH. exact Hx.
Qed.

Lemma removeFirst_absent (i : nat) (es : list Enemy.t) :
  existsb (fun x => Nat.eqb (Enemy.id x) i) es = false ->
  EnemySpawner.removeFirst i es = es.
Proof.
  induction es as [| a r IH]; [reflexivity |].
  cbn [existsb EnemySpawner.removeFirst]. intros Hx.
  apply orb_false_iff in Hx. destruct Hx as [Ha Hr].
  rewrite Ha. f_equal. apply IH. exact Hr.
Qed.

(** X10.  [removeEnemy] on an array of distinct objects: an enemy that is in
    the array is taken out, the array is one shorter and the other enemies
    keep their order; for an enemy that is not in the array ([indexOf]
    gives -1) nothing changes.  The spawn timer is not touched. *)
Theorem X10_removeEnemy (e : Enemy.t) (s : EnemySpawner.t) :
  NoDup (map Enemy.id (EnemySpawner.enemies s)) ->
  let es := EnemySpawner.enemies s in
  let s' := EnemySpawner.removeEnemy e s in
  let present := existsb (fun x => Nat.eqb (Enemy.id x) (Enemy.id e)) es in
  EnemySpawner.enemies s'
  = filter (fun x => negb (Nat.eqb (Enemy.id x) (Enemy.id e))) es
  /\ (if present
      then S (List.length (EnemySpawner.enemies s')) = List.length es
      else EnemySpawner.enemies s' = es)
  /\ EnemySpawner.timer s' = EnemySpawner.timer s.
Proof.
  intros Hnd. cbv zeta. unfold EnemySpawner.removeEnemy.
  cbn [EnemySpawner.enemies EnemySpawner.set_enemies EnemySpawner.timer].
  split; [apply removeFirst_NoDup; exact Hnd |]. split; [| reflexivity].
  destruct (existsb _ _) eqn:Ex.
  - apply removeFirst_length. exact Ex.
  - apply removeFirst_absent. exact Ex.
Qed.

(** X10 on three enemies: removing the second leaves the first and the
    third. *)
Lemma X10_removeEnemy_witness :
  map Enemy.id
    (EnemySpawner.enemies
       (EnemySpawner.removeEnemy (Enemy.new 1 runner)
          (EnemySpawner.set_enemies EnemySpawner.new threeEnemies)))
  = [0%nat; 2%nat].
Proof.
  assert (Hnd : NoDup
                  (map Enemy.id
                     (EnemySpawner.enemies
                        (EnemySpawner.set_enemies EnemySpawner.new
                           threeEnemies)))).
  { simpl. repeat constructor; simpl; intuition discriminate. }
  destruct (X10_removeEnemy (Enemy.new 1 runner)
              (EnemySpawner.set_enemies EnemySpawner.new threeEnemies) Hnd)
    as [E _].
  cbv zeta in E. rewrite E. reflexivity.
Defined.

(** ** SkillManager and the skills *)

Lemma SkillType_eqb_refl a : SkillType_eqb a a = true.
Proof. destruct a; reflexivity. Qed.

Lemma getSkill_app_miss (m : SkillManager.t) ty kv :
  SkillManager.hasSkill m ty = false ->
  SkillManager.getSkill (m ++ [kv]) ty
  = if SkillType_eqb (fst kv) ty then Some (snd kv) else None.
Proof.
  unfold SkillManager.hasSkill, SkillManager.getSkill.
  induction m as [| a m IH]; simpl.
  - intros _. destruct (SkillType_eqb (fst kv) ty); reflexivity.
  - intros Hx. apply orb_false_iff in Hx. destruct Hx as [Ha Hm].
    rewrite Ha. apply IH. exact Hm.
Qed.

Lemma getSkill_app_other (m : SkillManager.t) ty kv :
  SkillType_eqb (fst kv) ty = false ->
  SkillManager.getSkill (m ++ [kv]) ty = SkillManager.getSkill m ty.
Proof.
  intros Hk. unfold SkillManager.getSkill.
  induction m as [| a m IH]; simpl.
  - rewrite Hk. reflexivity.
  - destruct (SkillType_eqb (fst a) ty); [reflexivity | exact IH].
Qed.

Lemma getSkill_map_upgrade (m : SkillManager.t) ty ty' :
  SkillManager.getSkill
    (map (fun kv => if SkillType_eqb (fst kv) ty
                    then (fst kv, Skill_upgrade (snd kv)) else kv) m) ty'
  = if SkillType_eqb ty ty'
    then option_map Skill_upgrade (SkillManager.getSkill m ty')
    else SkillManager.getSkill m ty'.
Proof.
  unfold SkillManager.getSkill.
  induction m as [| [k v] m IH]; simpl.
  - destruct (SkillType_eqb ty ty'); reflexivity.
  - destruct k, ty, ty'; simpl; try reflexivity; exact IH.
Qed.

Lemma hasSkill_getSkill (m : SkillManager.t) ty :
  SkillManager.hasSkill m ty
  = match SkillManager.getSkill m ty with Some _ => true | None => false end.
Proof.
  unfold SkillManager.hasSkill, SkillManager.getSkill.
  induction m as [| a m IH]; simpl; [reflexivity |].
  destruct (SkillType_eqb (fst a) ty); [reflexivity | exact IH].
Qed.

(** X11.  [addSkill] and the lookups.  After [addSkill(ty)] the manager
    has the skill: the one it held, upgraded once, or a new one, started.
    The skills of the other type are as they were, and the manager holds
    one more skill only when the type is new. *)
Theorem X11_addSkill (H : Host) (m : SkillManager.t) (ty ty' : SkillType) :
  let m' := SkillManager.addSkill H m ty in
  SkillManager.getSkill m' ty
  = Some (match SkillManager.getSkill m ty with
          | Some sk => Skill_upgrade sk
          | None => startedSkill H ty
          end)
  /\ SkillManager.hasSkill m' ty = true
  /\ SkillManager.getSkill m' ty'
     = (if SkillType_eqb ty ty' then SkillManager.getSkill m' ty
        else SkillManager.getSkill m ty')
  /\ List.length m'
     = (List.length m + if SkillManager.hasSkill m ty then 0 else 1)%nat.
Proof.
  cbv zeta.
  assert (Hget : SkillManager.getSkill (SkillManager.addSkill H m ty) ty
    = Some (match SkillManager.getSkill m ty with
          | Some sk => Skill_upgrade sk
          | None => startedSkill H ty
          end)).
  { unfold SkillManager.addSkill. pose proof (hasSkill_getSkill m ty) as Hh.
    destruct (SkillManager.hasSkill m ty) eqn:Eh.
    - rewrite getSkill_map_upgrade, SkillType_eqb_refl.
      destruct (SkillManager.getSkill m ty); [reflexivity | discriminate].
    - rewrite getSkill_app_miss by exact Eh. cbn [fst snd].
      rewrite SkillType_eqb_refl.
      destruct (SkillManager.getSkill m ty); [discriminate |].
      destruct ty; reflexivity. }
  split; [exact Hget |]. split; [| split].
  - rewrite hasSkill_getSkill, Hget. reflexivity.
  - destruct (SkillType_eqb ty ty') eqn:Hf.
    + destruct ty, ty'; try discriminate; reflexivity.
    + unfold SkillManager.addSkill.
      destruct (SkillManager.hasSkill m ty).
      * rewrite getSkill_map_upgrade, Hf. reflexivity.
      * apply getSkill_app_other. exact Hf.
  - unfold SkillManager.addSkill.
    destruct (SkillManager.hasSkill m ty).
    + rewrite length_map. lia.
    + rewrite length_app. reflexivity.
Qed.

Lemma upgradedShield_S H n :
  upgradedShield H (S n) = OrbitalShield.upgrade (upgradedShield H n).
Proof. reflexivity. Qed.

Lemma shield_upgrades (H : Host) (n : nat) :
  let s := upgradedShield H n in
  OrbitalShield.level s = (1 + Z.of_nat n)%Z
  /\ OrbitalShield.orbitSpeed s == 3 + inject_Z (Z.of_nat n) / 2
  /\ OrbitalShield.damage s == 10 + 5 * inject_Z (Z.of_nat n)
  /\ OrbitalShield.orbitalCount s = (2 + Z.of_nat ((n + 1) / 2))%Z
  /\ OrbitalShield.isActive s = true
  /\ List.length (OrbitalShield.orbitals s) = 2%nat.
Proof.
  cbv zeta. induction n as [| n IH].
  - repeat split; reflexivity.
  - destruct IH as (Hl & Hs & Hd & Hc & Ha & Ho).
    rewrite upgradedShield_S.
    set (s := upgradedShield H n) in *.
    unfold OrbitalShield.upgrade.
    cbn [OrbitalShield.level OrbitalShield.orbitSpeed OrbitalShield.damage
         OrbitalShield.orbitalCount OrbitalShield.isActive
         OrbitalShield.orbitals].
    rewrite Nat2Z.inj_succ, <- Z.add_1_r, inject_Z_plus.
    change (inject_Z 1) with 1.
    repeat split; try assumption.
    + lia.
    + rewrite Hs. field.
    + rewrite Hd. ring.
    + rewrite Hl, Hc.
      destruct (Nat.Even_or_Odd n) as [[k ->] | [k ->]].
      * replace ((1 + Z.of_nat (2 * k) + 1) mod 2 =? 0)%Z with true
          by (symmetry; apply Z.eqb_eq;
              replace (1 + Z.of_nat (2 * k) + 1)%Z
                with ((Z.of_nat k + 1) * 2)%Z by lia;
              apply Z_mod_mult).
        replace (S (2 * k) + 1)%nat with (2 * (k + 1))%nat by lia.
        rewrite half_odd, half_even. lia.
      * replace ((1 + Z.of_nat (2 * k + 1) + 1) mod 2 =? 0)%Z with false
          by (symmetry; apply Z.eqb_neq;
              replace (1 + Z.of_nat (2 * k + 1) + 1)%Z
                with (1 + (Z.of_nat k + 1) * 2)%Z by lia;
              rewrite Z_mod_plus_full; discriminate).
        replace (2 * k + 1 + 1)%nat with (2 * (k + 1))%nat by lia.
        replace (S (2 * k + 1) + 1)%nat with (2 * (k + 1) + 1)%nat by lia.
        rewrite half_odd, half_even. lia.
Qed.

(** X12.  The orbital shield after [n] upgrades is at level [1 + n], turns
    at [3 + n / 2], deals [10 + 5 n] and asks for [2 + ceil(n / 2)]
    orbitals; its next [update] brings the orbitals to that number. *)
Theorem X12_shield_upgrades (H : Host) (n : nat) (dt now : Q)
    (playerPos : Vector3.t) (enemies : list Enemy.t) :
  let s := upgradedShield H n in
  OrbitalShield.level s = (1 + Z.of_nat n)%Z
  /\ OrbitalShield.orbitSpeed s == 3 + inject_Z (Z.of_nat n) / 2
  /\ OrbitalShield.damage s == 10 + 5 * inject_Z (Z.of_nat n)
  /\ OrbitalShield.orbitalCount s = (2 + Z.of_nat ((n + 1) / 2))%Z
  /\ List.length (orbitalsAfter H dt now playerPos enemies s)
     = (2 + (n + 1) / 2)%nat.
Proof.
  cbv zeta.
  destruct (shield_upgrades H n) as (Hl & Hs & Hd & Hc & Ha & Ho).
  unfold orbitalsAfter, OrbitalShield.update. rewrite Ha. cbn [negb].
  rewrite Ho, Hc.
  match goal with
  | |- context [OrbitalShield.hitEnemies ?a ?b ?c ?d ?e ?f ?g ?h] =>
      destruct (OrbitalShield.hitEnemies a b c d e f g h)
        as [[[cds es] evs] res]
  end.
  cbn [OrbitalShield.orbitals].
  repeat split; try assumption.
  rewrite length_map.
  destruct (Z.of_nat 2 <? 2 + Z.of_nat ((n + 1) / 2))%Z eqn:E.
  - unfold OrbitalShield.createOrbitals. cbn [OrbitalShield.orbitals].
    rewrite length_map, length_seq, Hc. lia.
  - apply Z.ltb_ge in E. rewrite Ho. lia.
Qed.

Lemma circleHost_onUnitCircle (a : Q) : onUnitCircle circleHost a.
Proof.
  unfold onUnitCircle, circleHost. cbn [Math_cos Math_sin].
  rewrite !Qred_correct. field. nra.
Qed.

(** X13.  After the [update] of an active shield every orbital is at
    height 1 and, when the host's cosine and sine of its angle are on the
    unit circle, at a horizontal distance of exactly [orbitRadius] from the
    player. *)
Theorem X13_orbitals_on_circle (H : Host) (dt now : Q)
    (playerPos : Vector3.t) (enemies : list Enemy.t) (s : OrbitalShield.t) :
  OrbitalShield.isActive s = true ->
  Forall (fun o => onUnitCircle H (OrbitalShield.angle o))
    (orbitalsAfter H dt now playerPos enemies s) ->
  Forall
    (fun o =>
       Vector3.y (OrbitalShield.mesh_position o) = 1
       /\ horizontalDistSq (OrbitalShield.mesh_position o) playerPos
          == OrbitalShield.orbitRadius s * OrbitalShield.orbitRadius s)
    (orbitalsAfter H dt now playerPos enemies s).
Proof.
  unfold orbitalsAfter, OrbitalShield.update. intros Ha. rewrite Ha.
  cbn [negb].
  match goal with
  | |- context [OrbitalShield.hitEnemies ?a ?b ?c ?d ?e ?f ?g ?h] =>
      destruct (OrbitalShield.hitEnemies a b c d e f g h)
        as [[[cds es] evs] res]
  end.
  cbn [OrbitalShield.orbitals].
  assert (Hr : forall s0,
            OrbitalShield.orbitRadius
              (if (Z.of_nat (List.length (OrbitalShield.orbitals s0))
                   <? OrbitalShield.orbitalCount s0)%Z
               then OrbitalShield.createOrbitals H s0 else s0)
            = OrbitalShield.orbitRadius s0)
    by (intros s0; destruct (_ <? _)%Z; reflexivity).
  rewrite Hr.
  rewrite !Forall_forall. intros Hc o Ho. specialize (Hc o Ho).
  apply in_map_iff in Ho. destruct Ho as (o0 & <- & _).
  cbn [OrbitalShield.mesh_position OrbitalShield.angle Vector3.x Vector3.y
       Vector3.z] in *.
  split; [reflexivity |].
  unfold horizontalDistSq, onUnitCircle in *.
  cbn [Vector3.x Vector3.z].
  set (c := Math_cos H _) in *. set (sn := Math_sin H _) in *.
  set (r := OrbitalShield.orbitRadius s).
  transitivity ((c * c + sn * sn) * (r * r)); [ring |].
  rewrite Hc. ring.
Qed.

(** X13 on the shield as started: its two orbitals are 2 away from the
    player after a frame of 0.1 s. *)
Lemma X13_orbitals_on_circle_witness :
  Forall
    (fun o =>
       Vector3.y (OrbitalShield.mesh_position o) = 1
       /\ horizontalDistSq (OrbitalShield.mesh_position o) (Vector3.mk 0 1 0)
          == 2 * 2)
    (orbitalsAfter circleHost 0.1 0 (Vector3.mk 0 1 0) []
       (upgradedShield circleHost 0)).
Proof.
  apply (X13_orbitals_on_circle circleHost 0.1 0 (Vector3.mk 0 1 0) []
           (upgradedShield circleHost 0)).
  - reflexivity.
  - repeat constructor; vm_compute; reflexivity.
Defined.

Lemma cooldown_get_set (cds : list (nat * Q)) (k k' : nat) (v : Q) :
  OrbitalShield.cooldown_get (OrbitalShield.cooldown_set cds k v) k'
  = if Nat.eqb k k' then v else OrbitalShield.cooldown_get cds k'.
Proof.
  induction cds as [| [a b] cds IH]; simpl.
  - reflexivity.
  - destruct (Nat.eqb a k) eqn:E; simpl.
    + apply Nat.eqb_eq in E. subst a.
      destruct (Nat.eqb k k'); reflexivity.
    + destruct (Nat.eqb a k') eqn:E'.
      * apply Nat.eqb_eq in E'. subst a. rewrite Nat.eqb_sym, E. reflexivity.
      * exact IH.
Qed.

Lemma hitByOrbitals_just_hit H dmg interval now ppos os cds e :
  0 < interval ->
  OrbitalShield.cooldown_get cds (Enemy.id e) == now ->
  OrbitalShield.hitByOrbitals H dmg interval now ppos os cds e
  = (cds, e, [], false).
Proof.
  intros Hi Hn. induction os as [| o os IH]; [reflexivity |].
  cbn [OrbitalShield.hitByOrbitals]. cbv zeta.
  replace (now - OrbitalShield.cooldown_get cds (Enemy.id e) >=? interval)
    with false by (symmetry; apply Qgeb_false; lra).
  rewrite andb_false_r. exact IH.
Qed.

(** X14.  With a positive damage interval an enemy takes at most one hit of
    the shield in an update, however many orbitals touch it: either nothing
    happens to it, or it loses [damage] once, one damage number is shown,
    the time of the hit is recorded for it in the cooldown map, and its last
    recorded hit was at least the interval ago. *)
Theorem X14_one_orbital_hit (H : Host) (dmg interval now : Q)
    (playerPos : Vector3.t) (os : list OrbitalShield.Orbital)
    (cds : list (nat * Q)) (e : Enemy.t) :
  0 < interval ->
  let '(cds', e', evs, died) :=
    OrbitalShield.hitByOrbitals H dmg interval now playerPos os cds e in
  (evs = [] /\ e' = e /\ cds' = cds /\ died = false)
  \/ (evs = [FloatingText dmg]
      /\ Enemy.health e' = Enemy.health e - dmg
      /\ Enemy.id e' = Enemy.id e
      /\ OrbitalShield.cooldown_get cds' (Enemy.id e) = now
      /\ died = (Enemy.health e - dmg <=? 0)
      /\ interval <= now - OrbitalShield.cooldown_get cds (Enemy.id e)).
Proof.
  intros Hi. induction os as [| o os IH].
  - left. repeat split.
  - cbn [OrbitalShield.hitByOrbitals]. cbv zeta.
    destruct (_ <? 1.2) eqn:Ed; cbn [andb]; [| exact IH].
    destruct (_ >=? interval) eqn:Ec; [| exact IH].
    apply Qgeb_true in Ec. clear IH.
    unfold Enemy.takeDamage. cbv zeta.
    destruct (Enemy.health e - dmg <=? 0) eqn:Eh.
    + right. cbn [Enemy.health Enemy.id Enemy.set_position].
      rewrite cooldown_get_set, Nat.eqb_refl. repeat split. exact Ec.
    + match goal with
      | |- context [OrbitalShield.hitByOrbitals H dmg interval now playerPos
                      os ?c ?x] =>
          rewrite (hitByOrbitals_just_hit H dmg interval now playerPos os c x
                     Hi)
      end.
      * right. cbn [Enemy.health Enemy.id Enemy.set_position].
        rewrite cooldown_get_set, Nat.eqb_refl. repeat split. exact Ec.
      * cbn [Enemy.id Enemy.set_position].
        rewrite cooldown_get_set, Nat.eqb_refl. reflexivity.
Qed.

(** X14 on a tank that two orbitals touch at once, one second into the
    game, for a damage of 4: it is hit once and keeps 6 of its 10 HP. *)
Lemma X14_one_orbital_hit_witness :
  let os := [OrbitalShield.mkOrbital 0 Vector3.zero;
             OrbitalShield.mkOrbital 3 Vector3.zero] in
  let '(_, e', evs, _) :=
    OrbitalShield.hitByOrbitals exampleHost 4 0.5 1 (Vector3.mk 0 1 0) os []
      (Enemy.new 0 tank) in
  evs = [FloatingText 4] /\ Enemy.health e' == 6.
Proof.
  cbv zeta.
  pose proof (X14_one_orbital_hit exampleHost 4 0.5 1 (Vector3.mk 0 1 0)
                [OrbitalShield.mkOrbital 0 Vector3.zero;
                 OrbitalShield.mkOrbital 3 Vector3.zero] []
                (Enemy.new 0 tank) eq_refl) as W.
  destruct (OrbitalShield.hitByOrbitals _ _ _ _ _ _ _ _)
    as [[[cds' e'] evs] died] eqn:E.
  destruct W as [(Hn & _) | (He & Hh & _)].
  - exfalso. vm_compute in E. rewrite Hn in E. discriminate E.
  - split; [exact He |]. rewrite Hh. reflexivity.
Defined.

Lemma thunder_upgrades (n : nat) :
  let s := Nat.iter n ThunderStrike.upgrade
             (ThunderStrike.start ThunderStrike.new) in
  ThunderStrike.level s = (1 + Z.of_nat n)%Z
  /\ ThunderStrike.cooldown s == Qmax 1 (3 - (3 # 10) * inject_Z (Z.of_nat n))
  /\ ThunderStrike.damage s == 50 + 15 * inject_Z (Z.of_nat n).
Proof.
  cbv zeta. induction n as [| n IH].
  - simpl. repeat split; reflexivity.
  - destruct IH as (Hl & Hc & Hd).
    change (Nat.iter (S n) ThunderStrike.upgrade
              (ThunderStrike.start ThunderStrike.new))
      with (ThunderStrike.upgrade
              (Nat.iter n ThunderStrike.upgrade
                 (ThunderStrike.start ThunderStrike.new))).
    set (s := Nat.iter n ThunderStrike.upgrade
                (ThunderStrike.start ThunderStrike.new)) in *.
    unfold ThunderStrike.upgrade.
    cbn [ThunderStrike.level ThunderStrike.cooldown ThunderStrike.damage].
    rewrite Nat2Z.inj_succ, <- Z.add_1_r, inject_Z_plus.
    change (inject_Z 1) with 1.
    repeat split.
    + lia.
    + generalize dependent (ThunderStrike.cooldown s).
      intros c Hc. generalize dependent (inject_Z (Z.of_nat n)). intros k Hc.
      destruct (Q.max_spec 1 (3 - (3 # 10) * k)) as [[? E1] | [? E1]];
        destruct (Q.max_spec 1 (c - 0.3)) as [[? E2] | [? E2]];
        destruct (Q.max_spec 1 (3 - (3 # 10) * (k + 1))) as [[? E3] | [? E3]];
        lra.
    + rewrite Hd. ring.
Qed.

(** X15.  The thunder strike after [n] upgrades is at level [1 + n] and
    deals [50 + 15 n]; its cooldown is [3 - 0.3 n] seconds for the first six
    upgrades and stays at the floor of 1 second from the seventh on. *)
Theorem X15_thunder_upgrades (n : nat) :
  let s := Nat.iter n ThunderStrike.upgrade
             (ThunderStrike.start ThunderStrike.new) in
  ThunderStrike.level s = (1 + Z.of_nat n)%Z
  /\ ThunderStrike.cooldown s
     == (if (n <? 7)%nat then 3 - (3 # 10) * inject_Z (Z.of_nat n) else 1)
  /\ 1 <= ThunderStrike.cooldown s
  /\ ThunderStrike.damage s == 50 + 15 * inject_Z (Z.of_nat n).
Proof.
  cbv zeta. destruct (thunder_upgrades n) as (Hl & Hc & Hd).
  split; [exact Hl |]. split; [| split; [| exact Hd]].
  - rewrite Hc. destruct (n <? 7)%nat eqn:E.
    + apply Nat.ltb_lt in E.
      assert (Hk : inject_Z (Z.of_nat n) <= 6)
        by (change 6 with (inject_Z 6); rewrite <- Zle_Qle; lia).
      destruct (Q.max_spec 1 (3 - (3 # 10) * inject_Z (Z.of_nat n)))
        as [[? E1] | [? E1]]; lra.
    + apply Nat.ltb_ge in E.
      assert (Hk : 7 <= inject_Z (Z.of_nat n))
        by (change 7 with (inject_Z 7); rewrite <- Zle_Qle; lia).
      destruct (Q.max_spec 1 (3 - (3 # 10) * inject_Z (Z.of_nat n)))
        as [[? E1] | [? E1]]; lra.
  - rewrite Hc. apply Q.le_max_l.
Qed.

(** ** Time and the displays of UIManager *)

Lemma last_cons_default {A} (r : list A) (t d : A) :
  last (t :: r) d = last r t.
Proof.
  revert t d. induction r as [| a r IH]; intros t d; [reflexivity |].
  change (last (t :: a :: r) d) with (last (a :: r) d).
  rewrite (IH a d), (IH a t). reflexivity.
Qed.

(** X16.  The frame times of [Time.update] add up to the time elapsed on
    the clock: over any sequence of clock readings the [deltaTime]s sum to
    the last reading less the [lastTime] before the first, in seconds, and
    [lastTime] ends at the last reading. *)
Theorem X16_frame_times (ts : list Q) (tm : Time.t) :
  Qsum (frameTimes ts tm)
  == (last ts (Time.lastTime tm) - Time.lastTime tm) / 1000
  /\ Time.lastTime (fold_left (fun tm t => Time.update t tm) ts tm)
     = last ts (Time.lastTime tm).
Proof.
  revert tm. induction ts as [| t r IH]; intros tm.
  - split; [unfold Qsum; simpl; field | reflexivity].
  - destruct (IH (Time.update t tm)) as [IH1 IH2].
    cbn [frameTimes fold_left].
    change (Qsum (?a :: ?l)) with (a + Qsum l).
    rewrite IH1, IH2. cbn [Time.update Time.deltaTime Time.lastTime].
    rewrite last_cons_default.
    split; [field | reflexivity].
Qed.

Lemma Qfloor_unique (x : Q) (z : Z) :
  inject_Z z <= x -> x < inject_Z (z + 1) -> Qfloor x = z.
Proof.
  intros Hl Hu.
  pose proof (Qfloor_le x) as H1. pose proof (Qlt_floor x) as H2.
  assert (A : inject_Z z < inject_Z (Qfloor x + 1)) by lra.
  assert (B : inject_Z (Qfloor x) < inject_Z (z + 1)) by lra.
  rewrite <- Zlt_Qlt in A, B. lia.
Qed.

Lemma String_length_append (a b : String.string) :
  String.length (String.append a b)
  = (String.length a + String.length b)%nat.
Proof.
  induction a as [| c a IH]; simpl; [reflexivity | rewrite IH; reflexivity].
Qed.

Lemma padStart2_two_digits (z : Z) :
  (0 <= z < 100)%Z ->
  String.length (UIManager.padStart2 (UIManager.toString z)) = 2%nat.
Proof.
  intros Hz.
  assert (Hall :
    forallb
      (fun n => Nat.eqb
         (String.length
            (UIManager.padStart2 (UIManager.toString (Z.of_nat n)))) 2)
      (seq 0 100) = true) by (vm_compute; reflexivity).
  rewrite forallb_forall in Hall.
  specialize (Hall (Z.to_nat z)).
  rewrite Z2Nat.id in Hall by lia.
  apply Nat.eqb_eq, Hall, in_seq. lia.
Qed.

(** X17.  The timer display.  For a game time [t >= 0] the minutes [m] and
    seconds [s] that [updateTimer] (and the two end screens) show are the
    whole seconds of [t] split by 60: [m >= 0], [0 <= s < 60] and
    [60 m + s = floor t]; below 100 minutes the text has the five characters
    of [mm:ss]. *)
Theorem X17_updateTimer (t : Q) :
  0 <= t ->
  let '(m, s) := UIManager.minutesSeconds t in
  (0 <= m)%Z /\ (0 <= s < 60)%Z /\ (60 * m + s = Qfloor t)%Z
  /\ (6000 <= t \/ String.length (UIManager.updateTimer t) = 5%nat).
Proof.
  intros Ht. unfold UIManager.updateTimer.
  unfold UIManager.minutesSeconds, js_rem, trunc.
  assert (Hdiv : 0 <= t / 60) by (apply Qle_shift_div_l; lra).
  replace (0 <=? t / 60) with true by (symmetry; apply Qleb_true; exact Hdiv).
  set (m := Qfloor (t / 60)).
  pose proof (Qfloor_le (t / 60)) as H1. pose proof (Qlt_floor (t / 60)) as H2.
  fold m in H1, H2. rewrite inject_Z_plus in H2.
  change (inject_Z 1) with 1 in H2.
  assert (H1' : 60 * inject_Z m <= t)
    by (apply (Qmult_le_l _ _ 60) in H1; [| reflexivity];
        setoid_replace (60 * (t / 60)) with t in H1 by field; exact H1).
  assert (H2' : t < 60 * inject_Z m + 60)
    by (apply (Qmult_lt_l _ _ 60) in H2; [| reflexivity];
        setoid_replace (60 * (t / 60)) with t in H2 by field; lra).
  set (s := Qfloor (t - 60 * inject_Z m)).
  pose proof (Qfloor_le (t - 60 * inject_Z m)) as H3.
  pose proof (Qlt_floor (t - 60 * inject_Z m)) as H4.
  fold s in H3, H4. rewrite inject_Z_plus in H4.
  change (inject_Z 1) with 1 in H4.
  assert (Hm : (0 <= m)%Z).
  { assert (A : inject_Z (-1) < inject_Z m)
      by (change (inject_Z (-1)) with (-1); lra).
    rewrite <- Zlt_Qlt in A. lia. }
  assert (Hs0 : (0 <= s)%Z).
  { assert (A : inject_Z (-1) < inject_Z s)
      by (change (inject_Z (-1)) with (-1); lra).
    rewrite <- Zlt_Qlt in A. lia. }
  assert (Hs1 : (s < 60)%Z).
  { assert (A : inject_Z s < inject_Z 60)
      by (change (inject_Z 60) with 60; lra).
    rewrite <- Zlt_Qlt in A. exact A. }
  split; [exact Hm |]. split; [split; assumption |]. split.
  - symmetry. apply Qfloor_unique.
    + rewrite inject_Z_plus, inject_Z_mult. change (inject_Z 60) with 60. lra.
    + rewrite !inject_Z_plus, inject_Z_mult. change (inject_Z 60) with 60.
      change (inject_Z 1) with 1. lra.
  - destruct (Qlt_le_dec t 6000) as [Hlt | Hge]; [right | left; exact Hge].
    assert (Hm1 : (m < 100)%Z).
    { assert (A : inject_Z m < inject_Z 100)
        by (change (inject_Z 100) with 100; lra).
      rewrite <- Zlt_Qlt in A. exact A. }
    rewrite !String_length_append, !padStart2_two_digits by lia.
    reflexivity.
Qed.

(** X17 at 75.5 seconds: one minute and fifteen seconds. *)
Lemma X17_updateTimer_witness :
  0 <= 75.5 /\ UIManager.minutesSeconds 75.5 = (1%Z, 15%Z).
Proof.
  split; [discriminate |].
  pose proof (X17_updateTimer 75.5) as W.
  destruct (UIManager.minutesSeconds 75.5) as [m s].
  destruct W as (_ & Hs & Hsum & _); [discriminate |].
  change (Qfloor 75.5) with 75%Z in Hsum.
  f_equal; lia.
Defined.

(** X18.  The health bar.  For a positive maximum its width is the health
    as a percentage of the maximum, held between 0 and 100: empty for a
    health of zero or less (which a lethal hit leaves), full at the
    maximum or above.  The background changes below a quarter and below a
    half of the maximum. *)
Theorem X18_updateHealthBar (cur max : Q) :
  0 < max ->
  let '(width, background) := UIManager.updateHealthBar cur max in
  0 <= width <= 100
  /\ width == (if cur <=? 0 then 0 else if max <=? cur then 100
               else cur / max * 100)
  /\ background
     = (if cur * 4 <? max then UIManager.bar_critical
        else if cur * 2 <? max then UIManager.bar_low
        else UIManager.bar_normal).
Proof.
  intros Hmax. unfold UIManager.updateHealthBar. cbv zeta.
  set (p := cur / max * 100).
  assert (Hp : p * max == cur * 100) by (unfold p; field; lra).
  split; [| split].
  - destruct (Q.max_spec 0 (Qmin p 100)) as [[Ha Ea] | [Ha Ea]];
      destruct (Q.min_spec p 100) as [[Hb Eb] | [Hb Eb]]; lra.
  - destruct (cur <=? 0) eqn:E0.
    + apply Qleb_true in E0. assert (p <= 0) by nra.
      destruct (Q.max_spec 0 (Qmin p 100)) as [[Ha Ea] | [Ha Ea]];
        destruct (Q.min_spec p 100) as [[Hb Eb] | [Hb Eb]]; lra.
    + apply Qleb_false in E0. assert (0 < p) by nra.
      destruct (max <=? cur) eqn:E1.
      * apply Qleb_true in E1. assert (100 <= p) by nra.
        destruct (Q.max_spec 0 (Qmin p 100)) as [[Ha Ea] | [Ha Ea]];
          destruct (Q.min_spec p 100) as [[Hb Eb] | [Hb Eb]]; lra.
      * apply Qleb_false in E1. assert (p < 100) by nra.
        destruct (Q.max_spec 0 (Qmin p 100)) as [[Ha Ea] | [Ha Ea]];
          destruct (Q.min_spec p 100) as [[Hb Eb] | [Hb Eb]]; lra.
  - assert (B1 : (p <? 25) = (cur * 4 <? max)).
    { destruct (cur * 4 <? max) eqn:E.
      - apply Qltb_true in E. apply Qltb_true. nra.
      - apply Qltb_false in E. apply Qltb_false. nra. }
    assert (B2 : (p <? 50) = (cur * 2 <? max)).
    { destruct (cur * 2 <? max) eqn:E.
      - apply Qltb_true in E. apply Qltb_true. nra.
      - apply Qltb_false in E. apply Qltb_false. nra. }
    rewrite B1, B2. reflexivity.
Qed.

(** X18 for the health a lethal boss contact leaves, -19.95 of 100: the bar
    is empty. *)
Lemma X18_updateHealthBar_witness :
  0 < 100 /\ fst (UIManager.updateHealthBar (- 19.95) 100) == 0.
Proof.
  split; [reflexivity |].
  pose proof (X18_updateHealthBar (- 19.95) 100 eq_refl) as W.
  destruct (UIManager.updateHealthBar (- 19.95) 100) as [width background].
  destruct W as (_ & Hw & _). exact Hw.
Defined.

(** ** Kills and gems *)

Lemma afterKills_refl g : afterKills 0 g g.
Proof.
  unfold afterKills. repeat split; try lia.
  change (inject_Z (Z.of_nat 0)) with 0. ring.
Qed.

Lemma afterKills_trans n m g1 g2 g3 :
  afterKills n g1 g2 -> afterKills m g2 g3 -> afterKills (n + m) g1 g3.
Proof.
  unfold afterKills. intros (A1 & A2 & A3 & A4 & A5) (B1 & B2 & B3 & B4 & B5).
  repeat split; try lia.
  rewrite B4, A4, Nat2Z.inj_add, inject_Z_plus. ring.
Qed.

Lemma hitFirst_kept H pos hitDist dmg es es' e' died :
  GameManager.hitFirst H pos hitDist dmg es = Some (es', e', died) ->
  List.length es' = List.length es
  /\ existsb (fun x => Nat.eqb (Enemy.id x) (Enemy.id e')) es' = true.
Proof.
  revert es'. induction es as [| e r IH]; intros es' Hh; [discriminate |].
  cbn [GameManager.hitFirst] in Hh.
  destruct (_ && _).
  - unfold Enemy.takeDamage in Hh. cbv zeta in Hh.
    injection Hh as <- <- <-. split; [reflexivity |].
    cbn [existsb Enemy.id]. rewrite Nat.eqb_refl. reflexivity.
  - destruct (GameManager.hitFirst H pos hitDist dmg r)
      as [[[r' e1] d1] |]; [| discriminate].
    injection Hh as <- <- <-.
    destruct (IH r' eq_refl) as [Hl Hx].
    split; [simpl; rewrite Hl; reflexivity |].
    cbn [existsb]. rewrite Hx. apply orb_true_r.
Qed.

Lemma hitEnemy_tally H p g :
  exists n, (n <= 1)%nat
            /\ (fst (GameManager.hitEnemy H p g) = false -> n = O)
            /\ afterKills n g (snd (GameManager.hitEnemy H p g)).
Proof.
  unfold GameManager.hitEnemy.
  destruct (Projectile.isDestroyed p);
    [exists O; split; [lia | split; [reflexivity | apply afterKills_refl]] |].
  destruct (GameManager.hitFirst _ _ _ _ _) as [[[es e] died] |] eqn:Eh;
    [| exists O; split; [lia | split; [reflexivity | apply afterKills_refl]]].
  apply hitFirst_kept in Eh. destruct Eh as [Hl Hx].
  rewrite length_rev in Hl.
  destruct died.
  - exists 1%nat. split; [lia |]. split; [discriminate |].
    unfold afterKills, GameManager.rewardKill, GameManager.spawnGem.
    cbv zeta.
    cbn [fst snd GameManager.enemies GameManager.experienceGems
         GameManager.uiManager GameManager.rng GameManager.emit
         GameManager.set_rng GameManager.set_experienceGems
         GameManager.set_uiManager GameManager.set_enemySpawner
         GameManager.set_enemies GameManager.enemySpawner
         EnemySpawner.removeEnemy EnemySpawner.set_enemies
         EnemySpawner.getEnemies EnemySpawner.enemies UIManager.updateScore
         UIManager.getKills UIManager.getScore UIManager.kills
         UIManager.score].
    pose proof (removeFirst_length (Enemy.id e) (rev es)) as Hr.
    rewrite existsb_rev' in Hr. specialize (Hr Hx).
    rewrite length_rev in Hr.
    repeat split; try lia; try (rewrite length_app; reflexivity).
  - exists O. split; [lia |]. split; [intros _; reflexivity |].
    unfold afterKills.
    cbn [fst snd GameManager.enemies GameManager.experienceGems
         GameManager.uiManager GameManager.rng GameManager.emit
         GameManager.set_enemySpawner
         GameManager.set_enemies GameManager.enemySpawner
         EnemySpawner.set_enemies
         EnemySpawner.getEnemies EnemySpawner.enemies].
    rewrite length_rev.
    repeat split; try lia.
    change (inject_Z (Z.of_nat 0)) with 0. ring.
Qed.

Lemma resolveProjectiles_tally H ps g :
  let r := GameManager.resolveProjectiles H ps g in
  exists n, (List.length (fst r) + n <= List.length ps)%nat
            /\ afterKills n g (snd r).
Proof.
  cbv zeta. revert g. induction ps as [| p r IH]; intros g.
  - exists O. split; [simpl; lia | apply afterKills_refl].
  - cbn [GameManager.resolveProjectiles].
    destruct (hitEnemy_tally H p g) as (n1 & Hn1 & Hz & Hk1).
    destruct (GameManager.hitEnemy H p g) as [removed g1].
    cbn [fst snd] in Hz, Hk1.
    destruct (IH g1) as (n2 & Hn2 & Hk2).
    destruct (GameManager.resolveProjectiles H r g1) as [kept g2].
    cbn [fst snd] in *.
    exists (n1 + n2)%nat.
    split; [| exact (afterKills_trans _ _ _ _ _ Hk1 Hk2)].
    destruct removed; cbn [List.length].
    + lia.
    + rewrite (Hz eq_refl). lia.
Qed.

(** X19.  Kills by projectiles are accounted one for one.  Over a whole
    [checkProjectileEnemyCollisions], for some number [n] of kills: the
    array holds [n] enemies less and [n] gems more, [kills] has grown by
    [n] and the score by [10 n] (one random number is drawn per gem), and at
    least [n] projectiles have left the array. *)
Theorem X19_kill_accounting (H : Host) (g : GameManager.t) :
  let g' := GameManager.checkProjectileEnemyCollisions H g in
  exists n : nat,
    afterKills n g g'
    /\ (List.length (GameManager.projectiles g') + n
        <= List.length (GameManager.projectiles g))%nat.
Proof.
  cbv zeta. unfold GameManager.checkProjectileEnemyCollisions. cbv zeta.
  match goal with
  | |- context [GameManager.resolveProjectiles ?a ?ps ?x] =>
      destruct (resolveProjectiles_tally a ps x) as (n & Hn & Hk);
      destruct (GameManager.resolveProjectiles a ps x) as [kept g1]
  end.
  cbn [fst snd] in Hn, Hk. exists n.
  cbn [GameManager.projectiles GameManager.set_projectiles].
  rewrite length_rev.
  cbn [GameManager.projectiles GameManager.emit] in Hn.
  rewrite length_rev in Hn. split; [| exact Hn].
  exact Hk.
Qed.

Lemma gainXp_reach H amt g gem :
  gemInReach H (GameManager.gainXp amt g) gem = gemInReach H g gem.
Proof.
  unfold gemInReach, GameManager.gainXp, Player.gainXp.
  destruct (_ >=? _); reflexivity.
Qed.

Lemma gainXp_player amt g :
  GameManager.player (GameManager.gainXp amt g)
  = fst (Player.gainXp amt (GameManager.player g)).
Proof.
  unfold GameManager.gainXp.
  destruct (Player.gainXp amt (GameManager.player g)) as [p []]; reflexivity.
Qed.

Lemma collectGems_spec H gems g g0 :
  (forall gem, gemInReach H g gem = gemInReach H g0 gem) ->
  let r := GameManager.collectGems H gems g in
  fst r = map (fun gem => if gemInReach H g0 gem
                          then ExperienceGem.collect gem else gem) gems
  /\ GameManager.player (snd r)
     = fold_left
         (fun p gem => fst (Player.gainXp (ExperienceGem.xpValue gem) p))
         (filter (gemInReach H g0) gems) (GameManager.player g)
  /\ (forall gem, gemInReach H (snd r) gem = gemInReach H g0 gem).
Proof.
  cbv zeta. revert g. induction gems as [| gem r IH]; intros g Hg.
  - split; [reflexivity |]. split; [reflexivity | exact Hg].
  - cbn [GameManager.collectGems map filter].
    pose proof (Hg gem) as Hgem. unfold gemInReach at 1 in Hgem.
    rewrite Hgem.
    destruct (gemInReach H g0 gem).
    + destruct (IH (GameManager.gainXp (ExperienceGem.xpValue gem) g))
        as (I1 & I2 & I3).
      { intros x. rewrite gainXp_reach. apply Hg. }
      destruct (GameManager.collectGems H r _) as [r' g'].
      cbn [fst snd] in *. rewrite I1, I2, gainXp_player.
      split; [reflexivity |]. split; [reflexivity | exact I3].
    + destruct (IH g Hg) as (I1 & I2 & I3).
      destruct (GameManager.collectGems H r g) as [r' g'].
      cbn [fst snd] in *. rewrite I1, I2.
      split; [reflexivity |]. split; [reflexivity | exact I3].
Qed.

(** X20.  [checkGemCollections] collects exactly the gems that are not yet
    collected and within [gemCollectDist] of the player: those are marked
    collected, the others are as they were, and the player has gained the XP
    value of each collected gem, once, in the order of the array.  After the
    pass no gem of the array passes the test again. *)
Theorem X20_gem_collection (H : Host) (g : GameManager.t) :
  let g' := GameManager.checkGemCollections H g in
  GameManager.experienceGems g'
  = map (fun gem => if gemInReach H g gem
                    then ExperienceGem.collect gem else gem)
      (GameManager.experienceGems g)
  /\ GameManager.player g'
     = fold_left
         (fun p gem => fst (Player.gainXp (ExperienceGem.xpValue gem) p))
         (filter (gemInReach H g) (GameManager.experienceGems g))
         (GameManager.player g)
  /\ Forall (fun gem => gemInReach H g' gem = false)
       (GameManager.experienceGems g').
Proof.
  cbv zeta. unfold GameManager.checkGemCollections. cbv zeta.
  match goal with
  | |- context [GameManager.collectGems ?a ?gs ?x] =>
      destruct (collectGems_spec a gs x g (fun gem => eq_refl))
        as (I1 & I2 & I3);
      destruct (GameManager.collectGems a gs x) as [gems g1]
  end.
  cbn [fst snd] in I1, I2, I3.
  cbn [GameManager.experienceGems GameManager.player
       GameManager.set_experienceGems GameManager.emit] in *.
  split; [exact I1 |]. split; [exact I2 |].
  assert (I4 : forall gem,
             gemInReach H (GameManager.set_experienceGems g1 gems) gem
             = gemInReach H g gem) by (intros gem; apply (I3 gem)).
  apply Forall_forall. intros gem' Hin. rewrite I4.
  rewrite I1 in Hin. clear I1 I4.
  apply in_map_iff in Hin. destruct Hin as (gem & <- & _).
  destruct (gemInReach H g gem) eqn:E; [reflexivity | exact E].
Qed.

(** ** Enemy.update and Boss.update: the pursuit *)

Lemma Qsq_nonneg (a : Q) : 0 <= a * a.
Proof. destruct (Qlt_le_dec a 0); nra. Qed.

Lemma Qsq_sum_zero (a b : Q) : a * a + b * b == 0 -> a == 0 /\ b == 0.
Proof.
  intros E. pose proof (Qsq_nonneg a). pose proof (Qsq_nonneg b).
  split.
  - destruct (Q_dec a 0) as [[Hl | Hg] | He]; [exfalso; nra | exfalso; nra |].
    exact He.
  - destruct (Q_dec b 0) as [[Hl | Hg] | He]; [exfalso; nra | exfalso; nra |].
    exact He.
Qed.

Lemma pursuit_step (H : Host) (speed dt : Q) (target pos : Vector3.t) :
  let dir :=
    Vector3.normalize H
      (Vector3.set_y (Vector3.subVectors target pos) 0) in
  pursues H speed dt target pos
    (Vector3.mk (Vector3.x pos + Vector3.x dir * speed * dt)
       (Vector3.y pos)
       (Vector3.z pos + Vector3.z dir * speed * dt)).
Proof.
  cbv zeta. unfold pursues. cbv zeta.
  unfold Vector3.normalize, Vector3.divideScalar, Vector3.multiplyScalar,
    Vector3.length, Vector3.lengthSq, Vector3.set_y, Vector3.subVectors,
    horizontalDistSq.
  cbn [Vector3.x Vector3.y Vector3.z].
  set (tx := Vector3.x target). set (tz := Vector3.z target).
  set (px := Vector3.x pos). set (pz := Vector3.z pos).
  set (q := (tx - px) * (tx - px) + 0 * 0 + (tz - pz) * (tz - pz)).
  set (l := Math_sqrt H q).
  set (s := if Qeq_bool l 0 then 1 else l).
  assert (Hs : ~ s == 0).
  { unfold s. destruct (Qeq_bool l 0) eqn:Eb; [lra |].
    apply Qeq_bool_neq in Eb. exact Eb. }
  assert (Hq : q == (tx - px) * (tx - px) + (tz - pz) * (tz - pz))
    by (unfold q; ring).
  assert (Hstep :
    (tx - (px + (tx - px) * (1 / s) * speed * dt))
    * (tx - (px + (tx - px) * (1 / s) * speed * dt))
    + (tz - (pz + (tz - pz) * (1 / s) * speed * dt))
      * (tz - (pz + (tz - pz) * (1 / s) * speed * dt))
    == ((tx - px) * (tx - px) + (tz - pz) * (tz - pz))
       * ((1 - speed * dt / s) * (1 - speed * dt / s)))
    by (field; exact Hs).
  split; [reflexivity |]. split; [exact Hstep |]. split.
  - intros Hex Hpos. rewrite Hstep.
    assert (Hl : 0 < l) by (apply exactSqrt_pos; [exact Hex | lra]).
    assert (Hsl : s = l).
    { unfold s. destruct (Qeq_bool l 0) eqn:Eb; [| reflexivity].
      apply Qeq_bool_iff in Eb. exfalso. lra. }
    rewrite Hsl. rewrite <- Hq, <- (proj2 Hex). fold l. field. lra.
  - intros Hz.
    destruct (Qsq_sum_zero _ _ Hz) as [Hx0 Hz0].
    split; [rewrite Hx0 | rewrite Hz0]; ring.
Qed.

(** X21.  The motion of [Enemy.update] and [Boss.update].  A destroyed
    body is left as it is.  Otherwise the body keeps its height and the
    horizontal vector to its target is scaled by [1 - speed dt / l], with
    [l] the length the host computes for it: the body comes closer, or
    passes the target when the step [speed dt] is longer than [l].  Where
    the host's square root is exact, the distance [l > 0] becomes
    [|l - speed dt|]; a body at the point below its target does not
    move. *)
Theorem X21_pursuit (H : Host) (dt : Q) (target : Vector3.t) (e : Enemy.t)
    (b : Boss.t) :
  (if Enemy.isDestroyed e then Enemy.update H dt target e = e
   else pursues H (Enemy.speed e) dt target (Enemy.position e)
          (Enemy.position (Enemy.update H dt target e)))
  /\ (if Boss.isDestroyed b then Boss.update H dt target b = b
      else pursues H (Boss.speed b) dt target (Boss.position b)
             (Boss.position (Boss.update H dt target b))).
Proof.
  split.
  - unfold Enemy.update. destruct (Enemy.isDestroyed e); [reflexivity |].
    cbv zeta. cbn [Enemy.position]. apply pursuit_step.
  - unfold Boss.update. destruct (Boss.isDestroyed b); [reflexivity |].
    cbv zeta. cbn [Boss.position]. apply pursuit_step.
Qed.

(** X21 on [exampleHost], for a normal enemy (speed 3) at (3, 1/2, 4), five
    away from the point below its target at (0, 1, 0), over half a second:
    it ends 3.5 away. *)
Lemma X21_pursuit_witness :
  let target := Vector3.mk 0 1 0 in
  let e := Enemy.set_position (Enemy.new 0 normal) (Vector3.mk 3 (1 # 2) 4) in
  horizontalDistSq target
    (Enemy.position (Enemy.update exampleHost (1 # 2) target e))
  == (7 # 2) * (7 # 2).
Proof.
  cbv zeta.
  pose proof (X21_pursuit exampleHost (1 # 2) (Vector3.mk 0 1 0)
                (Enemy.set_position (Enemy.new 0 normal)
                   (Vector3.mk 3 (1 # 2) 4)) Boss.new) as [W _].
  cbn [Enemy.isDestroyed Enemy.set_position Enemy.new] in W.
  destruct W as (_ & _ & W & _).
  rewrite W.
  - vm_compute. reflexivity.
  - split; vm_compute; [discriminate | reflexivity].
  - vm_compute. reflexivity.
Defined.

(** ** InputManager: the listeners *)

Lemma lowerAscii_idem (c : Ascii.ascii) :
  InputManager.lowerAscii (InputManager.lowerAscii c)
  = InputManager.lowerAscii c.
Proof.
  destruct c as [[] [] [] [] [] [] [] []]; reflexivity.
Qed.

Lemma toLowerCase_idem (s : String.string) :
  InputManager.toLowerCase (InputManager.toLowerCase s)
  = InputManager.toLowerCase s.
Proof.
  induction s as [| c s IH]; simpl; [reflexivity |].
  rewrite lowerAscii_idem, IH. reflexivity.
Qed.

(** X22.  The keyboard listeners look at the key's lower case only.  For a
    key whose lower case is w, a, s or d they call [preventDefault], and a
    release undoes a press and a press a release: the state after both is
    the state after the later one alone.  For any other key they change
    nothing and do not call [preventDefault]. *)
Theorem X22_key_events (key : String.string) (i : InputManager.t) :
  let k := InputManager.toLowerCase key in
  InputManager.keydown key i = InputManager.keydown k i
  /\ InputManager.keyup key i = InputManager.keyup k i
  /\ if existsb (String.eqb k) InputManager.movementKeys then
       snd (InputManager.keydown key i) = true
       /\ snd (InputManager.keyup key i) = true
       /\ fst (InputManager.keyup key (fst (InputManager.keydown key i)))
          = fst (InputManager.keyup key i)
       /\ fst (InputManager.keydown key (fst (InputManager.keyup key i)))
          = fst (InputManager.keydown key i)
     else
       InputManager.keydown key i = (i, false)
       /\ InputManager.keyup key i = (i, false).
Proof.
  cbv zeta. unfold InputManager.keydown, InputManager.keyup.
  rewrite toLowerCase_idem.
  split; [reflexivity |]. split; [reflexivity |].
  unfold InputManager.movementKeys, InputManager.setKey. cbn [existsb].
  repeat (destruct (String.eqb _ _); [repeat split |]).
  split; reflexivity.
Qed.

(** ** The game clock *)

Lemma calm_gainXp amt : keepsCalm (GameManager.gainXp amt).
Proof.
  split; intros g; unfold GameManager.gainXp;
    destruct (Player.gainXp amt (GameManager.player g)) as [p []];
    reflexivity.
Qed.

Lemma calm_rewardKill H e : keepsCalm (GameManager.rewardKill H e).
Proof. split; intros g; reflexivity. Qed.

Lemma calm_fold_rewardKill H results :
  keepsCalm (fun g => fold_left (fun acc e => GameManager.rewardKill H e acc)
                        results g).
Proof.
  split; induction results as [| e r IH]; intros g; simpl;
    try reflexivity; rewrite (IH _); apply calm_rewardKill.
Qed.

Lemma calm_updatePlayer H dt : keepsCalm (GameManager.updatePlayer H dt).
Proof.
  split; intros g; unfold GameManager.updatePlayer;
    destruct (Player.handleShooting _ _ _ _) as [p2 [ps |]]; reflexivity.
Qed.

Lemma calm_updateSpawner H dt : keepsCalm (GameManager.updateSpawner H dt).
Proof.
  split; intros g; unfold GameManager.updateSpawner, EnemySpawner.update;
    cbv zeta; destruct (_ >=? _); reflexivity.
Qed.

Lemma calm_updateSkills H dt : keepsCalm (GameManager.updateSkills H dt).
Proof.
  split; intros g; unfold GameManager.updateSkills;
    destruct (SkillManager.update _ _ _ _ _ _ _)
      as [[[[m' es] rng'] evs] results];
    [rewrite (proj1 (calm_fold_rewardKill H results) _)
    | rewrite (proj2 (calm_fold_rewardKill H results) _)]; reflexivity.
Qed.

Lemma calm_updateProjectiles dt : keepsCalm (GameManager.updateProjectiles dt).
Proof. split; intros g; reflexivity. Qed.

Lemma calm_updateGems H dt : keepsCalm (GameManager.updateGems H dt).
Proof. split; intros g; reflexivity. Qed.

Lemma calm_checkPlayerEnemyCollisions H dt :
  keepsCalm (GameManager.checkPlayerEnemyCollisions H dt).
Proof.
  split; intros g; unfold GameManager.checkPlayerEnemyCollisions; cbv zeta;
    destruct (GameManager.contactScan _ _ _ _) as [inContact totalDmg];
    (destruct (_ && _); [| reflexivity]);
    destruct (Player.takeDamage _ _) as [p []]; reflexivity.
Qed.

Lemma calm_hitEnemy H p g :
  steadyPart (snd (GameManager.hitEnemy H p g)) = steadyPart g
  /\ bossPart (snd (GameManager.hitEnemy H p g)) = bossPart g.
Proof.
  unfold GameManager.hitEnemy.
  destruct (Projectile.isDestroyed p); [split; reflexivity |].
  destruct (GameManager.hitFirst _ _ _ _ _) as [[[es e] []] |];
    split; reflexivity.
Qed.

Lemma calm_resolveProjectiles H ps g :
  steadyPart (snd (GameManager.resolveProjectiles H ps g)) = steadyPart g
  /\ bossPart (snd (GameManager.resolveProjectiles H ps g)) = bossPart g.
Proof.
  revert g. induction ps as [| p r IH]; intros g; simpl.
  - split; reflexivity.
  - destruct (calm_hitEnemy H p g) as [Hs Hb].
    destruct (GameManager.hitEnemy H p g) as [removed g1]. simpl in Hs, Hb.
    destruct (IH g1) as [IHs IHb].
    destruct (GameManager.resolveProjectiles H r g1) as [kept g2]. simpl in *.
    rewrite IHs, IHb. split; assumption.
Qed.

Lemma calm_checkProjectileEnemyCollisions H :
  keepsCalm (GameManager.checkProjectileEnemyCollisions H).
Proof.
  split; intros g; unfold GameManager.checkProjectileEnemyCollisions;
    cbv zeta;
    match goal with
    | |- context [GameManager.resolveProjectiles ?a ?ps ?x] =>
        destruct (calm_resolveProjectiles a ps x) as [Hs Hb];
        destruct (GameManager.resolveProjectiles a ps x) as [kept g1]
    end; simpl in Hs, Hb; assumption.
Qed.

Lemma calm_collectGems H gems g :
  steadyPart (snd (GameManager.collectGems H gems g)) = steadyPart g
  /\ bossPart (snd (GameManager.collectGems H gems g)) = bossPart g.
Proof.
  revert g. induction gems as [| gem r IH]; intros g; simpl.
  - split; reflexivity.
  - destruct (_ && _).
    + destruct (IH (GameManager.gainXp (ExperienceGem.xpValue gem) g))
        as [IHs IHb].
      destruct (GameManager.collectGems H r _) as [r' g']. simpl in *.
      rewrite IHs, IHb. split; apply calm_gainXp.
    + destruct (IH g) as [IHs IHb].
      destruct (GameManager.collectGems H r g) as [r' g']. simpl in *.
      split; assumption.
Qed.

Lemma calm_checkGemCollections H :
  keepsCalm (GameManager.checkGemCollections H).
Proof.
  split; intros g; unfold GameManager.checkGemCollections; cbv zeta;
    match goal with
    | |- context [GameManager.collectGems ?a ?gs ?x] =>
        destruct (calm_collectGems a gs x) as [Hs Hb];
        destruct (GameManager.collectGems a gs x) as [gems g1]
    end; simpl in Hs, Hb; assumption.
Qed.

Lemma calm_selectUpgrade H id : keepsCalm (GameManager.selectUpgrade H id).
Proof. split; intros g; reflexivity. Qed.

Lemma steady_checkBossSpawn H : keepsSteady (GameManager.checkBossSpawn H).
Proof.
  intros g. unfold GameManager.checkBossSpawn. destruct (_ && _); reflexivity.
Qed.

Lemma steady_triggerVictory : keepsSteady GameManager.triggerVictory.
Proof.
  intros g. unfold GameManager.triggerVictory. cbv zeta.
  match goal with
  | |- context [GameManager.boss ?x] => destruct (GameManager.boss x) as [b |]
  end; [| reflexivity].
  match goal with
  | |- context [GameManager.gainXp ?a ?x] =>
      pose proof (proj1 (calm_gainXp a) x) as E
  end.
  unfold steadyPart in *.
  cbn [GameManager.time GameManager.inputManager GameManager.waveManager
       GameManager.collisionDist GameManager.projectileHitDist
       GameManager.gemCollectDist GameManager.contactDmgInterval
       GameManager.bossSpawnTime GameManager.enemySpawner
       GameManager.set_boss GameManager.set_uiManager].
  exact E.
Qed.

Lemma steady_checkBossCollisions H :
  keepsSteady (GameManager.checkBossCollisions H).
Proof.
  intros g. unfold GameManager.checkBossCollisions.
  destruct (GameManager.boss g) as [b |]; [| reflexivity].
  destruct (Boss.isDestroyed b); [reflexivity |].
  cbv zeta.
  match goal with
  | |- context [GameManager.hitBoss ?a ?ps ?x] =>
      destruct (GameManager.hitBoss a ps x) as [[[kept b'] evs] died]
  end.
  assert (E : forall g', steadyPart (if died then GameManager.triggerVictory g'
                                     else g') = steadyPart g')
    by (intros g'; destruct died; [apply steady_triggerVictory | reflexivity]).
  rewrite E.
  destruct (_ <? 3.0); [| reflexivity].
  destruct (_ >=? _); [| reflexivity].
  destruct (Player.takeDamage _ _) as [p []]; reflexivity.
Qed.

Lemma steady_updateBoss H dt : keepsSteady (GameManager.updateBoss H dt).
Proof.
  intros g. unfold GameManager.updateBoss.
  destruct (GameManager.boss g) as [b |]; [| reflexivity].
  destruct (negb (Boss.isDestroyed b)); [| reflexivity].
  rewrite steady_checkBossCollisions. reflexivity.
Qed.

Lemma steady_updateSlowMo : keepsSteady GameManager.updateSlowMo.
Proof.
  intros g. unfold GameManager.updateSlowMo.
  destruct (_ >? 0); [| reflexivity].
  cbv zeta. destruct (_ <=? 0); reflexivity.
Qed.

Lemma updateEntities_bodies H dt g :
  GameManager.updateEntities H dt g
  = GameManager.checkBossSpawn H (updateBodies H dt g).
Proof. reflexivity. Qed.

Lemma boss_updateBodies H dt g : bossPart (updateBodies H dt g) = bossPart g.
Proof.
  unfold updateBodies.
  rewrite (proj2 (calm_updateGems H dt) _),
    (proj2 (calm_updateProjectiles dt) _),
    (proj2 (calm_updateSkills H dt) _),
    (proj2 (calm_updateSpawner H dt) _),
    (proj2 (calm_updatePlayer H dt) _).
  reflexivity.
Qed.

Lemma steady_updateBodies H dt g :
  steadyPart (updateBodies H dt g)
  = steadyPart (GameManager.set_waveManager g
                  (WaveManager.update dt (GameManager.waveManager g))).
Proof.
  unfold updateBodies.
  rewrite (proj1 (calm_updateGems H dt) _),
    (proj1 (calm_updateProjectiles dt) _),
    (proj1 (calm_updateSkills H dt) _),
    (proj1 (calm_updateSpawner H dt) _),
    (proj1 (calm_updatePlayer H dt) _).
  reflexivity.
Qed.

Lemma steady_update H g :
  steadyPart (GameManager.update H g)
  = steadyPart
      (GameManager.set_waveManager g
         (WaveManager.update (Time.deltaTime (GameManager.time g))
            (GameManager.waveManager g))).
Proof.
  unfold GameManager.update. cbv zeta. rewrite updateEntities_bodies.
  rewrite (proj1 (calm_checkGemCollections H) _),
    (proj1 (calm_checkProjectileEnemyCollisions H) _),
    (proj1 (calm_checkPlayerEnemyCollisions H _) _),
    steady_updateSlowMo, steady_updateBoss, steady_checkBossSpawn.
  apply steady_updateBodies.
Qed.

(** X23.  What a call of [animate] does to the clocks.  After a game over
    that is not a victory it does nothing to them: [Time] keeps the
    [lastTime] of the last frame played.  Otherwise [Time] takes the
    reading, and the game time of the wave manager advances by exactly the
    frame time, unscaled, unless the game is paused; no step of the frame
    writes [Time], the wave manager again, or the input. *)
Theorem X23_game_clock (H : Host) (currentTime : Q) (g : GameManager.t) :
  let g' := GameManager.animate H currentTime g in
  let over := GameManager.isGameOver g && negb (GameManager.isVictory g) in
  let dt := (currentTime - Time.lastTime (GameManager.time g)) / 1000 in
  GameManager.waveManager g'
  = (if over || GameManager.isPaused g then GameManager.waveManager g
     else WaveManager.update dt (GameManager.waveManager g))
  /\ GameManager.time g'
     = (if over then GameManager.time g else Time.mk dt currentTime)
  /\ GameManager.inputManager g' = GameManager.inputManager g.
Proof.
  cbv zeta. unfold GameManager.animate.
  destruct (GameManager.isGameOver g && negb (GameManager.isVictory g));
    [repeat split |].
  cbn [orb GameManager.isPaused GameManager.set_time].
  destruct (GameManager.isPaused g); [repeat split |].
  cbn [negb].
  match goal with
  | |- context [GameManager.update H ?x] =>
      pose proof (steady_update H x) as E;
      generalize dependent (GameManager.update H x)
  end.
  intros g' E. unfold steadyPart in E.
  cbn [GameManager.time GameManager.inputManager GameManager.waveManager
       GameManager.set_waveManager GameManager.set_time Time.update
       Time.deltaTime] in E.
  injection E as E1 E2 E3 _ _ _ _ _ _ _ _.
  rewrite E1, E2, E3. repeat split.
Qed.

(** ** The life of the boss *)

Lemma bossLifecycle_same g g' :
  bossPart g' = bossPart g -> bossLifecycle g -> bossLifecycle g'.
Proof.
  unfold bossPart, bossLifecycle. intros E.
  injection E as -> -> -> -> ->. exact (fun x => x).
Qed.

Lemma hitBoss_isDestroyed H ps b :
  let '(_, b', _, _) := GameManager.hitBoss H ps b in
  Boss.isDestroyed b' = Boss.isDestroyed b.
Proof.
  revert b. induction ps as [| p r IH]; intros b; [reflexivity |].
  cbn [GameManager.hitBoss].
  destruct (Projectile.isDestroyed p).
  - specialize (IH b). destruct (GameManager.hitBoss H r b) as [[[k b1] e] d].
    exact IH.
  - destruct (_ <? 3.0).
    + unfold Boss.takeDamage. cbv zeta. destruct (_ <=? 0); [reflexivity |].
      match goal with
      | |- context [GameManager.hitBoss H r ?x] =>
          specialize (IH x); destruct (GameManager.hitBoss H r x)
            as [[[k b2] e] d]
      end.
      exact IH.
    + specialize (IH b).
      destruct (GameManager.hitBoss H r b) as [[[k b1] e] d]. exact IH.
Qed.

Lemma lifecycle_triggerVictory g b :
  GameManager.boss g = Some b ->
  GameManager.bossSpawned g = true ->
  bossLifecycle (GameManager.triggerVictory g).
Proof.
  intros Eb Es. unfold GameManager.triggerVictory. cbv zeta.
  cbn [GameManager.boss GameManager.emit GameManager.set_slowMoTimer
       GameManager.set_slowMoScale GameManager.set_isVictory].
  rewrite Eb.
  match goal with
  | |- context [GameManager.gainXp ?a ?x] =>
      pose proof (proj2 (calm_gainXp a) x) as E;
      generalize dependent (GameManager.gainXp a x)
  end.
  intros g1 E. unfold bossPart in E.
  cbn [GameManager.boss GameManager.bossSpawned GameManager.isVictory
       GameManager.slowMoScale GameManager.slowMoTimer GameManager.emit
       GameManager.set_slowMoTimer GameManager.set_slowMoScale
       GameManager.set_isVictory] in E.
  injection E as E1 E2 E3 E4 E5.
  unfold bossLifecycle.
  cbn [GameManager.boss GameManager.bossSpawned GameManager.isVictory
       GameManager.slowMoScale GameManager.slowMoTimer
       GameManager.set_boss GameManager.set_uiManager Boss.destroy
       Boss.isDestroyed].
  rewrite E2, E3, E5, Es. split; [split; reflexivity |].
  right. split; reflexivity.
Qed.

Lemma lifecycle_checkBossCollisions H g :
  bossLifecycle g -> bossLifecycle (GameManager.checkBossCollisions H g).
Proof.
  intros Hl. unfold GameManager.checkBossCollisions.
  destruct (GameManager.boss g) as [b |] eqn:Eb; [| exact Hl].
  destruct (Boss.isDestroyed b) eqn:Ed; [exact Hl |].
  cbv zeta.
  match goal with
  | |- context [GameManager.hitBoss ?a ?ps ?x] =>
      pose proof (hitBoss_isDestroyed a ps x) as Hd;
      destruct (GameManager.hitBoss a ps x) as [[[kept b'] evs] died]
  end.
  match goal with
  | |- context [GameManager.set_projectiles
                  (GameManager.emit _ ?x) _] =>
      assert (Hb : bossPart x = bossPart g);
      [| generalize dependent x]
  end.
  { destruct (_ <? 3.0); [| reflexivity].
    destruct (_ >=? _); [| reflexivity].
    destruct (Player.takeDamage _ _) as [p []]; reflexivity. }
  intros g3 Hb. simpl in Hd.
  unfold bossPart in Hb. injection Hb as B1 B2 B3 B4 B5.
  unfold bossLifecycle in Hl. rewrite Eb in Hl.
  destruct Hl as [[Hs Hv] Hsc].
  destruct died.
  - apply (lifecycle_triggerVictory _ b'); [reflexivity |].
    cbn [GameManager.bossSpawned GameManager.emit GameManager.set_boss
         GameManager.set_projectiles]. congruence.
  - unfold bossLifecycle.
    cbn [GameManager.boss GameManager.bossSpawned GameManager.isVictory
         GameManager.slowMoScale GameManager.slowMoTimer GameManager.emit
         GameManager.set_boss GameManager.set_projectiles].
    rewrite B2, B3, B4, B5, Hd. split; [split; congruence | exact Hsc].
Qed.

Lemma lifecycle_updateBoss H dt g :
  bossLifecycle g -> bossLifecycle (GameManager.updateBoss H dt g).
Proof.
  intros Hl. unfold GameManager.updateBoss.
  destruct (GameManager.boss g) as [b |] eqn:Eb; [| exact Hl].
  destruct (negb (Boss.isDestroyed b)) eqn:Ed; [| exact Hl].
  apply lifecycle_checkBossCollisions.
  unfold bossLifecycle in *.
  cbn [GameManager.boss GameManager.bossSpawned GameManager.isVictory
       GameManager.slowMoScale GameManager.slowMoTimer GameManager.set_boss].
  rewrite Eb in Hl. rewrite Boss_update_isDestroyed. exact Hl.
Qed.

Lemma lifecycle_checkBossSpawn H g :
  bossLifecycle g -> bossLifecycle (GameManager.checkBossSpawn H g).
Proof.
  intros Hl. unfold GameManager.checkBossSpawn.
  destruct (negb (GameManager.bossSpawned g)) eqn:Es; [| exact Hl].
  destruct (_ >=? _); [| exact Hl].
  cbn [andb]. apply negb_true_iff in Es.
  unfold bossLifecycle in *.
  destruct (GameManager.boss g) as [b |];
    [destruct Hl as [[Hs _] _]; congruence |].
  destruct Hl as [[_ Hv] Hsc].
  unfold GameManager.spawnBoss. cbv zeta.
  cbn [GameManager.boss GameManager.bossSpawned GameManager.isVictory
       GameManager.slowMoScale GameManager.slowMoTimer GameManager.emit
       GameManager.set_boss GameManager.set_rng GameManager.set_bossSpawned
       Boss.start Boss.new Boss.isDestroyed].
  split; [split; [reflexivity | exact Hv] | exact Hsc].
Qed.

Lemma lifecycle_updateSlowMo g :
  bossLifecycle g -> bossLifecycle (GameManager.updateSlowMo g).
Proof.
  intros Hl. unfold GameManager.updateSlowMo.
  destruct (_ >? 0) eqn:E0; [| exact Hl].
  cbv zeta.
  cbn [GameManager.slowMoTimer GameManager.set_slowMoTimer].
  destruct (_ <=? 0) eqn:E1.
  - destruct Hl as [Hb _]. unfold bossLifecycle.
    unfold GameManager.showVictoryScreen, GameManager.destroySkills.
    cbn [GameManager.boss GameManager.bossSpawned GameManager.isVictory
         GameManager.slowMoScale GameManager.slowMoTimer GameManager.emit
         GameManager.set_player GameManager.set_isPaused
         GameManager.set_slowMoScale GameManager.set_slowMoTimer
         GameManager.player].
    split; [exact Hb | left; reflexivity].
  - apply Qleb_false in E1. destruct Hl as [Hb Hsc]. unfold bossLifecycle.
    cbn [GameManager.boss GameManager.bossSpawned GameManager.isVictory
         GameManager.slowMoScale GameManager.slowMoTimer
         GameManager.set_slowMoTimer].
    split; [exact Hb |].
    destruct Hsc as [Hs | [Hv _]]; [left; exact Hs | right; split; assumption].
Qed.

Lemma lifecycle_update H g :
  bossLifecycle g -> bossLifecycle (GameManager.update H g).
Proof.
  intros Hl. unfold GameManager.update. cbv zeta.
  rewrite updateEntities_bodies.
  apply (bossLifecycle_same _ _ (proj2 (calm_checkGemCollections H) _)).
  apply (bossLifecycle_same _ _
           (proj2 (calm_checkProjectileEnemyCollisions H) _)).
  apply (bossLifecycle_same _ _
           (proj2 (calm_checkPlayerEnemyCollisions H _) _)).
  apply lifecycle_updateSlowMo, lifecycle_updateBoss, lifecycle_checkBossSpawn.
  apply (bossLifecycle_same _ _ (boss_updateBodies H _ g)). exact Hl.
Qed.

Lemma lifecycle_reachable H g : Reachable H g -> bossLifecycle g.
Proof.
  induction 1 as [now | t g _ IH _ | t g _ _ _ | id g _ IH | i g _ IH].
  - split; [split; reflexivity | left; reflexivity].
  - unfold GameManager.animate.
    destruct (_ && _); [exact IH |].
    destruct (negb _); [apply lifecycle_update |]; exact IH.
  - rewrite restart_frame. apply lifecycle_update.
    split; [split; reflexivity | left; reflexivity].
  - apply (bossLifecycle_same _ _ (proj2 (calm_selectUpgrade H id) g)).
    exact IH.
  - exact IH.
Qed.

Lemma keepsSet_same g g' : bossPart g' = bossPart g -> keepsSet g g'.
Proof.
  unfold bossPart, keepsSet. intros E. injection E as _ -> -> _ _.
  split; exact (fun x => x).
Qed.

Lemma keepsSet_trans g1 g2 g3 :
  keepsSet g1 g2 -> keepsSet g2 g3 -> keepsSet g1 g3.
Proof. unfold keepsSet. intros [A1 A2] [B1 B2]. split; auto. Qed.

Lemma keepsSet_checkBossSpawn H g :
  keepsSet g (GameManager.checkBossSpawn H g).
Proof.
  unfold GameManager.checkBossSpawn.
  destruct (_ && _); [| apply keepsSet_same; reflexivity].
  split; [intros _; reflexivity | exact (fun x => x)].
Qed.

Lemma keepsSet_triggerVictory g : keepsSet g (GameManager.triggerVictory g).
Proof.
  unfold GameManager.triggerVictory. cbv zeta.
  match goal with
  | |- context [GameManager.boss ?x] => destruct (GameManager.boss x) as [b |]
  end.
  - match goal with
    | |- context [GameManager.gainXp ?a ?x] =>
        pose proof (proj2 (calm_gainXp a) x) as E;
        generalize dependent (GameManager.gainXp a x)
    end.
    intros g1 E. unfold bossPart in E.
    cbn [GameManager.boss GameManager.bossSpawned GameManager.isVictory
         GameManager.slowMoScale GameManager.slowMoTimer GameManager.emit
         GameManager.set_slowMoTimer GameManager.set_slowMoScale
         GameManager.set_isVictory] in E.
    injection E as _ E2 E3 _ _. unfold keepsSet.
    cbn [GameManager.bossSpawned GameManager.isVictory GameManager.set_boss
         GameManager.set_uiManager].
    rewrite E2, E3. split; [exact (fun x => x) | reflexivity].
  - split; [exact (fun x => x) | intros _; reflexivity].
Qed.

Lemma keepsSet_checkBossCollisions H g :
  keepsSet g (GameManager.checkBossCollisions H g).
Proof.
  unfold GameManager.checkBossCollisions.
  destruct (GameManager.boss g) as [b |];
    [| apply keepsSet_same; reflexivity].
  destruct (Boss.isDestroyed b); [apply keepsSet_same; reflexivity |].
  cbv zeta.
  match goal with
  | |- context [GameManager.hitBoss ?a ?ps ?x] =>
      destruct (GameManager.hitBoss a ps x) as [[[kept b'] evs] died]
  end.
  match goal with
  | |- context [GameManager.set_projectiles
                  (GameManager.emit _ ?x) _] =>
      assert (Hb : bossPart x = bossPart g);
      [| generalize dependent x]
  end.
  { destruct (_ <? 3.0); [| reflexivity].
    destruct (_ >=? _); [| reflexivity].
    destruct (Player.takeDamage _ _) as [p []]; reflexivity. }
  intros g3 Hb.
  match goal with
  | |- keepsSet g (if died then GameManager.triggerVictory ?x else ?x) =>
      assert (Hx : keepsSet g x)
  end.
  { unfold bossPart in Hb. injection Hb as _ B2 B3 _ _. unfold keepsSet.
    cbn [GameManager.bossSpawned GameManager.isVictory GameManager.emit
         GameManager.set_boss GameManager.set_projectiles].
    rewrite B2, B3. split; exact (fun x => x). }
  destruct died; [| exact Hx].
  exact (keepsSet_trans _ _ _ Hx (keepsSet_triggerVictory _)).
Qed.

Lemma keepsSet_updateBoss H dt g : keepsSet g (GameManager.updateBoss H dt g).
Proof.
  unfold GameManager.updateBoss.
  destruct (GameManager.boss g) as [b |];
    [| apply keepsSet_same; reflexivity].
  destruct (negb (Boss.isDestroyed b)); [| apply keepsSet_same; reflexivity].
  refine (keepsSet_trans _ _ _ _ (keepsSet_checkBossCollisions H _)).
  split; exact (fun x => x).
Qed.

Lemma keepsSet_updateSlowMo g : keepsSet g (GameManager.updateSlowMo g).
Proof.
  unfold GameManager.updateSlowMo.
  destruct (_ >? 0); [| apply keepsSet_same; reflexivity].
  cbv zeta. destruct (_ <=? 0); split; exact (fun x => x).
Qed.

Lemma keepsSet_update H g : keepsSet g (GameManager.update H g).
Proof.
  unfold GameManager.update. cbv zeta. rewrite updateEntities_bodies.
  refine (keepsSet_trans _ _ _ _
            (keepsSet_same _ _ (proj2 (calm_checkGemCollections H) _))).
  refine (keepsSet_trans _ _ _ _
            (keepsSet_same _ _
               (proj2 (calm_checkProjectileEnemyCollisions H) _))).
  refine (keepsSet_trans _ _ _ _
            (keepsSet_same _ _
               (proj2 (calm_checkPlayerEnemyCollisions H _) _))).
  refine (keepsSet_trans _ _ _ _ (keepsSet_updateSlowMo _)).
  refine (keepsSet_trans _ _ _ _ (keepsSet_updateBoss H _ _)).
  refine (keepsSet_trans _ _ _ _ (keepsSet_checkBossSpawn H _)).
  apply keepsSet_same, boss_updateBodies.
Qed.

Lemma keepsSet_continues H g g' : Continues H g g' -> keepsSet g g'.
Proof.
  induction 1 as [| t g' _ IH _ | id g' _ IH | i g' _ IH].
  - apply keepsSet_same. reflexivity.
  - refine (keepsSet_trans _ _ _ IH _). unfold GameManager.animate.
    destruct (_ && _); [apply keepsSet_same; reflexivity |]. cbv zeta.
    destruct (negb _); [| apply keepsSet_same; reflexivity].
    refine (keepsSet_trans _ _ _ _ (keepsSet_update H _)).
    apply keepsSet_same. reflexivity.
  - refine (keepsSet_trans _ _ _ IH _).
    apply keepsSet_same, (proj2 (calm_selectUpgrade H id)).
  - refine (keepsSet_trans _ _ _ IH _). apply keepsSet_same. reflexivity.
Qed.

Lemma reachable_iter_select H id n g :
  Reachable H g -> Reachable H (Nat.iter n (GameManager.selectUpgrade H id) g).
Proof.
  intros Hr. induction n as [| n IH]; [exact Hr |].
  cbn [Nat.iter]. apply reach_select, IH.
Qed.

(** The clock of the game is the last reading made. *)
Lemma animate_clock_le H t g :
  Time.lastTime (GameManager.time g) <= t ->
  Time.lastTime (GameManager.time (GameManager.animate H t g)) <= t.
Proof.
  intros Ht. unfold GameManager.animate.
  destruct (_ && _); [exact Ht |]. cbv zeta.
  destruct (negb _); [| apply Qle_refl].
  match goal with
  | |- context [GameManager.update H ?x] =>
      pose proof (steady_update H x) as E;
      generalize dependent (GameManager.update H x)
  end.
  intros g' E. unfold steadyPart in E.
  cbn [GameManager.time GameManager.set_waveManager GameManager.set_time]
    in E.
  injection E as E1 _ _ _ _ _ _ _ _ _ _.
  rewrite E1. apply Qle_refl.
Qed.

Lemma select_time H id g :
  GameManager.time (GameManager.selectUpgrade H id g) = GameManager.time g.
Proof. reflexivity. Qed.

Lemma iter_select_time H id n g :
  GameManager.time (Nat.iter n (GameManager.selectUpgrade H id) g)
  = GameManager.time g.
Proof.
  induction n as [| n IH]; [reflexivity |].
  change (Nat.iter (S n) (GameManager.selectUpgrade H id) g)
    with (GameManager.selectUpgrade H id
            (Nat.iter n (GameManager.selectUpgrade H id) g)).
  rewrite select_time. exact IH.
Qed.

Lemma beforeBoss_clock :
  Time.lastTime (GameManager.time beforeBoss) <= 59800.
Proof.
  unfold beforeBoss. apply animate_clock_le.
  apply Qle_trans with 58000; [| discriminate].
  apply animate_clock_le. unfold armedGame. rewrite iter_select_time.
  discriminate.
Qed.

Lemma victoryRun_reachable : Reachable exampleHost victoryRun.
Proof.
  unfold victoryRun.
  apply reach_animate;
    [| apply Qle_trans with 59800; [exact beforeBoss_clock | discriminate]].
  unfold beforeBoss.
  apply reach_animate; [apply reach_animate |].
  - apply reachable_iter_select, reach_new.
  - unfold armedGame. rewrite iter_select_time. discriminate.
  - apply Qle_trans with 58000; [| discriminate].
    apply animate_clock_le. unfold armedGame. rewrite iter_select_time.
    discriminate.
Qed.

(** In [victoryRun] the boss has been spawned and killed, and the scalar is
    at 0.2. *)
Lemma victoryRun_state :
  GameManager.bossSpawned victoryRun = true
  /\ GameManager.isVictory victoryRun = true
  /\ GameManager.slowMoScale victoryRun == 0.2.
Proof. vm_compute. repeat split. Qed.

(** X24.  The life of the boss.  In every state [g] of a run, while no
    boss has been spawned there is none and no victory, and once one is
    spawned [isVictory] is set exactly when that boss is destroyed.  In
    every state [g'] that follows [g] in the same game (frames, menu
    choices and input events, until a restart): if the boss was spawned in
    [g] then [bossSpawned] is still set, a boss object is in place and the
    spawn check changes nothing, so the boss is spawned once per game; and
    a victory recorded in [g] is still recorded.  The spawn check run twice
    in a row does what it does run once. *)
Theorem X24_boss_lifecycle (H : Host) (g g' : GameManager.t) :
  Reachable H g ->
  Continues H g g' ->
  match GameManager.boss g with
  | None =>
      GameManager.bossSpawned g = false /\ GameManager.isVictory g = false
  | Some b =>
      GameManager.bossSpawned g = true
      /\ GameManager.isVictory g = Boss.isDestroyed b
  end
  /\ (GameManager.bossSpawned g = true ->
      GameManager.bossSpawned g' = true
      /\ (exists b', GameManager.boss g' = Some b')
      /\ GameManager.checkBossSpawn H g' = g')
  /\ (GameManager.isVictory g = true -> GameManager.isVictory g' = true)
  /\ GameManager.checkBossSpawn H (GameManager.checkBossSpawn H g)
     = GameManager.checkBossSpawn H g.
Proof.
  intros Hr Hc. split; [apply (lifecycle_reachable H g Hr) |].
  destruct (keepsSet_continues H g g' Hc) as [Ks Kv].
  pose proof (lifecycle_reachable H g' (continues_reachable H g g' Hr Hc))
    as [Hl' _].
  split; [| split; [exact Kv |]].
  - intros Hs. specialize (Ks Hs). split; [exact Ks |]. split.
    + destruct (GameManager.boss g') as [b' |]; [exists b'; reflexivity |].
      destruct Hl' as [Hf _]. congruence.
    + unfold GameManager.checkBossSpawn. rewrite Ks. reflexivity.
  - unfold GameManager.checkBossSpawn at 2 3.
    destruct (negb (GameManager.bossSpawned g)
              && (WaveManager.getGameTime (GameManager.waveManager g)
                  >=? GameManager.bossSpawnTime g)) eqn:E.
    + reflexivity.
    + unfold GameManager.checkBossSpawn. rewrite E. reflexivity.
Qed.

(** X24 on the run to the victory: in [victoryRun] the boss is spawned,
    destroyed and the victory recorded; after the menu choice and one more
    frame all three still hold. *)
Lemma X24_boss_lifecycle_witness :
  GameManager.bossSpawned victoryRun = true
  /\ GameManager.isVictory victoryRun = true
  /\ GameManager.bossSpawned afterVictory = true
  /\ GameManager.isVictory afterVictory = true
  /\ exists b', GameManager.boss afterVictory = Some b'.
Proof.
  assert (Hc : Continues exampleHost victoryRun afterVictory).
  { unfold afterVictory. apply cont_animate.
    - apply cont_select, cont_here.
    - rewrite select_time.
      apply Qle_trans with 61100; [| discriminate].
      apply animate_clock_le.
      apply Qle_trans with 59800; [exact beforeBoss_clock | discriminate]. }
  pose proof (X24_boss_lifecycle exampleHost victoryRun afterVictory
                victoryRun_reachable Hc) as (_ & Ws & Wv & _).
  destruct victoryRun_state as (Es & Ev & _).
  destruct (Ws Es) as (W1 & W2 & _).
  split; [exact Es |]. split; [exact Ev |]. split; [exact W1 |].
  split; [exact (Wv Ev) | exact W2].
Defined.

Lemma set_slowMoScale_same g :
  GameManager.set_slowMoScale g (GameManager.slowMoScale g) = g.
Proof. destruct g. reflexivity. Qed.

(** X25.  The slow-motion scalar never reaches a frame.  In every state of
    a run, the frame computed from the state is the frame computed from the
    same state with [slowMoScale] put back to 1.0, but for the scalar
    itself: the scalar differs from 1.0 only once the boss is destroyed, and
    from then on no step of the frame reads it. *)
Theorem X25_slowMo_never_applies (H : Host) (g : GameManager.t) :
  Reachable H g ->
  sameButScale (GameManager.update H (GameManager.set_slowMoScale g 1.0))
    (GameManager.update H g).
Proof.
  intros Hr. pose proof (lifecycle_reachable H g Hr) as [Hb Hs].
  destruct Hs as [Hs | [Hv _]].
  - rewrite <- Hs, set_slowMoScale_same. reflexivity.
  - apply slowMoScale_unused_without_boss.
    rewrite updateEntities_bodies.
    pose proof (boss_updateBodies H (Time.deltaTime (GameManager.time g)) g)
      as E.
    generalize dependent
      (updateBodies H (Time.deltaTime (GameManager.time g)) g).
    intros m E. unfold bossPart in E. injection E as E1 E2 E3 _ _.
    destruct (GameManager.boss g) as [b |];
      [| destruct Hb as [_ Hf]; congruence].
    destruct Hb as [Hsp Hd].
    unfold GameManager.checkBossSpawn. rewrite E2, Hsp. cbn [negb andb].
    unfold bossAlive. rewrite E1, <- Hd, Hv. reflexivity.
Qed.

(** X25 on [victoryRun], the state of a run in which the boss has just been
    killed and the scalar is 0.2: the next frame is the one computed with
    the scalar at 1.0. *)
Lemma X25_slowMo_never_applies_witness :
  GameManager.slowMoScale victoryRun == 0.2
  /\ sameButScale
       (GameManager.update exampleHost
          (GameManager.set_slowMoScale victoryRun 1.0))
       (GameManager.update exampleHost victoryRun).
Proof.
  split; [exact (proj2 (proj2 victoryRun_state)) |].
  apply (X25_slowMo_never_applies exampleHost victoryRun).
  exact victoryRun_reachable.
Defined.

(** ** restart *)

(** X26.  [restart()] is one frame played from the constructor's game, but
    for what it does not reset: every enemy is gone from the array, the
    projectiles and gems too, the player, the wave manager, the counters
    and the boss are new, while the clock, the identity counter of the
    spawner and the count of random draws are kept.  As [animate] has not
    updated [Time] since the game over, that frame's [deltaTime] is the
    whole time since the last frame played, and the new game time starts
    from it. *)
Theorem X26_restart (H : Host) (currentTime : Q) (g : GameManager.t) :
  let r := GameManager.restart H currentTime g in
  let dt := (currentTime - Time.lastTime (GameManager.time g)) / 1000 in
  r = GameManager.update H
        (GameManager.set_time (restarted H g)
           (Time.update currentTime (GameManager.time g)))
  /\ GameManager.time r = Time.mk dt currentTime
  /\ GameManager.waveManager r = WaveManager.update dt WaveManager.new.
Proof.
  cbv zeta.
  pose proof (restart_frame H currentTime g) as E.
  rewrite E. split; [reflexivity |].
  match goal with
  | |- context [GameManager.update H ?x] =>
      pose proof (steady_update H x) as E2;
      generalize dependent (GameManager.update H x)
  end.
  intros g' _ E2. unfold steadyPart in E2.
  cbn [GameManager.time GameManager.inputManager GameManager.waveManager
       GameManager.set_waveManager GameManager.set_time Time.update
       Time.deltaTime restarted] in E2.
  injection E2 as E3 _ E4 _ _ _ _ _ _ _ _.
  rewrite E3, E4. split; reflexivity.
Qed.

(** ** Particles, floating texts and the camera *)

Lemma spawnExplosion_spec (H : Host) (pos : Vector3.t) (count rng : nat)
    (s : ParticleSystem.t) :
  randomInRange H ->
  let r := ParticleSystem.spawnExplosion H pos count rng s in
  snd r = (4 * count + rng)%nat
  /\ exists ps,
       ParticleSystem.particles (fst r) = ParticleSystem.particles s ++ ps
       /\ List.length ps = count
       /\ Forall (particleAsSpawned pos) ps.
Proof.
  intros Hrand. cbv zeta. revert rng s.
  induction count as [| n IH]; intros rng s.
  - simpl. split; [reflexivity |]. exists []. rewrite app_nil_r.
    repeat split. constructor.
  - cbn [ParticleSystem.spawnExplosion].
    match goal with
    | |- context [ParticleSystem.spawnExplosion H pos n ?r ?x] =>
        destruct (IH r x) as (Hr & ps & Hps & Hlen & Hall)
    end.
    split; [rewrite Hr; lia |].
    cbn [ParticleSystem.particles] in Hps.
    eexists (_ :: ps). split; [rewrite Hps, <- app_assoc; reflexivity |].
    split; [simpl; rewrite Hlen; reflexivity |].
    constructor; [| exact Hall].
    unfold particleAsSpawned, Particle.start, Particle.new.
    cbn [Particle.position Particle.age Particle.isDestroyed
         Particle.lifetime Particle.scale Particle.initialScale
         Particle.velocity Vector3.x Vector3.y Vector3.z].
    pose proof (Hrand rng). pose proof (Hrand (1 + rng)%nat).
    pose proof (Hrand (2 + rng)%nat). pose proof (Hrand (3 + rng)%nat).
    repeat split; lra.
Qed.

(** X27.  An explosion of [count] particles in an empty system, for random
    draws in [[0, 1)] and a frame of [dt >= 0].  It draws four random
    numbers per particle; each particle starts at the position given, with
    a scale in [[0.8, 1.2)], a horizontal velocity in [[-5, 5)] on each axis
    and an upward velocity in [[2, 10)].  After the frame all of them are
    still in the system if [dt < 0.5], with a scale that is positive and
    not above the initial one, and none is otherwise. *)
Theorem X27_particles (H : Host) (pos : Vector3.t) (count rng : nat)
    (dt : Q) :
  randomInRange H ->
  0 <= dt ->
  let r := ParticleSystem.spawnExplosion H pos count rng ParticleSystem.new in
  let after := ParticleSystem.update dt (fst r) in
  List.length (ParticleSystem.particles (fst r)) = count
  /\ snd r = (4 * count + rng)%nat
  /\ Forall (particleAsSpawned pos) (ParticleSystem.particles (fst r))
  /\ List.length (ParticleSystem.particles after)
     = (if dt <? 0.5 then count else O)
  /\ Forall (fun p => Particle.isDestroyed p = false
                      /\ Particle.age p == dt
                      /\ 0 < Particle.scale p <= Particle.initialScale p)
       (ParticleSystem.particles after).
Proof.
  intros Hrand Hdt. cbv zeta.
  destruct (spawnExplosion_spec H pos count rng ParticleSystem.new Hrand)
    as (Hr & ps & Hps & Hlen & Hall).
  cbn [ParticleSystem.particles ParticleSystem.new app] in Hps.
  rewrite Hps. split; [exact Hlen |]. split; [exact Hr |].
  split; [exact Hall |].
  unfold ParticleSystem.update. cbn [ParticleSystem.particles].
  rewrite Hps. clear Hps Hr. subst count.
  induction Hall as [| p ps Hp Hall IH].
  - split; [destruct (dt <? 0.5); reflexivity | constructor].
  - destruct IH as [IHl IHf].
    destruct Hp as (_ & Ha & Hd & Hl & _ & Hi & _).
    cbn [map filter].
    assert (Eu : Particle.isDestroyed (Particle.update dt p)
                 = negb (dt <? 0.5)
                 /\ Particle.age (Particle.update dt p) = 0 + dt
                 /\ Particle.scale (Particle.update dt p)
                    = Particle.initialScale p * (1 - (0 + dt) / 0.5)
                 /\ Particle.initialScale (Particle.update dt p)
                    = Particle.initialScale p).
    { unfold Particle.update. rewrite Hd, Ha, Hl.
      cbn [Particle.isDestroyed Particle.age Particle.scale
           Particle.initialScale].
      repeat split.
      destruct (dt <? 0.5) eqn:E.
      - apply Qltb_true in E.
        replace (0 + dt >=? 0.5) with false; [reflexivity |].
        symmetry. apply Qgeb_false. lra.
      - apply Qltb_false in E.
        replace (0 + dt >=? 0.5) with true; [reflexivity |].
        symmetry. apply Qgeb_true. lra. }
    destruct Eu as (E1 & E2 & E3 & E4). rewrite E1.
    destruct (dt <? 0.5) eqn:E; cbn [negb].
    + apply Qltb_true in E.
      split; [cbn [List.length]; f_equal; exact IHl |].
      constructor; [| exact IHf].
      rewrite E1, E2, E3, E4.
      split; [reflexivity |]. split; [lra |].
      assert (Hk : (0 + dt) / 0.5 == 2 * dt) by field.
      rewrite Hk. nra.
    + split; [exact IHl | exact IHf].
Qed.

(** X27 for the six particles of an enemy's death, on [circleHost], after
    a frame of 0.1 s: the 24 draws are counted and the six are there. *)
Lemma X27_particles_witness :
  let r := ParticleSystem.spawnExplosion circleHost Vector3.zero 6 0
             ParticleSystem.new in
  snd r = 24%nat
  /\ List.length
       (ParticleSystem.particles (ParticleSystem.update 0.1 (fst r)))
     = 6%nat.
Proof.
  cbv zeta.
  assert (Hrand : randomInRange circleHost)
    by (intros k; split; [discriminate | reflexivity]).
  assert (Hdt : 0 <= 0.1) by discriminate.
  pose proof (X27_particles circleHost Vector3.zero 6 0 0.1 Hrand Hdt) as W.
  cbv zeta in W. destruct W as (_ & W1 & _ & W2 & _).
  split; [exact W1 | exact W2].
Defined.

(** X28.  Floating texts.  After an [update] of the manager every text left
    in it is alive and younger than its lifetime.  A text spawned at [pos]
    and updated for a frame of [dt] is gone if [dt >= 1]; otherwise it has
    risen by [2 dt], its opacity is [1 - dt] and its scale [1 + dt / 2]. *)
Theorem X28_floating_text (txt dt : Q) (camera : Viewport)
    (pos : Vector3.t) (m : FloatingTextManager.t) :
  let spawned := FloatingTextManager.spawn txt pos FloatingTextManager.new in
  let after := FloatingTextManager.update dt camera spawned in
  Forall (fun f => FloatingText.isDestroyed f = false
                   /\ FloatingText.age f < FloatingText.lifetime f)
    (FloatingTextManager.texts (FloatingTextManager.update dt camera m))
  /\ if dt >=? 1 then FloatingTextManager.texts after = []
     else exists f,
       FloatingTextManager.texts after = [f]
       /\ FloatingText.age f == dt
       /\ Vector3.y (FloatingText.worldPosition f) == Vector3.y pos + 2 * dt
       /\ FloatingText.style_opacity f == 1 - dt
       /\ FloatingText.style_scale f == 1 + dt / 2.
Proof.
  cbv zeta. split.
  - unfold FloatingTextManager.update. cbn [FloatingTextManager.texts].
    apply Forall_forall. intros f' Hf'. apply filter_In in Hf'.
    destruct Hf' as [Hin Hlive]. apply negb_true_iff in Hlive.
    split; [exact Hlive |].
    apply in_map_iff in Hin. destruct Hin as (f & <- & _).
    unfold FloatingText.update in *.
    destruct (FloatingText.isDestroyed f) eqn:Ed; [congruence |].
    cbn [FloatingText.isDestroyed FloatingText.age FloatingText.lifetime] in *.
    destruct (_ >=? _) eqn:E; [discriminate |].
    apply Qgeb_false in E. exact E.
  - unfold FloatingTextManager.update, FloatingTextManager.spawn,
      FloatingText.start, FloatingText.update.
    cbn [FloatingTextManager.texts FloatingTextManager.new app map filter
         FloatingText.isDestroyed FloatingText.age FloatingText.lifetime
         FloatingText.startY FloatingText.worldPosition FloatingText.text].
    replace (0 + dt >=? 1) with (dt >=? 1).
    2:{ destruct (dt >=? 1) eqn:E.
        - apply Qgeb_true in E. symmetry. apply Qgeb_true. lra.
        - apply Qgeb_false in E. symmetry. apply Qgeb_false. lra. }
    destruct (dt >=? 1) eqn:E; cbn [negb]; [reflexivity |].
    eexists. split; [reflexivity |].
    cbn [FloatingText.age FloatingText.worldPosition FloatingText.style_opacity
         FloatingText.style_scale Vector3.set_y Vector3.y].
    repeat split; field.
Qed.

(** X29.  The camera follows by interpolation: with [goal] the target's
    position plus the offset, an [update] multiplies the camera's distance
    from [goal] on each axis by [1 - smooth dt].  It reaches the goal in one
    step when [smooth dt = 1] and overshoots it beyond. *)
Theorem X29_camera (dt : Q) (target : Vector3.t) (c : CameraController.t) :
  let goal := Vector3.add target (CameraController.offset c) in
  let k := 1 - CameraController.smooth c * dt in
  let before := Vector3.subVectors (CameraController.camera_position c) goal in
  let after :=
    Vector3.subVectors
      (CameraController.camera_position (CameraController.update dt target c))
      goal in
  Vector3.x after == k * Vector3.x before
  /\ Vector3.y after == k * Vector3.y before
  /\ Vector3.z after == k * Vector3.z before
  /\ CameraController.offset (CameraController.update dt target c)
     = CameraController.offset c.
Proof.
  cbv zeta. unfold CameraController.update, Vector3.lerp, Vector3.add,
    Vector3.subVectors.
  cbn [CameraController.camera_position CameraController.offset
       CameraController.smooth Vector3.x Vector3.y Vector3.z].
  repeat split; ring.
Qed.

(** X30.  The joystick.  For an angle at which the host's cosine and sine
    lie on the unit circle and a force that is not negative, the movement
    vector after a [move] event has the length [min(force, 1)], so at most
    1, whatever keys are held; after the [end] event the movement vector
    is the keyboard's again. *)
Theorem X30_joystick (H : Host) (force angle : Q) (i : InputManager.t) :
  onUnitCircle H angle ->
  0 <= force ->
  let i' := InputManager.joystickMove H force angle i in
  let v := InputManager.getMovementVector i' in
  fst v * fst v + snd v * snd v == Qmin force 1 * Qmin force 1
  /\ fst v * fst v + snd v * snd v <= 1
  /\ InputManager.getMovementVector (InputManager.joystickEnd i')
     = (InputManager.b2q (InputManager.key_d i)
        - InputManager.b2q (InputManager.key_a i),
        InputManager.b2q (InputManager.key_s i)
        - InputManager.b2q (InputManager.key_w i)).
Proof.
  intros Hc Hf. cbv zeta.
  unfold InputManager.joystickMove, InputManager.getMovementVector,
    InputManager.joystickEnd.
  cbn [InputManager.joystickActive InputManager.joystickVector_x
       InputManager.joystickVector_y InputManager.key_w InputManager.key_a
       InputManager.key_s InputManager.key_d fst snd].
  unfold onUnitCircle in Hc.
  set (c := Math_cos H angle) in *. set (s := Math_sin H angle) in *.
  set (f := Qmin force 1).
  assert (E : c * f * (c * f) + - (s * f) * - (s * f) == f * f)
    by (transitivity ((c * c + s * s) * (f * f)); [ring | rewrite Hc; ring]).
  split; [exact E |]. split; [| reflexivity].
  rewrite E.
  assert (0 <= f <= 1)
    by (unfold f; destruct (Q.min_spec force 1) as [[? Em] | [? Em]]; lra).
  nra.
Qed.

(** X30 on [circleHost], the stick pushed fully at the angle 1 while the
    key d is held: the movement vector has length 1. *)
Lemma X30_joystick_witness :
  let i := InputManager.mk false false false true 0 0 false in
  let v := InputManager.getMovementVector
             (InputManager.joystickMove circleHost 2 1 i) in
  fst v * fst v + snd v * snd v <= 1.
Proof.
  cbv zeta.
  pose proof (X30_joystick circleHost 2 1
                (InputManager.mk false false false true 0 0 false)
                (circleHost_onUnitCircle 1)) as W.
  cbv zeta in W. destruct W as (_ & W & _); [discriminate |]. exact W.
Defined.
